(** * security_monkey.datastore: hashing, item resolution, revisions, issues

    A shallow embedding of [security_monkey/datastore.py] (class [Datastore]
    and [store_exception]) together with the properties of its specification.

    Layout:
    - [Md5]        : [hashlib.md5(...).hexdigest()], after RFC 1321;
    - [Json]       : configuration trees, [json.dumps(..., sort_keys=True)];
    - [Canon]      : [sub_dict], the canonicaliser called by [hash_config];
    - [Dpath]      : [dpath.util.delete(obj, glob, separator='$')];
    - [Hashing]    : [ephemeral_paths_for_tech], [durable_hash], [hash_config];
    - [Store]      : the tables, the session monad and the [Datastore] methods;
    - theorems: the properties of the specification, then further
      properties of the code. *)

From Stdlib Require Import List String Ascii ZArith Lia Bool Arith.
From Stdlib Require Import Permutation Sorted DecimalString.
From Stdlib Require Import RelationClasses.
From Stdlib Require OrdersEx.
Import ListNotations.

Set Implicit Arguments.

(* ------------------------------------------------------------------ *)
(** ** MD5 (RFC 1321), as computed by [hashlib.md5(s).hexdigest()]     *)
(* ------------------------------------------------------------------ *)

Module Md5.
Local Open Scope Z_scope.

(** 32-bit words are integers in [0, 2^32); every operation wraps. *)
Definition w32 (x : Z) : Z := Z.land x 0xFFFFFFFF.
Definition add32 (x y : Z) : Z := w32 (x + y).
Definition not32 (x : Z) : Z := Z.lxor (w32 x) 0xFFFFFFFF.
Definition rotl32 (x c : Z) : Z :=
  w32 (Z.lor (Z.shiftl x c) (Z.shiftr (w32 x) (32 - c))).

(** Per-round shift amounts. *)
Definition shifts : list Z :=
  [7; 12; 17; 22; 7; 12; 17; 22; 7; 12; 17; 22; 7; 12; 17; 22;
   5;  9; 14; 20; 5;  9; 14; 20; 5;  9; 14; 20; 5;  9; 14; 20;
   4; 11; 16; 23; 4; 11; 16; 23; 4; 11; 16; 23; 4; 11; 16; 23;
   6; 10; 15; 21; 6; 10; 15; 21; 6; 10; 15; 21; 6; 10; 15; 21].

(** [K[i] = floor(2^32 * abs(sin(i + 1)))]. *)
Definition K : list Z :=
  [0xd76aa478; 0xe8c7b756; 0x242070db; 0xc1bdceee;
   0xf57c0faf; 0x4787c62a; 0xa8304613; 0xfd469501;
   0x698098d8; 0x8b44f7af; 0xffff5bb1; 0x895cd7be;
   0x6b901122; 0xfd987193; 0xa679438e; 0x49b40821;
   0xf61e2562; 0xc040b340; 0x265e5a51; 0xe9b6c7aa;
   0xd62f105d; 0x02441453; 0xd8a1e681; 0xe7d3fbc8;
   0x21e1cde6; 0xc33707d6; 0xf4d50d87; 0x455a14ed;
   0xa9e3e905; 0xfcefa3f8; 0x676f02d9; 0x8d2a4c8a;
   0xfffa3942; 0x8771f681; 0x6d9d6122; 0xfde5380c;
   0xa4beea44; 0x4bdecfa9; 0xf6bb4b60; 0xbebfbc70;
   0x289b7ec6; 0xeaa127fa; 0xd4ef3085; 0x04881d05;
   0xd9d4d039; 0xe6db99e5; 0x1fa27cf8; 0xc4ac5665;
   0xf4292244; 0x432aff97; 0xab9423a7; 0xfc93a039;
   0x655b59c3; 0x8f0ccc92; 0xffeff47d; 0x85845dd1;
   0x6fa87e4f; 0xfe2ce6e0; 0xa3014314; 0x4e0811a1;
   0xf7537e82; 0xbd3af235; 0x2ad7d2bb; 0xeb86d391].

(** The four chaining words A, B, C, D. *)
Record state := mkState { sA : Z; sB : Z; sC : Z; sD : Z }.

Definition init : state :=
  mkState 0x67452301 0xefcdab89 0x98badcfe 0x10325476.

(** One of the 64 operations of a block; [M] is the block as 16 words. *)
Definition step (M : list Z) (st : state) (i : nat) : state :=
  let '(mkState a b c d) := st in
  let iz := Z.of_nat i in
  let '(f, g) :=
    if iz <? 16 then (Z.lor (Z.land b c) (Z.land (not32 b) d), iz)
    else if iz <? 32 then (Z.lor (Z.land d b) (Z.land (not32 d) c), (5 * iz + 1) mod 16)
    else if iz <? 48 then (Z.lxor (Z.lxor b c) d, (3 * iz + 5) mod 16)
    else (Z.lxor c (Z.lor b (not32 d)), (7 * iz) mod 16) in
  let f' := add32 (add32 (add32 f a) (nth i K 0)) (nth (Z.to_nat g) M 0) in
  mkState d (add32 b (rotl32 f' (nth i shifts 0))) b c.

Definition process_block (st : state) (M : list Z) : state :=
  let st' := fold_left (step M) (seq 0 64) st in
  mkState (add32 (sA st) (sA st')) (add32 (sB st) (sB st'))
          (add32 (sC st) (sC st')) (add32 (sD st) (sD st')).

(** Little-endian bytes of a word and back. *)
Definition word_bytes (x : Z) : list Z :=
  [Z.land x 0xFF; Z.land (Z.shiftr x 8) 0xFF;
   Z.land (Z.shiftr x 16) 0xFF; Z.land (Z.shiftr x 24) 0xFF].

Definition bytes_word (b0 b1 b2 b3 : Z) : Z :=
  Z.lor b0 (Z.lor (Z.shiftl b1 8) (Z.lor (Z.shiftl b2 16) (Z.shiftl b3 24))).

(** Message padding: a 1 bit, zeros up to 56 mod 64, the bit length on
    64 bits, little-endian. *)
Definition pad (msg : list Z) : list Z :=
  let len := Z.of_nat (List.length msg) in
  let zeros := Z.to_nat ((55 - len) mod 64) in
  let bits := 8 * len in
  msg ++ [0x80] ++ repeat 0 zeros
      ++ word_bytes (w32 bits) ++ word_bytes (w32 (Z.shiftr bits 32)).

(** Words of a byte string, four bytes at a time. *)
Fixpoint words (fuel : nat) (bs : list Z) : list Z :=
  match fuel, bs with
  | S fuel', b0 :: b1 :: b2 :: b3 :: rest =>
      bytes_word b0 b1 b2 b3 :: words fuel' rest
  | _, _ => []
  end.

(** 16-word blocks of a word list. *)
Fixpoint blocks (fuel : nat) (ws : list Z) : list (list Z) :=
  match fuel, ws with
  | S fuel', _ :: _ => firstn 16 ws :: blocks fuel' (skipn 16 ws)
  | _, _ => []
  end.

Definition digest (msg : list Z) : state :=
  let p := pad msg in
  let ws := words (List.length p) p in
  fold_left process_block (blocks (List.length ws) ws) init.

Definition hex_digit (n : Z) : ascii :=
  nth (Z.to_nat n)
      ["0"; "1"; "2"; "3"; "4"; "5"; "6"; "7";
       "8"; "9"; "a"; "b"; "c"; "d"; "e"; "f"]%char "0"%char.

Definition hex_byte (b : Z) (rest : string) : string :=
  String (hex_digit (Z.shiftr b 4)) (String (hex_digit (Z.land b 0xF)) rest).

Definition hex_word (x : Z) (rest : string) : string :=
  match word_bytes x with
  | [b0; b1; b2; b3] => hex_byte b0 (hex_byte b1 (hex_byte b2 (hex_byte b3 rest)))
  | _ => rest
  end.

Definition hexdigest_state (st : state) : string :=
  hex_word (sA st) (hex_word (sB st) (hex_word (sC st) (hex_word (sD st) EmptyString))).

Definition string_bytes (s : string) : list Z :=
  map (fun c => Z.of_N (N_of_ascii c)) (list_ascii_of_string s).

(** [hashlib.md5(s).hexdigest()]. *)
Definition md5_hexdigest (s : string) : string :=
  hexdigest_state (digest (string_bytes s)).

End Md5.

(* ------------------------------------------------------------------ *)
(** ** Configuration trees and [json.dumps(item, sort_keys=True)]       *)
(* ------------------------------------------------------------------ *)

(** A configuration is a tree of mappings, sequences and scalars.  A Python
    [dict] is kept as an association list in insertion order: the claims on
    hashing are about that order.  Floats are left out. *)
#[warnings="-register-all"]
Inductive json : Type :=
| JNull
| JBool (b : bool)
| JInt (n : Z)
| JStr (s : string)
| JList (l : list json)
| JDict (d : list (string * json)).

(** The [config] argument of [hash_config], [durable_hash] and [store] is a
    mapping. *)
Definition config : Type := list (string * json).

Definition is_mapping (j : json) : bool :=
  match j with JDict _ => true | _ => false end.

(** Insertion sort by a string key, stable; [sorted(..., key=...)] on
    byte strings. *)
Fixpoint insert_by {A : Type} (key : A -> string) (x : A) (l : list A) : list A :=
  match l with
  | [] => [x]
  | y :: l' =>
      if (key x <=? key y)%string then x :: y :: l'
      else y :: insert_by key x l'
  end.

Definition sort_by {A : Type} (key : A -> string) (l : list A) : list A :=
  fold_right (insert_by key) [] l.

Module Json.

Definition quote : ascii := "034"%char.

Definition join (sep : string) (l : list string) : string :=
  match l with
  | [] => EmptyString
  | x :: l' => fold_left (fun acc y => acc ++ sep ++ y) l' x
  end%string.

(** [str(n)] of an integer. *)
Definition str_int (n : Z) : string := NilZero.string_of_int (Z.to_int n).

(** One character of [encode_basestring_ascii]: the quote and the backslash
    are escaped, the usual control characters get their short form, and
    every other character outside [' '..'~'] becomes [\u00xx]. *)
Definition escape_char (c : ascii) : string :=
  let n := Z.of_N (N_of_ascii c) in
  if Ascii.eqb c quote then String "\" (String quote EmptyString)
  else if Ascii.eqb c "\" then "\\"
  else if (n =? 10)%Z then "\n"
  else if (n =? 13)%Z then "\r"
  else if (n =? 9)%Z then "\t"
  else if (n =? 8)%Z then "\b"
  else if (n =? 12)%Z then "\f"
  else if ((n <? 32) || (126 <? n))%Z
       then ("\u00" ++ Md5.hex_byte n EmptyString)%string
  else String c EmptyString.

Fixpoint escape (s : string) : string :=
  match s with
  | EmptyString => EmptyString
  | String c s' => (escape_char c ++ escape s')%string
  end.

Definition encode_basestring_ascii (s : string) : string :=
  String quote (escape s ++ String quote EmptyString).

(** An item of a mapping, once its value is rendered. *)
Definition dumps_item (kv : string * string) : string :=
  (encode_basestring_ascii (fst kv) ++ ": " ++ snd kv)%string.

(** [json.dumps(j, sort_keys=True)], default separators.  The items of a
    mapping are sorted by key; the values are rendered before the sort,
    which only looks at the keys. *)
Fixpoint dumps (j : json) : string :=
  match j with
  | JNull => "null"
  | JBool true => "true"
  | JBool false => "false"
  | JInt n => str_int n
  | JStr s => encode_basestring_ascii s
  | JList l => "[" ++ join ", " (map dumps l) ++ "]"
  | JDict d =>
      "{" ++ join ", "
               (map dumps_item
                    (sort_by fst (map (fun kv => (fst kv, dumps (snd kv))) d)))
          ++ "}"
  end%string.

End Json.

(* ------------------------------------------------------------------ *)
(** ** [security_monkey.common.utils.sub_dict]                          *)
(* ------------------------------------------------------------------ *)

Module Canon.

(** Modelled from the spec: [sub_dict] lives in
    [security_monkey/common/utils.py], which is not part of the sources at
    hand.  The specification (4.1) says: every sequence that is itself a
    sequence of mappings is sorted into a deterministic order, independent
    of the original element order, while plain scalar sequences retain
    their order; empty mappings and sequences canonicalise to themselves.
    The deterministic order chosen here is the one of the rendered text of
    the (already canonical) elements. *)
Fixpoint canon (j : json) : json :=
  match j with
  | JList l =>
      let l' := map canon l in
      if forallb is_mapping l' then JList (sort_by Json.dumps l') else JList l'
  | JDict d => JDict (map (fun kv => (fst kv, canon (snd kv))) d)
  | _ => j
  end.

Definition sub_dict (d : config) : config :=
  map (fun kv => (fst kv, canon (snd kv))) d.

End Canon.

(* ------------------------------------------------------------------ *)
(** ** [dpath.util.delete(obj, glob, separator='$')]                    *)
(* ------------------------------------------------------------------ *)

Module Dpath.

(** A segment of a path pattern. *)
Inductive segment : Type :=
| Wild                 (* the segment "*" *)
| Key (k : string).    (* a literal segment *)

(** [glob.split(separator)]. *)
Fixpoint split (sep : ascii) (s : string) : list string :=
  match s with
  | EmptyString => [EmptyString]
  | String c s' =>
      if Ascii.eqb c sep then EmptyString :: split sep s'
      else match split sep s' with
           | [] => [String c EmptyString]
           | x :: xs => String c x :: xs
           end
  end.

Definition parse_segment (s : string) : segment :=
  if String.eqb s "*" then Wild else Key s.

Definition parse (sep : ascii) (glob : string) : list segment :=
  map parse_segment (split sep glob).

Definition sum (l : list nat) : nat := fold_right Nat.add 0 l.

(** Modelled from the spec: [dpath] is a third-party library and is not part
    of the sources at hand.  The specification (4.2, 9) describes a small
    path-pattern matcher with literal segments, which name a key of a
    mapping, and a wildcard segment, which matches any index of a sequence,
    applied recursively; every element matched by the whole pattern is
    deleted, and a pattern that matches nothing is [PathNotFound].

    [matches segs j] counts the elements of [j] that [segs] matches. *)
Fixpoint matches (segs : list segment) (j : json) {struct segs} : nat :=
  match segs with
  | [] => 0
  | s :: rest =>
      let below (v : json) : nat :=
        match rest with [] => 1 | _ :: _ => matches rest v end in
      match s, j with
      | Key k, JDict d =>
          sum (map (fun kv => if String.eqb (fst kv) k then below (snd kv) else 0) d)
      | Wild, JList l => sum (map below l)
      | _, _ => 0
      end
  end.

(** [remove segs j] is [j] without the elements that [segs] matches. *)
Fixpoint remove (segs : list segment) (j : json) {struct segs} : json :=
  match segs with
  | [] => j
  | s :: rest =>
      match s, j with
      | Key k, JDict d =>
          JDict
            (match rest with
             | [] => filter (fun kv => negb (String.eqb (fst kv) k)) d
             | _ :: _ =>
                 map (fun kv => if String.eqb (fst kv) k
                                then (fst kv, remove rest (snd kv)) else kv) d
             end)
      | Wild, JList l =>
          JList (match rest with
                 | [] => []
                 | _ :: _ => map (remove rest) l
                 end)
      | _, _ => j
      end
  end.

Definition as_config (j : json) (default : config) : config :=
  match j with JDict d => d | _ => default end.

(** [dpath.util.delete]: the object without the matched elements, or [None]
    for the exception [PathNotFound], raised when nothing was deleted. *)
Definition delete (obj : config) (glob : string) (separator : ascii) : option config :=
  let segs := parse separator glob in
  if matches segs (JDict obj) =? 0 then None
  else Some (as_config (remove segs (JDict obj)) obj).

End Dpath.

(* ------------------------------------------------------------------ *)
(** ** [Datastore]: the hashing methods                                 *)
(* ------------------------------------------------------------------ *)

Module Hashing.

(** [Datastore.ephemeral_paths_for_tech]: the table, and [dict.get(tech, [])]. *)
Definition ephemeral_paths : list (string * list string) :=
  [ ("redshift",
      [ "RestoreStatus";
        "ClusterStatus";
        "ClusterParameterGroups$ParameterApplyStatus";
        "ClusterParameterGroups$ClusterParameterStatusList$ParameterApplyErrorDescription";
        "ClusterParameterGroups$ClusterParameterStatusList$ParameterApplyStatus";
        "ClusterRevisionNumber" ]);
    ("securitygroup", [ "assigned_to" ]);
    ("iamuser",
      [ "user$password_last_used";
        "accesskeys$*$LastUsedDate";
        "accesskeys$*$Region";
        "accesskeys$*$ServiceName" ]) ]%string.

Fixpoint dict_get {V : Type} (d : list (string * V)) (k : string) (default : V) : V :=
  match d with
  | [] => default
  | (k', v) :: d' => if String.eqb k' k then v else dict_get d' k default
  end.

Definition ephemeral_paths_for_tech (tech : string) : list string :=
  dict_get ephemeral_paths tech [].

(** [Datastore.hash_config]. *)
Definition hash_config (config : config) : string :=
  let item := Canon.sub_dict config in
  let item_str := Json.dumps (JDict item) in
  Md5.md5_hexdigest item_str.

(** The values are immutable here, so [deepcopy] is the identity. *)
Definition deepcopy (item : config) : config := item.

(** One turn of the loop of [durable_hash]: delete, and pass on
    [PathNotFound]. *)
Definition delete_or_pass (durable_item : config) (path : string) : config :=
  match Dpath.delete durable_item path "$" with
  | Some durable_item' => durable_item'
  | None => durable_item
  end.

(** The structure that [durable_hash] hashes. *)
Definition durable_item (item : config) (ephemeral_paths : list string) : config :=
  fold_left delete_or_pass ephemeral_paths (deepcopy item).

(** [Datastore.durable_hash]. *)
Definition durable_hash (item : config) (ephemeral_paths : list string) : string :=
  hash_config (durable_item item ephemeral_paths).

End Hashing.

(* ------------------------------------------------------------------ *)
(** ** The tables                                                       *)
(* ------------------------------------------------------------------ *)

(** One module per model class, with the columns that [Datastore] and
    [store_exception] read or write.  An object that was never flushed has
    no [id]. *)

Module Account.
Record t : Type := mk { id : nat; name : string }.
End Account.

Module Technology.
Record t : Type := mk { id : nat; name : string }.
End Technology.

Module Item.
Record t : Type := mk {
  id : option nat;
  region : string;
  name : string;
  arn : option string;
  latest_revision_complete_hash : option string;
  latest_revision_durable_hash : option string;
  tech_id : nat;
  account_id : nat;
  latest_revision_id : option nat }.

Definition set_id (v : option nat) (i : t) : t :=
  mk v (region i) (name i) (arn i) (latest_revision_complete_hash i)
     (latest_revision_durable_hash i) (tech_id i) (account_id i)
     (latest_revision_id i).
Definition set_arn (v : option string) (i : t) : t :=
  mk (id i) (region i) (name i) v (latest_revision_complete_hash i)
     (latest_revision_durable_hash i) (tech_id i) (account_id i)
     (latest_revision_id i).
Definition set_latest_revision_complete_hash (v : option string) (i : t) : t :=
  mk (id i) (region i) (name i) (arn i) v
     (latest_revision_durable_hash i) (tech_id i) (account_id i)
     (latest_revision_id i).
Definition set_latest_revision_durable_hash (v : option string) (i : t) : t :=
  mk (id i) (region i) (name i) (arn i) (latest_revision_complete_hash i)
     v (tech_id i) (account_id i) (latest_revision_id i).
Definition set_latest_revision_id (v : option nat) (i : t) : t :=
  mk (id i) (region i) (name i) (arn i) (latest_revision_complete_hash i)
     (latest_revision_durable_hash i) (tech_id i) (account_id i) v.
End Item.

Module ItemRevision.
Record t : Type := mk {
  id : option nat;
  active : bool;
  config : config;
  date_created : option Z;
  date_last_ephemeral_change : option Z;
  item_id : option nat }.

Definition set_id (v : option nat) (r : t) : t :=
  mk v (active r) (config r) (date_created r) (date_last_ephemeral_change r) (item_id r).
Definition set_config (v : list (string * json)) (r : t) : t :=
  mk (id r) (active r) v (date_created r) (date_last_ephemeral_change r) (item_id r).
Definition set_date_created (v : option Z) (r : t) : t :=
  mk (id r) (active r) (config r) v (date_last_ephemeral_change r) (item_id r).
Definition set_date_last_ephemeral_change (v : option Z) (r : t) : t :=
  mk (id r) (active r) (config r) (date_created r) v (item_id r).
Definition set_item_id (v : option nat) (r : t) : t :=
  mk (id r) (active r) (config r) (date_created r) (date_last_ephemeral_change r) v.
End ItemRevision.

Module ItemAudit.
Record t : Type := mk {
  id : option nat;
  score : Z;
  issue : option string;
  notes : option string;
  justified : bool;
  justification : option string;
  item_id : option nat }.

Definition set_id (v : option nat) (a : t) : t :=
  mk v (score a) (issue a) (notes a) (justified a) (justification a) (item_id a).
Definition set_item_id (v : option nat) (a : t) : t :=
  mk (id a) (score a) (issue a) (notes a) (justified a) (justification a) v.
End ItemAudit.

Module ExceptionLogs.
Record t : Type := mk {
  id : option nat;
  source : string;
  ttl : option Z;
  type : string;
  message : string;
  stacktrace : string;
  region : option string;
  tech_id : option nat;
  item_id : option nat;
  account_id : option nat }.

Definition set_id (v : option nat) (x : t) : t :=
  mk v (source x) (ttl x) (type x) (message x) (stacktrace x) (region x)
     (tech_id x) (item_id x) (account_id x).
Definition set_region (v : option string) (x : t) : t :=
  mk (id x) (source x) (ttl x) (type x) (message x) (stacktrace x) v
     (tech_id x) (item_id x) (account_id x).
Definition set_tech_id (v : option nat) (x : t) : t :=
  mk (id x) (source x) (ttl x) (type x) (message x) (stacktrace x) (region x)
     v (item_id x) (account_id x).
Definition set_item_id (v : option nat) (x : t) : t :=
  mk (id x) (source x) (ttl x) (type x) (message x) (stacktrace x) (region x)
     (tech_id x) v (account_id x).
Definition set_account_id (v : option nat) (x : t) : t :=
  mk (id x) (source x) (ttl x) (type x) (message x) (stacktrace x) (region x)
     (tech_id x) (item_id x) v.
End ExceptionLogs.

(* ------------------------------------------------------------------ *)
(** ** The world: database, storage faults, clock, log                  *)
(* ------------------------------------------------------------------ *)

Module World.

Record database : Type := mkDb {
  accounts : list Account.t;
  technologies : list Technology.t;
  items : list Item.t;
  revisions : list ItemRevision.t;
  issues : list ItemAudit.t;
  exceptions : list ExceptionLogs.t }.

Definition set_technologies (v : list Technology.t) (d : database) : database :=
  mkDb (accounts d) v (items d) (revisions d) (issues d) (exceptions d).
Definition set_items (v : list Item.t) (d : database) : database :=
  mkDb (accounts d) (technologies d) v (revisions d) (issues d) (exceptions d).
Definition set_revisions (v : list ItemRevision.t) (d : database) : database :=
  mkDb (accounts d) (technologies d) (items d) v (issues d) (exceptions d).
Definition set_issues (v : list ItemAudit.t) (d : database) : database :=
  mkDb (accounts d) (technologies d) (items d) (revisions d) v (exceptions d).
Definition set_exceptions (v : list ExceptionLogs.t) (d : database) : database :=
  mkDb (accounts d) (technologies d) (items d) (revisions d) (issues d) v.

(** An error of the storage layer (connection pool, network, SQL): whether
    it is transient, and its text. *)
Record dberror : Type := mkDbError { transient : bool; detail : string }.

(** The exceptions that the code raises or meets. *)
Inductive exn : Type :=
| Exception (msg : string)          (* [raise Exception(msg)] *)
| AttributeError (msg : string)     (* an attribute of [None] *)
| NoResultFound                     (* [Query.one()], no row *)
| MultipleResultsFound              (* [Query.one()], several rows *)
| IntegrityError (msg : string)     (* a constraint of the schema *)
| InvalidRequestError (msg : string) (* a query that cannot be built *)
| DBError (e : dberror).            (* raised by the storage layer *)

Definition type_name (e : exn) : string :=
  match e with
  | Exception _ => "Exception"
  | AttributeError _ => "AttributeError"
  | NoResultFound => "NoResultFound"
  | MultipleResultsFound => "MultipleResultsFound"
  | IntegrityError _ => "IntegrityError"
  | InvalidRequestError _ => "InvalidRequestError"
  | DBError _ => "OperationalError"
  end.

Definition str_exn (e : exn) : string :=
  match e with
  | Exception m | AttributeError m | IntegrityError m | InvalidRequestError m => m
  | NoResultFound => "No row was found for one()"
  | MultipleResultsFound => "Multiple rows were found for one()"
  | DBError e => detail e
  end.

(** The round trips to the database that the code makes. *)
Inductive dbop : Type :=
| AccountFirst | AccountOne | TechnologyFirst | TechnologyOne
| ItemJoinAll | ItemFirst | ItemListing
| RevisionsFirst | RevisionsAll | RevisionGet | IssuesLoad
| ExceptionsExpired | Commit.

Inductive level : Type := DEBUG | INFO | WARN | ERROR.

(** What an operation does besides changing the tables. *)
Inductive event : Type :=
| RoundTrip (op : dbop)
| Sleep (seconds : nat)
| Log (lvl : level) (msg : string)
| LogException (e : exn).

(** [faults] gives the outcome of the coming round trips, in order: [None]
    for a round trip that goes through, [Some e] for one that the storage
    layer fails with [e]; past the end of the list, every round trip goes
    through.  [trace] has the latest event first. *)
Record world : Type := mkWorld {
  db : database;
  faults : list (option dberror);
  now : Z;
  format_exc : string;
  trace : list event }.

Definition set_db (v : database) (w : world) : world :=
  mkWorld v (faults w) (now w) (format_exc w) (trace w).
Definition set_faults (v : list (option dberror)) (w : world) : world :=
  mkWorld (db w) v (now w) (format_exc w) (trace w).
Definition emit (ev : event) (w : world) : world :=
  mkWorld (db w) (faults w) (now w) (format_exc w) (ev :: trace w).

Inductive result (A : Type) : Type :=
| Ok (a : A)
| Raise (e : exn).
Arguments Ok {A} a.
Arguments Raise {A} e.

(** A computation reads and changes the world and returns, or raises. *)
Definition M (A : Type) : Type := world -> result A * world.

Definition ret {A : Type} (a : A) : M A := fun w => (Ok a, w).
Definition raise {A : Type} (e : exn) : M A := fun w => (Raise e, w).
Definition bind {A B : Type} (m : M A) (f : A -> M B) : M B :=
  fun w => match m w with
           | (Ok a, w') => f a w'
           | (Raise e, w') => (Raise e, w')
           end.
(** [try: m except Exception as e: h e]. *)
Definition try_except {A : Type} (m : M A) (h : exn -> M A) : M A :=
  fun w => match m w with
           | (Ok a, w') => (Ok a, w')
           | (Raise e, w') => h e w'
           end.

Definition gets {A : Type} (f : world -> A) : M A := fun w => (Ok (f w), w).
Definition modify_db (f : database -> database) : M unit :=
  fun w => (Ok tt, set_db (f (db w)) w).
Definition tell (ev : event) : M unit := fun w => (Ok tt, emit ev w).

(** A round trip: it is recorded, and it fails if the storage layer says so. *)
Definition round_trip (op : dbop) : M unit :=
  fun w =>
    let w' := emit (RoundTrip op) w in
    match faults w with
    | Some e :: rest => (Raise (DBError e), set_faults rest w')
    | None :: rest => (Ok tt, set_faults rest w')
    | [] => (Ok tt, w')
    end.

(** [for x in l: s = body(s, x)]. *)
Fixpoint for_each {A S : Type} (l : list A) (body : S -> A -> M S) (s : S) : M S :=
  match l with
  | [] => ret s
  | x :: l' => bind (body s x) (for_each l' body)
  end.

End World.

Declare Scope monad_scope.
Delimit Scope monad_scope with monad.
Notation "x <- m ;; k" := (World.bind m (fun x => k))
  (at level 61, m at next level, right associativity) : monad_scope.
Notation "m ;; k" := (World.bind m (fun _ => k))
  (at level 61, right associativity) : monad_scope.

(* ------------------------------------------------------------------ *)
(** ** [Datastore]: items, revisions, issues                            *)
(* ------------------------------------------------------------------ *)

Module Store.
Import World.
Local Open Scope monad_scope.
Local Open Scope string_scope.

(** *** Python values *)

(** [str(x)] as [format] renders it. *)
Definition str_nat (n : nat) : string := Json.str_int (Z.of_nat n).
Definition str_option {A : Type} (str : A -> string) (o : option A) : string :=
  match o with None => "None" | Some x => str x end.

(** Truth value of an optional string: [None] and [''] are false. *)
Definition truthy (s : option string) : bool :=
  match s with
  | Some (String _ _) => true
  | _ => false
  end.

(** Truth value of an optional integer: [None] and [0] are false. *)
Definition truthy_id (n : option nat) : bool :=
  match n with
  | Some (S _) => true
  | _ => false
  end.

Definition opt_nat_eqb (a b : option nat) : bool :=
  match a, b with
  | Some x, Some y => Nat.eqb x y
  | None, None => true
  | _, _ => false
  end.

(** *** Rows *)

Definition max_id (ids : list (option nat)) : nat :=
  fold_right (fun o m => match o with Some n => Nat.max n m | None => m end) 0 ids.

(** The next value of a serial primary key. *)
Definition next_id (ids : list (option nat)) : nat := S (max_id ids).

(** [ORDER BY date_created DESC]: insertion sort, stable. *)
Definition date_key (r : ItemRevision.t) : Z :=
  match ItemRevision.date_created r with Some d => d | None => 0%Z end.

Fixpoint insert_desc (r : ItemRevision.t) (l : list ItemRevision.t) : list ItemRevision.t :=
  match l with
  | [] => [r]
  | r' :: l' =>
      if (date_key r' <=? date_key r)%Z then r :: r' :: l'
      else r' :: insert_desc r l'
  end.

Definition order_by_date_created_desc (l : list ItemRevision.t) : list ItemRevision.t :=
  fold_right insert_desc [] l.

(** The rows behind [item.revisions], in the order of the relationship. *)
Definition revisions_of (d : database) (item : Item.t) : list ItemRevision.t :=
  order_by_date_created_desc
    (filter (fun r => opt_nat_eqb (ItemRevision.item_id r) (Item.id item))
            (revisions d)).

(** The rows behind [item.issues]. *)
Definition issues_of (d : database) (item : Item.t) : list ItemAudit.t :=
  filter (fun a => opt_nat_eqb (ItemAudit.item_id a) (Item.id item)) (issues d).

(** *** Queries *)

Definition Account_query_filter_name (d : database) (name : string) : list Account.t :=
  filter (fun a => String.eqb (Account.name a) name) (accounts d).

Definition Technology_query_filter_name (d : database) (name : string) : list Technology.t :=
  filter (fun t => String.eqb (Technology.name t) name) (technologies d).

(** [Query.first()]. *)
Definition first {A : Type} (op : dbop) (rows : database -> list A) : M (option A) :=
  round_trip op ;; gets (fun w => hd_error (rows (db w))).

(** [Query.all()]. *)
Definition all {A : Type} (op : dbop) (rows : database -> list A) : M (list A) :=
  round_trip op ;; gets (fun w => rows (db w)).

(** [Query.one()]. *)
Definition one {A : Type} (op : dbop) (rows : database -> list A) : M A :=
  round_trip op ;;
  l <- gets (fun w => rows (db w)) ;;
  match l with
  | [] => raise NoResultFound
  | [x] => ret x
  | _ :: _ :: _ => raise MultipleResultsFound
  end.

(** [Item.query.join(Technology).join(Account).filter(...)]: the items whose
    technology row has the name [technology], whose account row has the name
    [account], and with the given region and name.  The [id]s are primary
    keys, so an item joins with at most one row of each table. *)
Definition joins_technology (d : database) (technology : string) (it : Item.t) : bool :=
  existsb (fun t => Nat.eqb (Technology.id t) (Item.tech_id it)
                    && String.eqb (Technology.name t) technology)
          (technologies d).

Definition joins_account (d : database) (account : string) (it : Item.t) : bool :=
  existsb (fun a => Nat.eqb (Account.id a) (Item.account_id it)
                    && String.eqb (Account.name a) account)
          (accounts d).

Definition Item_query_identity (technology region account name : string)
    (d : database) : list Item.t :=
  filter (fun it => joins_technology d technology it
                    && joins_account d account it
                    && String.eqb (Item.region it) region
                    && String.eqb (Item.name it) name)
         (items d).

(** [item.revisions.first()]; an object that was never flushed has no rows
    and asks the database nothing. *)
Definition revisions_first (item : Item.t) : M (option ItemRevision.t) :=
  match Item.id item with
  | None => ret None
  | Some _ => first RevisionsFirst (fun d => revisions_of d item)
  end.

(** Iterating [item.revisions]. *)
Definition revisions_all (item : Item.t) : M (list ItemRevision.t) :=
  match Item.id item with
  | None => ret []
  | Some _ => all RevisionsAll (fun d => revisions_of d item)
  end.

(** The first access to [item.issues] loads the collection. *)
Definition load_issues (item : Item.t) : M (list ItemAudit.t) :=
  match Item.id item with
  | None => ret []
  | Some _ => all IssuesLoad (fun d => issues_of d item)
  end.

(** *** Writes *)

(** INSERT or UPDATE of one object, by primary key. *)
Definition flush_item (item : Item.t) (d : database) : Item.t * database :=
  match Item.id item with
  | Some _ =>
      (item,
       set_items (map (fun r => if opt_nat_eqb (Item.id r) (Item.id item)
                                then item else r) (items d)) d)
  | None =>
      let item' := Item.set_id (Some (next_id (map Item.id (items d)))) item in
      (item', set_items (items d ++ [item'])%list d)
  end.

(** A new revision takes its [date_created] from the column default. *)
Definition flush_revision (now : Z) (item_id : option nat) (r : ItemRevision.t)
    (d : database) : database :=
  match ItemRevision.id r with
  | Some _ =>
      set_revisions (map (fun r' => if opt_nat_eqb (ItemRevision.id r') (ItemRevision.id r)
                                    then r else r') (revisions d)) d
  | None =>
      let r' := ItemRevision.set_id (Some (next_id (map ItemRevision.id (revisions d))))
                  (ItemRevision.set_item_id item_id
                     (ItemRevision.set_date_created (Some now) r)) in
      set_revisions (revisions d ++ [r'])%list d
  end.

Definition insert_issue (item_id : option nat) (d : database) (a : ItemAudit.t) : database :=
  let a' := ItemAudit.set_id (Some (next_id (map ItemAudit.id (issues d))))
              (ItemAudit.set_item_id item_id a) in
  set_issues (issues d ++ [a'])%list d.

Definition delete_issue (d : database) (a : ItemAudit.t) : database :=
  set_issues (filter (fun a' => negb (opt_nat_eqb (ItemAudit.id a') (ItemAudit.id a)))
                     (issues d)) d.

(** [Item.arn] is [unique=True]. *)
Definition arn_taken (d : database) (item : Item.t) : bool :=
  match Item.arn item with
  | None => false
  | Some a =>
      existsb (fun r => negb (opt_nat_eqb (Item.id r) (Item.id item))
                        && match Item.arn r with
                           | Some a' => String.eqb a' a
                           | None => false
                           end)
              (items d)
  end.

(** What the commit at the end of [store] writes: the session holds the
    item, the revision, the issues added and the issues deleted.  The issues
    added are new objects. *)
Definition flush_store (t : Z) (item : Item.t) (item_revision : ItemRevision.t)
    (added deleted : list ItemAudit.t) (d : database) : Item.t * database :=
  let '(item', d1) := flush_item item d in
  let d2 := flush_revision t (Item.id item') item_revision d1 in
  let d3 := fold_left (insert_issue (Item.id item')) added d2 in
  let d4 := fold_left delete_issue deleted d3 in
  (item', d4).

Definition unique_violation : exn :=
  IntegrityError "duplicate key value violates unique constraint".

(** The session flushes before it queries (autoflush).  In [store] it holds
    the changes made to [item] after [_get_item] loaded it: a read through a
    relationship of an item that is a row of the table sends the UPDATE of
    this row first, and the UPDATE fails when another row has the new
    [arn]; the read is then not made.  An object that was never flushed is
    not in the session, and its relationships read nothing.  What a flush
    writes belongs to the transaction that the commit ends: the tables
    change at the commit.  What a call that raises leaves pending in the
    session is not followed. *)
Definition autoflush {A : Type} (item : Item.t) (op : dbop) (read : M A) : M A :=
  match Item.id item with
  | None => read
  | Some _ =>
      taken <- gets (fun w => arn_taken (db w) item) ;;
      if taken then round_trip op ;; raise unique_violation else read
  end.

(** [db.session.commit()] at the end of [store].  Nothing is written when
    the commit fails. *)
Definition commit_store (item : Item.t) (item_revision : ItemRevision.t)
    (added deleted : list ItemAudit.t) : M Item.t :=
  round_trip Commit ;;
  taken <- gets (fun w => arn_taken (db w) item) ;;
  if taken then raise unique_violation
  else
    t <- gets now ;;
    d <- gets db ;;
    let '(item', d') := flush_store t item item_revision added deleted d in
    modify_db (fun _ => d') ;;
    ret item'.

(** [db.session.add(item); db.session.commit()]. *)
Definition commit_item (item : Item.t) : M Item.t :=
  round_trip Commit ;;
  taken <- gets (fun w => arn_taken (db w) item) ;;
  if taken then raise unique_violation
  else
    d <- gets db ;;
    let '(item', d1) := flush_item item d in
    modify_db (fun _ => d1) ;;
    ret item'.

(** [db.session.add(technology_result); db.session.commit()]. *)
Definition commit_technology (name : string) : M Technology.t :=
  round_trip Commit ;;
  d <- gets db ;;
  let t := Technology.mk
             (next_id (map (fun t => Some (Technology.id t)) (technologies d))) name in
  modify_db (set_technologies (technologies d ++ [t])%list) ;;
  ret t.

(** *** [Datastore._get_item] *)

Definition account_not_found (account : string) : exn :=
  Exception ("Account with name [" ++ account ++ "] not found.").

Definition multiple_items (technology region account name : string) : exn :=
  Exception ("Found multiple items for tech: " ++ technology ++ " region: " ++ region
             ++ " account: " ++ account ++ " and name: " ++ name).

Definition _get_item (technology region account name : string) : M Item.t :=
  account_result <- first AccountFirst (fun d => Account_query_filter_name d account) ;;
  match account_result with
  | None => raise (account_not_found account)
  | Some account_result =>
      item <- all ItemJoinAll (Item_query_identity technology region account name) ;;
      if (1 <? List.length item)%nat then
        raise (multiple_items technology region account name)
      else
        match item with
        | [item] => ret item
        | _ =>
            technology_result <-
              first TechnologyFirst (fun d => Technology_query_filter_name d technology) ;;
            technology_result <-
              match technology_result with
              | Some t => ret t
              | None =>
                  t <- commit_technology technology ;;
                  tell (Log INFO ("Creating a new Technology: " ++ technology
                                  ++ " - ID: " ++ str_nat (Technology.id t))) ;;
                  ret t
              end ;;
            ret (Item.mk None region name None None None
                         (Technology.id technology_result)
                         (Account.id account_result) None)
        end
  end.

(** *** [Datastore._set_latest_revision] *)

Definition _set_latest_revision (item : Item.t) : M unit :=
  latest_revision <- revisions_first item ;;
  match latest_revision with
  | None => raise (AttributeError "'NoneType' object has no attribute 'id'")
  | Some latest_revision =>
      commit_item (Item.set_latest_revision_id (ItemRevision.id latest_revision) item) ;;
      ret tt
  end.

(** *** [Datastore.get] and [Datastore.get_audit_issues] *)

Definition get (ctype region account name : string) : M (list ItemRevision.t) :=
  item <- _get_item ctype region account name ;;
  revisions_all item.

Definition get_audit_issues (ctype region account name : string) : M (list ItemAudit.t) :=
  item <- _get_item ctype region account name ;;
  load_issues item.

(** *** [Datastore.store] *)

(** ["{}/{}".format(issue.issue, issue.notes)]. *)
Definition issue_key (a : ItemAudit.t) : string :=
  str_option (fun s => s) (ItemAudit.issue a) ++ "/"
  ++ str_option (fun s => s) (ItemAudit.notes a).

Definition key_in (k : string) (l : list ItemAudit.t) : bool :=
  existsb (String.eqb k) (map issue_key l).

(** The loop "Add new issues": the state is [item.issues] and the objects
    added to the session. *)
Definition add_new_issue (st : list ItemAudit.t * list ItemAudit.t)
    (new_issue : ItemAudit.t) : list ItemAudit.t * list ItemAudit.t :=
  let '(item_issues, added) := st in
  let nk := issue_key new_issue in
  if negb (key_in nk item_issues)
  then ((item_issues ++ [new_issue])%list, (added ++ [new_issue])%list)
  else (item_issues, added).

(** The loop "Delete old issues": the objects passed to [db.session.delete]. *)
Definition delete_old_issues (item_issues new_issues : list ItemAudit.t) : list ItemAudit.t :=
  filter (fun old_issue => negb (key_in (issue_key old_issue) new_issues)) item_issues.

Definition store (ctype region account name : string) (active_flag : bool)
    (config : config) (arn : option string) (new_issues : list ItemAudit.t)
    (ephemeral : bool) : M unit :=
  item <- _get_item ctype region account name ;;
  let item := if truthy arn then Item.set_arn arn item else item in
  let item := Item.set_latest_revision_complete_hash
                (Some (Hashing.hash_config config)) item in
  let item := Item.set_latest_revision_durable_hash
                (Some (Hashing.durable_hash config (Hashing.ephemeral_paths_for_tech ctype)))
                item in
  item_revision <-
    (if ephemeral then
       item_revision <- autoflush item RevisionsFirst (revisions_first item) ;;
       match item_revision with
       | None => raise (AttributeError "'NoneType' object has no attribute 'config'")
       | Some item_revision =>
           t <- gets now ;;
           ret (ItemRevision.set_date_last_ephemeral_change (Some t)
                  (ItemRevision.set_config config item_revision))
       end
     else
       ret (ItemRevision.mk None active_flag config None None None)) ;;
  item_issues <- autoflush item IssuesLoad (load_issues item) ;;
  let '(item_issues, added) := fold_left add_new_issue new_issues (item_issues, []) in
  let deleted := delete_old_issues item_issues new_issues in
  item <- commit_store item item_revision added deleted ;;
  _set_latest_revision item.

(** *** [Datastore.get_all_ctype_filtered] *)

(** The mapped classes that the listing query reaches. *)
Inductive entity : Type := ItemEntity | TechnologyEntity | AccountEntity.

(** A query on [Item]: the criteria on the columns of the item, the criteria
    on the row of each table joined ([None]: the table is not joined), and
    the entity joined last, which is where [filter_by] looks its keywords
    up. *)
Record query : Type := mkQuery {
  item_criteria : Item.t -> bool;
  technology_criteria : option (Technology.t -> bool);
  account_criteria : option (Account.t -> bool);
  joinpoint : entity }.

Definition Item_query : query := mkQuery (fun _ => true) None None ItemEntity.

(** One more criterion on the rows of a table. *)
Definition and_also {A : Type} (c : option (A -> bool)) (c' : A -> bool)
    : option (A -> bool) :=
  match c with
  | Some c => Some (fun x => c x && c' x)
  | None => Some c'
  end.

(** [query.join((Technology, Item.tech_id == Technology.id))
         .filter(Technology.name == tech)]. *)
Definition join_filter_technology (tech : string) (q : query) : query :=
  mkQuery (item_criteria q)
          (and_also (technology_criteria q)
                    (fun t => String.eqb (Technology.name t) tech))
          (account_criteria q)
          TechnologyEntity.

(** [query.join((Account, Item.account_id == Account.id))
         .filter(Account.name == account)]. *)
Definition join_filter_account (account : string) (q : query) : query :=
  mkQuery (item_criteria q)
          (technology_criteria q)
          (and_also (account_criteria q)
                    (fun a => String.eqb (Account.name a) account))
          AccountEntity.

(** The value of an optional argument that is true. *)
Definition value (s : option string) : string :=
  match s with Some v => v | None => EmptyString end.

(** The class of an entity, as the message of the error shows it. *)
Definition class_repr (e : entity) : string :=
  "<class 'security_monkey.datastore."
  ++ match e with
     | ItemEntity => "Item"
     | TechnologyEntity => "Technology"
     | AccountEntity => "Account"
     end
  ++ "'>".

(** The error of [filter_by] for a keyword that is no attribute of the
    entity. *)
Definition no_property (e : entity) (k : string) : exn :=
  InvalidRequestError
    ("Entity '" ++ class_repr e ++ "' has no property '" ++ k ++ "'").

(** One keyword argument [k=v] of [filter_by]: the attribute [k] of the
    entity joined last is compared with [v].  [Item] has the columns
    [region] and [name]; [Technology] and [Account] have a column [name] and
    no [region]. *)
Definition filter_by_kwarg (q : query) (kv : string * option string) : result query :=
  let '(k, v) := kv in
  match joinpoint q with
  | ItemEntity =>
      if String.eqb k "region" then
        Ok (mkQuery (fun it => item_criteria q it
                               && String.eqb (Item.region it) (value v))
                    (technology_criteria q) (account_criteria q) (joinpoint q))
      else if String.eqb k "name" then
        Ok (mkQuery (fun it => item_criteria q it
                               && String.eqb (Item.name it) (value v))
                    (technology_criteria q) (account_criteria q) (joinpoint q))
      else Raise (no_property ItemEntity k)
  | TechnologyEntity =>
      if String.eqb k "name" then
        Ok (mkQuery (item_criteria q)
                    (and_also (technology_criteria q)
                              (fun t => String.eqb (Technology.name t) (value v)))
                    (account_criteria q) (joinpoint q))
      else Raise (no_property TechnologyEntity k)
  | AccountEntity =>
      if String.eqb k "name" then
        Ok (mkQuery (item_criteria q) (technology_criteria q)
                    (and_also (account_criteria q)
                              (fun a => String.eqb (Account.name a) (value v)))
                    (joinpoint q))
      else Raise (no_property AccountEntity k)
  end.

(** [query.filter_by] with the entries of [filter_by] as keyword arguments.
    The query is not built when a keyword is refused; only [region] can be,
    so the order of the entries does not show. *)
Fixpoint filter_by_kwargs (filter_by : list (string * option string)) (q : query)
    : result query :=
  match filter_by with
  | [] => Ok q
  | kv :: filter_by' =>
      match filter_by_kwarg q kv with
      | Ok q' => filter_by_kwargs filter_by' q'
      | Raise e => Raise e
      end
  end.

(** Whether a row of a table, joined on its [id], meets the criteria. *)
Definition joined {A : Type} (id_of : A -> nat) (fk : nat) (c : option (A -> bool))
    (rows : list A) : bool :=
  match c with
  | None => true
  | Some c => existsb (fun r => Nat.eqb (id_of r) fk && c r) rows
  end.

(** The items that a query selects, one object per row of [Item]. *)
Definition query_rows (q : query) (d : database) : list Item.t :=
  filter (fun it =>
            item_criteria q it
            && joined Technology.id (Item.tech_id it) (technology_criteria q)
                      (technologies d)
            && joined Account.id (Item.account_id it) (account_criteria q)
                      (accounts d))
         (items d).

(** The loop [while True: try: items = query.all() ...].  [fuel] bounds the
    number of turns; [None] is the end of the fuel. *)
Fixpoint query_all_retrying (fuel : nat) (q : query) (attempt : nat) (w : world)
    : option (result (list Item.t) * world) :=
  match fuel with
  | O => None
  | S fuel' =>
      match all ItemListing (query_rows q) w with
      | (Ok items, w1) => Some (Ok items, w1)
      | (Raise e, w1) =>
          let w2 := emit (Log WARN
                        ("Database Exception in Datastore::get_all_ctype_filtered. "
                         ++ "Sleeping for a few seconds. Attempt " ++ str_nat attempt ++ "."))
                      w1 in
          let w3 := emit (Log DEBUG ("Exception: " ++ str_exn e)) w2 in
          let w4 := emit (Sleep 5) w3 in
          let attempt := (attempt + 1)%nat in
          if (5 <? attempt)%nat
          then Some (Raise (Exception "Too many retries for database connections."), w4)
          else query_all_retrying fuel' q attempt w4
      end
  end.

Definition ItemMap : Type := list (Item.t * ItemRevision.t).

(** [item_map[item] = most_recent]; the keys are objects, one per row. *)
Fixpoint item_map_set (m : ItemMap) (item : Item.t) (most_recent : ItemRevision.t) : ItemMap :=
  match m with
  | [] => [(item, most_recent)]
  | (k, v) :: m' =>
      if opt_nat_eqb (Item.id k) (Item.id item) then (item, most_recent) :: m'
      else (k, v) :: item_map_set m' item most_recent
  end.

(** One turn of [for item in items]. *)
Definition latest_of (include_inactive : bool) (item_map : ItemMap) (item : Item.t)
    : M ItemMap :=
  if negb (truthy_id (Item.latest_revision_id item)) then
    tell (Log DEBUG ("There are no itemrevisions for this item: "
                     ++ str_option str_nat (Item.id item))) ;;
    ret item_map
  else
    most_recent <-
      first RevisionGet
        (fun d => filter (fun r => opt_nat_eqb (ItemRevision.id r)
                                               (Item.latest_revision_id item))
                         (revisions d)) ;;
    match most_recent with
    | None => raise (AttributeError "'NoneType' object has no attribute 'active'")
    | Some most_recent =>
        if negb (ItemRevision.active most_recent) && negb include_inactive
        then ret item_map
        else ret (item_map_set item_map item most_recent)
    end.

Definition get_all_ctype_filtered_fuel (fuel : nat)
    (tech account region name : option string) (include_inactive : bool) (w : world)
    : option (result ItemMap * world) :=
  let item_map := [] in
  let query := Item_query in
  let query := if truthy tech then join_filter_technology (value tech) query else query in
  let query := if truthy account then join_filter_account (value account) query else query in
  let filter_by := [("region", region); ("name", name)] in
  let filter_by := filter (fun kv => truthy (snd kv)) filter_by in
  match filter_by_kwargs filter_by query with
  | Raise e => Some (Raise e, w)
  | Ok query =>
      let attempt := 1 in
      match query_all_retrying fuel query attempt w with
      | None => None
      | Some (Raise e, w1) => Some (Raise e, w1)
      | Some (Ok items, w1) =>
          Some (for_each items (latest_of include_inactive) item_map w1)
      end
  end.

(** Five turns are enough: the sixth value of [attempt] ends the loop. *)
Definition get_all_ctype_filtered := get_all_ctype_filtered_fuel 5.

(** *** [store_exception] and [clear_old_exceptions] *)

(** [str] of a list of strings. *)
Definition repr_list (l : list string) : string :=
  "[" ++ Json.join ", " (map (fun s => "'" ++ s ++ "'") l) ++ "]".

(** [s[:n]]. *)
Definition prefix (n : nat) (s : string) : string := String.substring 0 n s.

Definition store_exception_body (source : string) (location : list string)
    (exception : exn) (ttl : option Z) : M unit :=
  tell (Log DEBUG ("Logging exception from " ++ source ++ " with location: "
                   ++ repr_list location ++ " to the database.")) ;;
  let message := prefix 512 (str_exn exception) in
  stacktrace <- gets format_exc ;;
  let exception_entry :=
    ExceptionLogs.mk None source ttl (type_name exception) message stacktrace
                     None None None None in
  exception_entry <-
    match location with
    | [] => ret exception_entry
    | _ :: _ =>
        exception_entry <-
          (if (List.length location =? 4)%nat then
             item <- first ItemFirst
                       (fun d => filter (fun it => String.eqb (Item.name it)
                                                              (nth 3 location EmptyString))
                                        (items d)) ;;
             match item with
             | Some item => ret (ExceptionLogs.set_item_id (Item.id item) exception_entry)
             | None => ret exception_entry
             end
           else ret exception_entry) ;;
        let exception_entry :=
          if (3 <=? List.length location)%nat
          then ExceptionLogs.set_region (Some (nth 2 location EmptyString)) exception_entry
          else exception_entry in
        exception_entry <-
          (if (2 <=? List.length location)%nat then
             account <- one AccountOne
                          (fun d => Account_query_filter_name d (nth 1 location EmptyString)) ;;
             ret (ExceptionLogs.set_account_id (Some (Account.id account)) exception_entry)
           else ret exception_entry) ;;
        technology <- one TechnologyOne
                        (fun d => Technology_query_filter_name d (nth 0 location EmptyString)) ;;
        ret (ExceptionLogs.set_tech_id (Some (Technology.id technology)) exception_entry)
    end ;;
  round_trip Commit ;;
  modify_db (fun d =>
               set_exceptions
                 (exceptions d ++
                  [ExceptionLogs.set_id
                     (Some (next_id (map ExceptionLogs.id (exceptions d))))
                     exception_entry])%list d) ;;
  tell (Log DEBUG "Completed logging exception to database.").

Definition store_exception (source : string) (location : list string)
    (exception : exn) (ttl : option Z) : M unit :=
  try_except
    (store_exception_body source location exception ttl)
    (fun e =>
       tell (Log ERROR "Encountered exception while logging exception to database:") ;;
       tell (LogException e)).

Definition clear_old_exceptions : M unit :=
  t <- gets now ;;
  exc_list <- all ExceptionsExpired
                (fun d => filter (fun x => match ExceptionLogs.ttl x with
                                           | Some ttl => (ttl <=? t)%Z
                                           | None => false
                                           end) (exceptions d)) ;;
  round_trip Commit ;;
  modify_db (fun d =>
               set_exceptions
                 (filter (fun x => negb (existsb (fun y => opt_nat_eqb (ExceptionLogs.id y)
                                                                       (ExceptionLogs.id x))
                                                 exc_list))
                         (exceptions d)) d).

End Store.

(* ------------------------------------------------------------------ *)
(** ** Constraints of the schema                                        *)
(* ------------------------------------------------------------------ *)

Module Schema.
Import World Store.

Fixpoint distinct (ids : list (option nat)) : bool :=
  match ids with
  | [] => true
  | x :: l => negb (existsb (opt_nat_eqb x) l) && distinct l
  end.

Definition not_null {A : Type} (o : option A) : bool :=
  match o with Some _ => true | None => false end.

(** [primary_key=True]: every row has an id, and no two rows share one. *)
Definition primary_key (ids : list (option nat)) : bool :=
  forallb not_null ids && distinct ids.

(** [ForeignKey("item.id"), nullable=False]. *)
Definition foreign_key (fks ids : list (option nat)) : bool :=
  forallb (fun fk => not_null fk && existsb (opt_nat_eqb fk) ids) fks.

(** The constraints that the rows at hand obey in the database. *)
Definition wf_db (d : database) : bool :=
  primary_key (map Item.id (items d))
  && primary_key (map ItemRevision.id (revisions d))
  && primary_key (map ItemAudit.id (issues d))
  && foreign_key (map ItemRevision.item_id (revisions d)) (map Item.id (items d))
  && foreign_key (map ItemAudit.item_id (issues d)) (map Item.id (items d)).

(** [item.revisions.count()] for the item with the id [item_id]. *)
Definition revision_count (d : database) (item_id : option nat) : nat :=
  List.length (filter (fun r => opt_nat_eqb (ItemRevision.item_id r) item_id)
                      (revisions d)).

(** The revision as [store] leaves it after an ephemeral change. *)
Definition ephemeral_update (config : config) (t : Z) (r : ItemRevision.t) : ItemRevision.t :=
  ItemRevision.set_date_last_ephemeral_change (Some t) (ItemRevision.set_config config r).

(** UPDATE of the rows with the id of [r]. *)
Definition update_revision (r : ItemRevision.t) (rows : list ItemRevision.t)
    : list ItemRevision.t :=
  map (fun r' => if opt_nat_eqb (ItemRevision.id r') (ItemRevision.id r) then r else r') rows.

(** The attempts of the listing query in a trace, and the delays. *)
Definition is_listing (ev : event) : bool :=
  match ev with RoundTrip ItemListing => true | _ => false end.

Definition attempts (t : list event) : nat := List.length (filter is_listing t).

Definition sleeps (t : list event) : list nat :=
  flat_map (fun ev => match ev with Sleep n => [n] | _ => [] end) t.

(** The number of coming round trips that fail before one goes through. *)
Fixpoint leading_failures (fs : list (option dberror)) : nat :=
  match fs with
  | Some _ :: fs' => S (leading_failures fs')
  | _ => 0
  end.

(** The exception raised when the retries are used up. *)
Definition too_many_retries : exn :=
  Exception "Too many retries for database connections.".

(** The entity that [filter_by] reads in [get_all_ctype_filtered]: the one
    joined last, [Item] when nothing is joined. *)
Definition joinpoint_of (tech account : option string) : entity :=
  if truthy account then AccountEntity
  else if truthy tech then TechnologyEntity
  else ItemEntity.

(** [filter_by] accepts the keywords of the call: a [region] needs [Item] as
    the entity, that is a call without [tech] and without [account]. *)
Definition filters_accepted (tech account region : option string) : bool :=
  negb (truthy region) || negb (truthy tech || truthy account).

(** The rows that [get_all_ctype_filtered] selects before it looks at the
    revisions, for a call whose filters are accepted.  Without a join,
    [region] and [name] are compared with the columns of the item.  With a
    join, [name] is compared with the name of the row joined last: the
    technology of the item when only [tech] is given, its account when
    [account] is given. *)
Definition selected (tech account region name : option string) (d : database)
    : list Item.t :=
  filter (fun it =>
            match joinpoint_of tech account with
            | ItemEntity =>
                (if truthy region then String.eqb (Item.region it) (value region)
                 else true)
                && (if truthy name then String.eqb (Item.name it) (value name)
                    else true)
            | TechnologyEntity =>
                existsb (fun t => Nat.eqb (Technology.id t) (Item.tech_id it)
                                  && String.eqb (Technology.name t) (value tech)
                                  && (if truthy name
                                      then String.eqb (Technology.name t) (value name)
                                      else true))
                        (technologies d)
            | AccountEntity =>
                (if truthy tech then joins_technology d (value tech) it else true)
                && existsb (fun a => Nat.eqb (Account.id a) (Item.account_id it)
                                     && String.eqb (Account.name a) (value account)
                                     && (if truthy name
                                         then String.eqb (Account.name a) (value name)
                                         else true))
                           (accounts d)
            end)
         (items d).

(** The row that [ItemRevision.query.get(id)] returns. *)
Definition revision_get (d : database) (id : option nat) : option ItemRevision.t :=
  hd_error (filter (fun r => opt_nat_eqb (ItemRevision.id r) id) (revisions d)).

(** Round trips that went through. *)
Definition all_through (used : list (option dberror)) : Prop :=
  Forall (fun o => o = None) used.

(** A run from [w] to [w'] does not retry: it never sleeps, and once a round
    trip has failed it makes no other. *)
Definition run_no_retry (w w' : world) : Prop :=
  sleeps (trace w') = sleeps (trace w) /\
  exists used,
    faults w = used ++ faults w' /\
    (all_through used \/
     exists pre e, used = pre ++ [Some e] /\ all_through pre).

(** A run from [w] to [w'] with the result [r] fails immediately: it does
    not retry, and a failure of a round trip is what it raises. *)
Definition run_fail_fast {A : Type} (w : world) (r : result A) (w' : world) : Prop :=
  sleeps (trace w') = sleeps (trace w) /\
  exists used,
    faults w = used ++ faults w' /\
    (all_through used \/
     exists pre e, used = pre ++ [Some e] /\ all_through pre /\ r = Raise (DBError e)).

Definition fail_fast {A : Type} (m : M A) : Prop :=
  forall w, run_fail_fast w (fst (m w)) (snd (m w)).

Definition no_retry {A : Type} (m : M A) : Prop :=
  forall w, run_no_retry w (snd (m w)).

(** The keys, as [store] builds them, of the issues stored on an item. *)
Definition stored_keys (d : database) (item_id : option nat) : list string :=
  map issue_key
      (filter (fun a => opt_nat_eqb (ItemAudit.item_id a) item_id) (issues d)).

(** The identity key of an issue as the specification has it: the pair of
    the issue type and the notes. *)
Definition identity_key (a : ItemAudit.t) : option string * option string :=
  (ItemAudit.issue a, ItemAudit.notes a).

End Schema.

(* ------------------------------------------------------------------ *)
(** ** Relations between configurations                                 *)
(* ------------------------------------------------------------------ *)

Module Rel.

(** A Python [dict] has each key once: [wf j] says so of every mapping of
    [j]. *)
Fixpoint nodupb (l : list string) : bool :=
  match l with
  | [] => true
  | x :: l' => negb (existsb (String.eqb x) l') && nodupb l'
  end.

Fixpoint wf (j : json) : bool :=
  match j with
  | JList l => forallb wf l
  | JDict d => nodupb (map fst d) && forallb (fun kv => wf (snd kv)) d
  | _ => true
  end.

(** Equality of configuration trees up to the insertion order of the keys
    of a mapping and up to the order of the elements of a sequence whose
    elements are mappings: the least congruence that contains these two
    kinds of reordering. *)
Inductive jequiv : json -> json -> Prop :=
| je_refl : forall j, jequiv j j
| je_trans : forall j1 j2 j3, jequiv j1 j2 -> jequiv j2 j3 -> jequiv j1 j3
| je_list : forall l1 l2, lequiv l1 l2 -> jequiv (JList l1) (JList l2)
| je_list_perm : forall l1 l2,
    forallb is_mapping l1 = true -> Permutation l1 l2 ->
    jequiv (JList l1) (JList l2)
| je_dict : forall d1 d2, dequiv d1 d2 -> jequiv (JDict d1) (JDict d2)
| je_dict_perm : forall d1 d2,
    Permutation d1 d2 -> jequiv (JDict d1) (JDict d2)
with lequiv : list json -> list json -> Prop :=
| le_nil : lequiv [] []
| le_cons : forall j1 j2 l1 l2,
    jequiv j1 j2 -> lequiv l1 l2 -> lequiv (j1 :: l1) (j2 :: l2)
with dequiv : list (string * json) -> list (string * json) -> Prop :=
| de_nil : dequiv [] []
| de_cons : forall k j1 j2 d1 d2,
    jequiv j1 j2 -> dequiv d1 d2 -> dequiv ((k, j1) :: d1) ((k, j2) :: d2).

Scheme jequiv_ind' := Induction for jequiv Sort Prop
  with lequiv_ind' := Induction for lequiv Sort Prop
  with dequiv_ind' := Induction for dequiv Sort Prop.
Combined Scheme jequiv_mutind from jequiv_ind', lequiv_ind', dequiv_ind'.

Definition config_equiv (c1 c2 : config) : Prop := jequiv (JDict c1) (JDict c2).

(** [differ_at segs j1 j2]: the trees [j1] and [j2] are the same except,
    possibly, at the elements that the pattern [segs] matches; such an
    element may have any value on either side, or be absent on one. *)
Fixpoint differ_at (segs : list Dpath.segment) (j1 j2 : json) {struct segs} : Prop :=
  j1 = j2 \/
  match segs with
  | [] => False
  | s :: rest =>
      match s, j1, j2 with
      | Dpath.Key k, JDict d1, JDict d2 =>
          match rest with
          | [] =>
              filter (fun kv => negb (String.eqb (fst kv) k)) d1 =
              filter (fun kv => negb (String.eqb (fst kv) k)) d2
          | _ :: _ =>
              Forall2 (fun a b =>
                         fst a = fst b /\
                         if String.eqb (fst a) k
                         then differ_at rest (snd a) (snd b)
                         else snd a = snd b) d1 d2
          end
      | Dpath.Wild, JList l1, JList l2 =>
          match rest with
          | [] => True
          | _ :: _ => Forall2 (differ_at rest) l1 l2
          end
      | _, _, _ => False
      end
  end.

(** Two configurations differ only at fields matched by the patterns
    [paths]: one leads to the other by changes, each confined to the
    elements matched by one of the patterns. *)
Inductive differ_only (paths : list string) : config -> config -> Prop :=
| do_refl : forall c, differ_only paths c c
| do_step : forall p c1 c2 c3,
    In p paths ->
    differ_at (Dpath.parse "$" p) (JDict c1) (JDict c2) ->
    differ_only paths c2 c3 ->
    differ_only paths c1 c3.

End Rel.

(* ------------------------------------------------------------------ *)
(** ** Sample configurations and a sample database                      *)
(* ------------------------------------------------------------------ *)

Module Examples.
Import World Store.
Local Open Scope string_scope.

Definition rules : json :=
  JList [JDict [("port", JInt 22); ("cidr", JStr "10.0.0.0/8")];
         JDict [("port", JInt 80); ("cidr", JStr "0.0.0.0/0")]].

Definition rules_reordered : json :=
  JList [JDict [("cidr", JStr "0.0.0.0/0"); ("port", JInt 80)];
         JDict [("port", JInt 22); ("cidr", JStr "10.0.0.0/8")]].

(** A security group, assigned to [x] and then to [y]. *)
Definition sg_x : config := [("assigned_to", JStr "x"); ("rules", rules)].
Definition sg_y : config := [("assigned_to", JStr "y"); ("rules", rules)].

(** [sg_x] with its keys and its rules in another order. *)
Definition sg_x_reordered : config :=
  [("rules", rules_reordered); ("assigned_to", JStr "x")].

(** Configurations that differ by the order of a sequence of mappings, at
    the ephemeral field and at another field. *)
Definition sg_assigned_12 : config :=
  [("assigned_to", JList [JDict [("id", JStr "i-1")]; JDict [("id", JStr "i-2")]])].
Definition sg_assigned_21 : config :=
  [("assigned_to", JList [JDict [("id", JStr "i-2")]; JDict [("id", JStr "i-1")]])].
Definition sg_rules_12 : config :=
  [("rules", JList [JDict [("port", JInt 22)]; JDict [("port", JInt 80)]])].
Definition sg_rules_21 : config :=
  [("rules", JList [JDict [("port", JInt 80)]; JDict [("port", JInt 22)]])].

(** One account, one technology and three items: the first with two
    revisions, the second with none, the third with an inactive one. *)
Definition item1 : Item.t :=
  Item.mk (Some 1) "us-east-1" "web-sg" (Some "arn:aws:ec2:us-east-1:1:security-group/sg-1")
          (Some (Hashing.hash_config sg_x))
          (Some (Hashing.durable_hash sg_x (Hashing.ephemeral_paths_for_tech "securitygroup")))
          1 1 (Some 2).

Definition item2 : Item.t :=
  Item.mk (Some 2) "us-west-2" "db-sg" None None None 1 1 None.

Definition item3 : Item.t :=
  Item.mk (Some 3) "us-west-2" "old-sg" None None None 1 1 (Some 3).

Definition revision1 : ItemRevision.t :=
  ItemRevision.mk (Some 1) true sg_y (Some 100%Z) None (Some 1).

Definition revision2 : ItemRevision.t :=
  ItemRevision.mk (Some 2) true sg_x (Some 150%Z) None (Some 1).

Definition revision3 : ItemRevision.t :=
  ItemRevision.mk (Some 3) false sg_x (Some 120%Z) None (Some 3).

Definition issue (i : option nat) (issue notes : string) (item_id : option nat) : ItemAudit.t :=
  ItemAudit.mk i 10%Z (Some issue) (Some notes) false None item_id.

Definition db1 : database :=
  mkDb [Account.mk 1 "acct1"]
       [Technology.mk 1 "securitygroup"]
       [item1; item2; item3]
       [revision1; revision2; revision3]
       [issue (Some 1) "Open port/tcp" "22" (Some 1)]
       [].

Definition w1 : world := mkWorld db1 [] 200%Z "Traceback" [].

(** Failures of the storage layer. *)
Definition pool_timeout : dberror := mkDbError true "QueuePool limit reached, connection timed out".
Definition syntax_error : dberror := mkDbError false "syntax error at or near SELECT".

End Examples.

(* ------------------------------------------------------------------ *)
(** ** Vocabulary of the statements and of the proofs                   *)
(* ------------------------------------------------------------------ *)

Import Rel.
Import World Store.
Import Schema.

(** The order of [sort_by]. *)
Definition key_le {A : Type} (key : A -> string) (x y : A) : Prop :=
  (key x <=? key y)%string = true.

Definition text (j : json) : string := Json.dumps (Canon.canon j).
Definition text_item (kv : string * json) : string * string :=
  (fst kv, text (snd kv)).

(** What a pattern matches below an element selected by its first segment. *)
Definition below (rest : list Dpath.segment) (v : json) : nat :=
  match rest with [] => 1 | _ :: _ => Dpath.matches rest v end.

Definition drop_key (k : string) (d : list (string * json)) : list (string * json) :=
  filter (fun kv => negb (String.eqb (fst kv) k)) d.

Definition remove_under (k : string) (rest : list Dpath.segment)
    (kv : string * json) : string * json :=
  if String.eqb (fst kv) k then (fst kv, Dpath.remove rest (snd kv)) else kv.

(** The loop of [durable_hash], on trees. *)
Definition strip_all (paths : list string) (j : json) : json :=
  fold_left (fun j p => Dpath.remove (Dpath.parse "$" p) j) paths j.

(** A new technology row, as [commit_technology] inserts it. *)
Definition new_technology (d : database) (name : string) : Technology.t :=
  Technology.mk (next_id (map (fun t => Some (Technology.id t)) (technologies d))) name.

(** The technology row that a new item is bound to, and the tables after
    its lookup. *)
Definition resolve_technology (d : database) (name : string) : Technology.t * database :=
  match Technology_query_filter_name d name with
  | t :: _ => (t, d)
  | [] => (new_technology d name,
           set_technologies (technologies d ++ [new_technology d name]) d)
  end.

(** The unsaved scaffold that [_get_item] builds. *)
Definition new_item (region name : string) (t : Technology.t) (a : Account.t) : Item.t :=
  Item.mk None region name None None None (Technology.id t) (Account.id a) None.

(** The item as [store] holds it before the commit. *)
Definition staged_item (ctype : string) (config : config) (arn : option string)
    (item : Item.t) : Item.t :=
  Item.set_latest_revision_durable_hash
    (Some (Hashing.durable_hash config (Hashing.ephemeral_paths_for_tech ctype)))
    (Item.set_latest_revision_complete_hash
       (Some (Hashing.hash_config config))
       (if truthy arn then Item.set_arn arn item else item)).

(** The revision that [store] hands to the commit. *)
Definition staged_revision (ephemeral active_flag : bool) (config : config) (t : Z)
    (latest : option ItemRevision.t) : option ItemRevision.t :=
  if ephemeral then
    match latest with
    | Some r => Some (ItemRevision.set_date_last_ephemeral_change (Some t)
                        (ItemRevision.set_config config r))
    | None => None
    end
  else Some (ItemRevision.mk None active_flag config None None None).

(** The issues of the item as [store] sees them. *)
Definition loaded_issues (d : database) (item : Item.t) : list ItemAudit.t :=
  match Item.id item with
  | None => []
  | Some _ => issues_of d item
  end.

Definition loaded_latest (d : database) (item : Item.t) : option ItemRevision.t :=
  match Item.id item with
  | None => None
  | Some _ => hd_error (revisions_of d item)
  end.

Definition newer_or_same (a b : ItemRevision.t) : Prop := (date_key b <= date_key a)%Z.

(** The row that a new revision becomes. *)
Definition inserted_revision (t : Z) (item_id : option nat) (rows : list ItemRevision.t)
    (r : ItemRevision.t) : ItemRevision.t :=
  ItemRevision.set_id (Some (next_id (map ItemRevision.id rows)))
    (ItemRevision.set_item_id item_id (ItemRevision.set_date_created (Some t) r)).

(** INSERT of an issue, on the rows of the table. *)
Definition insert_issue_row (item_id : option nat) (rows : list ItemAudit.t)
    (a : ItemAudit.t) : list ItemAudit.t :=
  rows ++ [ItemAudit.set_id (Some (next_id (map ItemAudit.id rows)))
             (ItemAudit.set_item_id item_id a)].

(** DELETE of an issue, on the rows of the table. *)
Definition delete_issue_row (rows : list ItemAudit.t) (a : ItemAudit.t) : list ItemAudit.t :=
  filter (fun a' => negb (opt_nat_eqb (ItemAudit.id a') (ItemAudit.id a))) rows.

(** The item resolved by a successful [store]: a row of the table, or a new
    item; [i] is the id under which it is stored afterwards. *)
Definition resolved (ctype region account name : string) (d : database)
    (item0 : Item.t) (i : nat) : Prop :=
  (Item_query_identity ctype region account name d = [item0] /\
   In item0 (items d) /\ Item.id item0 = Some i) \/
  (Item_query_identity ctype region account name d = [] /\
   Item.id item0 = None /\ Item.arn item0 = None /\
   i = next_id (map Item.id (items d))).

(** The query of [get_all_ctype_filtered] before [filter_by], and the
    keywords that [filter_by] gets. *)
Definition joined_query (tech account : option string) : query :=
  let query := Item_query in
  let query := if truthy tech then join_filter_technology (value tech) query
               else query in
  if truthy account then join_filter_account (value account) query else query.

Definition listing_kwargs (region name : option string) : list (string * option string) :=
  filter (fun kv => truthy (snd kv)) [("region", region); ("name", name)]%string.

(** The name that the criterion of the last join of [get_all_ctype_filtered]
    asks for: the [account] of the call, the [tech] in a call without
    [account]. *)
Definition joined_name (tech account : option string) : string :=
  if truthy account then value account else value tech.

(** An entry of the result, as the loop makes it. *)
Definition listed (include_inactive : bool) (d : database) (items : list Item.t)
    (x : Item.t * ItemRevision.t) : Prop :=
  In (fst x) items /\
  truthy_id (Item.latest_revision_id (fst x)) = true /\
  revision_get d (Item.latest_revision_id (fst x)) = Some (snd x) /\
  (include_inactive = false -> ItemRevision.active (snd x) = true).

(** Computations that leave the tables alone. *)
Definition reads_only {A : Type} (m : M A) : Prop :=
  forall w, db (snd (m w)) = db w.

(** Computations that have written nothing when they raise. *)
Definition raise_safe {A : Type} (m : M A) : Prop :=
  forall w e w1, m w = (Raise e, w1) -> db w1 = db w.

Definition hex_digits : list ascii :=
  ["0"; "1"; "2"; "3"; "4"; "5"; "6"; "7";
   "8"; "9"; "a"; "b"; "c"; "d"; "e"; "f"]%char.

Definition is_hex_string (s : string) : bool :=
  forallb (fun c => existsb (Ascii.eqb c) hex_digits) (list_ascii_of_string s).

(* ------------------------------------------------------------------ *)
(** ** Vocabulary of the further properties                             *)
(* ------------------------------------------------------------------ *)

(** [ForeignKey("technology.id"), nullable=False] on [Item.tech_id]. *)
Definition technology_key (d : database) : bool :=
  forallb (fun it => existsb (fun t => Nat.eqb (Technology.id t) (Item.tech_id it))
                             (technologies d))
          (items d).

(** UPDATE of the rows of the item with the id [i]. *)
Definition update_item (i : nat) (final : Item.t) (rows : list Item.t) : list Item.t :=
  map (fun r => if opt_nat_eqb (Item.id r) (Some i) then final else r) rows.

(** The row of the item after a successful [store]: [latest] is the
    revision that [_set_latest_revision] found. *)
Definition stored_item (ctype : string) (config : config) (arn : option string)
    (item0 : Item.t) (i : nat) (latest : ItemRevision.t) : Item.t :=
  Item.set_latest_revision_id (ItemRevision.id latest)
    (Item.set_id (Some i) (staged_item ctype config arn item0)).

(** The issues that the loop "Delete old issues" of a [store] on the item
    with the id [i] leaves in the table. *)
Definition kept (i : nat) (new_issues : list ItemAudit.t) (a : ItemAudit.t) : bool :=
  negb (opt_nat_eqb (ItemAudit.item_id a) (Some i))
  || key_in (issue_key a) new_issues.

(** No two issues of an item have the same key. *)
Definition keys_distinct (d : database) : bool :=
  forallb (fun it => nodupb (stored_keys d (Item.id it))) (items d).

(** The lookups of a revision by its id in a trace. *)
Definition is_revision_get (ev : event) : bool :=
  match ev with RoundTrip RevisionGet => true | _ => false end.

Definition revision_gets (t : list event) : nat :=
  List.length (filter is_revision_get t).

(** An optional argument that is false counts as absent. *)
Definition given (s : option string) : option string :=
  if truthy s then s else None.

(** Every pointer to a latest revision names a row. *)
Definition no_dangling (d : database) : bool :=
  forallb (fun it => negb (truthy_id (Item.latest_revision_id it))
                     || match revision_get d (Item.latest_revision_id it) with
                        | Some _ => true
                        | None => false
                        end)
          (items d).

(** The entry of an item in the result of the listing: none without a
    pointer, none for an inactive revision unless asked for. *)
Definition entry (d : database) (include_inactive : bool) (it : Item.t)
    : list (Item.t * ItemRevision.t) :=
  if truthy_id (Item.latest_revision_id it) then
    match revision_get d (Item.latest_revision_id it) with
    | Some rev =>
        if negb (ItemRevision.active rev) && negb include_inactive then []
        else [(it, rev)]
    | None => []
    end
  else [].

(** A pointer to a latest revision that names no row. *)
Definition dangling (d : database) (it : Item.t) : bool :=
  truthy_id (Item.latest_revision_id it)
  && match revision_get d (Item.latest_revision_id it) with
     | Some _ => false
     | None => true
     end.

(** [ExceptionLogs.ttl <= now]. *)
Definition expired (t : Z) (x : ExceptionLogs.t) : bool :=
  match ExceptionLogs.ttl x with
  | Some ttl => (ttl <=? t)%Z
  | None => false
  end.

(** A lookup by [one()] of [store_exception] finds no row, or several: the
    technology named by the first element of the location, or the account
    named by the second. *)
Definition lookup_fails (d : database) (location : list string) : bool :=
  match location with
  | [] => false
  | l0 :: ls =>
      negb (List.length (Technology_query_filter_name d l0) =? 1)
      || match ls with
         | l1 :: _ => negb (List.length (Account_query_filter_name d l1) =? 1)
         | [] => false
         end
  end.

(** The entry that [store_exception] adds to the session, with the ids
    that its lookups set. *)
Definition exception_entry (source : string) (location : list string) (exception : exn)
    (ttl : option Z) (w : world) : ExceptionLogs.t :=
  ExceptionLogs.mk
    None source ttl (type_name exception) (prefix 512 (str_exn exception))
    (format_exc w)
    (if (3 <=? List.length location)%nat
     then Some (nth 2 location EmptyString) else None)
    (match location with
     | [] => None
     | l0 :: _ => option_map Technology.id
                             (hd_error (Technology_query_filter_name (db w) l0))
     end)
    (if (List.length location =? 4)%nat
     then match hd_error (filter (fun it => String.eqb (Item.name it)
                                                       (nth 3 location EmptyString))
                                 (items (db w))) with
          | Some item => Item.id item
          | None => None
          end
     else None)
    (match location with
     | _ :: l1 :: _ => option_map Account.id
                                  (hd_error (Account_query_filter_name (db w) l1))
     | _ => None
     end).

(** Sample runs: a [store] of a new revision of the first item with one
    issue, the same [store] again, and a world with an entry in the
    exception log. *)
Definition sample_issues : list ItemAudit.t :=
  [Examples.issue None "Open port" "22/tcp" None].

Definition stored_once : world :=
  snd (store "securitygroup" "us-east-1" "acct1" "web-sg" true Examples.sg_y None
             sample_issues false Examples.w1).

Definition stored_twice : world :=
  snd (store "securitygroup" "us-east-1" "acct1" "web-sg" false Examples.sg_x None
             sample_issues true stored_once).

Definition sample_location : list string :=
  ["securitygroup"; "acct1"; "us-east-1"; "web-sg"]%string.

Definition logged_once : world :=
  snd (store_exception "watcher" sample_location (Exception "boom") (Some 150%Z)
                       Examples.w1).

(** The sample world with a pointer that names no revision. *)
Definition dangling_world : world :=
  mkWorld (set_items [Examples.item1;
                      Item.set_latest_revision_id (Some 9) Examples.item2;
                      Examples.item3] Examples.db1)
          [] 200%Z "Traceback" [].

(* ================================================================== *)
(** * Properties                                                        *)
(* ================================================================== *)

(** ** Sorting by a string key *)

Section SortBy.
Context {A : Type} (key : A -> string).

Lemma string_compare_OT (a b : string) :
  String.compare a b = OrdersEx.String_as_OT.compare a b.
Proof.
  revert b; induction a as [|c a IH]; intros [|c' b]; simpl; auto.
Qed.

Lemma string_leb_cases (a b : string) :
  (a <=? b)%string = true -> a = b \/ OrdersEx.String_as_OT.lt a b.
Proof.
  unfold String.leb. rewrite string_compare_OT.
  destruct (OrdersEx.String_as_OT.compare_spec a b); intro Hle; auto; discriminate.
Qed.

Lemma string_leb_trans (a b c : string) :
  (a <=? b)%string = true -> (b <=? c)%string = true -> (a <=? c)%string = true.
Proof.
  intros H1 H2. apply string_leb_cases in H1, H2.
  unfold String.leb. rewrite string_compare_OT.
  destruct (OrdersEx.String_as_OT.compare_spec a c) as [Eac|Lac|Gac]; auto.
  exfalso. apply (StrictOrder_Irreflexive c).
  destruct H1 as [->|Lab], H2 as [->|Lbc]; auto.
  - exact (StrictOrder_Transitive _ _ _ Gac Lbc).
  - exact (StrictOrder_Transitive _ _ _ Gac Lab).
  - exact (StrictOrder_Transitive _ _ _ Gac (StrictOrder_Transitive _ _ _ Lab Lbc)).
Qed.

Lemma insert_by_perm (x : A) (l : list A) :
  Permutation (x :: l) (insert_by key x l).
Proof.
  induction l as [|y l IH]; simpl; auto.
  destruct (key x <=? key y)%string; auto.
  rewrite perm_swap. constructor. exact IH.
Qed.

Lemma sort_by_perm (l : list A) : Permutation l (sort_by key l).
Proof.
  induction l as [|x l IH]; simpl; auto.
  rewrite <- insert_by_perm. constructor. exact IH.
Qed.

Lemma insert_by_sorted (x : A) (l : list A) :
  StronglySorted (key_le key) l -> StronglySorted (key_le key) (insert_by key x l).
Proof.
  induction 1 as [|y l Hs IH Hall]; simpl.
  - repeat constructor.
  - destruct (key x <=? key y)%string eqn:E.
    + constructor; [constructor; auto|].
      constructor; [exact E|].
      eapply Forall_impl; [|exact Hall].
      intros z Hz. unfold key_le in *. eapply string_leb_trans; eauto.
    + constructor; auto.
      assert (Hyx : key_le key y x).
      { unfold key_le. destruct (String.leb_total (key x) (key y)); congruence. }
      eapply Permutation_Forall; [apply insert_by_perm|].
      constructor; auto.
Qed.

Lemma sort_by_sorted (l : list A) : StronglySorted (key_le key) (sort_by key l).
Proof.
  induction l; simpl; [constructor | apply insert_by_sorted; assumption].
Qed.

(** Two sorted arrangements of the same elements are the same list, when
    the key tells the elements apart. *)
Lemma sorted_perm_unique (l1 l2 : list A) :
  (forall x y, In x l1 -> In y l1 -> key x = key y -> x = y) ->
  StronglySorted (key_le key) l1 -> StronglySorted (key_le key) l2 ->
  Permutation l1 l2 -> l1 = l2.
Proof.
  revert l2; induction l1 as [|a l1 IH]; intros l2 Hinj S1 S2 HP.
  - apply Permutation_nil in HP. auto.
  - destruct l2 as [|b l2].
    { apply Permutation_sym, Permutation_nil in HP. discriminate. }
    inversion S1 as [|? ? S1' F1]; inversion S2 as [|? ? S2' F2]; subst.
    assert (a = b) as ->.
    { assert (Hb : In b (a :: l1))
        by (eapply Permutation_in; [apply Permutation_sym; exact HP | left; auto]).
      assert (Ha : In a (b :: l2))
        by (eapply Permutation_in; [exact HP | left; auto]).
      destruct Hb as [Hb|Hb]; auto.
      destruct Ha as [Ha|Ha]; auto.
      apply Hinj; [left; auto | right; auto |].
      apply String.leb_antisym.
      - rewrite Forall_forall in F1. apply F1; auto.
      - rewrite Forall_forall in F2. apply F2; auto. }
    f_equal. apply IH; auto.
    + intros x y Hx Hy. apply Hinj; right; auto.
    + eapply Permutation_cons_inv; eauto.
Qed.

Lemma sort_by_perm_eq (l1 l2 : list A) :
  (forall x y, In x l1 -> In y l1 -> key x = key y -> x = y) ->
  Permutation l1 l2 -> sort_by key l1 = sort_by key l2.
Proof.
  intros Hinj HP. apply sorted_perm_unique; try apply sort_by_sorted.
  - intros x y Hx Hy.
    apply Hinj; (eapply Permutation_in; [apply Permutation_sym, sort_by_perm|]);
      assumption.
  - rewrite <- !sort_by_perm. exact HP.
Qed.

End SortBy.

(** Sorting by a key and then taking the keys is sorting the keys. *)
Lemma insert_by_map {A B : Type} (f : A -> B) (key : B -> string) (x : A) (l : list A) :
  map f (insert_by (fun a => key (f a)) x l) = insert_by key (f x) (map f l).
Proof.
  induction l as [|y l IH]; simpl; auto.
  destruct (key (f x) <=? key (f y))%string; simpl; congruence.
Qed.

Lemma sort_by_map {A B : Type} (f : A -> B) (key : B -> string) (l : list A) :
  map f (sort_by (fun a => key (f a)) l) = sort_by key (map f l).
Proof.
  induction l as [|x l IH]; simpl; auto.
  rewrite insert_by_map. congruence.
Qed.

(** ** The hashed text is independent of the order of keys and of mappings *)

Import Rel.

Lemma nodupb_NoDup (l : list string) : nodupb l = true <-> NoDup l.
Proof.
  induction l as [|x l IH]; simpl.
  - split; [constructor | reflexivity].
  - rewrite andb_true_iff, negb_true_iff, IH. split.
    + intros [Hx Hl]. constructor; auto. intro Hin.
      assert (existsb (String.eqb x) l = true); [|congruence].
      apply existsb_exists. exists x. split; auto. apply String.eqb_refl.
    + intro H. inversion H as [|? ? Hx Hl]; subst. split; auto.
      destruct (existsb (String.eqb x) l) eqn:E; auto.
      apply existsb_exists in E. destruct E as [y [Hy E]].
      apply String.eqb_eq in E. subst. contradiction.
Qed.

Lemma forallb_perm {A : Type} (f : A -> bool) (l1 l2 : list A) :
  Permutation l1 l2 -> forallb f l1 = forallb f l2.
Proof.
  induction 1; simpl; try congruence.
  destruct (f x), (f y); reflexivity.
Qed.

Lemma NoDup_fst_inj {A B : Type} (l : list (A * B)) :
  NoDup (map fst l) ->
  forall x y, In x l -> In y l -> fst x = fst y -> x = y.
Proof.
  induction l as [|a l IH]; simpl; intros Hnd x y Hx Hy E; [contradiction|].
  inversion Hnd as [|? ? Hna Hl]; subst.
  destruct Hx as [->|Hx], Hy as [->|Hy]; auto.
  - exfalso. apply Hna. rewrite E. apply in_map. exact Hy.
  - exfalso. apply Hna. rewrite <- E. apply in_map. exact Hx.
Qed.

Lemma canon_is_mapping (j : json) : is_mapping (Canon.canon j) = is_mapping j.
Proof.
  destruct j; simpl; auto.
  destruct (forallb is_mapping (map Canon.canon l)); reflexivity.
Qed.

Lemma forallb_is_mapping_canon (l : list json) :
  forallb is_mapping (map Canon.canon l) = forallb is_mapping l.
Proof.
  induction l as [|j l IH]; simpl; auto.
  rewrite canon_is_mapping, IH. reflexivity.
Qed.

(** The text of a canonical sequence, from the texts of its elements. *)
Lemma text_list (l : list json) :
  text (JList l) =
  ("[" ++ Json.join ", "
            (if forallb is_mapping l then sort_by (fun s => s) (map text l)
             else map text l) ++ "]")%string.
Proof.
  unfold text. simpl. rewrite forallb_is_mapping_canon.
  destruct (forallb is_mapping l); simpl.
  - rewrite (sort_by_map Json.dumps (fun s => s)), map_map. reflexivity.
  - rewrite map_map. reflexivity.
Qed.

(** The text of a canonical mapping, from the texts of its values. *)
Lemma text_dict (d : list (string * json)) :
  text (JDict d) =
  ("{" ++ Json.join ", " (map Json.dumps_item (sort_by fst (map text_item d)))
       ++ "}")%string.
Proof.
  unfold text. simpl. rewrite map_map. reflexivity.
Qed.

Lemma jequiv_text_all :
  (forall j1 j2, jequiv j1 j2 ->
     is_mapping j1 = is_mapping j2 /\
     (wf j1 = true -> wf j2 = true /\ text j1 = text j2)) /\
  (forall l1 l2, lequiv l1 l2 ->
     forallb is_mapping l1 = forallb is_mapping l2 /\
     (forallb wf l1 = true ->
      forallb wf l2 = true /\ map text l1 = map text l2)) /\
  (forall d1 d2, dequiv d1 d2 ->
     map fst d1 = map fst d2 /\
     (forallb (fun kv => wf (snd kv)) d1 = true ->
      forallb (fun kv => wf (snd kv)) d2 = true /\
      map text_item d1 = map text_item d2)).
Proof.
  apply jequiv_mutind.
  - intros j. auto.
  - intros j1 j2 j3 _ [M12 H12] _ [M23 H23]. split; [congruence|].
    intro W1. destruct (H12 W1) as [W2 T12]. destruct (H23 W2) as [W3 T23].
    split; congruence.
  - intros l1 l2 _ [M H]. split; auto.
    simpl. intro W1. destruct (H W1) as [W2 T]. split; auto.
    rewrite !text_list, M, T. reflexivity.
  - intros l1 l2 M HP. split; auto.
    simpl. intro W1. split.
    + rewrite <- (forallb_perm wf HP). exact W1.
    + rewrite !text_list, <- (forallb_perm is_mapping HP), M.
      rewrite (sort_by_perm_eq (fun s => s) (l2 := map text l2)); auto.
      apply Permutation_map. exact HP.
  - intros d1 d2 _ [K H]. split; auto.
    simpl. rewrite !andb_true_iff. intros [N1 W1]. destruct (H W1) as [W2 T].
    split; [split; congruence|].
    rewrite !text_dict, T. reflexivity.
  - intros d1 d2 HP. split; auto.
    simpl. rewrite !andb_true_iff. intros [N1 W1]. split; [split|].
    + apply nodupb_NoDup. apply nodupb_NoDup in N1.
      eapply Permutation_NoDup; [|exact N1]. apply Permutation_map. exact HP.
    + rewrite <- (forallb_perm _ HP). exact W1.
    + rewrite !text_dict.
      rewrite (sort_by_perm_eq fst (l2 := map text_item d2)); auto.
      * apply NoDup_fst_inj. rewrite map_map. simpl.
        apply nodupb_NoDup. exact N1.
      * apply Permutation_map. exact HP.
  - split; auto.
  - intros j1 j2 l1 l2 _ [M H] _ [Ml Hl]. split.
    + simpl. congruence.
    + simpl. rewrite !andb_true_iff. intros [W1 Wl1].
      destruct (H W1) as [W2 T]. destruct (Hl Wl1) as [Wl2 Tl].
      split; [split; auto | congruence].
  - split; auto.
  - intros k j1 j2 d1 d2 _ [M H] _ [Kd Hd]. split.
    + simpl. congruence.
    + simpl. rewrite !andb_true_iff. intros [W1 Wd1].
      destruct (H W1) as [W2 T]. destruct (Hd Wd1) as [Wd2 Td].
      split; [split; auto|]. unfold text_item at 1 3. simpl. congruence.
Qed.

(** The digest is always 32 characters long. *)
Lemma md5_hexdigest_length (s : string) :
  String.length (Md5.md5_hexdigest s) = 32.
Proof. reflexivity. Qed.

(** ** Deleting the elements matched by a pattern *)

Lemma sum_zero (l : list nat) :
  Dpath.sum l = 0 -> forall n, In n l -> n = 0.
Proof.
  induction l as [|x l IH]; simpl; intros H n Hn; [contradiction|].
  destruct Hn as [->|Hn]; [lia | apply IH; auto; lia].
Qed.

Lemma sum_le (l1 l2 : list nat) :
  Forall2 le l1 l2 -> Dpath.sum l1 <= Dpath.sum l2.
Proof. induction 1; simpl; lia. Qed.

Arguments Dpath.remove : simpl never.
Arguments Dpath.matches : simpl never.
Arguments differ_at : simpl never.

Lemma matches_key k rest d :
  Dpath.matches (Dpath.Key k :: rest) (JDict d) =
  Dpath.sum (map (fun kv => if String.eqb (fst kv) k then below rest (snd kv) else 0) d).
Proof. reflexivity. Qed.

Lemma matches_wild rest l :
  Dpath.matches (Dpath.Wild :: rest) (JList l) = Dpath.sum (map (below rest) l).
Proof. reflexivity. Qed.

Lemma remove_key_last k d :
  Dpath.remove [Dpath.Key k] (JDict d) = JDict (drop_key k d).
Proof. reflexivity. Qed.

Lemma remove_key_more k s rest d :
  Dpath.remove (Dpath.Key k :: s :: rest) (JDict d) =
  JDict (map (remove_under k (s :: rest)) d).
Proof. reflexivity. Qed.

Lemma remove_wild_last l : Dpath.remove [Dpath.Wild] (JList l) = JList [].
Proof. reflexivity. Qed.

Lemma remove_wild_more s rest l :
  Dpath.remove (Dpath.Wild :: s :: rest) (JList l) =
  JList (map (Dpath.remove (s :: rest)) l).
Proof. reflexivity. Qed.

(** The other combinations of a first segment and a tree match nothing and
    remove nothing. *)
Lemma matches_other s rest j :
  match s, j with
  | Dpath.Key _, JDict _ | Dpath.Wild, JList _ => False
  | _, _ => True
  end -> Dpath.matches (s :: rest) j = 0.
Proof. destruct s, j; intro H; try reflexivity; destruct H. Qed.

Lemma remove_other s rest j :
  match s, j with
  | Dpath.Key _, JDict _ | Dpath.Wild, JList _ => False
  | _, _ => True
  end -> Dpath.remove (s :: rest) j = j.
Proof. destruct s, j; intro H; try reflexivity; destruct H. Qed.

Lemma remove_nil j : Dpath.remove [] j = j.
Proof. reflexivity. Qed.

(** A pattern that matches nothing removes nothing. *)
Lemma remove_no_match (segs : list Dpath.segment) :
  forall j, Dpath.matches segs j = 0 -> Dpath.remove segs j = j.
Proof.
  induction segs as [|s rest IH]; intros j H; auto.
  destruct s as [|k], j; try (apply remove_other; exact I).
  - (* wildcard over a sequence *)
    rewrite matches_wild in H.
    destruct rest as [|s' rest'].
    + destruct l; auto. simpl in H. discriminate.
    + rewrite remove_wild_more. f_equal.
      rewrite <- (map_id l) at 2. apply map_ext_in. intros v Hv.
      apply IH. eapply (sum_zero _ H).
      apply in_map_iff. exists v. auto.
  - (* key of a mapping *)
    rewrite matches_key in H.
    destruct rest as [|s' rest'].
    + rewrite remove_key_last. f_equal.
      induction d as [|kv d IHd]; simpl in *; auto.
      destruct (String.eqb (fst kv) k); simpl in *; [discriminate|].
      f_equal. auto.
    + rewrite remove_key_more. f_equal.
      rewrite <- (map_id d) at 2. apply map_ext_in. intros kv Hkv.
      unfold remove_under.
      destruct (String.eqb (fst kv) k) eqn:E; auto.
      rewrite IH; [destruct kv; reflexivity|].
      eapply (sum_zero _ H).
      apply in_map_iff. exists kv. rewrite E. auto.
Qed.

Lemma sum_map_le {A : Type} (f g : A -> nat) (l : list A) :
  (forall x, In x l -> f x <= g x) ->
  Dpath.sum (map f l) <= Dpath.sum (map g l).
Proof.
  induction l as [|x l IH]; simpl; intro H; auto.
  specialize (H x (or_introl eq_refl)) as Hx.
  assert (Dpath.sum (map f l) <= Dpath.sum (map g l)) by (apply IH; auto).
  lia.
Qed.

Lemma sum_map_filter_le {A : Type} (f : A -> nat) (keep : A -> bool) (l : list A) :
  Dpath.sum (map f (filter keep l)) <= Dpath.sum (map f l).
Proof.
  induction l as [|x l IH]; simpl; auto.
  destruct (keep x); simpl; lia.
Qed.

(** Removing elements never makes a pattern match more. *)
Lemma matches_remove_le (p : list Dpath.segment) :
  forall q j, Dpath.matches p (Dpath.remove q j) <= Dpath.matches p j.
Proof.
  induction p as [|s rest IH]; intros q j; auto.
  assert (Hbelow : forall q v, below rest (Dpath.remove q v) <= below rest v).
  { intros q' v. unfold below. destruct rest; auto. }
  destruct q as [|t qrest]; auto.
  destruct t as [|k'], j; try (rewrite remove_other by exact I; auto).
  - (* [q] goes through a sequence *)
    destruct qrest as [|t' qrest'].
    + rewrite remove_wild_last.
      destruct s; [rewrite !matches_wild; simpl; lia | auto].
    + rewrite remove_wild_more.
      destruct s; [|auto].
      rewrite !matches_wild, map_map. apply sum_map_le. auto.
  - (* [q] goes through a mapping *)
    destruct qrest as [|t' qrest'].
    + rewrite remove_key_last.
      destruct s; [auto|].
      rewrite !matches_key. apply sum_map_filter_le.
    + rewrite remove_key_more.
      destruct s; [auto|].
      rewrite !matches_key, map_map. apply sum_map_le. intros kv _.
      unfold remove_under.
      destruct (String.eqb (fst kv) k'); cbn [fst snd]; auto.
      destruct (String.eqb (fst kv) k); auto.
Qed.

(** The result of a removal in a mapping is a mapping. *)
Lemma remove_dict (segs : list Dpath.segment) (d : config) :
  JDict (Dpath.as_config (Dpath.remove segs (JDict d)) d) =
  Dpath.remove segs (JDict d).
Proof.
  destruct segs as [|[|k] [|s rest]]; reflexivity.
Qed.

(** [delete_or_pass] removes what the pattern matches, found or not. *)
Lemma delete_or_pass_remove (c : config) (p : string) :
  JDict (Hashing.delete_or_pass c p) = Dpath.remove (Dpath.parse "$" p) (JDict c).
Proof.
  unfold Hashing.delete_or_pass, Dpath.delete.
  destruct (Nat.eqb_spec (Dpath.matches (Dpath.parse "$" p) (JDict c)) 0) as [E|E].
  - symmetry. apply remove_no_match. exact E.
  - apply remove_dict.
Qed.

Lemma durable_item_strip (paths : list string) (c : config) :
  JDict (Hashing.durable_item c paths) = strip_all paths (JDict c).
Proof.
  unfold Hashing.durable_item, Hashing.deepcopy, strip_all.
  revert c; induction paths as [|p paths IH]; intro c; simpl; auto.
  rewrite IH, delete_or_pass_remove. reflexivity.
Qed.

Lemma JDict_inj (c1 c2 : config) : JDict c1 = JDict c2 -> c1 = c2.
Proof. congruence. Qed.

Lemma strip_all_no_match (ps : list string) (p : list Dpath.segment) :
  forall j, Dpath.matches p j = 0 -> Dpath.matches p (strip_all ps j) = 0.
Proof.
  unfold strip_all.
  induction ps as [|q ps IH]; intros j H; simpl; auto.
  apply IH.
  pose proof (matches_remove_le p (Dpath.parse "$" q) j). lia.
Qed.

Lemma durable_item_missing (c : config) (ps1 ps2 : list string) (p : string) :
  Dpath.delete c p "$" = None ->
  Hashing.durable_item c (ps1 ++ p :: ps2) = Hashing.durable_item c (ps1 ++ ps2).
Proof.
  intro H. apply JDict_inj. rewrite !durable_item_strip.
  unfold strip_all. rewrite !fold_left_app. simpl. f_equal.
  apply remove_no_match. apply strip_all_no_match.
  unfold Dpath.delete in H.
  destruct (Nat.eqb_spec (Dpath.matches (Dpath.parse "$" p) (JDict c)) 0); auto.
  discriminate.
Qed.

(** ** Changes confined to the matched elements *)

Lemma differ_at_refl p j : differ_at p j j.
Proof. destruct p; left; reflexivity. Qed.

Lemma pair_eq {A B : Type} (a b : A * B) : fst a = fst b -> snd a = snd b -> a = b.
Proof. destruct a, b; simpl; congruence. Qed.

(** Removing the matched elements erases the difference. *)
Lemma differ_at_remove_eq (p : list Dpath.segment) :
  forall j1 j2, differ_at p j1 j2 -> Dpath.remove p j1 = Dpath.remove p j2.
Proof.
  induction p as [|s rest IH]; intros j1 j2 [->|H]; auto; try contradiction.
  destruct s as [|k], j1, j2; try contradiction.
  - destruct rest as [|s' rest']; [reflexivity|].
    rewrite !remove_wild_more. f_equal.
    induction H as [|v1 v2 l1 l2 Hv _ IHl]; simpl; f_equal; auto.
  - destruct rest as [|s' rest'].
    + rewrite !remove_key_last. unfold drop_key. f_equal. exact H.
    + rewrite !remove_key_more. f_equal.
      induction H as [|a b d1 d2 [Hk Hv] _ IHd]; simpl; f_equal; auto.
      unfold remove_under. rewrite <- Hk.
      destruct (String.eqb (fst a) k).
      * rewrite (IH _ _ Hv), Hk. reflexivity.
      * apply pair_eq; assumption.
Qed.

Lemma drop_key_comm k k' d : drop_key k (drop_key k' d) = drop_key k' (drop_key k d).
Proof.
  unfold drop_key. induction d as [|kv d IH]; simpl; auto.
  destruct (String.eqb (fst kv) k') eqn:E'; destruct (String.eqb (fst kv) k) eqn:E;
    simpl; rewrite ?E, ?E'; simpl; congruence.
Qed.

Lemma drop_key_remove_under k k' rest d :
  drop_key k (map (remove_under k' rest) d) = map (remove_under k' rest) (drop_key k d).
Proof.
  unfold drop_key. induction d as [|kv d IH]; simpl; auto.
  assert (E : fst (remove_under k' rest kv) = fst kv)
    by (unfold remove_under; destruct (String.eqb (fst kv) k'); reflexivity).
  rewrite E. destruct (String.eqb (fst kv) k); simpl; congruence.
Qed.

(** A removal applied to both sides keeps the difference confined. *)
Lemma differ_at_remove (p : list Dpath.segment) :
  forall q j1 j2,
    differ_at p j1 j2 -> differ_at p (Dpath.remove q j1) (Dpath.remove q j2).
Proof.
  induction p as [|s rest IH]; intros q j1 j2 [->|H];
    try apply differ_at_refl; try contradiction.
  destruct q as [|t qrest]; [right; exact H|].
  destruct s as [|k], j1, j2; try contradiction.
  - (* the pattern goes through a sequence *)
    destruct t as [|k']; [|right; exact H].
    right.
    destruct qrest as [|t' qrest'].
    + rewrite !remove_wild_last. destruct rest; [exact I | constructor].
    + rewrite !remove_wild_more. destruct rest as [|s' rest']; [exact I|].
      change (Forall2 (differ_at (s' :: rest')) l l0) in H.
      change (Forall2 (differ_at (s' :: rest'))
                (map (Dpath.remove (t' :: qrest')) l)
                (map (Dpath.remove (t' :: qrest')) l0)).
      induction H; simpl; constructor; auto.
  - (* the pattern goes through a mapping *)
    destruct t as [|k']; [right; exact H|].
    right.
    destruct qrest as [|t' qrest'].
    + rewrite !remove_key_last. destruct rest as [|s' rest'].
      * change (drop_key k (drop_key k' d) = drop_key k (drop_key k' d0)).
        change (drop_key k d = drop_key k d0) in H.
        rewrite (drop_key_comm k k' d), (drop_key_comm k k' d0), H. reflexivity.
      * unfold drop_key.
        induction H as [|a b d1 d2 [Hk Hv] _ IHd]; simpl; [constructor|].
        rewrite <- Hk. destruct (String.eqb (fst a) k'); simpl; auto.
    + rewrite !remove_key_more. destruct rest as [|s' rest'].
      * change (drop_key k (map (remove_under k' (t' :: qrest')) d) =
                drop_key k (map (remove_under k' (t' :: qrest')) d0)).
        change (drop_key k d = drop_key k d0) in H.
        rewrite !drop_key_remove_under, H. reflexivity.
      * induction H as [|a b d1 d2 [Hk Hv] _ IHd]; simpl; [constructor|].
        constructor; auto.
        unfold remove_under. rewrite <- Hk.
        destruct (String.eqb (fst a) k') eqn:E'; cbn [fst snd].
        -- split; [reflexivity|].
           destruct (String.eqb (fst a) k); [apply IH; exact Hv | congruence].
        -- split; [exact Hk | exact Hv].
Qed.

Lemma strip_all_differ (ps : list string) (p : list Dpath.segment) :
  forall j1 j2, differ_at p j1 j2 -> differ_at p (strip_all ps j1) (strip_all ps j2).
Proof.
  unfold strip_all.
  induction ps as [|q ps IH]; intros j1 j2 H; simpl; auto.
  apply IH. apply differ_at_remove. exact H.
Qed.

Lemma strip_all_differ_eq (ps : list string) (p : string) :
  In p ps ->
  forall j1 j2, differ_at (Dpath.parse "$" p) j1 j2 -> strip_all ps j1 = strip_all ps j2.
Proof.
  intros Hin j1 j2 H.
  apply in_split in Hin. destruct Hin as [ps1 [ps2 ->]].
  unfold strip_all. rewrite !fold_left_app. simpl. f_equal.
  apply differ_at_remove_eq. apply (strip_all_differ ps1). exact H.
Qed.

Lemma differ_only_durable_item (paths : list string) (c1 c2 : config) :
  differ_only paths c1 c2 ->
  Hashing.durable_item c1 paths = Hashing.durable_item c2 paths.
Proof.
  induction 1 as [|p c1 c2 c3 Hin Hd _ IH]; auto.
  rewrite <- IH. apply JDict_inj. rewrite !durable_item_strip.
  eapply strip_all_differ_eq; eauto.
Qed.

(** ** Runs of the world monad *)

Import World Store.

Arguments Hashing.hash_config : simpl never.
Arguments Hashing.durable_hash : simpl never.

Lemma bind_ok {A B : Type} (m : M A) (f : A -> M B) (w w' : world) (b : B) :
  bind m f w = (Ok b, w') ->
  exists a w1, m w = (Ok a, w1) /\ f a w1 = (Ok b, w').
Proof.
  unfold bind. destruct (m w) as [[a|e] w1]; intro H; [eauto | discriminate].
Qed.

Lemma bind_run {A B : Type} (m : M A) (f : A -> M B) (w w1 : world) (a : A) :
  m w = (Ok a, w1) -> bind m f w = f a w1.
Proof. unfold bind. intros ->. reflexivity. Qed.

Lemma bind_raise {A B : Type} (m : M A) (f : A -> M B) (w w1 : world) (e : exn) :
  m w = (Raise e, w1) -> bind m f w = (Raise e, w1).
Proof. unfold bind. intros ->. reflexivity. Qed.

(** A round trip leaves the tables and the clock alone, whatever its outcome. *)
Lemma round_trip_frame (op : dbop) (w w' : world) (r : result unit) :
  round_trip op w = (r, w') ->
  db w' = db w /\ now w' = now w /\ format_exc w' = format_exc w.
Proof.
  unfold round_trip.
  destruct (faults w) as [|[e|] rest]; intro H; inversion H; subst; auto.
Qed.

(** With no fault pending a round trip goes through. *)
Lemma round_trip_no_fault (op : dbop) (w : world) :
  faults w = [] -> round_trip op w = (Ok tt, emit (RoundTrip op) w).
Proof. unfold round_trip. intros ->. reflexivity. Qed.

(** A read that went through its flush is the read, and the ARN was free. *)
Lemma autoflush_ok {A : Type} (item : Item.t) (op : dbop) (read : M A) w w' (a : A) :
  autoflush item op read w = (Ok a, w') ->
  read w = (Ok a, w') /\ (Item.id item <> None -> arn_taken (db w) item = false).
Proof.
  unfold autoflush. destruct (Item.id item) as [i|].
  - unfold bind at 1, gets. destruct (arn_taken (db w) item).
    + unfold bind. destruct (round_trip op w) as [[u|e] w1]; discriminate.
    + auto.
  - intro H. split; [exact H | congruence].
Qed.

(** With a free ARN the flush goes through: the read is made. *)
Lemma autoflush_free {A : Type} (item : Item.t) (op : dbop) (read : M A) w :
  arn_taken (db w) item = false -> autoflush item op read w = read w.
Proof.
  intro H. unfold autoflush. destruct (Item.id item); [|reflexivity].
  unfold bind, gets. rewrite H. reflexivity.
Qed.

(** With the ARN taken the flush of a row fails, and the read is not made. *)
Lemma autoflush_taken {A : Type} (item : Item.t) (op : dbop) (read : M A) w :
  Item.id item <> None -> arn_taken (db w) item = true -> faults w = [] ->
  autoflush item op read w = (Raise unique_violation, emit (RoundTrip op) w).
Proof.
  intros Hid H Hf. unfold autoflush. destruct (Item.id item); [|congruence].
  unfold bind at 1, gets. rewrite H.
  rewrite (bind_run _ _ _ (round_trip_no_fault op w Hf)). reflexivity.
Qed.

(** An object that was never flushed is not flushed by a query. *)
Lemma autoflush_new {A : Type} (item : Item.t) (op : dbop) (read : M A) :
  Item.id item = None -> autoflush item op read = read.
Proof. intro H. unfold autoflush. rewrite H. reflexivity. Qed.

Lemma first_ok {A : Type} (op : dbop) (rows : database -> list A) w w' x :
  first op rows w = (Ok x, w') ->
  x = hd_error (rows (db w)) /\ db w' = db w /\ now w' = now w.
Proof.
  unfold first. intro H. apply bind_ok in H as (u & w1 & H1 & H2).
  apply round_trip_frame in H1 as (Hd & Hn & _).
  unfold gets in H2. inversion H2; subst. rewrite Hd. auto.
Qed.

Lemma all_ok {A : Type} (op : dbop) (rows : database -> list A) w w' l :
  all op rows w = (Ok l, w') ->
  l = rows (db w) /\ db w' = db w /\ now w' = now w.
Proof.
  unfold all. intro H. apply bind_ok in H as (u & w1 & H1 & H2).
  apply round_trip_frame in H1 as (Hd & Hn & _).
  unfold gets in H2. inversion H2; subst. rewrite Hd. auto.
Qed.

Lemma first_no_fault {A : Type} (op : dbop) (rows : database -> list A) w :
  faults w = [] ->
  first op rows w = (Ok (hd_error (rows (db w))), emit (RoundTrip op) w).
Proof.
  intro H. unfold first. rewrite (bind_run _ _ _ (round_trip_no_fault op w H)).
  reflexivity.
Qed.

Lemma all_no_fault {A : Type} (op : dbop) (rows : database -> list A) w :
  faults w = [] ->
  all op rows w = (Ok (rows (db w)), emit (RoundTrip op) w).
Proof.
  intro H. unfold all. rewrite (bind_run _ _ _ (round_trip_no_fault op w H)).
  reflexivity.
Qed.

(** ** Item resolution *)

Lemma joins_account_exists (d : database) (account : string) (it : Item.t) :
  joins_account d account it = true -> Account_query_filter_name d account <> [].
Proof.
  unfold joins_account, Account_query_filter_name. intro H.
  apply existsb_exists in H. destruct H as [a [Ha H]].
  apply andb_true_iff in H. destruct H as [_ H].
  intro E. assert (Hin : In a (filter (fun a => String.eqb (Account.name a) account)
                                      (accounts d)))
    by (apply filter_In; auto).
  rewrite E in Hin. exact Hin.
Qed.

(** An item can only match an identity whose account exists. *)
Lemma identity_match_account technology region account name d it :
  In it (Item_query_identity technology region account name d) ->
  Account_query_filter_name d account <> [].
Proof.
  unfold Item_query_identity. intro H. apply filter_In in H. destruct H as [_ H].
  repeat (apply andb_true_iff in H; destruct H as [H ?]).
  eapply joins_account_exists; eauto.
Qed.

Lemma commit_technology_no_fault (name : string) (w : world) :
  faults w = [] ->
  commit_technology name w =
  (Ok (new_technology (db w) name),
   set_db (set_technologies (technologies (db w) ++ [new_technology (db w) name]) (db w))
          (emit (RoundTrip Commit) w)).
Proof.
  intro H. unfold commit_technology.
  rewrite (bind_run _ _ _ (round_trip_no_fault Commit w H)). reflexivity.
Qed.

(** The outcome of [_get_item] when the storage layer does not fail. *)
Lemma _get_item_no_fault technology region account name (w : world) :
  faults w = [] ->
  exists w',
    db w' = (match Account_query_filter_name (db w) account,
                   Item_query_identity technology region account name (db w) with
             | _ :: _, [] => snd (resolve_technology (db w) technology)
             | _, _ => db w
             end) /\
    now w' = now w /\ faults w' = [] /\
    _get_item technology region account name w =
    (match Account_query_filter_name (db w) account with
     | [] => Raise (account_not_found account)
     | account_result :: _ =>
         match Item_query_identity technology region account name (db w) with
         | [] => Ok (new_item region name
                       (fst (resolve_technology (db w) technology)) account_result)
         | [item] => Ok item
         | _ :: _ :: _ => Raise (multiple_items technology region account name)
         end
     end, w').
Proof.
  intro Hf. unfold _get_item.
  rewrite (bind_run _ _ _ (first_no_fault AccountFirst _ w Hf)).
  destruct (Account_query_filter_name (db w) account) as [|a accs] eqn:Ea; simpl.
  { eexists; (split; [|split; [|split]]); [..|reflexivity]; auto. }
  set (w1 := emit (RoundTrip AccountFirst) w).
  assert (Hf1 : faults w1 = []) by exact Hf.
  rewrite (bind_run _ _ _ (all_no_fault ItemJoinAll _ w1 Hf1)).
  change (db w1) with (db w).
  destruct (Item_query_identity technology region account name (db w))
    as [|it [|it' its]] eqn:Ei; simpl.
  - set (w2 := emit (RoundTrip ItemJoinAll) w1).
    assert (Hf2 : faults w2 = []) by exact Hf.
    rewrite (bind_run _ _ _ (first_no_fault TechnologyFirst _ w2 Hf2)).
    change (db w2) with (db w). unfold resolve_technology.
    destruct (Technology_query_filter_name (db w) technology) as [|t ts] eqn:Et; simpl.
    + set (w3 := emit (RoundTrip TechnologyFirst) w2).
      assert (Hf3 : faults w3 = []) by exact Hf.
      unfold bind at 1. unfold bind at 1.
      rewrite (commit_technology_no_fault technology w3 Hf3).
      eexists; (split; [|split; [|split]]); [..|reflexivity]; auto.
    + eexists; (split; [|split; [|split]]); [..|reflexivity]; auto.
  - eexists; (split; [|split; [|split]]); [..|reflexivity]; auto.
  - eexists; (split; [|split; [|split]]); [..|reflexivity]; auto.
Qed.

Lemma account_not_found_not_multiple account technology region account' name :
  account_not_found account <> multiple_items technology region account' name.
Proof. unfold account_not_found, multiple_items. simpl. discriminate. Qed.

Lemma Technology_query_filter_name_spec d technology t :
  In t (Technology_query_filter_name d technology) ->
  In t (technologies d) /\ Technology.name t = technology.
Proof.
  unfold Technology_query_filter_name. intro H. apply filter_In in H.
  destruct H as [H E]. apply String.eqb_eq in E. auto.
Qed.

Lemma Account_query_filter_name_spec d account a :
  In a (Account_query_filter_name d account) ->
  In a (accounts d) /\ Account.name a = account.
Proof.
  unfold Account_query_filter_name. intro H. apply filter_In in H.
  destruct H as [H E]. apply String.eqb_eq in E. auto.
Qed.

Lemma resolve_technology_spec d technology :
  let t := fst (resolve_technology d technology) in
  let d' := snd (resolve_technology d technology) in
  In t (technologies d') /\ Technology.name t = technology /\
  items d' = items d /\ accounts d' = accounts d /\
  technologies d' =
  (if existsb (fun t => String.eqb (Technology.name t) technology) (technologies d)
   then technologies d
   else technologies d ++ [new_technology d technology]).
Proof.
  unfold resolve_technology.
  destruct (Technology_query_filter_name d technology) as [|t ts] eqn:E; simpl.
  - repeat split; auto.
    + apply in_or_app. right. left. reflexivity.
    + destruct (existsb _ (technologies d)) eqn:X; auto.
      apply existsb_exists in X. destruct X as [t [Hin Ht]].
      assert (In t (Technology_query_filter_name d technology))
        by (apply filter_In; auto).
      rewrite E in H. contradiction.
  - assert (Hin : In t (Technology_query_filter_name d technology))
      by (rewrite E; left; reflexivity).
    apply Technology_query_filter_name_spec in Hin. destruct Hin as [Hin Hn].
    repeat split; auto.
    assert (X : existsb (fun t => String.eqb (Technology.name t) technology)
                        (technologies d) = true).
    { apply existsb_exists. exists t. split; auto. apply String.eqb_eq. exact Hn. }
    rewrite X. reflexivity.
Qed.

Ltac get_item_cases :=
  repeat match goal with
         | |- _ /\ _ => split
         | |- _ <-> _ => split
         | |- forall _, _ => intro
         end;
  try solve
    [ reflexivity | discriminate | congruence | simpl in *; lia
    | match goal with
      | H : Raise _ = Raise _ |- _ =>
          injection H as H;
          (apply account_not_found_not_multiple in H
           || (symmetry in H; apply account_not_found_not_multiple in H));
          contradiction
      end ].

(** C6. Item resolution, when the storage layer does not fail: the account-
    not-found exception is raised exactly when no account has the name; the
    multiple-items exception exactly when the identity tuple matches more
    than one stored item; a single match is returned and nothing is
    written; with no match a new, unsaved item is returned, bound to the
    account and to the technology row of the kind, which is created when
    the kind is seen for the first time.  What [_get_item] raises, [store],
    [get] and [get_audit_issues] raise. *)
Theorem get_item_resolution (technology region account name : string) (w : world) :
  faults w = [] ->
  let found := Item_query_identity technology region account name (db w) in
  let r := fst (_get_item technology region account name w) in
  let d' := db (snd (_get_item technology region account name w)) in
  ((r = Raise (account_not_found account) <->
   Account_query_filter_name (db w) account = []) /\
  (r = Raise (multiple_items technology region account name) <->
   1 < List.length found) /\
  (forall item, found = [item] -> r = Ok item /\ d' = db w) /\
  (found = [] -> Account_query_filter_name (db w) account <> [] ->
   exists item t a,
     r = Ok item /\
     Item.id item = None /\ items d' = items (db w) /\
     Item.region item = region /\ Item.name item = name /\
     In a (accounts (db w)) /\ Account.name a = account /\
     Item.account_id item = Account.id a /\
     In t (technologies d') /\ Technology.name t = technology /\
     Item.tech_id item = Technology.id t /\
     technologies d' =
     (if existsb (fun t => String.eqb (Technology.name t) technology)
                 (technologies (db w))
      then technologies (db w)
      else technologies (db w) ++ [new_technology (db w) technology]))) /\
  (forall e, r = Raise e ->
   (forall active_flag config arn new_issues ephemeral,
       fst (store technology region account name active_flag config arn
                  new_issues ephemeral w) = Raise e) /\
   fst (get technology region account name w) = Raise e /\
   fst (get_audit_issues technology region account name w) = Raise e).
Proof.
  intros Hf found r d'. subst r d'.
  split; cycle 1.
  { intros e He. unfold store, get, get_audit_issues, bind.
    destruct (_get_item technology region account name w) as [r0 w0].
    cbn [fst] in He. subst r0. repeat split; reflexivity. }
  destruct (_get_item_no_fault technology region account name w Hf)
    as (w' & Hd & _ & _ & ->). simpl fst. simpl snd. rewrite Hd. clear Hd w'.
  fold found.
  assert (Hacc : forall it, In it found -> Account_query_filter_name (db w) account <> [])
    by (intros it; apply identity_match_account).
  destruct (Account_query_filter_name (db w) account) as [|a accs] eqn:Ea.
  - (* no such account *)
    destruct found as [|it its] eqn:Ef.
    + get_item_cases.
    + exfalso. apply (Hacc it); [left|]; reflexivity.
  - (* the account exists *)
    assert (Ha : In a (Account_query_filter_name (db w) account))
      by (rewrite Ea; left; reflexivity).
    apply Account_query_filter_name_spec in Ha. destruct Ha as [Ha Hn].
    destruct found as [|it [|it' its]] eqn:Ef; get_item_cases.
    destruct (resolve_technology_spec (db w) technology) as (Ht & Htn & Hi & _ & Hts).
    exists (new_item region name (fst (resolve_technology (db w) technology)) a),
      (fst (resolve_technology (db w) technology)), a.
    repeat split; auto.
Qed.

(** ** Successful runs of [_get_item] and [store] *)

Lemma ret_ok {A : Type} (a b : A) (w w' : world) :
  ret a w = (Ok b, w') -> a = b /\ w' = w.
Proof. unfold ret. intro H. inversion H. auto. Qed.

Lemma gets_ok {A : Type} (f : world -> A) (b : A) (w w' : world) :
  gets f w = (Ok b, w') -> b = f w /\ w' = w.
Proof. unfold gets. intro H. inversion H. auto. Qed.

Lemma commit_technology_ok (name : string) (w w' : world) (t : Technology.t) :
  commit_technology name w = (Ok t, w') ->
  t = new_technology (db w) name /\
  db w' = set_technologies (technologies (db w) ++ [t]) (db w) /\
  now w' = now w.
Proof.
  unfold commit_technology. intro H.
  apply bind_ok in H as (u & w1 & H1 & H).
  apply round_trip_frame in H1 as (Hd & Hn & _).
  apply bind_ok in H as (d & w2 & H2 & H). apply gets_ok in H2 as [-> ->].
  apply bind_ok in H as (u' & w3 & H3 & H). apply ret_ok in H as [<- ->].
  unfold modify_db in H3. inversion H3; subst. simpl. rewrite Hd, Hn. auto.
Qed.

(** What [_get_item] returned, when it returned: the single match, or the
    scaffold of a new item. *)
Lemma _get_item_ok technology region account name (w w' : world) (item : Item.t) :
  _get_item technology region account name w = (Ok item, w') ->
  now w' = now w /\
  ((Item_query_identity technology region account name (db w) = [item] /\
    db w' = db w) \/
   (Item_query_identity technology region account name (db w) = [] /\
    exists a, hd_error (Account_query_filter_name (db w) account) = Some a /\
              item = new_item region name (fst (resolve_technology (db w) technology)) a /\
              db w' = snd (resolve_technology (db w) technology))).
Proof.
  unfold _get_item. intro H.
  apply bind_ok in H as (acc & w1 & H1 & H).
  apply first_ok in H1 as (-> & Hd1 & Hn1).
  destruct (hd_error (Account_query_filter_name (db w) account)) as [a|] eqn:Ea;
    [|discriminate].
  apply bind_ok in H as (found & w2 & H2 & H).
  apply all_ok in H2 as (-> & Hd2 & Hn2). rewrite Hd1 in *.
  destruct (Item_query_identity technology region account name (db w))
    as [|it [|it' its]] eqn:Ei; simpl in H; try discriminate.
  - (* no match: a new item *)
    apply bind_ok in H as (t0 & w3 & H3 & H).
    apply first_ok in H3 as (-> & Hd3 & Hn3).
    apply bind_ok in H as (t & w4 & H4 & H).
    apply ret_ok in H as [<- ->].
    rewrite Hd2 in *. unfold resolve_technology.
    destruct (Technology_query_filter_name (db w) technology) as [|t' ts]; simpl in *.
    + apply bind_ok in H4 as (t1 & w5 & H5 & H4).
      apply commit_technology_ok in H5 as (-> & Hd5 & Hn5).
      apply bind_ok in H4 as (u & w6 & H6 & H4).
      apply ret_ok in H4 as [<- ->].
      unfold tell in H6. inversion H6; subst. simpl.
      rewrite Hd3 in *. split; [congruence|]. right. split; auto.
      exists a. auto.
    + apply ret_ok in H4 as [<- ->].
      split; [congruence|]. right. split; auto. exists a. split; auto.
  - apply ret_ok in H as [<- ->]. split; [congruence|]. left. split; congruence.
Qed.

Lemma staged_item_id ctype config arn item :
  Item.id (staged_item ctype config arn item) = Item.id item.
Proof. unfold staged_item. destruct (truthy arn); reflexivity. Qed.

Lemma staged_item_arn ctype config arn item :
  Item.arn (staged_item ctype config arn item) =
  if truthy arn then arn else Item.arn item.
Proof. unfold staged_item. destruct (truthy arn); reflexivity. Qed.

Lemma revisions_of_id d i1 i2 :
  Item.id i1 = Item.id i2 -> revisions_of d i1 = revisions_of d i2.
Proof. unfold revisions_of. intros ->. reflexivity. Qed.

Lemma issues_of_id d i1 i2 :
  Item.id i1 = Item.id i2 -> issues_of d i1 = issues_of d i2.
Proof. unfold issues_of. intros ->. reflexivity. Qed.

Lemma revisions_first_ok item w w' r :
  revisions_first item w = (Ok r, w') ->
  r = (match Item.id item with
       | None => None
       | Some _ => hd_error (revisions_of (db w) item)
       end) /\ db w' = db w /\ now w' = now w.
Proof.
  unfold revisions_first. destruct (Item.id item).
  - intro H. apply first_ok in H. exact H.
  - intro H. apply ret_ok in H as [<- ->]. auto.
Qed.

Lemma load_issues_ok item w w' l :
  load_issues item w = (Ok l, w') ->
  l = (match Item.id item with
       | None => []
       | Some _ => issues_of (db w) item
       end) /\ db w' = db w /\ now w' = now w.
Proof.
  unfold load_issues. destruct (Item.id item).
  - intro H. apply all_ok in H. exact H.
  - intro H. apply ret_ok in H as [<- ->]. auto.
Qed.

Lemma commit_store_ok item item_revision added deleted w w' item' :
  commit_store item item_revision added deleted w = (Ok item', w') ->
  arn_taken (db w) item = false /\
  flush_store (now w) item item_revision added deleted (db w) = (item', db w') /\
  now w' = now w.
Proof.
  unfold commit_store. intro H.
  apply bind_ok in H as (u & w1 & H1 & H).
  apply round_trip_frame in H1 as (Hd & Hn & _).
  apply bind_ok in H as (taken & w2 & H2 & H). apply gets_ok in H2 as [-> ->].
  rewrite Hd in H. destruct (arn_taken (db w) item); [discriminate|].
  apply bind_ok in H as (t & w3 & H3 & H). apply gets_ok in H3 as [-> ->].
  apply bind_ok in H as (d & w4 & H4 & H). apply gets_ok in H4 as [-> ->].
  rewrite Hd, Hn in H.
  destruct (flush_store (now w) item item_revision added deleted (db w)) as [i d'].
  apply bind_ok in H as (u' & w5 & H5 & H). apply ret_ok in H as [<- ->].
  unfold modify_db in H5. inversion H5; subst. simpl. auto.
Qed.

Lemma commit_item_ok item w w' item' :
  commit_item item w = (Ok item', w') ->
  arn_taken (db w) item = false /\
  flush_item item (db w) = (item', db w') /\ now w' = now w.
Proof.
  unfold commit_item. intro H.
  apply bind_ok in H as (u & w1 & H1 & H).
  apply round_trip_frame in H1 as (Hd & Hn & _).
  apply bind_ok in H as (taken & w2 & H2 & H). apply gets_ok in H2 as [-> ->].
  rewrite Hd in H. destruct (arn_taken (db w) item); [discriminate|].
  apply bind_ok in H as (d & w4 & H4 & H). apply gets_ok in H4 as [-> ->].
  rewrite Hd in H.
  destruct (flush_item item (db w)) as [i d'].
  apply bind_ok in H as (u' & w5 & H5 & H). apply ret_ok in H as [<- ->].
  unfold modify_db in H5. inversion H5; subst. simpl. auto.
Qed.

Lemma _set_latest_revision_ok item w w' :
  _set_latest_revision item w = (Ok tt, w') ->
  exists latest,
    Item.id item <> None /\
    hd_error (revisions_of (db w) item) = Some latest /\
    db w' = snd (flush_item (Item.set_latest_revision_id (ItemRevision.id latest) item)
                            (db w)) /\
    now w' = now w.
Proof.
  unfold _set_latest_revision. intro H.
  apply bind_ok in H as (r & w1 & H1 & H).
  apply revisions_first_ok in H1 as (-> & Hd & Hn).
  destruct (Item.id item) as [i|] eqn:Ei; [|discriminate].
  destruct (hd_error (revisions_of (db w) item)) as [latest|]; [|discriminate].
  apply bind_ok in H as (item' & w2 & H2 & H). apply ret_ok in H as [_ ->].
  apply commit_item_ok in H2 as (_ & Hfl & Hn2). rewrite Hd in Hfl.
  exists latest. rewrite Hfl. simpl. repeat split; try congruence.
Qed.

(** A successful [store], step by step. *)
Lemma store_ok ctype region account name active_flag config arn new_issues ephemeral
    (w w' : world) :
  store ctype region account name active_flag config arn new_issues ephemeral w
  = (Ok tt, w') ->
  exists item0 w0 item_revision item1 d1 latest,
    _get_item ctype region account name w = (Ok item0, w0) /\
    staged_revision ephemeral active_flag config (now w) (loaded_latest (db w0) item0)
    = Some item_revision /\
    let st := fold_left add_new_issue new_issues (loaded_issues (db w0) item0, []) in
    arn_taken (db w0) (staged_item ctype config arn item0) = false /\
    flush_store (now w) (staged_item ctype config arn item0) item_revision
                (snd st) (delete_old_issues (fst st) new_issues) (db w0)
    = (item1, d1) /\
    Item.id item1 <> None /\
    hd_error (revisions_of d1 item1) = Some latest /\
    db w' = snd (flush_item (Item.set_latest_revision_id (ItemRevision.id latest) item1) d1) /\
    now w' = now w.
Proof.
  unfold store. intro H.
  apply bind_ok in H as (item0 & w0 & Hget & H).
  pose proof (@_get_item_ok _ _ _ _ _ _ _ Hget) as [Hn0 _].
  fold (staged_item ctype config arn item0) in H.
  apply bind_ok in H as (item_revision & w1 & Hrev & H).
  assert (Hrev' : staged_revision ephemeral active_flag config (now w)
                                  (loaded_latest (db w0) item0) = Some item_revision
                  /\ db w1 = db w0 /\ now w1 = now w0).
  { unfold staged_revision, loaded_latest. destruct ephemeral.
    - apply bind_ok in Hrev as (r & w2 & H2 & Hrev).
      apply autoflush_ok in H2 as [H2 _].
      apply revisions_first_ok in H2 as (-> & Hd2 & Hn2).
      rewrite staged_item_id in *.
      rewrite (@revisions_of_id (db w0) _ _ (staged_item_id ctype config arn item0)) in Hrev.
      destruct (Item.id item0); [|discriminate].
      destruct (hd_error (revisions_of (db w0) item0)); [|discriminate].
      apply bind_ok in Hrev as (t0 & w3 & H3 & Hrev). apply gets_ok in H3 as [-> ->].
      apply ret_ok in Hrev as [<- ->]. repeat split; congruence.
    - apply ret_ok in Hrev as [<- ->]. auto. }
  destruct Hrev' as (Hsr & Hd1 & Hn1). clear Hrev.
  apply bind_ok in H as (issues0 & w2 & Hload & H).
  apply autoflush_ok in Hload as [Hload _].
  apply load_issues_ok in Hload as (-> & Hd2 & Hn2).
  rewrite staged_item_id, (@issues_of_id (db w1) _ _ (staged_item_id ctype config arn item0)),
    Hd1 in H.
  fold (loaded_issues (db w0) item0) in H.
  destruct (fold_left add_new_issue new_issues (loaded_issues (db w0) item0, []))
    as [item_issues added] eqn:Est.
  apply bind_ok in H as (item1 & w3 & Hcommit & H).
  apply commit_store_ok in Hcommit as (Htaken & Hflush & Hn3).
  apply _set_latest_revision_ok in H as (latest & Hid & Hlatest & Hd' & Hn').
  exists item0, w0, item_revision, item1, (db w3), latest.
  simpl. rewrite Hd2, Hd1 in *. rewrite Hn2, Hn1, Hn0 in *.
  rewrite Est. simpl. repeat split; auto; congruence.
Qed.

(** ** Rows, keys and the order of the revisions *)

Import Schema.

Lemma opt_nat_eqb_eq (a b : option nat) : opt_nat_eqb a b = true <-> a = b.
Proof.
  destruct a as [x|], b as [y|]; simpl; split; intro H;
    try discriminate; try reflexivity.
  - apply Nat.eqb_eq in H. congruence.
  - injection H as ->. apply Nat.eqb_refl.
Qed.

Lemma opt_nat_eqb_refl (a : option nat) : opt_nat_eqb a a = true.
Proof. apply opt_nat_eqb_eq. reflexivity. Qed.

Lemma opt_nat_eqb_neq (a b : option nat) : opt_nat_eqb a b = false <-> a <> b.
Proof.
  split.
  - intros H E. apply opt_nat_eqb_eq in E. congruence.
  - intro H. destruct (opt_nat_eqb a b) eqn:E; auto.
    apply opt_nat_eqb_eq in E. contradiction.
Qed.

Lemma max_id_ge (ids : list (option nat)) (n : nat) :
  In (Some n) ids -> n <= max_id ids.
Proof.
  induction ids as [|[m|] ids IH]; simpl; intro H; try contradiction.
  - destruct H as [H|H]; [injection H as ->; lia | apply IH in H; lia].
  - destruct H as [H|H]; [discriminate | auto].
Qed.

(** The next id is not in use. *)
Lemma next_id_fresh (ids : list (option nat)) : ~ In (Some (next_id ids)) ids.
Proof.
  unfold next_id. intro H. apply max_id_ge in H. lia.
Qed.

Lemma insert_desc_perm r l : Permutation (r :: l) (insert_desc r l).
Proof.
  induction l as [|r' l IH]; simpl; auto.
  destruct (date_key r' <=? date_key r)%Z; auto.
  rewrite perm_swap. constructor. exact IH.
Qed.

Lemma order_by_perm l : Permutation l (order_by_date_created_desc l).
Proof.
  induction l as [|r l IH]; simpl; auto.
  rewrite <- insert_desc_perm. constructor. exact IH.
Qed.

Lemma insert_desc_sorted r l :
  StronglySorted newer_or_same l -> StronglySorted newer_or_same (insert_desc r l).
Proof.
  induction 1 as [|r' l Hs IH Hall]; simpl.
  - repeat constructor.
  - destruct (Z.leb_spec (date_key r') (date_key r)) as [E|E].
    + constructor; [constructor; auto|].
      constructor; [exact E|].
      eapply Forall_impl; [|exact Hall].
      intros z Hz. unfold newer_or_same in *. lia.
    + constructor; auto.
      eapply Permutation_Forall; [apply insert_desc_perm|].
      constructor; auto. unfold newer_or_same. lia.
Qed.

Lemma order_by_sorted l : StronglySorted newer_or_same (order_by_date_created_desc l).
Proof.
  induction l; simpl; [constructor | apply insert_desc_sorted; assumption].
Qed.

(** [first()] on the revisions of an item is one of its rows, and none of
    its rows is more recent. *)
Lemma revisions_first_most_recent d item r :
  hd_error (revisions_of d item) = Some r ->
  In r (revisions d) /\ ItemRevision.item_id r = Item.id item /\
  forall r', In r' (revisions d) -> ItemRevision.item_id r' = Item.id item ->
             (date_key r' <= date_key r)%Z.
Proof.
  unfold revisions_of. intro H.
  set (rows := filter (fun r => opt_nat_eqb (ItemRevision.item_id r) (Item.id item))
                      (revisions d)) in *.
  pose proof (order_by_perm rows) as HP.
  pose proof (order_by_sorted rows) as HS.
  destruct (order_by_date_created_desc rows) as [|r0 rest]; [discriminate|].
  injection H as ->.
  assert (Hin : In r rows)
    by (eapply Permutation_in; [apply Permutation_sym; exact HP | left; reflexivity]).
  apply filter_In in Hin. destruct Hin as [Hin Hid]. apply opt_nat_eqb_eq in Hid.
  repeat split; auto.
  intros r' Hr' Hid'.
  assert (Hin' : In r' (r :: rest)).
  { eapply Permutation_in; [exact HP|]. apply filter_In. split; auto.
    apply opt_nat_eqb_eq. exact Hid'. }
  inversion HS as [|? ? _ Hall]; subst.
  destruct Hin' as [->|Hin']; [lia|].
  rewrite Forall_forall in Hall. apply Hall. exact Hin'.
Qed.

(** ** What the commits write *)

Lemma resolve_technology_tables d technology :
  items (snd (resolve_technology d technology)) = items d /\
  revisions (snd (resolve_technology d technology)) = revisions d /\
  issues (snd (resolve_technology d technology)) = issues d.
Proof.
  unfold resolve_technology.
  destruct (Technology_query_filter_name d technology); simpl; auto.
Qed.

(** [_get_item] writes neither items, revisions nor issues; the item it
    returns is a row of the table, or a scaffold without id and ARN. *)
Lemma _get_item_tables technology region account name w w0 item0 :
  _get_item technology region account name w = (Ok item0, w0) ->
  items (db w0) = items (db w) /\ revisions (db w0) = revisions (db w) /\
  issues (db w0) = issues (db w) /\ now w0 = now w /\
  ((In item0 (items (db w)) /\
    Item_query_identity technology region account name (db w) = [item0]) \/
   (Item.id item0 = None /\ Item.arn item0 = None /\
    Item.region item0 = region /\ Item.name item0 = name /\
    Item_query_identity technology region account name (db w) = [])).
Proof.
  intro H. apply _get_item_ok in H as (Hn & [[Hf Hd]|[Hf (a & Ha & -> & Hd)]]).
  - rewrite Hd. repeat split; auto. left. split; auto.
    assert (Hin : In item0 (Item_query_identity technology region account name (db w)))
      by (rewrite Hf; left; reflexivity).
    unfold Item_query_identity in Hin. apply filter_In in Hin. tauto.
  - rewrite Hd.
    destruct (resolve_technology_tables (db w) technology) as (Hi & Hr & Hs).
    repeat split; auto. right. repeat split; auto.
Qed.

Lemma flush_item_tables item d :
  revisions (snd (flush_item item d)) = revisions d /\
  issues (snd (flush_item item d)) = issues d.
Proof. unfold flush_item. destruct (Item.id item); simpl; auto. Qed.

Lemma flush_revision_tables t i r d :
  items (flush_revision t i r d) = items d /\
  issues (flush_revision t i r d) = issues d.
Proof. unfold flush_revision. destruct (ItemRevision.id r); simpl; auto. Qed.

Lemma insert_issues_tables i added d :
  items (fold_left (insert_issue i) added d) = items d /\
  revisions (fold_left (insert_issue i) added d) = revisions d.
Proof.
  revert d; induction added as [|a added IH]; intro d; simpl; auto.
  destruct (IH (insert_issue i d a)) as [-> ->]. auto.
Qed.

Lemma delete_issues_tables deleted d :
  items (fold_left delete_issue deleted d) = items d /\
  revisions (fold_left delete_issue deleted d) = revisions d.
Proof.
  revert d; induction deleted as [|a deleted IH]; intro d; simpl; auto.
  destruct (IH (delete_issue d a)) as [-> ->]. auto.
Qed.

(** The tables after the commit of [store]. *)
Lemma flush_store_tables t item r added deleted d item1 d1 :
  flush_store t item r added deleted d = (item1, d1) ->
  item1 = fst (flush_item item d) /\
  items d1 = items (snd (flush_item item d)) /\
  revisions d1 =
  (match ItemRevision.id r with
   | Some _ => update_revision r (revisions d)
   | None => revisions d ++ [inserted_revision t (Item.id item1) (revisions d) r]
   end) /\
  issues d1 =
  issues (fold_left delete_issue deleted
            (fold_left (insert_issue (Item.id item1)) added
                       (flush_revision t (Item.id item1) r (snd (flush_item item d))))).
Proof.
  unfold flush_store. destruct (flush_item item d) as [i d0] eqn:E.
  intro H. inversion H; subst. simpl.
  pose proof (flush_item_tables item d) as [Hr Hs]. rewrite E in Hr, Hs. simpl in *.
  split; auto.
  destruct (delete_issues_tables deleted
              (fold_left (insert_issue (Item.id item1)) added
                         (flush_revision t (Item.id item1) r d0))) as [-> ->].
  destruct (insert_issues_tables (Item.id item1) added
              (flush_revision t (Item.id item1) r d0)) as [-> ->].
  destruct (flush_revision_tables t (Item.id item1) r d0) as [-> _].
  repeat split; auto.
  unfold flush_revision, update_revision, inserted_revision.
  destruct (ItemRevision.id r); simpl; rewrite Hr; reflexivity.
Qed.

Lemma flush_item_fst item d :
  Item.id (fst (flush_item item d)) =
  (match Item.id item with
   | Some i => Some i
   | None => Some (next_id (map Item.id (items d)))
   end) /\
  Item.arn (fst (flush_item item d)) = Item.arn item /\
  Item.region (fst (flush_item item d)) = Item.region item /\
  Item.name (fst (flush_item item d)) = Item.name item.
Proof. unfold flush_item. destruct (Item.id item) eqn:E; simpl; auto. Qed.

(** After a flush the item is a row of the table. *)
Lemma flush_item_in item d :
  (Item.id item = None \/ In (Item.id item) (map Item.id (items d))) ->
  In (fst (flush_item item d)) (items (snd (flush_item item d))).
Proof.
  unfold flush_item. destruct (Item.id item) as [i|] eqn:E; simpl.
  - intros [H|H]; [discriminate|].
    apply in_map_iff in H. destruct H as [row [Hid Hin]].
    apply in_map_iff. exists row. split; auto.
    rewrite Hid, opt_nat_eqb_refl. reflexivity.
  - intros _. apply in_or_app. right. left. reflexivity.
Qed.

(** The rows with the id of a flushed item are that item. *)
Lemma flush_item_rows item d row :
  Item.id item <> None ->
  In row (items (snd (flush_item item d))) ->
  Item.id row = Item.id item -> row = item.
Proof.
  unfold flush_item. destruct (Item.id item) as [i|] eqn:E; [|congruence].
  simpl. intros _ Hin Hid.
  apply in_map_iff in Hin. destruct Hin as [row0 [Hrow Hin]].
  destruct (opt_nat_eqb (Item.id row0) (Some i)) eqn:X; [congruence|].
  subst row0. apply opt_nat_eqb_neq in X. congruence.
Qed.

Lemma primary_key_not_null ids o :
  primary_key ids = true -> In o ids -> o <> None.
Proof.
  unfold primary_key. intros H Hin. apply andb_true_iff in H. destruct H as [H _].
  rewrite forallb_forall in H. apply H in Hin. destruct o; [discriminate|discriminate].
Qed.

Lemma wf_db_parts d :
  wf_db d = true ->
  primary_key (map Item.id (items d)) = true /\
  primary_key (map ItemRevision.id (revisions d)) = true /\
  primary_key (map ItemAudit.id (issues d)) = true /\
  foreign_key (map ItemRevision.item_id (revisions d)) (map Item.id (items d)) = true /\
  foreign_key (map ItemAudit.item_id (issues d)) (map Item.id (items d)) = true.
Proof.
  unfold wf_db. rewrite !andb_true_iff. tauto.
Qed.

Lemma foreign_key_in fks ids fk :
  foreign_key fks ids = true -> In fk fks -> In fk ids.
Proof.
  unfold foreign_key. intros H Hin. rewrite forallb_forall in H.
  apply H in Hin. apply andb_true_iff in Hin. destruct Hin as [_ Hin].
  apply existsb_exists in Hin. destruct Hin as [x [Hx E]].
  apply opt_nat_eqb_eq in E. congruence.
Qed.

Lemma distinct_update_count (rows : list ItemRevision.t) (r r0 : ItemRevision.t) k :
  distinct (map ItemRevision.id rows) = true ->
  In r0 rows -> ItemRevision.id r = ItemRevision.id r0 ->
  ItemRevision.item_id r = ItemRevision.item_id r0 ->
  List.length (filter (fun x => opt_nat_eqb (ItemRevision.item_id x) k)
                      (update_revision r rows)) =
  List.length (filter (fun x => opt_nat_eqb (ItemRevision.item_id x) k) rows).
Proof.
  unfold update_revision. intros Hd Hin Hid Hfk.
  induction rows as [|x rows IH]; simpl in *; auto.
  apply andb_true_iff in Hd. destruct Hd as [Hx Hd].
  destruct (opt_nat_eqb (ItemRevision.id x) (ItemRevision.id r)) eqn:E.
  - (* the updated row: no other row has its id *)
    apply opt_nat_eqb_eq in E.
    assert (x = r0) as ->.
    { destruct Hin as [->|Hin]; auto. exfalso.
      apply negb_true_iff in Hx.
      assert (existsb (opt_nat_eqb (ItemRevision.id x)) (map ItemRevision.id rows) = true);
        [|congruence].
      apply existsb_exists. exists (ItemRevision.id r0). split.
      - apply in_map. exact Hin.
      - apply opt_nat_eqb_eq. congruence. }
    assert (Hrest : map (fun r' => if opt_nat_eqb (ItemRevision.id r') (ItemRevision.id r)
                                   then r else r') rows = rows).
    { rewrite <- (map_id rows) at 2. apply map_ext_in. intros y Hy.
      destruct (opt_nat_eqb (ItemRevision.id y) (ItemRevision.id r)) eqn:Ey; auto.
      exfalso. apply opt_nat_eqb_eq in Ey. apply negb_true_iff in Hx.
      assert (existsb (opt_nat_eqb (ItemRevision.id r0)) (map ItemRevision.id rows) = true);
        [|congruence].
      apply existsb_exists. exists (ItemRevision.id y). split.
      - apply in_map. exact Hy.
      - apply opt_nat_eqb_eq. congruence. }
    rewrite Hrest, Hfk.
    destruct (opt_nat_eqb (ItemRevision.item_id r0) k); reflexivity.
  - destruct Hin as [->|Hin].
    + apply opt_nat_eqb_neq in E. congruence.
    + specialize (IH Hd Hin).
      destruct (opt_nat_eqb (ItemRevision.item_id x) k); simpl; congruence.
Qed.

(** ** The effect of a successful [store] on the tables *)

Lemma insert_issues_rows i added d :
  issues (fold_left (insert_issue i) added d) =
  fold_left (insert_issue_row i) added (issues d).
Proof.
  revert d; induction added as [|a added IH]; intro d; simpl; auto.
Qed.

Lemma delete_issues_rows deleted d :
  issues (fold_left delete_issue deleted d) =
  fold_left delete_issue_row deleted (issues d).
Proof.
  revert d; induction deleted as [|a deleted IH]; intro d; simpl; auto.
Qed.

Lemma revisions_of_table d d' item :
  revisions d' = revisions d -> revisions_of d' item = revisions_of d item.
Proof. unfold revisions_of. intros ->. reflexivity. Qed.

Lemma issues_of_table d d' item :
  issues d' = issues d -> issues_of d' item = issues_of d item.
Proof. unfold issues_of. intros ->. reflexivity. Qed.

Lemma identity_match_fields technology region account name d item :
  In item (Item_query_identity technology region account name d) ->
  In item (items d) /\ Item.region item = region /\ Item.name item = name.
Proof.
  unfold Item_query_identity. intro H. apply filter_In in H. destruct H as [Hin H].
  repeat (apply andb_true_iff in H; destruct H as [H ?]).
  repeat split; auto; apply String.eqb_eq; assumption.
Qed.

Lemma store_effect ctype region account name active_flag config arn new_issues ephemeral
    (w w' : world) :
  wf_db (db w) = true ->
  store ctype region account name active_flag config arn new_issues ephemeral w
  = (Ok tt, w') ->
  exists item0 i item_revision final,
    resolved ctype region account name (db w) item0 i /\
    (* the revision *)
    staged_revision ephemeral active_flag config (now w) (loaded_latest (db w) item0)
    = Some item_revision /\
    revisions (db w') =
    (match ItemRevision.id item_revision with
     | Some _ => update_revision item_revision (revisions (db w))
     | None => revisions (db w)
               ++ [inserted_revision (now w) (Some i) (revisions (db w)) item_revision]
     end) /\
    (* the item *)
    In final (items (db w')) /\
    (forall row, In row (items (db w')) -> Item.id row = Some i -> row = final) /\
    Item.id final = Some i /\
    Item.arn final = (if truthy arn then arn else Item.arn item0) /\
    Item.region final = region /\ Item.name final = name /\
    (* the issues *)
    let st := fold_left add_new_issue new_issues (loaded_issues (db w) item0, []) in
    issues (db w') =
    fold_left delete_issue_row (delete_old_issues (fst st) new_issues)
      (fold_left (insert_issue_row (Some i)) (snd st) (issues (db w))).
Proof.
  intros Hwf H.
  apply store_ok in H
    as (item0 & w0 & item_revision & item1 & d1 & latest
        & Hget & Hrev & Htaken & Hflush & Hid & Hlatest & Hd' & Hn').
  cbv zeta in Htaken, Hflush.
  apply _get_item_tables in Hget as (Hi0 & Hr0 & Hs0 & Hn0 & Hitem0).
  apply flush_store_tables in Hflush as (Hitem1 & Hi1 & Hr1 & Hs1).
  destruct (wf_db_parts _ Hwf) as (Hpk & _).
  pose proof (flush_item_fst (staged_item ctype config arn item0) (db w0))
    as (Hfid & Hfarn & Hfreg & Hfname).
  rewrite <- Hitem1, staged_item_id in Hfid.
  rewrite <- Hitem1, staged_item_arn in Hfarn.
  rewrite <- Hitem1 in Hfreg, Hfname.
  assert (Hloaded_l : loaded_latest (db w0) item0 = loaded_latest (db w) item0)
    by (unfold loaded_latest; rewrite (revisions_of_table _ _ item0 Hr0); reflexivity).
  assert (Hloaded_i : loaded_issues (db w0) item0 = loaded_issues (db w) item0)
    by (unfold loaded_issues; rewrite (issues_of_table _ _ item0 Hs0); reflexivity).
  rewrite Hloaded_l in Hrev. rewrite Hloaded_i in Hs1.
  destruct (Item.id item1) as [i|] eqn:Ei; [clear Hid | congruence].
  set (final := Item.set_latest_revision_id (ItemRevision.id latest) item1) in *.
  assert (Hfinal_id : Item.id final = Some i) by exact Ei.
  assert (Hres : resolved ctype region account name (db w) item0 i).
  { destruct Hitem0 as [[Hin Hf]|(Hnone & Harn & _ & _ & Hf)].
    - left. repeat split; auto.
      destruct (Item.id item0) as [i0|] eqn:E0; [congruence|].
      exfalso.
      apply (@primary_key_not_null (map Item.id (items (db w))) (Item.id item0) Hpk);
        [apply in_map; exact Hin | exact E0].
    - right. rewrite Hnone, Hi0 in Hfid. repeat split; auto. congruence. }
  assert (Hfields : Item.region item0 = region /\ Item.name item0 = name).
  { destruct Hitem0 as [[Hin Hf]|(_ & _ & Hrg & Hnm & _)]; auto.
    assert (Hin' : In item0 (Item_query_identity ctype region account name (db w)))
      by (rewrite Hf; left; reflexivity).
    apply identity_match_fields in Hin'. tauto. }
  assert (Hin1 : In item1 (items d1)).
  { rewrite Hi1, Hitem1. apply flush_item_in. rewrite staged_item_id, Hi0.
    destruct Hitem0 as [[Hin _]|(Hnone & _)]; [right | left; exact Hnone].
    apply in_map. exact Hin. }
  exists item0, i, item_revision, final.
  destruct (flush_item_tables final d1) as [Hr' Hs'].
  rewrite <- Hd' in Hr', Hs'.
  split; [exact Hres|]. split; [exact Hrev|].
  split; [rewrite Hr', Hr1, Hr0; reflexivity|].
  split.
  { rewrite Hd'.
    replace final with (fst (flush_item final d1)) at 1
      by (unfold flush_item; rewrite Hfinal_id; reflexivity).
    apply flush_item_in. right. rewrite Hfinal_id, <- Ei. apply in_map. exact Hin1. }
  split.
  { intros row Hrow Hrid. rewrite Hd' in Hrow.
    eapply flush_item_rows; eauto; congruence. }
  split; [exact Hfinal_id|].
  split.
  { change (Item.arn final) with (Item.arn item1). rewrite Hfarn.
    unfold staged_item. destruct (truthy arn); reflexivity. }
  split.
  { change (Item.region final) with (Item.region item1). rewrite Hfreg.
    unfold staged_item. destruct (truthy arn); simpl; tauto. }
  split.
  { change (Item.name final) with (Item.name item1). rewrite Hfname.
    unfold staged_item. destruct (truthy arn); simpl; tauto. }
  cbv zeta. rewrite Hs', Hs1, delete_issues_rows, insert_issues_rows.
  destruct (flush_revision_tables (now w) (Some i) item_revision
              (snd (flush_item (staged_item ctype config arn item0) (db w0)))) as [_ ->].
  destruct (flush_item_tables (staged_item ctype config arn item0) (db w0)) as [_ ->].
  rewrite Hs0. reflexivity.
Qed.

Lemma revision_count_app d rows r k :
  List.length (filter (fun x => opt_nat_eqb (ItemRevision.item_id x) k) (rows ++ [r])) =
  (if opt_nat_eqb (ItemRevision.item_id r) k then 1 else 0)
  + List.length (filter (fun x => opt_nat_eqb (ItemRevision.item_id x) k) rows) /\
  revision_count d k =
  List.length (filter (fun x => opt_nat_eqb (ItemRevision.item_id x) k) (revisions d)).
Proof.
  split; [|reflexivity].
  rewrite filter_app, length_app. simpl.
  destruct (opt_nat_eqb (ItemRevision.item_id r) k); simpl; lia.
Qed.

(** C1. A successful [store] with [ephemeral=True] overwrites the
    configuration of the most recent revision of the item and sets its
    [date_last_ephemeral_change], and the item has as many revisions as
    before; with [ephemeral=False] it adds one revision, with the given
    active flag and configuration, and the item has one revision more. *)
Theorem store_revision_semantics
    ctype region account name active_flag config arn new_issues ephemeral
    (w w' : world) :
  wf_db (db w) = true ->
  store ctype region account name active_flag config arn new_issues ephemeral w
  = (Ok tt, w') ->
  exists (i : nat) (item : Item.t),
    In item (items (db w')) /\ Item.id item = Some i /\
    Item.region item = region /\ Item.name item = name /\
    if ephemeral then
      exists r,
        In r (revisions (db w)) /\ ItemRevision.item_id r = Some i /\
        (forall r', In r' (revisions (db w)) -> ItemRevision.item_id r' = Some i ->
                    (date_key r' <= date_key r)%Z) /\
        revisions (db w') =
        update_revision (ephemeral_update config (now w) r) (revisions (db w)) /\
        In (ephemeral_update config (now w) r) (revisions (db w')) /\
        ItemRevision.config (ephemeral_update config (now w) r) = config /\
        ItemRevision.date_last_ephemeral_change (ephemeral_update config (now w) r)
        = Some (now w) /\
        revision_count (db w') (Some i) = revision_count (db w) (Some i)
    else
      exists rid,
        revisions (db w') =
        revisions (db w)
        ++ [ItemRevision.mk (Some rid) active_flag config (Some (now w)) None (Some i)] /\
        revision_count (db w') (Some i) = S (revision_count (db w) (Some i)).
Proof.
  intros Hwf H.
  destruct (@store_effect _ _ _ _ _ _ _ _ _ _ _ Hwf H)
    as (item0 & i & item_revision & final & Hres & Hrev & Hrows
        & Hin & _ & Hid & _ & Hreg & Hname & _).
  exists i, final. repeat (split; [assumption|]).
  destruct (@wf_db_parts _ Hwf) as (_ & Hpk & _).
  unfold staged_revision in Hrev. destruct ephemeral.
  - (* the most recent revision is overwritten *)
    unfold loaded_latest in Hrev.
    destruct (Item.id item0) as [i0|] eqn:E0; [|discriminate].
    destruct (hd_error (revisions_of (db w) item0)) as [r|] eqn:Er; [|discriminate].
    injection Hrev as <-.
    assert (i0 = i) as ->.
    { destruct Hres as [(_ & _ & Hi)|(_ & Hi & _)]; congruence. }
    apply revisions_first_most_recent in Er. destruct Er as (Hr & Hfk & Hmax).
    rewrite E0 in Hfk, Hmax.
    assert (Hrid : ItemRevision.id r <> None).
    { apply (@primary_key_not_null (map ItemRevision.id (revisions (db w))) _ Hpk).
      apply in_map. exact Hr. }
    fold (ephemeral_update config (now w) r) in Hrows.
    change (ItemRevision.id (ephemeral_update config (now w) r))
      with (ItemRevision.id r) in Hrows.
    destruct (ItemRevision.id r) as [rid|] eqn:Erid; [clear Hrid | congruence].
    exists r. repeat (split; [assumption|]).
    split.
    { rewrite Hrows. unfold update_revision. apply in_map_iff. exists r. split; auto.
      change (ItemRevision.id (ephemeral_update config (now w) r))
        with (ItemRevision.id r).
      rewrite opt_nat_eqb_refl. reflexivity. }
    split; [reflexivity|]. split; [reflexivity|].
    unfold revision_count. rewrite Hrows.
    apply distinct_update_count with (r0 := r); auto.
    unfold primary_key in Hpk. apply andb_true_iff in Hpk. tauto.
  - (* a new revision *)
    injection Hrev as <-. simpl in Hrows.
    exists (next_id (map ItemRevision.id (revisions (db w)))).
    split; [exact Hrows|].
    unfold revision_count. rewrite Hrows.
    destruct (revision_count_app (db w) (revisions (db w))
                (inserted_revision (now w) (Some i) (revisions (db w))
                   (ItemRevision.mk None active_flag config None None None))
                (Some i)) as [-> _].
    simpl. rewrite Nat.eqb_refl. reflexivity.
Qed.

(** C10. After a successful [store] the row of the item has the ARN given,
    when the argument is true, and otherwise the ARN that the item had when
    it was resolved (none for a new item): a false argument, [None] or the
    empty string, leaves the ARN as it was. *)
Theorem store_arn_semantics
    ctype region account name active_flag config arn new_issues ephemeral
    (w w' : world) :
  wf_db (db w) = true ->
  store ctype region account name active_flag config arn new_issues ephemeral w
  = (Ok tt, w') ->
  exists (item0 : Item.t) (i : nat) (final : Item.t),
    resolved ctype region account name (db w) item0 i /\
    In final (items (db w')) /\
    (forall row, In row (items (db w')) -> Item.id row = Some i -> row = final) /\
    Item.id final = Some i /\
    (truthy arn = false -> Item.arn final = Item.arn item0) /\
    (truthy arn = true -> Item.arn final = arn).
Proof.
  intros Hwf H.
  destruct (@store_effect _ _ _ _ _ _ _ _ _ _ _ Hwf H)
    as (item0 & i & item_revision & final & Hres & _ & _
        & Hin & Huniq & Hid & Harn & _).
  exists item0, i, final. repeat (split; [assumption|]).
  split; intro E; rewrite E in Harn; exact Harn.
Qed.

(** ** The listing and its retries *)

Lemma attempts_cons ev t :
  attempts (ev :: t) = (if is_listing ev then 1 else 0) + attempts t.
Proof. unfold attempts. simpl. destruct (is_listing ev); reflexivity. Qed.

(** One attempt of the listing query. *)
Lemma listing_attempt (q : query) (w : world) :
  let w1 := snd (all ItemListing (query_rows q) w) in
  db w1 = db w /\ now w1 = now w /\
  trace w1 = RoundTrip ItemListing :: trace w /\
  match faults w with
  | Some e :: rest =>
      fst (all ItemListing (query_rows q) w) = Raise (DBError e) /\ faults w1 = rest
  | None :: rest =>
      fst (all ItemListing (query_rows q) w) = Ok (query_rows q (db w)) /\ faults w1 = rest
  | [] =>
      fst (all ItemListing (query_rows q) w) = Ok (query_rows q (db w)) /\ faults w1 = []
  end.
Proof.
  unfold all, bind, round_trip, gets.
  destruct (faults w) as [|[e|] rest] eqn:E; simpl; rewrite ?E; auto.
Qed.

Lemma repeat_shift {A : Type} (x : A) (n : nat) (l : list A) :
  repeat x n ++ x :: l = x :: repeat x n ++ l.
Proof. induction n as [|n IH]; simpl; [reflexivity | rewrite IH; reflexivity]. Qed.

(** The loop of retries, with [budget] attempts left ([attempt + budget = 6]):
    either the query goes through after [k < budget] failures, or the
    budget is used up. *)
Lemma query_all_retrying_spec (q : query) :
  forall fuel attempt budget w,
    attempt + budget = 6 -> 1 <= budget -> budget <= fuel ->
    let k := leading_failures (faults w) in
    exists r w',
      query_all_retrying fuel q attempt w = Some (r, w') /\
      db w' = db w /\ now w' = now w /\
      (if k <? budget
       then r = Ok (query_rows q (db w)) /\
            attempts (trace w') = attempts (trace w) + k + 1 /\
            sleeps (trace w') = repeat 5 k ++ sleeps (trace w)
       else r = Raise too_many_retries /\
            attempts (trace w') = attempts (trace w) + budget /\
            sleeps (trace w') = repeat 5 budget ++ sleeps (trace w)).
Proof.
  induction fuel as [|fuel IH]; intros attempt budget w Hsum H1 Hfuel; [lia|].
  cbn [query_all_retrying].
  pose proof (listing_attempt q w) as (Hd & Hn & Ht & Hout). cbv zeta in *.
  destruct (all ItemListing (query_rows q) w) as [r1 w1].
  cbn [fst snd] in *.
  destruct (faults w) as [|[e|] rest] eqn:Ef; cbn [leading_failures].
  - (* no fault pending *)
    destruct Hout as [-> _]. exists (Ok (query_rows q (db w))), w1.
    replace (0 <? budget) with true by (symmetry; apply Nat.ltb_lt; lia).
    rewrite Ht, attempts_cons. simpl. repeat split; auto; lia.
  - (* the attempt fails *)
    destruct Hout as [-> Hf1].
    destruct (Nat.ltb_spec 5 (attempt + 1)) as [Hlast|Hmore].
    + (* it was the fifth *)
      assert (budget = 1) as -> by lia.
      eexists _, _. split; [reflexivity|]. cbn [db now trace emit].
      rewrite Ht, !attempts_cons. cbn [leading_failures Nat.ltb Nat.leb].
      simpl. repeat split; auto; lia.
    + (* another turn *)
      destruct budget as [|budget]; [lia|].
      match goal with
      | |- context [query_all_retrying fuel q (attempt + 1) ?w4] =>
          destruct (IH (attempt + 1) budget w4) as (r & w' & Hrun & Hd' & Hn' & Hcase);
          [lia | lia | lia |]
      end.
      cbn [db now trace faults emit] in Hd', Hn', Hcase. rewrite Hf1 in Hcase.
      exists r, w'. split; [exact Hrun|]. split; [congruence|]. split; [congruence|].
      rewrite Ht in Hcase. rewrite !attempts_cons in Hcase. cbn [is_listing] in Hcase.
      change (S (leading_failures rest) <? S budget)
        with (leading_failures rest <? budget).
      destruct (leading_failures rest <? budget);
        destruct Hcase as (-> & Ha & Hs); (split; [rewrite ?Hd; reflexivity|]);
        (split; [lia|]); rewrite Hs; cbn [sleeps flat_map app];
        fold (sleeps (trace w)); rewrite repeat_shift; reflexivity.
  - (* the attempt goes through *)
    destruct Hout as [-> _]. exists (Ok (query_rows q (db w))), w1.
    replace (0 <? budget) with true by (symmetry; apply Nat.ltb_lt; lia).
    rewrite Ht, attempts_cons. simpl. repeat split; auto; lia.
Qed.

Lemma first_run {A : Type} (op : dbop) (rows : database -> list A) (w : world) :
  let w1 := snd (first op rows w) in
  db w1 = db w /\ now w1 = now w /\
  attempts (trace w1) = (if is_listing (RoundTrip op) then 1 else 0) + attempts (trace w) /\
  sleeps (trace w1) = sleeps (trace w) /\
  match faults w with
  | Some e :: rest => fst (first op rows w) = Raise (DBError e) /\ faults w1 = rest
  | None :: rest => fst (first op rows w) = Ok (hd_error (rows (db w))) /\ faults w1 = rest
  | [] => fst (first op rows w) = Ok (hd_error (rows (db w))) /\ faults w1 = []
  end.
Proof.
  unfold first, bind, round_trip, gets.
  destruct (faults w) as [|[e|] rest] eqn:E; simpl; rewrite ?E;
    rewrite ?attempts_cons; repeat split; reflexivity.
Qed.

(** One turn of the loop over the items: the tables, the count of listing
    attempts and the delays stay as they are. *)
Lemma latest_of_frame include_inactive m item w :
  let w' := snd (latest_of include_inactive m item w) in
  db w' = db w /\ attempts (trace w') = attempts (trace w) /\
  sleeps (trace w') = sleeps (trace w) /\
  (faults w = [] -> faults w' = []).
Proof.
  unfold latest_of.
  destruct (truthy_id (Item.latest_revision_id item)); simpl; [|auto].
  unfold bind.
  match goal with
  | |- context [first RevisionGet ?rows w] =>
      pose proof (first_run RevisionGet rows w) as (Hd & _ & Ha & Hs & Hout);
      destruct (first RevisionGet rows w) as [[[rev|]|e] w1]
  end; cbv zeta in *; cbn [fst snd is_listing] in *.
  - destruct (negb (ItemRevision.active rev) && negb include_inactive); simpl;
      repeat split; auto; intro Hf; rewrite Hf in Hout; tauto.
  - simpl. repeat split; auto; intro Hf; rewrite Hf in Hout; tauto.
  - simpl. repeat split; auto; intro Hf; rewrite Hf in Hout; tauto.
Qed.

Lemma for_each_frame include_inactive items :
  forall m w,
    let w' := snd (for_each items (latest_of include_inactive) m w) in
    db w' = db w /\ attempts (trace w') = attempts (trace w) /\
    sleeps (trace w') = sleeps (trace w).
Proof.
  induction items as [|item items IH]; intros m w; simpl; auto.
  unfold bind.
  pose proof (latest_of_frame include_inactive m item w) as (Hd & Ha & Hs & _).
  destruct (latest_of include_inactive m item w) as [[m1|e] w1]; simpl in *; auto.
  destruct (IH m1 w1) as (Hd' & Ha' & Hs'). repeat split; congruence.
Qed.

(** What a turn that returned did. *)
Lemma latest_of_ok include_inactive m item w m' w' :
  latest_of include_inactive m item w = (Ok m', w') ->
  db w' = db w /\
  ((truthy_id (Item.latest_revision_id item) = false /\ m' = m) \/
   (truthy_id (Item.latest_revision_id item) = true /\
    exists rev,
      revision_get (db w) (Item.latest_revision_id item) = Some rev /\
      ((ItemRevision.active rev = false /\ include_inactive = false /\ m' = m) \/
       ((ItemRevision.active rev = true \/ include_inactive = true) /\
        m' = item_map_set m item rev)))).
Proof.
  unfold latest_of.
  destruct (truthy_id (Item.latest_revision_id item)); simpl.
  - intro H. apply bind_ok in H as (rev & w1 & H1 & H).
    apply first_ok in H1 as (-> & Hd & _).
    fold (revision_get (db w) (Item.latest_revision_id item)) in H.
    destruct (revision_get (db w) (Item.latest_revision_id item)) as [rev|];
      [|discriminate].
    split; [|right; split; auto; exists rev; split; auto].
    + destruct (negb (ItemRevision.active rev) && negb include_inactive);
        apply ret_ok in H as [_ ->]; exact Hd.
    + destruct (ItemRevision.active rev), include_inactive; simpl in H;
        apply ret_ok in H as [<- _]; auto.
  - intro H. apply bind_ok in H as (u & w1 & H1 & H).
    apply ret_ok in H as [<- ->]. unfold tell in H1. inversion H1; subst. auto.
Qed.

Lemma item_map_set_in m item rev x :
  In x (item_map_set m item rev) -> x = (item, rev) \/ In x m.
Proof.
  induction m as [|[k v] m IH]; simpl.
  - intros [<-|[]]. auto.
  - destruct (opt_nat_eqb (Item.id k) (Item.id item)); simpl.
    + intros [<-|H]; auto.
    + intros [<-|H]; auto. apply IH in H. tauto.
Qed.

Lemma item_map_set_has m item rev : In (item, rev) (item_map_set m item rev).
Proof.
  induction m as [|[k v] m IH]; simpl; auto.
  destruct (opt_nat_eqb (Item.id k) (Item.id item)); simpl; auto.
Qed.

Lemma item_map_set_keeps m item rev k v :
  In (k, v) m -> Item.id k <> Item.id item -> In (k, v) (item_map_set m item rev).
Proof.
  induction m as [|[k' v'] m IH]; simpl; [tauto|].
  intros [E|H] Hne.
  - injection E as -> ->.
    apply opt_nat_eqb_neq in Hne. rewrite Hne. left. reflexivity.
  - destruct (opt_nat_eqb (Item.id k') (Item.id item)); simpl; auto.
Qed.

Lemma for_each_latest include_inactive items :
  forall m w m' w',
    NoDup (map Item.id items) ->
    for_each items (latest_of include_inactive) m w = (Ok m', w') ->
    (forall x, In x m' -> In x m \/ listed include_inactive (db w) items x) /\
    (forall k v, In (k, v) m -> (forall it, In it items -> Item.id k <> Item.id it) ->
                 In (k, v) m') /\
    (forall it rev,
        In it items -> truthy_id (Item.latest_revision_id it) = true ->
        revision_get (db w) (Item.latest_revision_id it) = Some rev ->
        ItemRevision.active rev = true \/ include_inactive = true ->
        In (it, rev) m').
Proof.
  induction items as [|item items IH]; intros m w m' w' Hnd H.
  - apply ret_ok in H as [<- _]. repeat split; auto. intros it rev [].
  - simpl in H. apply bind_ok in H as (m1 & w1 & H1 & H).
    apply latest_of_ok in H1 as (Hd & Hturn).
    inversion Hnd as [|? ? Hnotin Hnd']; subst.
    destruct (IH m1 w1 m' w' Hnd' H) as (Hsound & Hkeep & Hcomplete).
    rewrite Hd in *.
    assert (Hfresh : forall it, In it items -> Item.id item <> Item.id it).
    { intros it Hit E. apply Hnotin. rewrite E. apply in_map. exact Hit. }
    split; [|split].
    + (* every entry was made by a turn *)
      intros x Hx. apply Hsound in Hx. destruct Hx as [Hx|(Hi & Hp & Hg & Ha)].
      * destruct Hturn as [[_ ->]|(Hp & rev & Hg & [(_ & _ & ->)|(Ha & ->)])]; auto.
        apply item_map_set_in in Hx. destruct Hx as [->|Hx]; auto.
        right. repeat split; simpl; auto.
        intro Hinc. destruct Ha as [Ha|Ha]; congruence.
      * right. repeat split; auto. right. exact Hi.
    + (* entries under other keys stay *)
      intros k v Hkv Hother. apply Hkeep.
      * destruct Hturn as [[_ ->]|(Hp & rev & Hg & [(_ & _ & ->)|(Ha & ->)])]; auto.
        apply item_map_set_keeps; auto. apply Hother. left. reflexivity.
      * intros it Hit. apply Hother. right. exact Hit.
    + (* every item with a pointer is entered *)
      intros it rev [<-|Hit] Hp Hg Ha.
      * apply Hkeep; [|exact Hfresh].
        destruct Hturn as [[Hp' _]|(_ & rev' & Hg' & [(Ha' & Hi' & _)|(_ & ->)])].
        -- congruence.
        -- rewrite Hg in Hg'. injection Hg' as <-. destruct Ha; congruence.
        -- rewrite Hg in Hg'. injection Hg' as <-. apply item_map_set_has.
      * eapply Hcomplete; eauto.
Qed.

Lemma existsb_ext {A : Type} (f g : A -> bool) (l : list A) :
  (forall x, f x = g x) -> existsb f l = existsb g l.
Proof.
  intro H. induction l as [|x l IH]; simpl; [reflexivity|].
  rewrite H, IH. reflexivity.
Qed.

(** [filter_by] refuses a [region] when a table is joined; otherwise the
    query is built and selects [selected]. *)
Lemma built_query tech account region name :
  if filters_accepted tech account region
  then exists q,
         filter_by_kwargs (listing_kwargs region name) (joined_query tech account) = Ok q /\
         forall d, query_rows q d = selected tech account region name d
  else filter_by_kwargs (listing_kwargs region name) (joined_query tech account)
       = Raise (no_property (joinpoint_of tech account) "region").
Proof.
  unfold filters_accepted, listing_kwargs, joined_query, joinpoint_of.
  cbn [filter snd].
  destruct (truthy tech) eqn:Et, (truthy account) eqn:Ea, (truthy region) eqn:Er,
    (truthy name) eqn:En; cbn [negb orb andb]; try reflexivity;
    (eexists; split; [reflexivity|]);
    intro d; unfold query_rows, selected, joinpoint_of; rewrite ?Et, ?Ea, ?Er, ?En;
    apply filter_ext; intro it;
    cbn [item_criteria technology_criteria account_criteria joined and_also
         Item_query join_filter_technology join_filter_account andb];
    unfold joins_technology;
    rewrite ?andb_true_r; try reflexivity;
    try (f_equal; apply existsb_ext; intro x; rewrite ?andb_true_r, ?andb_assoc;
         reflexivity);
    try (apply existsb_ext; intro x; rewrite ?andb_true_r, ?andb_assoc; reflexivity).
Qed.

Lemma get_all_ctype_filtered_unfold tech account region name include_inactive w :
  get_all_ctype_filtered tech account region name include_inactive w =
  match filter_by_kwargs (listing_kwargs region name) (joined_query tech account) with
  | Raise e => Some (Raise e, w)
  | Ok q =>
      match query_all_retrying 5 q 1 w with
      | None => None
      | Some (Raise e, w1) => Some (Raise e, w1)
      | Some (Ok items, w1) => Some (for_each items (latest_of include_inactive) [] w1)
      end
  end.
Proof. reflexivity. Qed.

(** A call whose filters are accepted runs the query, with its retries, and
    then the loop over the items. *)
Lemma get_all_ctype_filtered_accepted tech account region name include_inactive w :
  filters_accepted tech account region = true ->
  exists q,
    (forall d, query_rows q d = selected tech account region name d) /\
    get_all_ctype_filtered tech account region name include_inactive w =
    match query_all_retrying 5 q 1 w with
    | None => None
    | Some (Raise e, w1) => Some (Raise e, w1)
    | Some (Ok items, w1) => Some (for_each items (latest_of include_inactive) [] w1)
    end.
Proof.
  intro Hacc. pose proof (built_query tech account region name) as H.
  rewrite Hacc in H. destruct H as (q & Hq & Hrows).
  exists q. split; [exact Hrows|].
  rewrite get_all_ctype_filtered_unfold, Hq. reflexivity.
Qed.

(** A call whose filters are refused raises at once. *)
Lemma get_all_ctype_filtered_refused tech account region name include_inactive w :
  filters_accepted tech account region = false ->
  get_all_ctype_filtered tech account region name include_inactive w
  = Some (Raise (no_property (joinpoint_of tech account) "region"), w).
Proof.
  intro Hacc. pose proof (built_query tech account region name) as H.
  rewrite Hacc in H. rewrite get_all_ctype_filtered_unfold, H. reflexivity.
Qed.

(** A call that returned had its filters accepted. *)
Lemma get_all_ctype_filtered_ok_accepted tech account region name include_inactive
    w m w' :
  get_all_ctype_filtered tech account region name include_inactive w = Some (Ok m, w') ->
  filters_accepted tech account region = true.
Proof.
  intro H. destruct (filters_accepted tech account region) eqn:E; [reflexivity|].
  rewrite (get_all_ctype_filtered_refused _ _ _ name include_inactive w E) in H.
  discriminate.
Qed.

(** The loop over the items raises what a lookup of a revision raises. *)
Lemma for_each_raise include_inactive items :
  forall m w e w',
    for_each items (latest_of include_inactive) m w = (Raise e, w') ->
    (exists err, e = DBError err) \/ (exists msg, e = AttributeError msg).
Proof.
  induction items as [|item items IH]; intros m w e w' H; simpl in H.
  - discriminate.
  - unfold bind in H.
    destruct (latest_of include_inactive m item w) as [[m1|e1] w1] eqn:E.
    + eapply IH; eauto.
    + injection H as <- <-. clear IH. unfold latest_of in E.
      destruct (truthy_id (Item.latest_revision_id item)); simpl in E;
        [|discriminate].
      unfold bind in E.
      match type of E with
      | context [first RevisionGet ?rows w] =>
          pose proof (first_run RevisionGet rows w) as (_ & _ & _ & _ & Hout);
          destruct (first RevisionGet rows w) as [[[rev|]|e2] w2]
      end; cbn [fst snd] in *.
      * destruct (negb (ItemRevision.active rev) && negb include_inactive); discriminate.
      * injection E as <- _. right. eauto.
      * injection E as <- _. left.
        destruct (faults w) as [|[err|] rest]; destruct Hout as [Hout _];
          try discriminate. injection Hout as ->. eauto.
Qed.

(** ** Paths that do not retry *)

Lemma run_fail_fast_refl {A : Type} (w : world) (r : result A) : run_fail_fast w r w.
Proof. split; auto. exists []. split; auto. left. constructor. Qed.

Lemma ff_ret {A : Type} (a : A) : fail_fast (ret a).
Proof. intro w. apply run_fail_fast_refl. Qed.

Lemma ff_raise {A : Type} (e : exn) : fail_fast (@raise A e).
Proof. intro w. apply run_fail_fast_refl. Qed.

Lemma ff_gets {A : Type} (f : world -> A) : fail_fast (gets f).
Proof. intro w. apply run_fail_fast_refl. Qed.

Lemma ff_modify_db (f : database -> database) : fail_fast (modify_db f).
Proof.
  intro w. split; auto. exists []. split; auto. left. constructor.
Qed.

Lemma ff_tell_log lvl msg : fail_fast (tell (Log lvl msg)).
Proof.
  intro w. split; auto. exists []. split; auto. left. constructor.
Qed.

Lemma ff_tell_exception e : fail_fast (tell (LogException e)).
Proof.
  intro w. split; auto. exists []. split; auto. left. constructor.
Qed.

Lemma ff_round_trip (op : dbop) : fail_fast (round_trip op).
Proof.
  intro w. unfold round_trip. destruct (faults w) as [|[e|] rest] eqn:E; simpl.
  - split; auto. exists []. rewrite E. split; auto. left. constructor.
  - split; auto. exists [Some e]. split; auto. right. exists [], e.
    repeat split; auto. constructor.
  - split; auto. exists [None]. split; auto. left. repeat constructor.
Qed.

Lemma ff_bind {A B : Type} (m : M A) (f : A -> M B) :
  fail_fast m -> (forall a, fail_fast (f a)) -> fail_fast (bind m f).
Proof.
  intros Hm Hf w. unfold bind. specialize (Hm w).
  destruct (m w) as [[a|e] w1]; cbn [fst snd] in *.
  2:{ destruct Hm as (Hs & used & Hu & Hc). split; auto. exists used. split; auto.
      destruct Hc as [Hc|(pre & e' & Hp & Ha & X)]; [left; exact Hc|].
      right. exists pre, e'. injection X as ->. auto. }
  specialize (Hf a w1). destruct (f a w1) as [r w']; cbn [fst snd] in *.
  destruct Hm as (Hs1 & used1 & Hu1 & Hc1), Hf as (Hs2 & used2 & Hu2 & Hc2).
  split; [congruence|]. exists (used1 ++ used2).
  split; [rewrite Hu1, Hu2, app_assoc; reflexivity|].
  destruct Hc1 as [H1|(pre & e & _ & _ & X)]; [|discriminate].
  destruct Hc2 as [H2|(pre & e & -> & Hpre & ->)].
  - left. apply Forall_app. auto.
  - right. exists (used1 ++ pre), e. rewrite app_assoc. repeat split; auto.
    apply Forall_app. auto.
Qed.

Lemma ff_for_each {A S : Type} (body : S -> A -> M S) (l : list A) :
  (forall s x, fail_fast (body s x)) -> forall s, fail_fast (for_each l body s).
Proof.
  intro Hb. induction l as [|x l IH]; intro s; simpl.
  - apply ff_ret.
  - apply ff_bind; auto.
Qed.

Ltac ff :=
  repeat first
    [ apply ff_ret | apply ff_raise | apply ff_gets | apply ff_modify_db
    | apply ff_tell_log | apply ff_tell_exception | apply ff_round_trip
    | apply ff_bind; [|intro]
    | match goal with
      | |- fail_fast (match ?x with _ => _ end) => destruct x
      | |- fail_fast (if ?x then _ else _) => destruct x
      | |- fail_fast (let '(_, _) := ?x in _) => destruct x
      end ].

Lemma ff_first {A : Type} op (rows : database -> list A) : fail_fast (first op rows).
Proof. unfold first. ff. Qed.

Lemma ff_all {A : Type} op (rows : database -> list A) : fail_fast (all op rows).
Proof. unfold all. ff. Qed.

Lemma ff_one {A : Type} op (rows : database -> list A) : fail_fast (one op rows).
Proof. unfold one. ff. Qed.

Lemma ff_commit_technology name : fail_fast (commit_technology name).
Proof. unfold commit_technology. ff. Qed.

Lemma ff_commit_item item : fail_fast (commit_item item).
Proof. unfold commit_item. ff. Qed.

Lemma ff_commit_store item r added deleted : fail_fast (commit_store item r added deleted).
Proof. unfold commit_store. ff. Qed.

Lemma ff_revisions_first item : fail_fast (revisions_first item).
Proof. unfold revisions_first. destruct (Item.id item); [apply ff_first | apply ff_ret]. Qed.

Lemma ff_revisions_all item : fail_fast (revisions_all item).
Proof. unfold revisions_all. destruct (Item.id item); [apply ff_all | apply ff_ret]. Qed.

Lemma ff_load_issues item : fail_fast (load_issues item).
Proof. unfold load_issues. destruct (Item.id item); [apply ff_all | apply ff_ret]. Qed.

Lemma ff_autoflush {A : Type} (item : Item.t) (op : dbop) (read : M A) :
  fail_fast read -> fail_fast (autoflush item op read).
Proof.
  intro H. unfold autoflush. destruct (Item.id item); [|exact H].
  apply ff_bind; [apply ff_gets|intros [|]]; [ff | exact H].
Qed.

Lemma ff__get_item technology region account name :
  fail_fast (_get_item technology region account name).
Proof.
  unfold _get_item.
  apply ff_bind; [apply ff_first|intros [a|]]; [|apply ff_raise].
  apply ff_bind; [apply ff_all|intros found].
  destruct (1 <? List.length found); [apply ff_raise|].
  assert (Hnew : forall a : Account.t,
             fail_fast
               (bind (first TechnologyFirst
                        (fun d => Technology_query_filter_name d technology))
                     (fun technology_result =>
                        bind (match technology_result with
                              | Some t => ret t
                              | None =>
                                  bind (commit_technology technology)
                                       (fun t =>
                                          bind (tell (Log INFO
                                                        ("Creating a new Technology: "
                                                         ++ technology ++ " - ID: "
                                                         ++ str_nat (Technology.id t))))
                                               (fun _ => ret t))
                              end)
                             (fun technology_result =>
                                ret (Item.mk None region name None None None
                                       (Technology.id technology_result)
                                       (Account.id a) None))))).
  { intro a'. apply ff_bind; [apply ff_first|intros [t|]].
    - ff.
    - apply ff_bind; [|intro; apply ff_ret].
      apply ff_bind; [apply ff_commit_technology|intro]. ff. }
  destruct found as [|it [|it' its]]; [apply Hnew | apply ff_ret | apply Hnew].
Qed.

Lemma ff__set_latest_revision item : fail_fast (_set_latest_revision item).
Proof.
  unfold _set_latest_revision.
  apply ff_bind; [apply ff_revisions_first|intros [r|]]; [|apply ff_raise].
  apply ff_bind; [apply ff_commit_item|intro; apply ff_ret].
Qed.

Lemma ff_get ctype region account name : fail_fast (get ctype region account name).
Proof.
  unfold get. apply ff_bind; [apply ff__get_item|intro; apply ff_revisions_all].
Qed.

Lemma ff_get_audit_issues ctype region account name :
  fail_fast (get_audit_issues ctype region account name).
Proof.
  unfold get_audit_issues. apply ff_bind; [apply ff__get_item|intro; apply ff_load_issues].
Qed.

Lemma ff_store ctype region account name active_flag config arn new_issues ephemeral :
  fail_fast (store ctype region account name active_flag config arn new_issues ephemeral).
Proof.
  unfold store. apply ff_bind; [apply ff__get_item|intro item0].
  apply ff_bind.
  { destruct ephemeral; [|apply ff_ret].
    apply ff_bind; [apply ff_autoflush, ff_revisions_first|intros [r|]]; ff. }
  intro item_revision.
  apply ff_bind; [apply ff_autoflush, ff_load_issues|intro issues0].
  destruct (fold_left add_new_issue new_issues (issues0, [])) as [item_issues added].
  apply ff_bind; [apply ff_commit_store|intro; apply ff__set_latest_revision].
Qed.

Lemma ff_clear_old_exceptions : fail_fast clear_old_exceptions.
Proof.
  unfold clear_old_exceptions.
  apply ff_bind; [apply ff_gets|intro t].
  apply ff_bind; [apply ff_all|intro l]. ff.
Qed.

Lemma ff_store_exception_body source location exception ttl :
  fail_fast (store_exception_body source location exception ttl).
Proof.
  unfold store_exception_body.
  apply ff_bind; [apply ff_tell_log|intros _].
  apply ff_bind; [apply ff_gets|intro stacktrace].
  apply ff_bind.
  { destruct location as [|l0 ls]; [apply ff_ret|].
    apply ff_bind.
    { destruct (List.length (l0 :: ls) =? 4); [|apply ff_ret].
      apply ff_bind; [apply ff_first|intros [item|]; apply ff_ret]. }
    intro entry. apply ff_bind.
    { destruct (2 <=? List.length (l0 :: ls)); [|apply ff_ret].
      apply ff_bind; [apply ff_one|intro; apply ff_ret]. }
    intro entry'. apply ff_bind; [apply ff_one|intro; apply ff_ret]. }
  intro entry. ff.
Qed.

(** [store_exception] gives up at the first failure: its handler only logs. *)
Lemma no_retry_store_exception source location exception ttl :
  no_retry (store_exception source location exception ttl).
Proof.
  intro w. unfold store_exception, try_except.
  pose proof (ff_store_exception_body source location exception ttl w)
    as (Hs & used & Hu & Hc).
  destruct (store_exception_body source location exception ttl w) as [[u|e] w1];
    cbn [fst snd] in *.
  - split; auto. exists used. split; auto.
    destruct Hc as [Hc|(pre & e & Hp & Ha & _)]; eauto.
  - split; [exact Hs|]. exists used. split; [exact Hu|].
    destruct Hc as [Hc|(pre & e' & Hp & Ha & _)]; eauto.
Qed.

(** C7. The listing query of [get_all_ctype_filtered] is attempted at most
    five times, with a delay of 5 after every failed attempt; an attempt is
    retried whatever the failure is; when the first five attempts fail the
    method raises the exception [Too many retries for database
    connections.], which carries nothing of the underlying failures (it is
    the same whatever they were); with fewer failures the retries are not
    what the method raises.  This is so for every call that gets to the
    query; a call with a [region] together with a [tech] or an [account]
    does not: [filter_by] refuses the keyword with an
    [InvalidRequestError], before the loop, and nothing is attempted.  The
    other paths do not retry: a failed round trip is raised at once by
    [_get_item], [get], [get_audit_issues], [store], [_set_latest_revision]
    and [clear_old_exceptions], and [store_exception] gives up at the first
    one. *)
Theorem listing_retry_policy :
  (forall tech account region name include_inactive (w : world),
     let k := leading_failures (faults w) in
     exists r w',
       get_all_ctype_filtered tech account region name include_inactive w
       = Some (r, w') /\
       if filters_accepted tech account region then
         attempts (trace w') = attempts (trace w) + Nat.min 5 (k + 1) /\
         sleeps (trace w') = repeat 5 (Nat.min 5 k) ++ sleeps (trace w) /\
         (5 <= k -> r = Raise too_many_retries) /\
         (k < 5 -> r <> Raise too_many_retries)
       else
         r = Raise (no_property (joinpoint_of tech account) "region") /\ w' = w) /\
  (forall technology region account name,
     fail_fast (_get_item technology region account name)) /\
  (forall ctype region account name, fail_fast (get ctype region account name)) /\
  (forall ctype region account name,
     fail_fast (get_audit_issues ctype region account name)) /\
  (forall ctype region account name active_flag config arn new_issues ephemeral,
     fail_fast (store ctype region account name active_flag config arn
                      new_issues ephemeral)) /\
  (forall item, fail_fast (_set_latest_revision item)) /\
  fail_fast clear_old_exceptions /\
  (forall source location exception ttl,
     no_retry (store_exception source location exception ttl)).
Proof.
  split.
  { intros tech account region name include_inactive w k.
    destruct (filters_accepted tech account region) eqn:Hacc;
      [|rewrite (get_all_ctype_filtered_refused _ _ _ name include_inactive w Hacc);
        eexists _, _; split; [reflexivity | split; reflexivity]].
    destruct (get_all_ctype_filtered_accepted _ _ _ name include_inactive w Hacc)
      as (q & _ & ->).
    destruct (@query_all_retrying_spec q 5 1 5 w) as (r1 & w1 & Hrun & Hd & _ & Hcase);
      [lia | lia | lia |]; rewrite Hrun.
    fold k in Hcase. destruct (Nat.ltb_spec k 5) as [Hk|Hk].
    - destruct Hcase as (-> & Ha & Hs).
      match goal with
      | |- context [for_each ?items (latest_of include_inactive) [] w1] =>
          pose proof (@for_each_frame include_inactive items [] w1) as (_ & Ha' & Hs');
          pose proof (@for_each_raise include_inactive items [] w1) as Hraise;
          destruct (for_each items (latest_of include_inactive) [] w1) as [r w']
      end.
      cbn [snd] in *. exists r, w'. split; [reflexivity|].
      replace (Nat.min 5 (k + 1)) with (k + 1) by lia.
      replace (Nat.min 5 k) with k by lia.
      split; [lia|]. split; [congruence|]. split; [lia|].
      intros _ E. subst r.
      destruct (Hraise _ _ eq_refl) as [[err X]|[msg X]]; discriminate.
    - destruct Hcase as (-> & Ha & Hs). exists (Raise too_many_retries), w1.
      split; [reflexivity|].
      replace (Nat.min 5 (k + 1)) with 5 by lia.
      replace (Nat.min 5 k) with 5 by lia.
      repeat split; auto. lia. }
  split; [exact ff__get_item|].
  split; [exact ff_get|].
  split; [exact ff_get_audit_issues|].
  split; [exact ff_store|].
  split; [exact ff__set_latest_revision|].
  split; [exact ff_clear_old_exceptions|].
  exact no_retry_store_exception.
Qed.

(** ** The listing and the active flag *)

Lemma distinct_NoDup (ids : list (option nat)) : distinct ids = true -> NoDup ids.
Proof.
  induction ids as [|x ids IH]; simpl; [constructor|].
  rewrite andb_true_iff, negb_true_iff. intros [Hx Hd]. constructor; auto.
  intro Hin. assert (existsb (opt_nat_eqb x) ids = true); [|congruence].
  apply existsb_exists. exists x. split; auto. apply opt_nat_eqb_refl.
Qed.

Lemma NoDup_map_filter {A B : Type} (f : A -> B) (keep : A -> bool) (l : list A) :
  NoDup (map f l) -> NoDup (map f (filter keep l)).
Proof.
  induction l as [|x l IH]; simpl; [auto|].
  intro H. inversion H as [|? ? Hx Hl]; subst.
  destruct (keep x); simpl; auto. constructor; auto.
  intro Hin. apply Hx. apply in_map_iff in Hin. destruct Hin as [y [E Hy]].
  apply filter_In in Hy. rewrite <- E. apply in_map. tauto.
Qed.

Lemma latest_of_no_fault include_inactive m item w :
  faults w = [] ->
  (truthy_id (Item.latest_revision_id item) = true ->
   revision_get (db w) (Item.latest_revision_id item) <> None) ->
  exists m', fst (latest_of include_inactive m item w) = Ok m'.
Proof.
  intros Hf Hrev. unfold latest_of.
  destruct (truthy_id (Item.latest_revision_id item)); simpl.
  - unfold bind. rewrite (first_no_fault RevisionGet _ w Hf).
    cbn [db emit].
    fold (revision_get (db w) (Item.latest_revision_id item)).
    destruct (revision_get (db w) (Item.latest_revision_id item)) as [rev|];
      [|exfalso; apply Hrev; reflexivity].
    destruct (negb (ItemRevision.active rev) && negb include_inactive); simpl; eauto.
  - eauto.
Qed.

Lemma for_each_no_fault include_inactive items :
  forall m w,
    faults w = [] ->
    (forall item, In item items ->
                  truthy_id (Item.latest_revision_id item) = true ->
                  revision_get (db w) (Item.latest_revision_id item) <> None) ->
    exists m', fst (for_each items (latest_of include_inactive) m w) = Ok m'.
Proof.
  induction items as [|item items IH]; intros m w Hf Hrev; simpl; [eauto|].
  unfold bind.
  destruct (@latest_of_no_fault include_inactive m item w Hf) as [m1 H1].
  { apply Hrev. left. reflexivity. }
  pose proof (@latest_of_frame include_inactive m item w) as (Hd & _ & _ & Hf').
  destruct (latest_of include_inactive m item w) as [r w1]. cbn [fst snd] in *.
  subst r. apply IH; auto.
  intros it Hit. rewrite Hd. apply Hrev. right. exact Hit.
Qed.

(** C9. The result of [get_all_ctype_filtered] has an entry only for a
    selected item with a pointer to its latest revision, and the entry is
    that revision; without [include_inactive] the revision is active, and
    with it every selected item with a pointer is there, active or not (an
    active one is there in both cases); an item without a pointer has no
    entry, and it does not make the call fail: with filters that
    [filter_by] accepts (no [region] together with a [tech] or an
    [account]), no failure of the storage layer and no dangling pointer the
    call returns.  The selected items are those of [selected]: after a join
    the [name] is compared with the name of the row joined last. *)
Theorem listing_active_filter tech account region name include_inactive (w : world) :
  wf_db (db w) = true ->
  (forall m w',
      get_all_ctype_filtered tech account region name include_inactive w
      = Some (Ok m, w') ->
      (forall item rev,
          In (item, rev) m ->
          In item (selected tech account region name (db w)) /\
          truthy_id (Item.latest_revision_id item) = true /\
          revision_get (db w) (Item.latest_revision_id item) = Some rev /\
          (include_inactive = false -> ItemRevision.active rev = true)) /\
      (forall item rev,
          In item (selected tech account region name (db w)) ->
          truthy_id (Item.latest_revision_id item) = true ->
          revision_get (db w) (Item.latest_revision_id item) = Some rev ->
          ItemRevision.active rev = true \/ include_inactive = true ->
          In (item, rev) m) /\
      (forall item rev,
          truthy_id (Item.latest_revision_id item) = false -> ~ In (item, rev) m)) /\
  (filters_accepted tech account region = true ->
   faults w = [] ->
   (forall item,
       In item (selected tech account region name (db w)) ->
       truthy_id (Item.latest_revision_id item) = true ->
       revision_get (db w) (Item.latest_revision_id item) <> None) ->
   exists m w',
     get_all_ctype_filtered tech account region name include_inactive w
     = Some (Ok m, w')).
Proof.
  intro Hwf. destruct (@wf_db_parts _ Hwf) as (Hpk & _).
  assert (Hnd : NoDup (map Item.id (selected tech account region name (db w)))).
  { unfold selected. apply NoDup_map_filter. apply distinct_NoDup.
    unfold primary_key in Hpk. apply andb_true_iff in Hpk. tauto. }
  split.
  - intros m w' H.
    pose proof (get_all_ctype_filtered_ok_accepted _ _ _ _ _ _ H) as Hacc.
    destruct (get_all_ctype_filtered_accepted _ _ _ name include_inactive w Hacc)
      as (q & Hq & Hunfold).
    rewrite Hunfold in H.
    destruct (@query_all_retrying_spec q 5 1 5 w) as (r1 & w1 & Hrun & Hd & _ & Hcase);
      [lia | lia | lia |]; rewrite Hrun in H.
    rewrite Hq in Hcase.
    destruct (leading_failures (faults w) <? 5); destruct Hcase as (-> & _);
      [|discriminate].
    injection H as H.
    apply for_each_latest in H; [|exact Hnd]. rewrite Hd in H.
    destruct H as (Hsound & _ & Hcomplete).
    assert (Hentry : forall x, In x m ->
                               listed include_inactive (db w)
                                      (selected tech account region name (db w)) x).
    { intros x Hx. destruct (Hsound x Hx) as [[]|Hl]. exact Hl. }
    split; [|split].
    + intros item rev Hin. exact (Hentry _ Hin).
    + exact Hcomplete.
    + intros item rev Hp Hin. destruct (Hentry _ Hin) as (_ & Hp' & _).
      simpl in Hp'. congruence.
  - intros Hacc Hf Hrev.
    destruct (get_all_ctype_filtered_accepted _ _ _ name include_inactive w Hacc)
      as (q & Hq & ->).
    cbn [query_all_retrying]. rewrite (all_no_fault ItemListing _ w Hf).
    rewrite Hq.
    set (w1 := emit (RoundTrip ItemListing) w).
    destruct (@for_each_no_fault include_inactive
                (selected tech account region name (db w)) [] w1 Hf Hrev) as [m Hm].
    destruct (for_each (selected tech account region name (db w))
                       (latest_of include_inactive) [] w1) as [r w'].
    simpl in Hm. subst r. eauto.
Qed.

(** ** [store_exception] *)

Lemma ro_ret {A : Type} (a : A) : reads_only (ret a).
Proof. intro w. reflexivity. Qed.

Lemma ro_raise {A : Type} (e : exn) : reads_only (@raise A e).
Proof. intro w. reflexivity. Qed.

Lemma ro_gets {A : Type} (f : world -> A) : reads_only (gets f).
Proof. intro w. reflexivity. Qed.

Lemma ro_tell ev : reads_only (tell ev).
Proof. intro w. reflexivity. Qed.

Lemma ro_round_trip op : reads_only (round_trip op).
Proof.
  intro w. unfold round_trip. destruct (faults w) as [|[e|] rest]; reflexivity.
Qed.

Lemma ro_bind {A B : Type} (m : M A) (f : A -> M B) :
  reads_only m -> (forall a, reads_only (f a)) -> reads_only (bind m f).
Proof.
  intros Hm Hf w. unfold bind. specialize (Hm w).
  destruct (m w) as [[a|e] w1]; cbn [snd] in *; [|exact Hm].
  rewrite (Hf a w1). exact Hm.
Qed.

Ltac ro :=
  repeat first
    [ apply ro_ret | apply ro_raise | apply ro_gets | apply ro_tell
    | apply ro_round_trip | apply ro_bind; [|intro]
    | match goal with
      | |- reads_only (match ?x with _ => _ end) => destruct x
      | |- reads_only (if ?x then _ else _) => destruct x
      end ].

Lemma ro_first {A : Type} op (rows : database -> list A) : reads_only (first op rows).
Proof. unfold first. ro. Qed.

Lemma ro_one {A : Type} op (rows : database -> list A) : reads_only (one op rows).
Proof. unfold one. ro. Qed.

Lemma bind_raise_inv {A B : Type} (m : M A) (f : A -> M B) w e w' :
  bind m f w = (Raise e, w') ->
  m w = (Raise e, w') \/ exists a w1, m w = (Ok a, w1) /\ f a w1 = (Raise e, w').
Proof.
  unfold bind. destruct (m w) as [[a|e1] w1]; intro H; [right; eauto|].
  left. injection H as -> ->. reflexivity.
Qed.

Lemma rs_bind {A B : Type} (m : M A) (f : A -> M B) :
  reads_only m -> (forall a, raise_safe (f a)) -> raise_safe (bind m f).
Proof.
  intros Hm Hf w e w1 H. specialize (Hm w).
  apply bind_raise_inv in H as [H|(a & w2 & H2 & H)].
  - rewrite H in Hm. exact Hm.
  - rewrite H2 in Hm. cbn [snd] in Hm. rewrite <- Hm. eapply Hf. exact H.
Qed.

Ltac ro_all :=
  repeat first
    [ apply ro_ret | apply ro_raise | apply ro_gets | apply ro_tell
    | apply ro_round_trip | apply ro_first | apply ro_one
    | apply ro_bind; [|intro]
    | match goal with
      | |- reads_only (match ?x with _ => _ end) => destruct x
      | |- reads_only (if ?x then _ else _) => destruct x
      end ].

(** A failure inside [store_exception] happens before anything is written. *)
Lemma store_exception_body_raise source location exception ttl :
  raise_safe (store_exception_body source location exception ttl).
Proof.
  unfold store_exception_body.
  apply rs_bind; [apply ro_tell|intros _].
  apply rs_bind; [apply ro_gets|intro stacktrace].
  apply rs_bind.
  { destruct location as [|l0 ls]; [apply ro_ret|].
    apply ro_bind.
    { destruct (List.length (l0 :: ls) =? 4); [|apply ro_ret].
      apply ro_bind; [apply ro_first|intros [item|]; apply ro_ret]. }
    intro entry'. apply ro_bind.
    { destruct (2 <=? List.length (l0 :: ls)); [|apply ro_ret].
      apply ro_bind; [apply ro_one|intro; apply ro_ret]. }
    intro entry''. apply ro_bind; [apply ro_one|intro; apply ro_ret]. }
  intro entry.
  apply rs_bind; [apply ro_round_trip|intros _].
  intros w e w1 H.
  apply bind_raise_inv in H as [H|(u & w2 & H2 & H)]; discriminate.
Qed.

(** C8. [store_exception] returns normally for every input and whatever
    fails inside: a failed lookup of the item, the account or the
    technology, or a failure of the storage layer.  The failure is logged,
    as an error and with the exception, and nothing has been written. *)
Theorem store_exception_never_raises source location exception ttl (w : world) :
  exists w',
    store_exception source location exception ttl w = (Ok tt, w') /\
    forall e w1,
      store_exception_body source location exception ttl w = (Raise e, w1) ->
      trace w' =
      LogException e
        :: Log ERROR "Encountered exception while logging exception to database:"
        :: trace w1 /\
      db w' = db w.
Proof.
  unfold store_exception, try_except.
  destruct (store_exception_body source location exception ttl w) as [[[]|e] w1] eqn:E.
  - exists w1. split; [reflexivity|]. intros e' w2 H. discriminate.
  - eexists. split; [reflexivity|]. intros e' w2 H. injection H as <- <-.
    split; [reflexivity|]. simpl.
    exact (@store_exception_body_raise source location exception ttl w e w1 E).
Qed.

(** ** The digest is 32 hexadecimal digits *)

Lemma hex_digit_is_hex (n : Z) :
  existsb (Ascii.eqb (Md5.hex_digit n)) hex_digits = true.
Proof.
  unfold Md5.hex_digit. generalize (Z.to_nat n) as k. intro k.
  do 16 (destruct k as [|k]; [reflexivity|]).
  destruct k; reflexivity.
Qed.

Lemma md5_hexdigest_hex (s : string) : is_hex_string (Md5.md5_hexdigest s) = true.
Proof.
  unfold is_hex_string, Md5.md5_hexdigest, Md5.hexdigest_state, Md5.hex_word,
    Md5.word_bytes, Md5.hex_byte.
  cbn [list_ascii_of_string forallb].
  rewrite !hex_digit_is_hex. reflexivity.
Qed.

(** C2. Two configurations that are equal up to the insertion order of the
    keys of their mappings and up to the order of the elements of the
    sequences of mappings have the same [hash_config], a string of 32
    hexadecimal digits; [hash_config] is a function of its argument. *)
Theorem hash_config_order_independent (c1 c2 : config) :
  wf (JDict c1) = true ->
  config_equiv c1 c2 ->
  Hashing.hash_config c1 = Hashing.hash_config c2 /\
  String.length (Hashing.hash_config c1) = 32 /\
  is_hex_string (Hashing.hash_config c1) = true.
Proof.
  intros Hwf Heq. unfold Hashing.hash_config.
  split; [|split; [apply md5_hexdigest_length | apply md5_hexdigest_hex]].
  destruct jequiv_text_all as (Hj & _ & _).
  destruct (Hj _ _ Heq) as [_ H]. destruct (H Hwf) as [_ Ht].
  unfold text in Ht. simpl Canon.canon in Ht.
  unfold Canon.sub_dict. rewrite Ht. reflexivity.
Qed.


(** C4. A path that does not exist in the configuration is passed over:
    [durable_hash], which always returns, gives the result that it gives
    without this path in the list. *)
Theorem durable_hash_missing_path (item : config) (ps1 ps2 : list string) (p : string) :
  Dpath.delete item p "$" = None ->
  Hashing.delete_or_pass item p = item /\
  Hashing.durable_hash item (ps1 ++ p :: ps2) = Hashing.durable_hash item (ps1 ++ ps2).
Proof.
  intro H. split.
  - unfold Hashing.delete_or_pass. rewrite H. reflexivity.
  - unfold Hashing.durable_hash. rewrite (@durable_item_missing item ps1 ps2 p H). reflexivity.
Qed.

(** ** The claims at sample inputs *)

Lemma hash_config_order_independent_witness :
  wf (JDict Examples.sg_x) = true /\
  config_equiv Examples.sg_x Examples.sg_x_reordered /\
  Hashing.hash_config Examples.sg_x = Hashing.hash_config Examples.sg_x_reordered.
Proof.
  assert (Heq : config_equiv Examples.sg_x Examples.sg_x_reordered).
  { unfold config_equiv, Examples.sg_x, Examples.sg_x_reordered.
    eapply je_trans; [apply je_dict_perm, perm_swap|].
    apply je_dict. constructor; [|constructor; [apply je_refl | constructor]].
    unfold Examples.rules, Examples.rules_reordered.
    eapply je_trans; [apply je_list_perm; [reflexivity | apply perm_swap]|].
    apply je_list. constructor; [|constructor; [apply je_refl | constructor]].
    apply je_dict_perm, perm_swap. }
  split; [reflexivity|]. split; [exact Heq|].
  apply (@hash_config_order_independent Examples.sg_x Examples.sg_x_reordered);
    [reflexivity | exact Heq].
Defined.

Lemma sg_x_sg_y_differ :
  differ_only (Hashing.ephemeral_paths_for_tech "securitygroup")
              Examples.sg_x Examples.sg_y.
Proof.
  eapply do_step with (p := "assigned_to"%string); [left; reflexivity | | apply do_refl].
  cbv. right. reflexivity.
Defined.



Lemma durable_hash_missing_path_witness :
  Dpath.delete Examples.sg_x "accesskeys$*$LastUsedDate" "$" = None /\
  Hashing.durable_hash Examples.sg_x ["assigned_to"; "accesskeys$*$LastUsedDate"]%string =
  Hashing.durable_hash Examples.sg_x ["assigned_to"]%string.
Proof.
  split; [reflexivity|].
  apply (@durable_hash_missing_path Examples.sg_x ["assigned_to"%string] []
                                    "accesskeys$*$LastUsedDate").
  reflexivity.
Defined.

Lemma get_item_resolution_witness :
  faults Examples.w1 = [] /\
  fst (_get_item "securitygroup" "us-east-1" "acct1" "web-sg" Examples.w1)
  = Ok Examples.item1.
Proof.
  split; [reflexivity|].
  destruct (@get_item_resolution "securitygroup" "us-east-1" "acct1" "web-sg"
                                 Examples.w1 eq_refl) as ((_ & _ & H & _) & _).
  apply (H Examples.item1). reflexivity.
Defined.

Lemma store_revision_semantics_witness :
  wf_db (db Examples.w1) = true /\
  store "securitygroup" "us-east-1" "acct1" "web-sg" true Examples.sg_y None [] true
        Examples.w1
  = (Ok tt, snd (store "securitygroup" "us-east-1" "acct1" "web-sg" true
                       Examples.sg_y None [] true Examples.w1)) /\
  exists i,
    revision_count
      (db (snd (store "securitygroup" "us-east-1" "acct1" "web-sg" true
                      Examples.sg_y None [] true Examples.w1))) (Some i)
    = revision_count (db Examples.w1) (Some i).
Proof.
  split; [reflexivity|]. split; [vm_compute; reflexivity|].
  destruct (@store_revision_semantics
              "securitygroup" "us-east-1" "acct1" "web-sg" true Examples.sg_y None [] true
              Examples.w1
              (snd (store "securitygroup" "us-east-1" "acct1" "web-sg" true
                          Examples.sg_y None [] true Examples.w1)))
    as (i & item & _ & _ & _ & _ & r & _ & _ & _ & _ & _ & _ & _ & Hcount).
  - reflexivity.
  - vm_compute. reflexivity.
  - exists i. exact Hcount.
Defined.

Lemma store_arn_semantics_witness :
  wf_db (db Examples.w1) = true /\
  store "securitygroup" "us-east-1" "acct1" "web-sg" true Examples.sg_y
        (Some EmptyString) [] false Examples.w1
  = (Ok tt, snd (store "securitygroup" "us-east-1" "acct1" "web-sg" true
                       Examples.sg_y (Some EmptyString) [] false Examples.w1)) /\
  exists item0 final,
    In final (items (db (snd (store "securitygroup" "us-east-1" "acct1" "web-sg" true
                                    Examples.sg_y (Some EmptyString) [] false
                                    Examples.w1)))) /\
    Item.arn final = Item.arn item0.
Proof.
  split; [reflexivity|]. split; [vm_compute; reflexivity|].
  destruct (@store_arn_semantics
              "securitygroup" "us-east-1" "acct1" "web-sg" true Examples.sg_y
              (Some EmptyString) [] false Examples.w1
              (snd (store "securitygroup" "us-east-1" "acct1" "web-sg" true
                          Examples.sg_y (Some EmptyString) [] false Examples.w1)))
    as (item0 & i & final & _ & Hin & _ & _ & Hfalse & _).
  - reflexivity.
  - vm_compute. reflexivity.
  - exists item0, final. split; [exact Hin|]. apply Hfalse. reflexivity.
Defined.

Lemma listing_active_filter_witness :
  wf_db (db Examples.w1) = true /\
  forall m w',
    get_all_ctype_filtered None None None None false Examples.w1 = Some (Ok m, w') ->
    forall rev, In (Examples.item3, rev) m -> ItemRevision.active rev = true.
Proof.
  split; [reflexivity|]. intros m w' H rev Hin.
  destruct (@listing_active_filter None None None None false Examples.w1 eq_refl)
    as [Hprop _].
  destruct (Hprop m w' H) as (Hsound & _).
  destruct (Hsound _ _ Hin) as (_ & _ & _ & Hactive). apply Hactive. reflexivity.
Defined.

(** The sample listing: the item without pointer and, unless asked for,
    the item whose latest revision is inactive are left out. *)
Example listing_sample :
  option_map (fun rw => fst rw)
             (get_all_ctype_filtered None None None None false Examples.w1)
  = Some (Ok [(Examples.item1, Examples.revision2)]) /\
  option_map (fun rw => fst rw)
             (get_all_ctype_filtered None None None None true Examples.w1)
  = Some (Ok [(Examples.item1, Examples.revision2);
              (Examples.item3, Examples.revision3)]).
Proof. split; vm_compute; reflexivity. Qed.

(** C7 as stated fails: a failure that is not transient is retried like any
    other, and the exception raised after five failures is the same
    whatever the failures were. *)
Lemma retry_policy_counterexample :
  transient Examples.syntax_error = false /\
  (exists m w',
      get_all_ctype_filtered None None None None false
        (set_faults [Some Examples.syntax_error] Examples.w1) = Some (Ok m, w') /\
      attempts (trace w') = 2) /\
  option_map (fun rw => fst rw)
    (get_all_ctype_filtered None None None None false
       (set_faults (repeat (Some Examples.pool_timeout) 5) Examples.w1))
  = Some (Raise (Exception "Too many retries for database connections.")) /\
  option_map (fun rw => fst rw)
    (get_all_ctype_filtered None None None None false
       (set_faults (repeat (Some Examples.pool_timeout) 4 ++ [Some Examples.syntax_error])
                   Examples.w1))
  = Some (Raise (Exception "Too many retries for database connections.")).
Proof.
  split; [reflexivity|]. split.
  - eexists _, _. split; vm_compute; reflexivity.
  - split; vm_compute; reflexivity.
Qed.

(** C5 at the failing input: the item has the issue of type [Open port/tcp]
    with the notes [22]; the new issue has the type [Open port] and the notes
    [tcp/22].  Both give the key [Open port/tcp/22]: after [store] the old
    issue is still there and the new one is not. *)
Lemma store_issue_key_collision :
  fst (store "securitygroup" "us-east-1" "acct1" "web-sg" true Examples.sg_x None
             [Examples.issue None "Open port" "tcp/22" None] false Examples.w1)
  = Ok tt /\
  map identity_key
      (issues (db (snd (store "securitygroup" "us-east-1" "acct1" "web-sg" true
                              Examples.sg_x None
                              [Examples.issue None "Open port" "tcp/22" None] false
                              Examples.w1))))
  = [(Some "Open port/tcp", Some "22")]%string /\
  map identity_key [Examples.issue None "Open port" "tcp/22" None]
  = [(Some "Open port", Some "tcp/22")]%string.
Proof. repeat split; vm_compute; reflexivity. Qed.

(** ** Issue reconciliation, on the keys that the code compares *)

Lemma key_in_spec k l : key_in k l = true <-> In k (map issue_key l).
Proof.
  unfold key_in. rewrite existsb_exists. split.
  - intros [x [Hx E]]. apply String.eqb_eq in E. congruence.
  - intro H. exists k. split; auto. apply String.eqb_refl.
Qed.

(** The loop "Add new issues". *)
Lemma add_new_issues_spec new_issues :
  forall old added0,
    exists added,
      fold_left add_new_issue new_issues (old, added0)
      = (old ++ added, added0 ++ added) /\
      (forall a, In a added -> In a new_issues) /\
      (forall n, In n new_issues -> In (issue_key n) (map issue_key (old ++ added))).
Proof.
  induction new_issues as [|n rest IH]; intros old added0.
  - exists []. simpl. rewrite !app_nil_r. repeat split; auto; intros ? [].
  - simpl. destruct (key_in (issue_key n) old) eqn:E; simpl.
    + destruct (IH old added0) as (added & Hfold & Hsub & Hkeys).
      exists added. split; [exact Hfold|]. split; [auto|].
      intros n' [<-|Hn']; auto.
      apply key_in_spec in E. rewrite map_app. apply in_or_app. left. exact E.
    + destruct (IH (old ++ [n]) (added0 ++ [n])) as (added & Hfold & Hsub & Hkeys).
      exists (n :: added). rewrite <- !app_assoc in Hfold. simpl in Hfold.
      split; [exact Hfold|]. split.
      * intros a [<-|Ha]; auto.
      * rewrite <- app_assoc in Hkeys. simpl in Hkeys.
        intros n' [<-|Hn']; auto.
        rewrite map_app. apply in_or_app. right. left. reflexivity.
Qed.

(** The rows inserted for the issues added: same keys, the item's id, and
    ids not in use. *)
Lemma insert_issue_rows_spec fk added :
  forall rows,
    exists added',
      fold_left (insert_issue_row fk) added rows = rows ++ added' /\
      map issue_key added' = map issue_key added /\
      (forall a, In a added' -> ItemAudit.item_id a = fk) /\
      (forall a, In a added' -> ~ In (ItemAudit.id a) (map ItemAudit.id rows)).
Proof.
  induction added as [|a added IH]; intro rows.
  - exists []. simpl. rewrite app_nil_r. repeat split; auto; intros ? [].
  - simpl. unfold insert_issue_row at 2.
    set (a' := ItemAudit.set_id (Some (next_id (map ItemAudit.id rows)))
                 (ItemAudit.set_item_id fk a)).
    destruct (IH (rows ++ [a'])) as (rest & Hfold & Hkeys & Hfk & Hfresh).
    exists (a' :: rest). rewrite Hfold, <- app_assoc. simpl.
    split; [reflexivity|]. split; [f_equal; exact Hkeys|]. split.
    + intros x [<-|Hx]; auto.
    + intros x [<-|Hx].
      * apply next_id_fresh.
      * intro Hin. apply (Hfresh x Hx). rewrite map_app. apply in_or_app. auto.
Qed.

(** The loop of deletions removes the rows with the ids of the issues
    deleted. *)
Lemma delete_issue_rows_spec deleted :
  forall rows a,
    In a (fold_left delete_issue_row deleted rows) <->
    In a rows /\ forall d, In d deleted -> ItemAudit.id a <> ItemAudit.id d.
Proof.
  induction deleted as [|d deleted IH]; intros rows a; simpl.
  - split; [intro H; split; auto; intros ? [] | tauto].
  - rewrite IH. unfold delete_issue_row. rewrite filter_In, negb_true_iff, opt_nat_eqb_neq.
    split.
    + intros [[Hin Hne] Hrest]. split; auto. intros d' [<-|Hd']; auto.
    + intros [Hin Hall]. repeat split; auto.
Qed.

Lemma distinct_id_inj (rows : list ItemAudit.t) (a b : ItemAudit.t) :
  distinct (map ItemAudit.id rows) = true ->
  In a rows -> In b rows -> ItemAudit.id a = ItemAudit.id b -> a = b.
Proof.
  intros Hd. apply distinct_NoDup in Hd.
  induction rows as [|x rows IH]; simpl; [tauto|].
  inversion Hd as [|? ? Hx Hrest]; subst.
  intros [->|Ha] [->|Hb] E; auto.
  - exfalso. apply Hx. rewrite E. apply in_map. exact Hb.
  - exfalso. apply Hx. rewrite <- E. apply in_map. exact Ha.
Qed.


(** ** [store] succeeds when nothing stands in its way *)

Lemma revisions_first_no_fault item w :
  faults w = [] ->
  exists w', revisions_first item w = (Ok (loaded_latest (db w) item), w') /\
             db w' = db w /\ now w' = now w /\ faults w' = [].
Proof.
  intro Hf. unfold revisions_first, loaded_latest. destruct (Item.id item).
  - rewrite (first_no_fault RevisionsFirst _ w Hf). eexists. repeat split; auto.
  - eexists. repeat split; auto.
Qed.

Lemma load_issues_no_fault item w :
  faults w = [] ->
  exists w', load_issues item w = (Ok (loaded_issues (db w) item), w') /\
             db w' = db w /\ now w' = now w /\ faults w' = [].
Proof.
  intro Hf. unfold load_issues, loaded_issues. destruct (Item.id item).
  - rewrite (all_no_fault IssuesLoad _ w Hf). eexists. repeat split; auto.
  - eexists. repeat split; auto.
Qed.

Lemma commit_store_no_fault item r added deleted w :
  faults w = [] -> arn_taken (db w) item = false ->
  exists w',
    commit_store item r added deleted w
    = (Ok (fst (flush_store (now w) item r added deleted (db w))), w') /\
    db w' = snd (flush_store (now w) item r added deleted (db w)) /\
    now w' = now w /\ faults w' = [].
Proof.
  intros Hf Harn. unfold commit_store.
  rewrite (bind_run _ _ _ (round_trip_no_fault Commit w Hf)).
  unfold bind, gets. cbv beta iota.
  change (db (emit (RoundTrip Commit) w)) with (db w).
  change (now (emit (RoundTrip Commit) w)) with (now w).
  rewrite Harn. cbv beta iota.
  change (db (emit (RoundTrip Commit) w)) with (db w).
  change (now (emit (RoundTrip Commit) w)) with (now w).
  destruct (flush_store (now w) item r added deleted (db w)) as [item' d'].
  eexists. split; [reflexivity|]. repeat split; auto.
Qed.

Lemma commit_item_no_fault item w :
  faults w = [] -> arn_taken (db w) item = false ->
  exists w',
    commit_item item w = (Ok (fst (flush_item item (db w))), w') /\
    db w' = snd (flush_item item (db w)) /\ now w' = now w /\ faults w' = [].
Proof.
  intros Hf Harn. unfold commit_item.
  rewrite (bind_run _ _ _ (round_trip_no_fault Commit w Hf)).
  unfold bind, gets. cbv beta iota.
  change (db (emit (RoundTrip Commit) w)) with (db w).
  rewrite Harn. cbv beta iota.
  change (db (emit (RoundTrip Commit) w)) with (db w).
  destruct (flush_item item (db w)) as [item' d'].
  eexists. split; [reflexivity|]. repeat split; auto.
Qed.

Lemma order_by_nonempty l : l <> [] -> order_by_date_created_desc l <> [].
Proof.
  intros Hl E. apply Hl. apply Permutation_nil.
  rewrite <- E. apply Permutation_sym, order_by_perm.
Qed.

(** An item with a revision has a first revision. *)
Lemma revisions_of_some d item r :
  In r (revisions d) -> ItemRevision.item_id r = Item.id item ->
  exists latest, hd_error (revisions_of d item) = Some latest.
Proof.
  intros Hin Hfk. unfold revisions_of.
  destruct (order_by_date_created_desc
              (filter (fun r0 => opt_nat_eqb (ItemRevision.item_id r0) (Item.id item))
                      (revisions d))) as [|x l] eqn:E; [|simpl; eauto].
  exfalso. revert E. apply order_by_nonempty. intro E.
  assert (X : In r (filter (fun r0 => opt_nat_eqb (ItemRevision.item_id r0) (Item.id item))
                           (revisions d)))
    by (apply filter_In; split; auto; apply opt_nat_eqb_eq; exact Hfk).
  rewrite E in X. exact X.
Qed.

(** The ARN of a flushed item is as free after the flush as before. *)
Lemma arn_taken_flush item d other :
  primary_key (map Item.id (items d)) = true ->
  Item.id other = Item.id (fst (flush_item item d)) ->
  Item.arn other = Item.arn item ->
  arn_taken d item = false ->
  arn_taken (snd (flush_item item d)) other = false.
Proof.
  intros Hpk Hid Harn Hfree. unfold arn_taken in *. rewrite Harn.
  destruct (Item.arn item) as [a|] eqn:Ea; [|reflexivity].
  destruct (existsb _ (items (snd (flush_item item d)))) eqn:X; [|reflexivity].
  exfalso. apply existsb_exists in X. destruct X as (row & Hrow & Hcond).
  apply andb_true_iff in Hcond. destruct Hcond as [Hne Ha].
  apply negb_true_iff, opt_nat_eqb_neq in Hne. rewrite Hid in Hne.
  assert (Hold : In row (items d) /\ opt_nat_eqb (Item.id row) (Item.id item) = false).
  { unfold flush_item in Hrow, Hne. destruct (Item.id item) as [i|] eqn:Ei.
    - cbn [fst snd items set_items] in Hrow, Hne.
      apply in_map_iff in Hrow. destruct Hrow as (row0 & Hr0 & Hin0).
      rewrite Ei in Hne.
      destruct (opt_nat_eqb (Item.id row0) (Some i)) eqn:E0.
      + subst row. congruence.
      + subst row0. split; auto.
    - cbn [fst snd items set_items] in Hrow, Hne.
      apply in_app_or in Hrow. destruct Hrow as [Hrow|[<-|[]]].
      + split; auto. apply opt_nat_eqb_neq.
        apply (@primary_key_not_null (map Item.id (items d)) _ Hpk).
        apply in_map. exact Hrow.
      + exfalso. apply Hne. reflexivity. }
  destruct Hold as [Hin Hne'].
  assert (Y : existsb (fun r => negb (opt_nat_eqb (Item.id r) (Item.id item))
                                && match Item.arn r with
                                   | Some a' => String.eqb a' a
                                   | None => false
                                   end) (items d) = true); [|congruence].
  apply existsb_exists. exists row. split; auto.
  rewrite Hne'. exact Ha.
Qed.

Lemma arn_taken_items d d' item :
  items d' = items d -> arn_taken d' item = arn_taken d item.
Proof. unfold arn_taken. intros ->. reflexivity. Qed.

Lemma loaded_latest_id d i1 i2 :
  Item.id i1 = Item.id i2 -> loaded_latest d i1 = loaded_latest d i2.
Proof.
  unfold loaded_latest. intro E. rewrite (@revisions_of_id d i1 i2 E), E. reflexivity.
Qed.

Lemma loaded_issues_id d i1 i2 :
  Item.id i1 = Item.id i2 -> loaded_issues d i1 = loaded_issues d i2.
Proof.
  unfold loaded_issues. intro E. rewrite (@issues_of_id d i1 i2 E), E. reflexivity.
Qed.

Lemma update_revision_in r r0 rows :
  In r0 rows -> ItemRevision.id r0 = ItemRevision.id r -> In r (update_revision r rows).
Proof.
  intros Hin E. unfold update_revision. apply in_map_iff. exists r0. split; auto.
  rewrite E, opt_nat_eqb_refl. reflexivity.
Qed.

(** X2. [store] returns when the storage layer does not fail, the account
    exists, at most one item has the identity, an ephemeral change finds the
    item and a revision of it, and no other item has the ARN. *)
Theorem store_succeeds
    ctype region account name active_flag config arn new_issues ephemeral (w : world) :
  faults w = [] ->
  wf_db (db w) = true ->
  Account_query_filter_name (db w) account <> [] ->
  List.length (Item_query_identity ctype region account name (db w)) <= 1 ->
  (ephemeral = true ->
   exists item r, Item_query_identity ctype region account name (db w) = [item] /\
                  In r (revisions (db w)) /\ ItemRevision.item_id r = Item.id item) ->
  (forall item0,
      fst (_get_item ctype region account name w) = Ok item0 ->
      arn_taken (db w) (staged_item ctype config arn item0) = false) ->
  exists w',
    store ctype region account name active_flag config arn new_issues ephemeral w
    = (Ok tt, w').
Proof.
  intros Hf Hwf Hacc Hone Heph Harn.
  destruct (@wf_db_parts _ Hwf) as (Hpki & Hpkr & _).
  (* the item is resolved *)
  destruct (_get_item_no_fault ctype region account name w Hf)
    as (w0 & _ & _ & Hf0 & Hget).
  assert (Hitem0 : exists item0, _get_item ctype region account name w = (Ok item0, w0)).
  { rewrite Hget.
    destruct (Account_query_filter_name (db w) account) as [|a accs]; [congruence|].
    destruct (Item_query_identity ctype region account name (db w))
      as [|it [|it' its]]; [eauto | eauto | simpl in Hone; lia]. }
  clear Hget. destruct Hitem0 as [item0 Hget].
  pose proof (@_get_item_tables _ _ _ _ _ _ _ Hget) as (Hi0 & Hr0 & _ & Hn0 & Hcases).
  specialize (Harn item0). rewrite Hget in Harn. specialize (Harn eq_refl).
  rewrite <- (@arn_taken_items (db w) (db w0) _ Hi0) in Harn.
  set (staged := staged_item ctype config arn item0) in *.
  assert (Hsid : Item.id staged = Item.id item0) by apply staged_item_id.
  (* the revision to commit *)
  assert (Hrev : exists item_revision,
             staged_revision ephemeral active_flag config (now w0)
                             (loaded_latest (db w0) staged) = Some item_revision /\
             ((ItemRevision.id item_revision = None) \/
              (exists r0, In r0 (revisions (db w0)) /\
                          ItemRevision.id r0 = ItemRevision.id item_revision /\
                          ItemRevision.id r0 <> None /\
                          ItemRevision.item_id item_revision = Item.id item0 /\
                          Item.id item0 <> None))).
  { unfold staged_revision. destruct ephemeral; [|eexists; split; [reflexivity|left; reflexivity]].
    destruct (Heph eq_refl) as (item & r & Hfound & Hr & Hfk).
    destruct Hcases as [[Hin Hfound']|(_ & _ & _ & _ & Hfound')]; [|congruence].
    assert (item = item0) by congruence. subst item.
    assert (Hid0 : Item.id item0 <> None).
    { apply (@primary_key_not_null (map Item.id (items (db w))) _ Hpki).
      apply in_map. exact Hin. }
    rewrite (@loaded_latest_id (db w0) staged item0 Hsid). unfold loaded_latest.
    destruct (Item.id item0) as [i0|] eqn:E0; [|congruence].
    rewrite <- Hr0 in Hr. rewrite <- E0 in Hfk.
    destruct (revisions_of_some (db w0) item0 r Hr Hfk) as [latest Hl].
    rewrite Hl. eexists. split; [reflexivity|]. right.
    apply revisions_first_most_recent in Hl. destruct Hl as (Hlin & Hlfk & _).
    assert (Hnn : ItemRevision.id latest <> None).
    { apply (@primary_key_not_null (map ItemRevision.id (revisions (db w))) _ Hpkr).
      rewrite <- Hr0. apply in_map. exact Hlin. }
    exists latest. repeat split; auto; simpl; congruence. }
  destruct Hrev as (item_revision & Hrev & Hrevid).
  unfold store. rewrite (bind_run _ _ _ Hget). fold staged.
  assert (Hstep1 : exists w1,
             (if ephemeral
              then bind (autoflush staged RevisionsFirst (revisions_first staged))
                        (fun item_revision =>
                           match item_revision with
                           | None => raise (AttributeError
                                              "'NoneType' object has no attribute 'config'")
                           | Some item_revision =>
                               bind (gets now)
                                    (fun t => ret (ItemRevision.set_date_last_ephemeral_change
                                                     (Some t)
                                                     (ItemRevision.set_config config
                                                                              item_revision)))
                           end)
              else ret (ItemRevision.mk None active_flag config None None None)) w0
             = (Ok item_revision, w1) /\
             db w1 = db w0 /\ now w1 = now w0 /\ faults w1 = []).
  { unfold staged_revision in Hrev. destruct ephemeral.
    - destruct (revisions_first_no_fault staged w0 Hf0) as (w1 & Hrun & Hd1 & Hn1 & Hf1).
      rewrite <- (autoflush_free staged RevisionsFirst (revisions_first staged) w0 Harn)
        in Hrun.
      rewrite (bind_run _ _ _ Hrun).
      destruct (loaded_latest (db w0) staged) as [r|]; [|discriminate].
      injection Hrev as <-. exists w1. unfold bind, gets, ret. rewrite Hn1.
      repeat split; auto.
    - injection Hrev as <-. exists w0. repeat split; auto. }
  destruct Hstep1 as (w1 & Hrun1 & Hd1 & Hn1 & Hf1).
  rewrite (bind_run _ _ _ Hrun1).
  destruct (load_issues_no_fault staged w1 Hf1) as (w2 & Hrun2 & Hd2 & Hn2 & Hf2).
  assert (Harn1 : arn_taken (db w1) staged = false) by (rewrite Hd1; exact Harn).
  rewrite <- (autoflush_free staged IssuesLoad (load_issues staged) w1 Harn1) in Hrun2.
  rewrite (bind_run _ _ _ Hrun2).
  destruct (fold_left add_new_issue new_issues (loaded_issues (db w1) staged, []))
    as [item_issues added].
  set (deleted := delete_old_issues item_issues new_issues).
  assert (Harn2 : arn_taken (db w2) staged = false) by (rewrite Hd2, Hd1; exact Harn).
  destruct (commit_store_no_fault staged item_revision added deleted w2 Hf2 Harn2)
    as (w3 & Hrun3 & Hd3 & Hn3 & Hf3).
  rewrite (bind_run _ _ _ Hrun3).
  destruct (flush_store (now w2) staged item_revision added deleted (db w2))
    as [item1 d1] eqn:Efl. cbn [fst snd] in *.
  apply flush_store_tables in Efl. destruct Efl as (Hitem1 & Hi1 & Hrows1 & _).
  destruct (flush_item_fst staged (db w2)) as (Hfid & Hfarn & _).
  rewrite <- Hitem1 in Hfid, Hfarn.
  assert (Hid1 : exists i, Item.id item1 = Some i).
  { rewrite Hfid. destruct (Item.id staged); eauto. }
  destruct Hid1 as [i Hid1].
  (* the item has a revision after the commit *)
  assert (Hlatest : exists latest, hd_error (revisions_of (db w3) item1) = Some latest).
  { rewrite Hd3.
    destruct Hrevid as [Hnew|(r0 & Hr0in & Hr0id & Hr0nn & Hfk & Hid0)].
    - rewrite Hnew in Hrows1.
      apply (revisions_of_some d1 item1
               (inserted_revision (now w2) (Item.id item1) (revisions (db w2))
                                  item_revision)).
      + rewrite Hrows1. apply in_or_app. right. left. reflexivity.
      + reflexivity.
    - destruct (ItemRevision.id item_revision) as [rid|] eqn:Erid; [|congruence].
      apply (revisions_of_some d1 item1 item_revision).
      + rewrite Hrows1. apply update_revision_in with (r0 := r0).
        * rewrite Hd2, Hd1. exact Hr0in.
        * congruence.
      + rewrite Hfk, Hfid, Hsid. destruct (Item.id item0); congruence. }
  destruct Hlatest as [latest Hlatest].
  unfold _set_latest_revision.
  destruct (revisions_first_no_fault item1 w3 Hf3) as (w4 & Hrun4 & Hd4 & Hn4 & Hf4).
  rewrite (bind_run _ _ _ Hrun4).
  unfold loaded_latest. rewrite Hid1, Hlatest.
  set (final := Item.set_latest_revision_id (ItemRevision.id latest) item1).
  assert (Harn4 : arn_taken (db w4) final = false).
  { rewrite Hd4, Hd3.
    rewrite (@arn_taken_items (snd (flush_item staged (db w2))) d1 final Hi1).
    apply arn_taken_flush; auto.
    - rewrite Hd2, Hd1, Hi0. exact Hpki.
    - rewrite <- Hitem1. reflexivity. }
  destruct (commit_item_no_fault final w4 Hf4 Harn4) as (w5 & Hrun5 & _).
  rewrite (bind_run _ _ _ Hrun5). eexists. reflexivity.
Qed.

(* ================================================================== *)
(** * Further properties                                                *)
(* ================================================================== *)

(** ** The durable hash *)

(** X3. A kind that the table of [ephemeral_paths_for_tech] does not list has
    no ephemeral path, and its durable hash is its complete hash. *)
Theorem durable_hash_unlisted_kind (tech : string) (config : config) :
  tech <> "redshift"%string -> tech <> "securitygroup"%string ->
  tech <> "iamuser"%string ->
  Hashing.ephemeral_paths_for_tech tech = [] /\
  Hashing.durable_hash config (Hashing.ephemeral_paths_for_tech tech)
  = Hashing.hash_config config.
Proof.
  intros H1 H2 H3.
  assert (E : Hashing.ephemeral_paths_for_tech tech = []).
  { unfold Hashing.ephemeral_paths_for_tech, Hashing.ephemeral_paths.
    cbn [Hashing.dict_get].
    apply not_eq_sym in H1, H2, H3.
    apply String.eqb_neq in H1, H2, H3. rewrite H1, H2, H3. reflexivity. }
  split; [exact E|]. rewrite E. reflexivity.
Qed.

(** ** The durable hash and the order of the configuration *)

Lemma remove_is_mapping (segs : list Dpath.segment) (j : json) :
  is_mapping (Dpath.remove segs j) = is_mapping j.
Proof.
  destruct segs as [|[|k] [|s rest]], j; reflexivity.
Qed.

Lemma drop_key_perm k (d1 d2 : list (string * json)) :
  Permutation d1 d2 -> Permutation (drop_key k d1) (drop_key k d2).
Proof.
  unfold drop_key. induction 1; simpl.
  - constructor.
  - destruct (negb (String.eqb (fst x) k)); auto.
  - destruct (negb (String.eqb (fst x) k)), (negb (String.eqb (fst y) k)); auto.
    apply perm_swap.
  - eapply Permutation_trans; eauto.
Qed.

Lemma drop_key_dequiv k d1 d2 :
  dequiv d1 d2 -> dequiv (drop_key k d1) (drop_key k d2).
Proof.
  unfold drop_key. induction 1; simpl; [constructor|].
  destruct (negb (String.eqb k0 k)); [constructor|]; auto.
Qed.

(** Deleting the elements matched by a pattern respects the equivalence. *)
Lemma remove_jequiv (segs : list Dpath.segment) :
  forall j1 j2, jequiv j1 j2 ->
                jequiv (Dpath.remove segs j1) (Dpath.remove segs j2).
Proof.
  induction segs as [|s rest IH]; intros j1 j2 H; [exact H|].
  induction H as [j|j1 j2 j3 _ IH1 _ IH2|l1 l2 Hl|l1 l2 Hm Hp|d1 d2 Hd|d1 d2 Hp].
  - apply je_refl.
  - eapply je_trans; eauto.
  - destruct s as [|k]; [|rewrite !remove_other by exact I; apply je_list; exact Hl].
    destruct rest as [|s' rest'].
    + rewrite !remove_wild_last. apply je_refl.
    + rewrite !remove_wild_more. apply je_list.
      induction Hl; simpl; constructor; auto.
  - destruct s as [|k];
      [|rewrite !remove_other by exact I; apply je_list_perm; assumption].
    destruct rest as [|s' rest'].
    + rewrite !remove_wild_last. apply je_refl.
    + rewrite !remove_wild_more. apply je_list_perm.
      * rewrite forallb_forall in *. intros x Hx.
        apply in_map_iff in Hx. destruct Hx as [y [<- Hy]].
        rewrite remove_is_mapping. auto.
      * apply Permutation_map. exact Hp.
  - destruct s as [|k]; [rewrite !remove_other by exact I; apply je_dict; exact Hd|].
    destruct rest as [|s' rest'].
    + rewrite !remove_key_last. apply je_dict. apply drop_key_dequiv. exact Hd.
    + rewrite !remove_key_more. apply je_dict.
      induction Hd; simpl; [constructor|].
      unfold remove_under at 1 3. simpl.
      destruct (String.eqb k0 k); constructor; auto.
  - destruct s as [|k];
      [rewrite !remove_other by exact I; apply je_dict_perm; exact Hp|].
    destruct rest as [|s' rest'].
    + rewrite !remove_key_last. apply je_dict_perm. apply drop_key_perm. exact Hp.
    + rewrite !remove_key_more. apply je_dict_perm. apply Permutation_map. exact Hp.
Qed.

Lemma nodupb_filter (keep : string * json -> bool) (d : list (string * json)) :
  nodupb (map fst d) = true -> nodupb (map fst (filter keep d)) = true.
Proof.
  rewrite !nodupb_NoDup. induction d as [|kv d IH]; simpl; auto.
  intro H. inversion H as [|? ? Hx Hd]; subst.
  destruct (keep kv); simpl; auto.
  constructor; auto. intro Hin. apply Hx.
  apply in_map_iff in Hin. destruct Hin as [y [E Hy]].
  apply filter_In in Hy. rewrite <- E. apply in_map. tauto.
Qed.

(** Deleting keeps every mapping with one entry per key. *)
Lemma remove_wf (segs : list Dpath.segment) :
  forall j, wf j = true -> wf (Dpath.remove segs j) = true.
Proof.
  induction segs as [|s rest IH]; intros j H; [exact H|].
  destruct s as [|k], j; try (rewrite remove_other by exact I; exact H).
  - destruct rest as [|s' rest']; [reflexivity|].
    rewrite remove_wild_more. simpl in *.
    rewrite forallb_forall in *. intros x Hx.
    apply in_map_iff in Hx. destruct Hx as [y [<- Hy]]. auto.
  - simpl in H. apply andb_true_iff in H. destruct H as [Hk Hv].
    destruct rest as [|s' rest'].
    + rewrite remove_key_last. simpl. apply andb_true_iff. split.
      * apply nodupb_filter. exact Hk.
      * unfold drop_key. rewrite forallb_forall in *. intros x Hx.
        apply filter_In in Hx. apply Hv. tauto.
    + rewrite remove_key_more. simpl. apply andb_true_iff. split.
      * rewrite map_map.
        replace (map (fun x => fst (remove_under k (s' :: rest') x)) d)
          with (map fst d); auto.
        apply map_ext. intro kv. unfold remove_under.
        destruct (String.eqb (fst kv) k); reflexivity.
      * rewrite forallb_forall in *. intros x Hx.
        apply in_map_iff in Hx. destruct Hx as [y [<- Hy]].
        unfold remove_under. destruct (String.eqb (fst y) k); simpl; auto.
Qed.

Lemma strip_all_jequiv (paths : list string) :
  forall j1 j2, wf j1 = true -> jequiv j1 j2 ->
                wf (strip_all paths j1) = true /\
                jequiv (strip_all paths j1) (strip_all paths j2).
Proof.
  unfold strip_all.
  induction paths as [|p paths IH]; intros j1 j2 Hwf H; simpl; auto.
  apply IH; [apply remove_wf | apply remove_jequiv]; assumption.
Qed.

Lemma hash_config_equiv (c1 c2 : config) :
  wf (JDict c1) = true -> config_equiv c1 c2 ->
  Hashing.hash_config c1 = Hashing.hash_config c2.
Proof.
  intros Hwf Heq. unfold Hashing.hash_config.
  destruct jequiv_text_all as (Hj & _ & _).
  destruct (Hj _ _ Heq) as [_ H]. destruct (H Hwf) as [_ Ht].
  unfold text in Ht. simpl Canon.canon in Ht.
  unfold Canon.sub_dict. rewrite Ht. reflexivity.
Qed.

(** X4. Two configurations that are equal up to the order of the keys of their
    mappings and of the elements of their sequences of mappings have the
    same [durable_hash], for every list of ephemeral paths. *)
Theorem durable_hash_order_independent (c1 c2 : config) (paths : list string) :
  wf (JDict c1) = true ->
  config_equiv c1 c2 ->
  Hashing.durable_hash c1 paths = Hashing.durable_hash c2 paths.
Proof.
  intros Hwf Heq. unfold Hashing.durable_hash.
  destruct (@strip_all_jequiv paths _ _ Hwf Heq) as [Hwf' Heq'].
  rewrite <- (durable_item_strip paths c1) in Hwf', Heq'.
  rewrite <- (durable_item_strip paths c2) in Heq'.
  apply hash_config_equiv; [exact Hwf' | exact Heq'].
Qed.

(** X5. When [dpath.util.delete] finds none of the ephemeral paths in the
    configuration, every turn of the loop passes, and the durable hash is
    the complete hash. *)
Theorem durable_hash_nothing_ephemeral (config : config) (paths : list string) :
  forallb (fun p => match Dpath.delete config p "$" with
                    | None => true
                    | Some _ => false
                    end) paths = true ->
  Hashing.durable_hash config paths = Hashing.hash_config config.
Proof.
  intro H. unfold Hashing.durable_hash. f_equal.
  unfold Hashing.durable_item, Hashing.deepcopy.
  induction paths as [|p paths IH]; simpl in *; [reflexivity|].
  apply andb_true_iff in H. destruct H as [Hp H].
  unfold Hashing.delete_or_pass at 2.
  destruct (Dpath.delete config p "$"); [discriminate|]. apply IH. exact H.
Qed.

(** ** The tables after a successful [store] *)

Lemma flush_item_others item d :
  accounts (snd (flush_item item d)) = accounts d /\
  technologies (snd (flush_item item d)) = technologies d /\
  exceptions (snd (flush_item item d)) = exceptions d.
Proof. unfold flush_item. destruct (Item.id item); simpl; auto. Qed.

Lemma flush_revision_others t i r d :
  accounts (flush_revision t i r d) = accounts d /\
  technologies (flush_revision t i r d) = technologies d /\
  exceptions (flush_revision t i r d) = exceptions d.
Proof. unfold flush_revision. destruct (ItemRevision.id r); simpl; auto. Qed.

Lemma insert_issues_others i added d :
  accounts (fold_left (insert_issue i) added d) = accounts d /\
  technologies (fold_left (insert_issue i) added d) = technologies d /\
  exceptions (fold_left (insert_issue i) added d) = exceptions d.
Proof.
  revert d; induction added as [|a added IH]; intro d; simpl; auto.
  destruct (IH (insert_issue i d a)) as (-> & -> & ->). auto.
Qed.

Lemma delete_issues_others deleted d :
  accounts (fold_left delete_issue deleted d) = accounts d /\
  technologies (fold_left delete_issue deleted d) = technologies d /\
  exceptions (fold_left delete_issue deleted d) = exceptions d.
Proof.
  revert d; induction deleted as [|a deleted IH]; intro d; simpl; auto.
  destruct (IH (delete_issue d a)) as (-> & -> & ->). auto.
Qed.

Lemma flush_store_others t item r added deleted d :
  accounts (snd (flush_store t item r added deleted d)) = accounts d /\
  technologies (snd (flush_store t item r added deleted d)) = technologies d /\
  exceptions (snd (flush_store t item r added deleted d)) = exceptions d.
Proof.
  unfold flush_store. destruct (flush_item item d) as [i d0] eqn:E. simpl.
  destruct (delete_issues_others deleted
              (fold_left (insert_issue (Item.id i)) added
                         (flush_revision t (Item.id i) r d0))) as (-> & -> & ->).
  destruct (insert_issues_others (Item.id i) added
              (flush_revision t (Item.id i) r d0)) as (-> & -> & ->).
  destruct (flush_revision_others t (Item.id i) r d0) as (-> & -> & ->).
  pose proof (flush_item_others item d) as H. rewrite E in H. exact H.
Qed.

Lemma resolve_technology_others d technology :
  accounts (snd (resolve_technology d technology)) = accounts d /\
  exceptions (snd (resolve_technology d technology)) = exceptions d.
Proof.
  unfold resolve_technology.
  destruct (Technology_query_filter_name d technology); simpl; auto.
Qed.

Lemma set_id_same (item : Item.t) (i : nat) :
  Item.id item = Some i -> Item.set_id (Some i) item = item.
Proof. destruct item; simpl. intros ->. reflexivity. Qed.

Lemma flush_item_items item d :
  items (snd (flush_item item d)) =
  match Item.id item with
  | Some i => update_item i item (items d)
  | None => items d ++ [Item.set_id (Some (next_id (map Item.id (items d)))) item]
  end.
Proof. unfold flush_item, update_item. destruct (Item.id item) eqn:E; reflexivity. Qed.

Lemma update_item_twice i a b rows :
  Item.id a = Some i ->
  update_item i b (update_item i a rows) = update_item i b rows.
Proof.
  intro Ha. unfold update_item. rewrite map_map. apply map_ext. intro r.
  destruct (opt_nat_eqb (Item.id r) (Some i)) eqn:E.
  - rewrite Ha, opt_nat_eqb_refl. reflexivity.
  - rewrite E. reflexivity.
Qed.

Lemma update_item_fresh i b rows :
  ~ In (Some i) (map Item.id rows) -> update_item i b rows = rows.
Proof.
  intro H. unfold update_item. rewrite <- (map_id rows) at 2.
  apply map_ext_in. intros r Hr.
  destruct (opt_nat_eqb (Item.id r) (Some i)) eqn:E; auto.
  apply opt_nat_eqb_eq in E. exfalso. apply H. rewrite <- E. apply in_map. exact Hr.
Qed.

(** A successful [store], on the tables: the item resolved, the revision
    committed, the revision that the pointer names, and every table
    afterwards. *)
Lemma store_run ctype region account name active_flag config arn new_issues ephemeral
    (w w' : world) :
  wf_db (db w) = true ->
  store ctype region account name active_flag config arn new_issues ephemeral w
  = (Ok tt, w') ->
  exists item0 i item_revision latest,
    resolved ctype region account name (db w) item0 i /\
    staged_revision ephemeral active_flag config (now w) (loaded_latest (db w) item0)
    = Some item_revision /\
    revisions (db w') =
    (match ItemRevision.id item_revision with
     | Some _ => update_revision item_revision (revisions (db w))
     | None => revisions (db w)
               ++ [inserted_revision (now w) (Some i) (revisions (db w)) item_revision]
     end) /\
    hd_error (revisions_of (db w') (stored_item ctype config arn item0 i latest))
    = Some latest /\
    items (db w') =
    (match Item.id item0 with
     | Some _ => update_item i (stored_item ctype config arn item0 i latest) (items (db w))
     | None => items (db w) ++ [stored_item ctype config arn item0 i latest]
     end) /\
    issues (db w') =
    (let st := fold_left add_new_issue new_issues (loaded_issues (db w) item0, []) in
     fold_left delete_issue_row (delete_old_issues (fst st) new_issues)
       (fold_left (insert_issue_row (Some i)) (snd st) (issues (db w)))) /\
    accounts (db w') = accounts (db w) /\
    exceptions (db w') = exceptions (db w) /\
    technologies (db w') =
    (match Item.id item0 with
     | Some _ => technologies (db w)
     | None => technologies (snd (resolve_technology (db w) ctype))
     end) /\
    (Item.id item0 = None ->
     exists a, hd_error (Account_query_filter_name (db w) account) = Some a /\
               item0 = new_item region name (fst (resolve_technology (db w) ctype)) a) /\
    now w' = now w.
Proof.
  intros Hwf H.
  apply store_ok in H
    as (item0 & w0 & item_revision & item1 & d1 & latest
        & Hget & Hrev & Htaken & Hflush & Hid & Hlatest & Hd' & Hn').
  cbv zeta in Htaken, Hflush.
  pose proof (@_get_item_ok _ _ _ _ _ _ _ Hget) as [_ Hcases].
  apply _get_item_tables in Hget as (Hi0 & Hr0 & Hs0 & Hn0 & Hitem0).
  pose proof (flush_store_others (now w) (staged_item ctype config arn item0)
                item_revision
                (snd (fold_left add_new_issue new_issues
                        (loaded_issues (db w0) item0, [])))
                (delete_old_issues
                   (fst (fold_left add_new_issue new_issues
                           (loaded_issues (db w0) item0, []))) new_issues)
                (db w0)) as Hothers.
  rewrite Hflush in Hothers. simpl snd in Hothers.
  destruct Hothers as (Ha1 & Ht1 & He1).
  apply flush_store_tables in Hflush as (Hitem1 & Hi1 & Hr1 & Hs1).
  destruct (wf_db_parts _ Hwf) as (Hpk & _).
  pose proof (flush_item_fst (staged_item ctype config arn item0) (db w0))
    as (Hfid & _).
  rewrite <- Hitem1, staged_item_id in Hfid.
  assert (Hloaded_l : loaded_latest (db w0) item0 = loaded_latest (db w) item0)
    by (unfold loaded_latest; rewrite (revisions_of_table _ _ item0 Hr0); reflexivity).
  assert (Hloaded_i : loaded_issues (db w0) item0 = loaded_issues (db w) item0)
    by (unfold loaded_issues; rewrite (issues_of_table _ _ item0 Hs0); reflexivity).
  rewrite Hloaded_l in Hrev. rewrite Hloaded_i in Hs1.
  destruct (Item.id item1) as [i|] eqn:Ei; [clear Hid | congruence].
  assert (Hres : resolved ctype region account name (db w) item0 i).
  { destruct Hitem0 as [[Hin Hf]|(Hnone & Harn & _ & _ & Hf)].
    - left. repeat split; auto.
      destruct (Item.id item0) as [i0|] eqn:E0; [congruence|].
      exfalso.
      apply (@primary_key_not_null (map Item.id (items (db w))) (Item.id item0) Hpk);
        [apply in_map; exact Hin | exact E0].
    - right. rewrite Hnone, Hi0 in Hfid. repeat split; auto. congruence. }
  assert (Hitem1' : item1 = Item.set_id (Some i) (staged_item ctype config arn item0)).
  { rewrite Hitem1. unfold flush_item.
    destruct (Item.id (staged_item ctype config arn item0)) as [i0|] eqn:E0; simpl.
    - symmetry. apply set_id_same. rewrite staged_item_id in *.
      rewrite E0 in Hfid. congruence.
    - rewrite staged_item_id in E0. rewrite E0, Hi0 in Hfid.
      injection Hfid as ->. rewrite Hi0. reflexivity. }
  set (final := stored_item ctype config arn item0 i latest).
  assert (Hfinal : final = Item.set_latest_revision_id (ItemRevision.id latest) item1)
    by (unfold final, stored_item; rewrite Hitem1'; reflexivity).
  assert (Hfinal_id : Item.id final = Some i) by reflexivity.
  rewrite <- Hfinal in Hd'.
  destruct (flush_item_tables final d1) as [Hr' Hs'].
  destruct (flush_item_others final d1) as (Ha' & Ht' & He').
  rewrite <- Hd' in Hr', Hs', Ha', Ht', He'.
  exists item0, i, item_revision, latest. fold final.
  split; [exact Hres|]. split; [exact Hrev|].
  split; [rewrite Hr', Hr1, Hr0; reflexivity|].
  split.
  { rewrite (revisions_of_table _ _ final Hr').
    rewrite (@revisions_of_id d1 final item1); [exact Hlatest|].
    rewrite Ei. exact Hfinal_id. }
  split.
  { rewrite Hd', flush_item_items, Hfinal_id, Hi1, flush_item_items, staged_item_id, Hi0.
    destruct Hres as [(_ & _ & E0)|(_ & E0 & _ & Ei0)]; rewrite E0.
    - apply update_item_twice. rewrite staged_item_id. exact E0.
    - rewrite <- Ei0. unfold update_item. rewrite map_app. cbn [map].
      fold (update_item i final (items (db w))).
      rewrite update_item_fresh by (rewrite Ei0; apply next_id_fresh).
      change (Item.id (Item.set_id (Some i) (staged_item ctype config arn item0)))
        with (Some i).
      rewrite opt_nat_eqb_refl. reflexivity. }
  split.
  { cbv zeta. rewrite Hs', Hs1, delete_issues_rows, insert_issues_rows.
    destruct (flush_revision_tables (now w) (Some i) item_revision
                (snd (flush_item (staged_item ctype config arn item0) (db w0)))) as [_ ->].
    destruct (flush_item_tables (staged_item ctype config arn item0) (db w0)) as [_ ->].
    rewrite Hs0. reflexivity. }
  assert (Hdb0 : match Item.id item0 with
                 | Some _ => db w0 = db w
                 | None => db w0 = snd (resolve_technology (db w) ctype) /\
                           exists a,
                             hd_error (Account_query_filter_name (db w) account) = Some a /\
                             item0 = new_item region name
                                       (fst (resolve_technology (db w) ctype)) a
                 end).
  { destruct Hcases as [[Hf Hd]|[Hf (a & Ha & Hit & Hd)]].
    - destruct Hres as [(_ & _ & E0)|(Hf' & _)]; [rewrite E0; exact Hd | congruence].
    - destruct Hres as [(Hf' & _)|(_ & E0 & _)]; [congruence|].
      rewrite E0. split; [exact Hd|]. exists a. auto. }
  destruct (Item.id item0) as [i0|] eqn:E0.
  - rewrite Ha', He', Ht', Ha1, He1, Ht1, Hdb0.
    repeat split; auto. intro X; discriminate.
  - destruct Hdb0 as [Hdb0 Hnew].
    destruct (resolve_technology_others (db w) ctype) as [Hra Hre].
    rewrite Ha', He', Ht', Ha1, He1, Ht1, Hdb0.
    repeat split; auto.
Qed.

(** ** The constraints of the schema after a [store] *)

Lemma NoDup_distinct (ids : list (option nat)) : NoDup ids -> distinct ids = true.
Proof.
  induction 1 as [|x ids Hx _ IH]; simpl; auto.
  rewrite IH, andb_true_r. apply negb_true_iff.
  destruct (existsb (opt_nat_eqb x) ids) eqn:E; auto.
  apply existsb_exists in E. destruct E as [y [Hy E]].
  apply opt_nat_eqb_eq in E. subst y. contradiction.
Qed.

Lemma primary_key_spec (ids : list (option nat)) :
  primary_key ids = true <-> (forall o, In o ids -> o <> None) /\ NoDup ids.
Proof.
  unfold primary_key. rewrite andb_true_iff, forallb_forall. split.
  - intros [Hn Hd]. split; [|apply distinct_NoDup; exact Hd].
    intros o Ho E. apply Hn in Ho. subst o. discriminate.
  - intros [Hn Hd]. split; [|apply NoDup_distinct; exact Hd].
    intros o Ho. destruct o; [reflexivity|]. exfalso. apply (Hn None Ho). reflexivity.
Qed.

(** A row with the next id keeps the primary key. *)
Lemma primary_key_next (ids : list (option nat)) :
  primary_key ids = true -> primary_key (ids ++ [Some (next_id ids)]) = true.
Proof.
  rewrite !primary_key_spec. intros [Hn Hd]. split.
  - intros o Ho. apply in_app_or in Ho. destruct Ho as [Ho|[<-|[]]]; auto. discriminate.
  - apply NoDup_app; auto.
    + repeat constructor. intros [].
    + intros x Hx [<-|[]]. revert Hx. apply next_id_fresh.
Qed.

Lemma primary_key_filter {A : Type} (f : A -> option nat) (keep : A -> bool)
    (rows : list A) :
  primary_key (map f rows) = true -> primary_key (map f (filter keep rows)) = true.
Proof.
  rewrite !primary_key_spec. intros [Hn Hd]. split.
  - intros o Ho. apply Hn. apply in_map_iff in Ho. destruct Ho as [x [<- Hx]].
    apply filter_In in Hx. apply in_map. tauto.
  - apply NoDup_map_filter. exact Hd.
Qed.

Lemma foreign_key_spec (fks ids : list (option nat)) :
  foreign_key fks ids = true <-> forall fk, In fk fks -> fk <> None /\ In fk ids.
Proof.
  unfold foreign_key. rewrite forallb_forall. split.
  - intros H fk Hfk. specialize (H fk Hfk). apply andb_true_iff in H.
    destruct H as [Hn Hin]. split; [destruct fk; [discriminate|discriminate]|].
    apply existsb_exists in Hin. destruct Hin as [x [Hx E]].
    apply opt_nat_eqb_eq in E. congruence.
  - intros H fk Hfk. destruct (H fk Hfk) as [Hn Hin]. apply andb_true_iff. split.
    + destruct fk; [reflexivity | congruence].
    + apply existsb_exists. exists fk. split; auto. apply opt_nat_eqb_refl.
Qed.

Lemma update_item_ids i final rows :
  Item.id final = Some i -> map Item.id (update_item i final rows) = map Item.id rows.
Proof.
  intro H. unfold update_item. rewrite map_map. apply map_ext. intro r.
  destruct (opt_nat_eqb (Item.id r) (Some i)) eqn:E; auto.
  apply opt_nat_eqb_eq in E. congruence.
Qed.

Lemma update_revision_ids r rows :
  map ItemRevision.id (update_revision r rows) = map ItemRevision.id rows.
Proof.
  unfold update_revision. rewrite map_map. apply map_ext. intro x.
  destruct (opt_nat_eqb (ItemRevision.id x) (ItemRevision.id r)) eqn:E; auto.
  apply opt_nat_eqb_eq in E. congruence.
Qed.

Lemma insert_issue_rows_key fk added ids :
  forall rows,
    primary_key (map ItemAudit.id rows) = true ->
    foreign_key (map ItemAudit.item_id rows) ids = true ->
    fk <> None -> In fk ids ->
    primary_key (map ItemAudit.id (fold_left (insert_issue_row fk) added rows)) = true /\
    foreign_key (map ItemAudit.item_id (fold_left (insert_issue_row fk) added rows)) ids
    = true.
Proof.
  induction added as [|a added IH]; intros rows Hpk Hfk Hn Hin; simpl; auto.
  apply IH; auto.
  - unfold insert_issue_row. rewrite map_app. simpl. apply primary_key_next. exact Hpk.
  - rewrite foreign_key_spec in *. unfold insert_issue_row. rewrite map_app.
    intros x Hx. apply in_app_or in Hx. destruct Hx as [Hx|[<-|[]]]; auto.
Qed.

Lemma delete_issue_rows_key deleted ids :
  forall rows,
    primary_key (map ItemAudit.id rows) = true ->
    foreign_key (map ItemAudit.item_id rows) ids = true ->
    primary_key (map ItemAudit.id (fold_left delete_issue_row deleted rows)) = true /\
    foreign_key (map ItemAudit.item_id (fold_left delete_issue_row deleted rows)) ids
    = true.
Proof.
  induction deleted as [|a deleted IH]; intros rows Hpk Hfk; simpl; auto.
  apply IH.
  - unfold delete_issue_row. apply primary_key_filter. exact Hpk.
  - rewrite foreign_key_spec in *. unfold delete_issue_row. intros x Hx.
    apply Hfk. apply in_map_iff in Hx. destruct Hx as [y [<- Hy]].
    apply filter_In in Hy. apply in_map. tauto.
Qed.

(** [store] keeps the primary and foreign keys. *)
Lemma store_wf ctype region account name active_flag config arn new_issues ephemeral
    (w w' : world) :
  wf_db (db w) = true ->
  store ctype region account name active_flag config arn new_issues ephemeral w
  = (Ok tt, w') ->
  wf_db (db w') = true.
Proof.
  intros Hwf H.
  destruct (@store_run _ _ _ _ _ _ _ _ _ _ _ Hwf H)
    as (item0 & i & item_revision & latest & Hres & Hrev & Hrows & _ & Hitems
        & Hissues & _).
  destruct (wf_db_parts _ Hwf) as (Hpi & Hpr & Hps & Hfr & Hfs).
  set (final := stored_item ctype config arn item0 i latest) in *.
  (* the ids of the items *)
  assert (Hids : exists extra, map Item.id (items (db w')) = map Item.id (items (db w)) ++ extra
                               /\ In (Some i) (map Item.id (items (db w')))
                               /\ primary_key (map Item.id (items (db w'))) = true).
  { rewrite Hitems. destruct Hres as [(_ & Hin & E0)|(_ & E0 & _ & Ei)]; rewrite E0.
    - exists []. rewrite app_nil_r, update_item_ids by reflexivity.
      repeat split; auto. rewrite <- E0. apply in_map. exact Hin.
    - exists [Some i]. rewrite map_app. simpl.
      change (Item.id final) with (Some i). repeat split; auto.
      + apply in_or_app. right. left. reflexivity.
      + rewrite Ei. apply primary_key_next. exact Hpi. }
  destruct Hids as (extra & Hids & Hi & Hpi').
  assert (Hincl : forall fk, In fk (map Item.id (items (db w))) ->
                             In fk (map Item.id (items (db w'))))
    by (intros fk Hfk; rewrite Hids; apply in_or_app; auto).
  unfold wf_db. rewrite Hpi'. simpl.
  (* the revisions *)
  assert (Hrev' : primary_key (map ItemRevision.id (revisions (db w'))) = true /\
                  foreign_key (map ItemRevision.item_id (revisions (db w')))
                              (map Item.id (items (db w'))) = true).
  { rewrite Hrows. unfold staged_revision in Hrev. destruct ephemeral.
    - destruct (loaded_latest (db w) item0) as [r0|] eqn:E; [|discriminate].
      injection Hrev as <-.
      unfold loaded_latest in E. destruct (Item.id item0) eqn:E0; [|discriminate].
      apply revisions_first_most_recent in E. destruct E as (Hr0 & Hfk0 & _).
      change (ItemRevision.id (ItemRevision.set_date_last_ephemeral_change
                                 (Some (now w)) (ItemRevision.set_config config r0)))
        with (ItemRevision.id r0).
      assert (Hid0 : ItemRevision.id r0 <> None).
      { apply (@primary_key_not_null _ _ Hpr). apply in_map. exact Hr0. }
      destruct (ItemRevision.id r0) eqn:Eid; [|congruence].
      rewrite update_revision_ids. split; [exact Hpr|].
      rewrite foreign_key_spec in *. intros fk Hfk.
      apply in_map_iff in Hfk. destruct Hfk as [x [<- Hx]].
      unfold update_revision in Hx. apply in_map_iff in Hx.
      destruct Hx as [y [Hy Hin]].
      destruct (opt_nat_eqb (ItemRevision.id y) _); subst x.
      + simpl. destruct (Hfr (ItemRevision.item_id r0)); auto.
        apply in_map. exact Hr0.
      + destruct (Hfr (ItemRevision.item_id y)); auto. apply in_map. exact Hin.
    - injection Hrev as <-. simpl. rewrite !map_app. simpl. split.
      + apply primary_key_next. exact Hpr.
      + rewrite foreign_key_spec in *. intros fk Hfk.
        apply in_app_or in Hfk. destruct Hfk as [Hfk|[<-|[]]].
        * destruct (Hfr fk Hfk). auto.
        * split; [discriminate | exact Hi]. }
  destruct Hrev' as [-> ->]. simpl.
  (* the issues *)
  rewrite Hissues. cbv zeta.
  assert (Hfs' : foreign_key (map ItemAudit.item_id (issues (db w)))
                             (map Item.id (items (db w'))) = true).
  { rewrite foreign_key_spec in *. intros fk Hfk. destruct (Hfs fk Hfk). auto. }
  destruct (@insert_issue_rows_key (Some i)
              (snd (fold_left add_new_issue new_issues (loaded_issues (db w) item0, [])))
              (map Item.id (items (db w'))) (issues (db w)) Hps Hfs')
    as [Hp1 Hf1]; [discriminate | exact Hi |].
  destruct (@delete_issue_rows_key
              (delete_old_issues
                 (fst (fold_left add_new_issue new_issues
                         (loaded_issues (db w) item0, []))) new_issues)
              (map Item.id (items (db w'))) _ Hp1 Hf1) as [-> ->].
  reflexivity.
Qed.

(** ** The issues after a [store] *)

Lemma filter_filter {A : Type} (f g : A -> bool) (l : list A) :
  filter f (filter g l) = filter (fun x => g x && f x) l.
Proof.
  induction l as [|x l IH]; simpl; auto.
  destruct (g x); simpl; [destruct (f x)|]; rewrite IH; reflexivity.
Qed.

Lemma delete_issue_rows_filter deleted :
  forall rows,
    fold_left delete_issue_row deleted rows =
    filter (fun a => forallb (fun d => negb (opt_nat_eqb (ItemAudit.id a) (ItemAudit.id d)))
                             deleted) rows.
Proof.
  induction deleted as [|d deleted IH]; intro rows; simpl.
  - symmetry. apply forallb_filter_id. apply forallb_forall. auto.
  - rewrite IH. unfold delete_issue_row. apply filter_filter.
Qed.

(** The loop "Add new issues" adds no key twice, and no key that an issue
    of the item has. *)
Lemma add_new_issues_nodup new_issues :
  forall old added0 old' added,
    fold_left add_new_issue new_issues (old, added0) = (old', added) ->
    NoDup (map issue_key old) -> NoDup (map issue_key old').
Proof.
  induction new_issues as [|n rest IH]; intros old added0 old' added; simpl.
  - intro H. injection H as <- _. auto.
  - destruct (key_in (issue_key n) old) eqn:E; simpl; intros H Hnd.
    + eapply IH; eauto.
    + eapply IH; [exact H|]. rewrite map_app. simpl.
      apply NoDup_app; auto.
      * repeat constructor. intros [].
      * intros k Hk [<-|[]]. apply key_in_spec in Hk. congruence.
Qed.

(** The issues of the table after a [store] on the item with the id [i]:
    the rows kept, in their order, and then the rows of the issues added. *)
Lemma issues_shape ctype region account name (d : database) item0 i new_issues :
  wf_db d = true ->
  resolved ctype region account name d item0 i ->
  let st := fold_left add_new_issue new_issues (loaded_issues d item0, []) in
  exists added',
    fold_left delete_issue_row (delete_old_issues (fst st) new_issues)
      (fold_left (insert_issue_row (Some i)) (snd st) (issues d))
    = filter (kept i new_issues) (issues d) ++ added' /\
    fst st = loaded_issues d item0 ++ snd st /\
    map issue_key added' = map issue_key (snd st) /\
    (forall a, In a added' -> ItemAudit.item_id a = Some i) /\
    (forall a, In a (snd st) -> In a new_issues) /\
    (forall n, In n new_issues -> In (issue_key n) (map issue_key (fst st))) /\
    (forall a, In a (loaded_issues d item0) <->
               In a (issues d) /\ ItemAudit.item_id a = Some i).
Proof.
  intros Hwf Hres st.
  destruct (@wf_db_parts _ Hwf) as (_ & _ & Hpk & _ & Hfk).
  set (rows := issues d) in *.
  set (old := loaded_issues d item0) in *.
  destruct (add_new_issues_spec new_issues old []) as (added & Hfold & Hsub & Hkeys).
  subst st. rewrite Hfold. cbn [fst snd app].
  destruct (insert_issue_rows_spec (Some i) added rows)
    as (added' & Hins & Hk' & Hfk' & Hfresh).
  rewrite Hins.
  set (deleted := delete_old_issues (old ++ added) new_issues).
  assert (Hold : forall a, In a old <-> In a rows /\ ItemAudit.item_id a = Some i).
  { intro a. unfold old, loaded_issues.
    destruct Hres as [(_ & _ & Hi0)|(_ & Hnone & _ & Hi)].
    - rewrite Hi0. unfold issues_of. rewrite filter_In, Hi0, opt_nat_eqb_eq. tauto.
    - rewrite Hnone. split; [intros []|]. intros [Ha Hfka]. exfalso.
      apply (@next_id_fresh (map Item.id (items d))). rewrite <- Hi, <- Hfka.
      eapply foreign_key_in; [exact Hfk|]. apply in_map. exact Ha. }
  assert (Hdel : forall x, In x deleted <->
                           In x old /\ key_in (issue_key x) new_issues = false).
  { intro x. unfold deleted, delete_old_issues.
    rewrite filter_In, negb_true_iff. split.
    - intros [Hd Hk]. split; auto. apply in_app_or in Hd. destruct Hd as [Hd|Hd]; auto.
      exfalso. assert (X : key_in (issue_key x) new_issues = true); [|congruence].
      apply key_in_spec. apply in_map. apply Hsub. exact Hd.
    - intros [Hd Hk]. split; [apply in_or_app; auto | exact Hk]. }
  assert (Hdist : distinct (map ItemAudit.id rows) = true).
  { unfold primary_key in Hpk. apply andb_true_iff in Hpk. tauto. }
  exists added'. split.
  { rewrite delete_issue_rows_filter, filter_app. f_equal.
    - apply filter_ext_in. intros a Ha. unfold kept.
      destruct (opt_nat_eqb (ItemAudit.item_id a) (Some i)) eqn:Ei; simpl.
      + apply opt_nat_eqb_eq in Ei.
        assert (Hao : In a old) by (apply Hold; auto).
        destruct (key_in (issue_key a) new_issues) eqn:Ek.
        * apply forallb_forall. intros x Hx. apply negb_true_iff, opt_nat_eqb_neq.
          intro E. apply Hdel in Hx. destruct Hx as [Hx Hkx].
          assert (a = x); [|congruence].
          apply (distinct_id_inj rows); auto; apply Hold; assumption.
        * apply not_true_is_false. intro X. rewrite forallb_forall in X.
          assert (Hd : In a deleted) by (apply Hdel; auto).
          specialize (X a Hd). rewrite opt_nat_eqb_refl in X. discriminate.
      + apply forallb_forall. intros x Hx. apply negb_true_iff, opt_nat_eqb_neq.
        intro E. apply Hdel in Hx. destruct Hx as [Hx _]. apply Hold in Hx.
        assert (a = x) by (apply (distinct_id_inj rows); tauto).
        apply opt_nat_eqb_neq in Ei. subst x. tauto.
    - apply forallb_filter_id. apply forallb_forall. intros a Ha.
      apply forallb_forall. intros x Hx. apply negb_true_iff, opt_nat_eqb_neq.
      intro E. apply (Hfresh a Ha). rewrite E. apply in_map.
      apply Hdel in Hx. destruct Hx as [Hx _]. apply Hold. exact Hx. }
  repeat split; auto; apply Hold; auto.
Qed.

(** ** The item is found again after a [store] *)

Lemma filter_map_same {A : Type} (p : A -> bool) (f : A -> A) (l : list A) :
  (forall x, In x l -> p (f x) = p x) ->
  filter p (map f l) = map f (filter p l).
Proof.
  induction l as [|x l IH]; simpl; intro H; auto.
  rewrite (H x) by auto. destruct (p x); simpl; rewrite IH; auto.
Qed.

Lemma filter_nil {A : Type} (p : A -> bool) (l : list A) :
  filter p l = [] <-> forall x, In x l -> p x = false.
Proof.
  induction l as [|x l IH]; simpl; [tauto|].
  destruct (p x) eqn:E; split.
  - discriminate.
  - intro H. rewrite (H x) in E by auto. discriminate.
  - intros H y [<-|Hy]; auto. apply IH; auto.
  - intro H. apply IH. auto.
Qed.

Lemma items_id_inj (rows : list Item.t) (a b : Item.t) :
  primary_key (map Item.id rows) = true ->
  In a rows -> In b rows -> Item.id a = Item.id b -> a = b.
Proof.
  intro Hpk. apply primary_key_spec in Hpk. destruct Hpk as [_ Hd].
  induction rows as [|x rows IH]; simpl in *; [tauto|].
  inversion Hd as [|? ? Hx Hrest]; subst.
  intros [->|Ha] [->|Hb] E; auto.
  - exfalso. apply Hx. rewrite E. apply in_map. exact Hb.
  - exfalso. apply Hx. rewrite <- E. apply in_map. exact Ha.
Qed.

Lemma stored_item_fields ctype config arn item0 i latest :
  Item.id (stored_item ctype config arn item0 i latest) = Some i /\
  Item.region (stored_item ctype config arn item0 i latest) = Item.region item0 /\
  Item.name (stored_item ctype config arn item0 i latest) = Item.name item0 /\
  Item.tech_id (stored_item ctype config arn item0 i latest) = Item.tech_id item0 /\
  Item.account_id (stored_item ctype config arn item0 i latest) = Item.account_id item0 /\
  Item.latest_revision_id (stored_item ctype config arn item0 i latest)
  = ItemRevision.id latest /\
  Item.latest_revision_complete_hash (stored_item ctype config arn item0 i latest)
  = Some (Hashing.hash_config config) /\
  Item.latest_revision_durable_hash (stored_item ctype config arn item0 i latest)
  = Some (Hashing.durable_hash config (Hashing.ephemeral_paths_for_tech ctype)) /\
  Item.arn (stored_item ctype config arn item0 i latest)
  = (if truthy arn then arn else Item.arn item0).
Proof.
  unfold stored_item, staged_item. destruct (truthy arn); simpl; repeat split.
Qed.

(** The row of a new technology joins no item. *)
Lemma joins_technology_resolved d technology x :
  technology_key d = true -> In x (items d) ->
  joins_technology (snd (resolve_technology d technology)) technology x
  = joins_technology d technology x.
Proof.
  intros Htk Hx. unfold joins_technology, resolve_technology.
  destruct (Technology_query_filter_name d technology); [|reflexivity].
  cbn [snd set_technologies technologies]. rewrite existsb_app. cbn [existsb].
  rewrite orb_false_r. unfold new_technology. cbn [Technology.id Technology.name].
  replace (Nat.eqb (next_id (map (fun t => Some (Technology.id t)) (technologies d)))
                   (Item.tech_id x)) with false; [cbn [andb]; apply orb_false_r|].
  symmetry. apply Nat.eqb_neq. intro E.
  unfold technology_key in Htk. rewrite forallb_forall in Htk.
  specialize (Htk x Hx). apply existsb_exists in Htk.
  destruct Htk as [t [Hti Hte]]. apply Nat.eqb_eq in Hte.
  apply (@next_id_fresh (map (fun t => Some (Technology.id t)) (technologies d))).
  rewrite E, <- Hte. apply in_map_iff. exists t. auto.
Qed.

(** After a [store] the identity of the item selects its row, and no other. *)
Lemma identity_after_store ctype region account name config arn
    (d d' : database) item0 i latest :
  wf_db d = true ->
  technology_key d = true ->
  resolved ctype region account name d item0 i ->
  items d' =
  (match Item.id item0 with
   | Some _ => update_item i (stored_item ctype config arn item0 i latest) (items d)
   | None => items d ++ [stored_item ctype config arn item0 i latest]
   end) ->
  accounts d' = accounts d ->
  technologies d' =
  (match Item.id item0 with
   | Some _ => technologies d
   | None => technologies (snd (resolve_technology d ctype))
   end) ->
  (Item.id item0 = None ->
   exists a, hd_error (Account_query_filter_name d account) = Some a /\
             item0 = new_item region name (fst (resolve_technology d ctype)) a) ->
  Item_query_identity ctype region account name d'
  = [stored_item ctype config arn item0 i latest].
Proof.
  intros Hwf Htk Hres Hitems Hacc Htech Hnew.
  destruct (wf_db_parts _ Hwf) as (Hpk & _).
  set (final := stored_item ctype config arn item0 i latest) in *.
  destruct (stored_item_fields ctype config arn item0 i latest)
    as (Hfid & Hfreg & Hfname & Hftech & Hfacc & _).
  fold final in Hfid, Hfreg, Hfname, Hftech, Hfacc.
  set (P := fun (dd : database) it =>
              joins_technology dd ctype it && joins_account dd account it
              && String.eqb (Item.region it) region && String.eqb (Item.name it) name).
  assert (Hq : forall dd, Item_query_identity ctype region account name dd
                          = filter (P dd) (items dd)) by reflexivity.
  rewrite Hq. rewrite Hitems.
  destruct Hres as [(Hf & Hin & E0)|(Hf & E0 & _ & Ei)]; rewrite E0 in *.
  - (* the row of the item is updated *)
    assert (HP : forall it, P d' it = P d it).
    { intro it. unfold P, joins_technology, joins_account. rewrite Htech, Hacc.
      reflexivity. }
    rewrite (filter_ext _ _ HP). unfold update_item.
    rewrite filter_map_same.
    + rewrite <- Hq, Hf. simpl. rewrite E0, opt_nat_eqb_refl. reflexivity.
    + intros x Hx. destruct (opt_nat_eqb (Item.id x) (Some i)) eqn:E; auto.
      apply opt_nat_eqb_eq in E.
      assert (x = item0) as -> by (apply (items_id_inj (items d)); auto; congruence).
      unfold P, joins_technology, joins_account.
      rewrite Hfreg, Hfname, Hftech, Hfacc. reflexivity.
  - (* a new row *)
    destruct (Hnew eq_refl) as (a & Ha & Hitem0).
    destruct (resolve_technology_spec d ctype) as (Ht & Htn & _ & _ & Hts).
    cbv zeta in Ht, Htn, Hts.
    rewrite filter_app.
    assert (Hold : filter (P d') (items d) = []).
    { apply filter_nil. intros x Hx.
      rewrite Hq in Hf. pose proof (proj1 (filter_nil (P d) (items d)) Hf x Hx) as HPx.
      assert (Hjt : joins_technology d' ctype x = joins_technology d ctype x).
      { transitivity (joins_technology (snd (resolve_technology d ctype)) ctype x).
        - unfold joins_technology. rewrite Htech. reflexivity.
        - apply joins_technology_resolved; assumption. }
      unfold P in *. unfold joins_account in *. rewrite Hjt, Hacc. exact HPx. }
    rewrite Hold. simpl.
    assert (HPf : P d' final = true).
    { unfold P. rewrite Hfreg, Hfname, Hitem0. simpl.
      rewrite !String.eqb_refl, !andb_true_r. apply andb_true_iff. split.
      - unfold joins_technology. apply existsb_exists.
        exists (fst (resolve_technology d ctype)). rewrite Htech. split; auto.
        rewrite Hftech, Hitem0. simpl. rewrite Nat.eqb_refl. simpl.
        apply String.eqb_eq. exact Htn.
      - unfold joins_account. apply existsb_exists. exists a.
        assert (Hin : In a (Account_query_filter_name d account)).
        { destruct (Account_query_filter_name d account); [discriminate|].
          injection Ha as ->. left. reflexivity. }
        apply Account_query_filter_name_spec in Hin. destruct Hin as [Hin Hn].
        rewrite Hacc. split; auto.
        rewrite Hfacc, Hitem0. simpl. rewrite Nat.eqb_refl. simpl.
        apply String.eqb_eq. exact Hn. }
    rewrite HPf. reflexivity.
Qed.

(** [store] keeps the foreign key of the items to their technology. *)
Lemma store_technology_key
    ctype region account name active_flag config arn new_issues ephemeral
    (w w' : world) :
  wf_db (db w) = true ->
  technology_key (db w) = true ->
  store ctype region account name active_flag config arn new_issues ephemeral w
  = (Ok tt, w') ->
  technology_key (db w') = true.
Proof.
  intros Hwf Htk H.
  destruct (@store_run _ _ _ _ _ _ _ _ _ _ _ Hwf H)
    as (item0 & i & item_revision & latest & Hres & _ & _ & _ & Hitems
        & _ & _ & _ & Htech & Hnew & _).
  unfold technology_key in *. rewrite forallb_forall in *. intros x Hx.
  assert (Hsub : forall t, In t (technologies (db w)) -> In t (technologies (db w'))).
  { intros t Ht. rewrite Htech. destruct (Item.id item0); auto.
    destruct (resolve_technology_spec (db w) ctype) as (_ & _ & _ & _ & ->).
    destruct (existsb _ (technologies (db w))); auto. apply in_or_app. auto. }
  rewrite Hitems in Hx.
  assert (Hcase : In x (items (db w)) \/
                  x = stored_item ctype config arn item0 i latest).
  { destruct (Item.id item0).
    - unfold update_item in Hx. apply in_map_iff in Hx. destruct Hx as [y [Hy Hin]].
      destruct (opt_nat_eqb (Item.id y) (Some i)); subst; auto.
    - apply in_app_or in Hx. destruct Hx as [Hx|[<-|[]]]; auto. }
  destruct Hcase as [Hx0| ->].
  - specialize (Htk x Hx0). apply existsb_exists in Htk. destruct Htk as [t [Ht E]].
    apply existsb_exists. exists t. auto.
  - destruct (stored_item_fields ctype config arn item0 i latest)
      as (_ & _ & _ & -> & _).
    destruct Hres as [(_ & Hin0 & _)|(_ & E0 & _)].
    + specialize (Htk item0 Hin0). apply existsb_exists in Htk.
      destruct Htk as [t [Ht E]]. apply existsb_exists. exists t. auto.
    + destruct (Hnew E0) as (a & _ & ->).
      destruct (resolve_technology_spec (db w) ctype) as (Ht & _).
      cbv zeta in Ht. apply existsb_exists.
      exists (fst (resolve_technology (db w) ctype)). rewrite Htech, E0.
      split; auto. simpl. apply Nat.eqb_refl.
Qed.

(** ** The order of the revisions after a [store] *)

Lemma insert_desc_map (f : ItemRevision.t -> ItemRevision.t) r l :
  (forall x, In x (r :: l) -> date_key (f x) = date_key x) ->
  insert_desc (f r) (map f l) = map f (insert_desc r l).
Proof.
  induction l as [|r' l IH]; intro H; simpl; auto.
  rewrite (H r), (H r') by (simpl; auto).
  destruct (date_key r' <=? date_key r)%Z; simpl; auto.
  rewrite IH; auto. intros x [<-|Hx]; apply H; simpl; auto.
Qed.

Lemma order_by_map (f : ItemRevision.t -> ItemRevision.t) l :
  (forall x, In x l -> date_key (f x) = date_key x) ->
  order_by_date_created_desc (map f l) = map f (order_by_date_created_desc l).
Proof.
  induction l as [|r l IH]; intro H; simpl; auto.
  rewrite IH by (intros; apply H; simpl; auto).
  apply insert_desc_map. intros x [<-|Hx]; apply H; simpl; auto.
  right. eapply Permutation_in; [apply Permutation_sym, order_by_perm | exact Hx].
Qed.

(** A revision more recent than all the others comes first. *)
Lemma order_by_newest l x :
  (forall r, In r l -> (date_key r < date_key x)%Z) ->
  hd_error (order_by_date_created_desc (l ++ [x])) = Some x.
Proof.
  intro H. unfold order_by_date_created_desc. rewrite fold_right_app. simpl.
  assert (G : exists rest, fold_right insert_desc [x] l = x :: rest).
  { induction l as [|r l IH]; simpl; [eauto|].
    destruct IH as [rest ->]; [intros; apply H; simpl; auto|].
    simpl. destruct (Z.leb_spec (date_key x) (date_key r)) as [E|E].
    - specialize (H r (or_introl eq_refl)). lia.
    - eauto. }
  destruct G as [rest ->]. reflexivity.
Qed.

Lemma revisions_id_inj (rows : list ItemRevision.t) (a b : ItemRevision.t) :
  primary_key (map ItemRevision.id rows) = true ->
  In a rows -> In b rows -> ItemRevision.id a = ItemRevision.id b -> a = b.
Proof.
  intro Hpk. apply primary_key_spec in Hpk. destruct Hpk as [_ Hd].
  induction rows as [|x rows IH]; simpl in *; [tauto|].
  inversion Hd as [|? ? Hx Hrest]; subst.
  intros [->|Ha] [->|Hb] E; auto.
  - exfalso. apply Hx. rewrite E. apply in_map. exact Hb.
  - exfalso. apply Hx. rewrite <- E. apply in_map. exact Ha.
Qed.

(** [ItemRevision.query.get] finds the row with a given id. *)
Lemma revision_get_in d r :
  primary_key (map ItemRevision.id (revisions d)) = true ->
  In r (revisions d) -> revision_get d (ItemRevision.id r) = Some r.
Proof.
  intros Hpk Hin. unfold revision_get.
  assert (H : forall x, In x (filter (fun x => opt_nat_eqb (ItemRevision.id x)
                                                           (ItemRevision.id r))
                                     (revisions d)) -> x = r).
  { intros x Hx. apply filter_In in Hx. destruct Hx as [Hx E].
    apply opt_nat_eqb_eq in E. apply (revisions_id_inj (revisions d)); auto. }
  assert (Hr : In r (filter (fun x => opt_nat_eqb (ItemRevision.id x) (ItemRevision.id r))
                            (revisions d)))
    by (apply filter_In; split; auto; apply opt_nat_eqb_refl).
  destruct (filter _ (revisions d)) as [|x l]; [destruct Hr|].
  simpl. f_equal. apply H. left. reflexivity.
Qed.

(** The revision that the pointer of the item names after a [store]: the
    revision overwritten, or, when the clock is ahead of the dates of the
    revisions, the revision added. *)
Lemma store_latest ephemeral active_flag config (t : Z) (d d' : database)
    (item0 final : Item.t) (i : nat) (item_revision latest : ItemRevision.t) :
  wf_db d = true ->
  (Item.id item0 = Some i \/
   Item.id item0 = None /\ i = next_id (map Item.id (items d))) ->
  Item.id final = Some i ->
  staged_revision ephemeral active_flag config t (loaded_latest d item0)
  = Some item_revision ->
  revisions d' =
  (match ItemRevision.id item_revision with
   | Some _ => update_revision item_revision (revisions d)
   | None => revisions d ++ [inserted_revision t (Some i) (revisions d) item_revision]
   end) ->
  hd_error (revisions_of d' final) = Some latest ->
  (ephemeral || forallb (fun r => (date_key r <? t)%Z) (revisions d)) = true ->
  In latest (revisions d') /\ ItemRevision.item_id latest = Some i /\
  ItemRevision.config latest = config /\
  (if ephemeral
   then ItemRevision.date_last_ephemeral_change latest = Some t
   else ItemRevision.active latest = active_flag /\
        ItemRevision.date_created latest = Some t).
Proof.
  intros Hwf Hi Hfid Hrev Hrows Hlatest Hclock.
  destruct (wf_db_parts _ Hwf) as (_ & Hpr & _).
  pose proof (revisions_first_most_recent _ _ Hlatest) as (Hin & Hfk & _).
  rewrite Hfid in Hfk. split; [exact Hin|]. split; [exact Hfk|].
  unfold staged_revision in Hrev. destruct ephemeral.
  - (* the revision overwritten is still the first *)
    unfold loaded_latest in Hrev.
    destruct (Item.id item0) as [i0|] eqn:E0; [|discriminate].
    assert (i0 = i) as -> by (destruct Hi as [Hi|[Hi _]]; congruence).
    destruct (hd_error (revisions_of d item0)) as [r0|] eqn:E; [|discriminate].
    injection Hrev as <-.
    pose proof (revisions_first_most_recent _ _ E) as (Hr0 & Hfk0 & _).
    set (r' := ItemRevision.set_date_last_ephemeral_change (Some t)
                 (ItemRevision.set_config config r0)) in *.
    assert (Hid0 : ItemRevision.id r0 <> None).
    { apply (@primary_key_not_null _ _ Hpr). apply in_map. exact Hr0. }
    change (ItemRevision.id r') with (ItemRevision.id r0) in Hrows.
    destruct (ItemRevision.id r0) as [rid|] eqn:Erid; [|congruence].
    set (f := fun x => if opt_nat_eqb (ItemRevision.id x) (ItemRevision.id r')
                       then r' else x).
    assert (Hf : forall x, In x (revisions d) ->
                           f x = x \/ (x = r0 /\ f x = r')).
    { intros x Hx. unfold f.
      destruct (opt_nat_eqb (ItemRevision.id x) (ItemRevision.id r')) eqn:X; auto.
      right. split; auto. apply opt_nat_eqb_eq in X.
      apply (revisions_id_inj (revisions d)); auto. }
    assert (Hrows' : revisions d' = map f (revisions d)) by exact Hrows.
    unfold revisions_of in Hlatest. rewrite Hrows', Hfid in Hlatest.
    rewrite filter_map_same in Hlatest.
    2:{ intros x Hx. destruct (Hf x Hx) as [->|[-> ->]]; reflexivity. }
    rewrite order_by_map in Hlatest.
    2:{ intros x Hx. apply filter_In in Hx. destruct Hx as [Hx _].
        destruct (Hf x Hx) as [->|[-> ->]]; reflexivity. }
    unfold revisions_of in E. rewrite E0 in E.
    destruct (order_by_date_created_desc
                (filter (fun r => opt_nat_eqb (ItemRevision.item_id r) (Some i))
                        (revisions d))) as [|x rest]; [discriminate|].
    injection E as ->. simpl in Hlatest. injection Hlatest as <-.
    unfold f. rewrite opt_nat_eqb_refl. split; reflexivity.
  - (* the revision added is the first *)
    injection Hrev as <-. simpl in Hrows. simpl in Hclock.
    unfold revisions_of in Hlatest. rewrite Hrows, Hfid, filter_app in Hlatest.
    simpl in Hlatest. rewrite Nat.eqb_refl in Hlatest.
    rewrite order_by_newest in Hlatest.
    + injection Hlatest as <-. simpl. auto.
    + intros r Hr. apply filter_In in Hr. destruct Hr as [Hr _].
      rewrite forallb_forall in Hclock. specialize (Hclock r Hr).
      apply Z.ltb_lt in Hclock. exact Hclock.
Qed.

(** ** What a successful [store] leaves in the tables *)

(** X6. [store] keeps the constraints of the schema: the primary keys of the
    items, the revisions and the issues, the foreign keys of the revisions
    and the issues to their item, and the foreign key of the items to their
    technology. *)
Theorem store_keeps_schema
    ctype region account name active_flag config arn new_issues ephemeral
    (w w' : world) :
  wf_db (db w) = true ->
  technology_key (db w) = true ->
  store ctype region account name active_flag config arn new_issues ephemeral w
  = (Ok tt, w') ->
  wf_db (db w') = true /\ technology_key (db w') = true.
Proof.
  intros Hwf Htk H. split.
  - exact (@store_wf _ _ _ _ _ _ _ _ _ _ _ Hwf H).
  - exact (@store_technology_key _ _ _ _ _ _ _ _ _ _ _ Hwf Htk H).
Qed.

(** X7. After a successful [store] the row of the item has the hashes of the
    configuration given, 32 characters each, and its pointer names a
    revision of the item that holds this configuration: the revision
    overwritten by an ephemeral change, or the revision added, when the
    clock is ahead of the dates of the revisions.  It is the revision that
    [ItemRevision.query.get] returns for the pointer. *)
Theorem store_latest_consistent
    ctype region account name active_flag config arn new_issues ephemeral
    (w w' : world) :
  wf_db (db w) = true ->
  (ephemeral || forallb (fun r => (date_key r <? now w)%Z) (revisions (db w))) = true ->
  store ctype region account name active_flag config arn new_issues ephemeral w
  = (Ok tt, w') ->
  exists (i : nat) (final : Item.t) (r : ItemRevision.t),
    In final (items (db w')) /\ Item.id final = Some i /\
    Item.latest_revision_complete_hash final = Some (Hashing.hash_config config) /\
    Item.latest_revision_durable_hash final
    = Some (Hashing.durable_hash config (Hashing.ephemeral_paths_for_tech ctype)) /\
    String.length (Hashing.hash_config config) = 32 /\
    String.length (Hashing.durable_hash config (Hashing.ephemeral_paths_for_tech ctype))
    = 32 /\
    revision_get (db w') (Item.latest_revision_id final) = Some r /\
    ItemRevision.item_id r = Some i /\
    ItemRevision.config r = config /\
    (if ephemeral
     then ItemRevision.date_last_ephemeral_change r = Some (now w)
     else ItemRevision.active r = active_flag /\
          ItemRevision.date_created r = Some (now w)).
Proof.
  intros Hwf Hclock H.
  pose proof (@store_wf _ _ _ _ _ _ _ _ _ _ _ Hwf H) as Hwf'.
  destruct (@store_run _ _ _ _ _ _ _ _ _ _ _ Hwf H)
    as (item0 & i & item_revision & latest & Hres & Hrev & Hrows & Hlatest & Hitems & _).
  set (final := stored_item ctype config arn item0 i latest) in *.
  destruct (stored_item_fields ctype config arn item0 i latest)
    as (Hfid & _ & _ & _ & _ & Hptr & Hch & Hdh & _).
  fold final in Hfid, Hptr, Hch, Hdh.
  assert (Hi : Item.id item0 = Some i \/
               Item.id item0 = None /\ i = next_id (map Item.id (items (db w))))
    by (destruct Hres as [(_ & _ & E)|(_ & E & _ & Ei)]; auto).
  destruct (@store_latest ephemeral active_flag config (now w) (db w) (db w')
              item0 final i item_revision latest Hwf Hi Hfid Hrev Hrows Hlatest Hclock)
    as (Hin & Hfk & Hcfg & Hrest).
  destruct (wf_db_parts _ Hwf') as (_ & Hpr' & _).
  exists i, final, latest.
  split.
  { rewrite Hitems. destruct Hres as [(_ & Hin0 & E0)|(_ & E0 & _)]; rewrite E0.
    - unfold update_item. apply in_map_iff. exists item0. split; auto.
      rewrite E0, opt_nat_eqb_refl. reflexivity.
    - apply in_or_app. right. left. reflexivity. }
  split; [exact Hfid|]. split; [exact Hch|]. split; [exact Hdh|].
  split; [reflexivity|]. split; [reflexivity|].
  split; [rewrite Hptr; apply revision_get_in; assumption|].
  auto.
Qed.

Lemma filter_map_frame {A : Type} (p : A -> bool) (f : A -> A) (l : list A) :
  (forall x, In x l -> f x = x \/ (p (f x) = false /\ p x = false)) ->
  filter p (map f l) = filter p l.
Proof.
  induction l as [|x l IH]; simpl; intro H; auto.
  rewrite IH by auto.
  destruct (H x (or_introl eq_refl)) as [->|[-> ->]]; reflexivity.
Qed.

(** X8. A successful [store] touches the row of its item, the revisions and
    the issues of this item, and nothing else: the other items, their
    revisions and their issues are as before, in the same order; so are the
    accounts and the exception log; and the technologies, but for the row
    of a kind seen for the first time. *)
Theorem store_frame
    ctype region account name active_flag config arn new_issues ephemeral
    (w w' : world) :
  wf_db (db w) = true ->
  store ctype region account name active_flag config arn new_issues ephemeral w
  = (Ok tt, w') ->
  exists (item0 : Item.t) (i : nat),
    resolved ctype region account name (db w) item0 i /\
    accounts (db w') = accounts (db w) /\
    exceptions (db w') = exceptions (db w) /\
    (technologies (db w') = technologies (db w) \/
     Technology_query_filter_name (db w) ctype = [] /\
     technologies (db w') = technologies (db w) ++ [new_technology (db w) ctype]) /\
    filter (fun x => negb (opt_nat_eqb (Item.id x) (Some i))) (items (db w'))
    = filter (fun x => negb (opt_nat_eqb (Item.id x) (Some i))) (items (db w)) /\
    filter (fun r => negb (opt_nat_eqb (ItemRevision.item_id r) (Some i)))
           (revisions (db w'))
    = filter (fun r => negb (opt_nat_eqb (ItemRevision.item_id r) (Some i)))
             (revisions (db w)) /\
    filter (fun a => negb (opt_nat_eqb (ItemAudit.item_id a) (Some i))) (issues (db w'))
    = filter (fun a => negb (opt_nat_eqb (ItemAudit.item_id a) (Some i)))
             (issues (db w)).
Proof.
  intros Hwf H.
  destruct (@store_run _ _ _ _ _ _ _ _ _ _ _ Hwf H)
    as (item0 & i & item_revision & latest & Hres & Hrev & Hrows & _ & Hitems
        & Hissues & Hacc & Hexc & Htech & _).
  destruct (wf_db_parts _ Hwf) as (_ & Hpr & _).
  exists item0, i. split; [exact Hres|]. split; [exact Hacc|]. split; [exact Hexc|].
  split.
  { rewrite Htech. destruct (Item.id item0); auto.
    unfold resolve_technology.
    destruct (Technology_query_filter_name (db w) ctype); simpl; auto. }
  split.
  { rewrite Hitems. destruct (Item.id item0).
    - unfold update_item. apply filter_map_frame. intros x _.
      destruct (opt_nat_eqb (Item.id x) (Some i)) eqn:E; auto.
      right.
      destruct (stored_item_fields ctype config arn item0 i latest) as (-> & _).
      rewrite opt_nat_eqb_refl. split; reflexivity.
    - rewrite filter_app. simpl. rewrite Nat.eqb_refl. simpl. apply app_nil_r. }
  split.
  { rewrite Hrows. unfold staged_revision in Hrev. destruct ephemeral.
    - unfold loaded_latest in Hrev.
      destruct (Item.id item0) as [i0|] eqn:E0; [|discriminate].
      assert (i0 = i) as ->
          by (destruct Hres as [(_ & _ & E)|(_ & E & _)]; congruence).
      destruct (hd_error (revisions_of (db w) item0)) as [r0|] eqn:E; [|discriminate].
      injection Hrev as <-.
      apply revisions_first_most_recent in E. destruct E as (Hr0 & Hfk0 & _).
      rewrite E0 in Hfk0.
      assert (Hid0 : ItemRevision.id r0 <> None).
      { apply (@primary_key_not_null _ _ Hpr). apply in_map. exact Hr0. }
      change (ItemRevision.id (ItemRevision.set_date_last_ephemeral_change
                                 (Some (now w)) (ItemRevision.set_config config r0)))
        with (ItemRevision.id r0).
      destruct (ItemRevision.id r0) as [rid|] eqn:Erid; [|congruence].
      unfold update_revision. apply filter_map_frame. intros x Hx.
      change (ItemRevision.id (ItemRevision.set_date_last_ephemeral_change
                                 (Some (now w)) (ItemRevision.set_config config r0)))
        with (ItemRevision.id r0).
      destruct (opt_nat_eqb (ItemRevision.id x) (ItemRevision.id r0)) eqn:X; auto.
      right. apply opt_nat_eqb_eq in X.
      assert (x = r0) as -> by (apply (revisions_id_inj (revisions (db w))); auto).
      simpl. rewrite Hfk0. simpl. rewrite Nat.eqb_refl. auto.
    - injection Hrev as <-. simpl. rewrite filter_app. simpl.
      rewrite Nat.eqb_refl. simpl. apply app_nil_r. }
  destruct (@issues_shape ctype region account name (db w) item0 i new_issues Hwf Hres)
    as (added' & Hshape & _ & _ & Hfk' & _).
  rewrite Hissues. cbv zeta. rewrite Hshape, filter_app, filter_filter.
  replace (filter (fun a => negb (opt_nat_eqb (ItemAudit.item_id a) (Some i))) added')
    with (@nil ItemAudit.t).
  - rewrite app_nil_r. apply filter_ext. intro a. unfold kept.
    destruct (opt_nat_eqb (ItemAudit.item_id a) (Some i)); simpl; auto.
    apply andb_false_r.
  - symmetry. apply filter_nil. intros a Ha. rewrite (Hfk' a Ha).
    simpl. rewrite Nat.eqb_refl. reflexivity.
Qed.

Lemma loaded_issues_rows ctype region account name d item0 i :
  wf_db d = true ->
  resolved ctype region account name d item0 i ->
  loaded_issues d item0 =
  filter (fun a => opt_nat_eqb (ItemAudit.item_id a) (Some i)) (issues d).
Proof.
  intros Hwf Hres. destruct (wf_db_parts _ Hwf) as (_ & _ & _ & _ & Hfk).
  unfold loaded_issues.
  destruct Hres as [(_ & _ & E0)|(_ & E0 & _ & Ei)]; rewrite E0.
  - unfold issues_of. rewrite E0. reflexivity.
  - symmetry. apply filter_nil. intros a Ha. apply opt_nat_eqb_neq. intro E.
    apply (@next_id_fresh (map Item.id (items d))). rewrite <- Ei, <- E.
    eapply foreign_key_in; [exact Hfk|]. apply in_map. exact Ha.
Qed.

Lemma NoDup_app_parts {A : Type} (l1 l2 l1' l2' : list A) :
  NoDup (l1 ++ l2) ->
  NoDup l1' -> NoDup l2' ->
  (forall x, In x l1' -> In x l1) -> (forall x, In x l2' -> In x l2) ->
  NoDup (l1' ++ l2').
Proof.
  intros H H1 H2 S1 S2. apply NoDup_app; auto.
  intros x Hx1 Hx2. apply S1 in Hx1. apply S2 in Hx2. revert Hx1 Hx2.
  clear - H. induction l1 as [|y l1 IH]; simpl in *; [tauto|].
  inversion H as [|? ? Hy Hrest]; subst.
  intros [->|Hx1] Hx2.
  - apply Hy. apply in_or_app. auto.
  - apply IH; auto.
Qed.

(** X9. [store] keeps the keys of the issues of every item distinct: it adds
    no issue whose key the item has, or that it has just added. *)
Theorem store_keys_distinct
    ctype region account name active_flag config arn new_issues ephemeral
    (w w' : world) :
  wf_db (db w) = true ->
  keys_distinct (db w) = true ->
  store ctype region account name active_flag config arn new_issues ephemeral w
  = (Ok tt, w') ->
  keys_distinct (db w') = true.
Proof.
  intros Hwf Hkd H.
  destruct (@store_run _ _ _ _ _ _ _ _ _ _ _ Hwf H)
    as (item0 & i & item_revision & latest & Hres & _ & _ & _ & Hitems
        & Hissues & _).
  destruct (@issues_shape ctype region account name (db w) item0 i new_issues Hwf Hres)
    as (added' & Hshape & Hst & Hk' & Hfk' & Hsub & Hkeys & Hold).
  cbv zeta in Hissues. rewrite Hshape in Hissues.
  pose proof (loaded_issues_rows Hwf Hres) as Hloaded.
  unfold keys_distinct in *. rewrite forallb_forall in *. intros it Hit.
  unfold stored_keys. rewrite Hissues, filter_app, filter_filter, map_app.
  destruct (opt_nat_eqb (Item.id it) (Some i)) eqn:Eit.
  - (* the item of the call *)
    apply opt_nat_eqb_eq in Eit. rewrite Eit.
    apply nodupb_NoDup.
    destruct (fold_left add_new_issue new_issues (loaded_issues (db w) item0, []))
      as [old' added] eqn:Est.
    cbn [fst snd] in *.
    assert (Hnd0 : NoDup (map issue_key (loaded_issues (db w) item0))).
    { rewrite Hloaded.
      destruct Hres as [(_ & Hin0 & E0)|(_ & E0 & _ & Ei)].
      - specialize (Hkd item0 Hin0). apply nodupb_NoDup in Hkd.
        unfold stored_keys in Hkd. rewrite E0 in Hkd. exact Hkd.
      - rewrite <- Hloaded. unfold loaded_issues. rewrite E0. constructor. }
    pose proof (add_new_issues_nodup _ _ _ Est Hnd0) as Hnd.
    rewrite Hst, map_app in Hnd.
    apply (NoDup_app_parts _ _ Hnd).
    + replace (filter (fun a => kept i new_issues a
                                && opt_nat_eqb (ItemAudit.item_id a) (Some i))
                      (issues (db w)))
        with (filter (kept i new_issues) (loaded_issues (db w) item0)).
      * apply NoDup_map_filter. exact Hnd0.
      * rewrite Hloaded, filter_filter. apply filter_ext. intro a. apply andb_comm.
    + apply NoDup_app_remove_l in Hnd. rewrite <- Hk' in Hnd.
      apply NoDup_map_filter. exact Hnd.
    + intros k Hk. apply in_map_iff in Hk. destruct Hk as [a [<- Ha]].
      apply filter_In in Ha. destruct Ha as [Ha Hx]. apply andb_true_iff in Hx.
      apply in_map. apply Hold. split; auto. apply opt_nat_eqb_eq. tauto.
    + intros k Hk. apply in_map_iff in Hk. destruct Hk as [a [<- Ha]].
      apply filter_In in Ha. rewrite <- Hk'. apply in_map. tauto.
  - (* another item *)
    assert (Hit0 : In it (items (db w))).
    { rewrite Hitems in Hit. destruct (Item.id item0).
      - unfold update_item in Hit. apply in_map_iff in Hit.
        destruct Hit as [x [Hx Hin]].
        destruct (opt_nat_eqb (Item.id x) (Some i)) eqn:X; [|congruence].
        subst it. simpl in Eit. rewrite Nat.eqb_refl in Eit. discriminate.
      - apply in_app_or in Hit. destruct Hit as [Hit|[<-|[]]]; auto.
        simpl in Eit. rewrite Nat.eqb_refl in Eit. discriminate. }
    specialize (Hkd it Hit0). unfold stored_keys in Hkd.
    replace (filter (fun a => opt_nat_eqb (ItemAudit.item_id a) (Item.id it)) added')
      with (@nil ItemAudit.t).
    + simpl. rewrite app_nil_r.
      replace (filter (fun a => kept i new_issues a
                                && opt_nat_eqb (ItemAudit.item_id a) (Item.id it))
                      (issues (db w)))
        with (filter (fun a => opt_nat_eqb (ItemAudit.item_id a) (Item.id it))
                     (issues (db w))); [exact Hkd|].
      apply filter_ext. intro a. unfold kept.
      destruct (opt_nat_eqb (ItemAudit.item_id a) (Item.id it)) eqn:Ea;
        [|rewrite andb_false_r; reflexivity].
      apply opt_nat_eqb_eq in Ea. rewrite Ea, Eit. reflexivity.
    + symmetry. apply filter_nil. intros a Ha. rewrite (Hfk' a Ha).
      apply opt_nat_eqb_neq. apply opt_nat_eqb_neq in Eit. congruence.
Qed.

(** ** Two calls in a row *)

Lemma add_nothing new_issues :
  forall old acc,
    (forall n, In n new_issues -> key_in (issue_key n) old = true) ->
    fold_left add_new_issue new_issues (old, acc) = (old, acc).
Proof.
  induction new_issues as [|n rest IH]; intros old acc H; simpl; auto.
  rewrite (H n) by (left; reflexivity). simpl. apply IH.
  intros n' Hn'. apply H. right. exact Hn'.
Qed.

(** The keys of the issues of the item after a [store], from the shape of
    the table. *)
Lemma issues_after_store (i : nat) (new_issues old added added' rows rows' : list ItemAudit.t) :
  rows' = filter (kept i new_issues) rows ++ added' ->
  map issue_key added' = map issue_key added ->
  (forall a, In a added' -> ItemAudit.item_id a = Some i) ->
  (forall a, In a added -> In a new_issues) ->
  (forall n, In n new_issues -> In (issue_key n) (map issue_key (old ++ added))) ->
  (forall a, In a old <-> In a rows /\ ItemAudit.item_id a = Some i) ->
  (forall a, In a rows' -> kept i new_issues a = true) /\
  (forall n, In n new_issues ->
             exists a, In a rows' /\ ItemAudit.item_id a = Some i /\
                       issue_key a = issue_key n).
Proof.
  intros -> Hk' Hfk' Hsub Hkeys Hold. split.
  - intros a Ha. apply in_app_or in Ha. destruct Ha as [Ha|Ha].
    + apply filter_In in Ha. tauto.
    + unfold kept. apply orb_true_iff. right. apply key_in_spec.
      assert (Hka : In (issue_key a) (map issue_key added')) by (apply in_map; exact Ha).
      rewrite Hk' in Hka. apply in_map_iff in Hka. destruct Hka as (n & <- & Hn).
      apply in_map. apply Hsub. exact Hn.
  - intros n Hn. specialize (Hkeys n Hn). rewrite map_app in Hkeys.
    apply in_app_or in Hkeys. destruct Hkeys as [Hk|Hk].
    + apply in_map_iff in Hk. destruct Hk as (a & E & Ha).
      apply Hold in Ha. destruct Ha as [Ha Hfk].
      exists a. split; [|auto]. apply in_or_app. left. apply filter_In. split; auto.
      unfold kept. apply orb_true_iff. right. apply key_in_spec. rewrite E.
      apply in_map. exact Hn.
    + rewrite <- Hk' in Hk. apply in_map_iff in Hk. destruct Hk as (a & E & Ha).
      exists a. split; [apply in_or_app; auto|]. split; auto.
Qed.

(** X10. A second [store] on the same item with the same issues adds no issue
    and deletes none, whatever its other arguments. *)
Theorem store_issues_idempotent
    ctype region account name new_issues
    active_flag config arn ephemeral active_flag' config' arn' ephemeral'
    (w w1 w2 : world) :
  wf_db (db w) = true ->
  technology_key (db w) = true ->
  store ctype region account name active_flag config arn new_issues ephemeral w
  = (Ok tt, w1) ->
  store ctype region account name active_flag' config' arn' new_issues ephemeral' w1
  = (Ok tt, w2) ->
  issues (db w2) = issues (db w1).
Proof.
  intros Hwf Htk H1 H2.
  pose proof (@store_wf _ _ _ _ _ _ _ _ _ _ _ Hwf H1) as Hwf1.
  destruct (@store_run _ _ _ _ _ _ _ _ _ _ _ Hwf H1)
    as (item0 & i & item_revision & latest & Hres & _ & _ & _ & Hitems
        & Hissues & Hacc & _ & Htech & Hnew & _).
  pose proof (@identity_after_store ctype region account name config arn
                (db w) (db w1) item0 i latest Hwf Htk Hres Hitems Hacc Htech Hnew)
    as Hfound.
  destruct (@issues_shape ctype region account name (db w) item0 i new_issues Hwf Hres)
    as (added' & Hshape & Hst & Hk' & Hfk' & Hsub & Hkeys & Hold).
  cbv zeta in Hissues. rewrite Hshape in Hissues. rewrite Hst in Hkeys.
  destruct (@issues_after_store i new_issues _ _ _ _ _ Hissues Hk' Hfk' Hsub Hkeys Hold)
    as [Hallkept Hhas].
  (* the second call *)
  destruct (@store_run _ _ _ _ _ _ _ _ _ _ _ Hwf1 H2)
    as (item1 & i1 & item_revision1 & latest1 & Hres1 & _ & _ & _ & _
        & Hissues1 & _).
  assert (Hi1 : i1 = i).
  { destruct Hres1 as [(Hf1 & _ & E1)|(Hf1 & _)]; rewrite Hfound in Hf1;
      [|discriminate].
    injection Hf1 as <-. simpl in E1. congruence. }
  subst i1.
  destruct (@issues_shape ctype region account name (db w1) item1 i new_issues Hwf1 Hres1)
    as (added1' & Hshape1 & _ & Hk1' & _ & _ & _ & Hold1).
  cbv zeta in Hissues1. rewrite Hshape1 in Hissues1.
  rewrite add_nothing in Hk1'.
  - simpl in Hk1'. apply map_eq_nil in Hk1'. rewrite Hk1', app_nil_r in Hissues1.
    rewrite Hissues1. apply forallb_filter_id. apply forallb_forall. exact Hallkept.
  - intros n Hn. destruct (Hhas n Hn) as (a & Ha & Hfk & E).
    apply key_in_spec. rewrite <- E. apply in_map. apply Hold1. auto.
Qed.

(** ** Reading back what [store] wrote *)

Lemma get_found ctype region account name (w : world) (item : Item.t) :
  faults w = [] ->
  Account_query_filter_name (db w) account <> [] ->
  Item_query_identity ctype region account name (db w) = [item] ->
  Item.id item <> None ->
  exists w2 w3,
    get ctype region account name w = (Ok (revisions_of (db w) item), w2) /\
    db w2 = db w /\
    get_audit_issues ctype region account name w = (Ok (issues_of (db w) item), w3) /\
    db w3 = db w.
Proof.
  intros Hf Hacc Hfound Hid.
  destruct (_get_item_no_fault ctype region account name w Hf)
    as (w1 & Hd1 & _ & Hf1 & Hget).
  rewrite Hfound in Hd1, Hget.
  destruct (Account_query_filter_name (db w) account) as [|a accs]; [congruence|].
  unfold get, get_audit_issues.
  rewrite !(bind_run _ _ _ Hget).
  unfold revisions_all, load_issues.
  destruct (Item.id item) as [i|] eqn:Ei; [|congruence].
  rewrite (all_no_fault RevisionsAll _ w1 Hf1), (all_no_fault IssuesLoad _ w1 Hf1).
  rewrite Hd1. eexists. eexists. repeat split; auto.
Qed.

Lemma account_after_store ctype region account name d item0 i :
  resolved ctype region account name d item0 i ->
  (Item.id item0 = None ->
   exists a, hd_error (Account_query_filter_name d account) = Some a /\
             item0 = new_item region name (fst (resolve_technology d ctype)) a) ->
  Account_query_filter_name d account <> [].
Proof.
  intros [(Hf & _ & _)|(_ & E0 & _)] Hnew.
  - apply (@identity_match_account ctype region account name d item0).
    rewrite Hf. left. reflexivity.
  - destruct (Hnew E0) as (a & Ha & _).
    destruct (Account_query_filter_name d account); [discriminate | discriminate].
Qed.

(** X11. After a successful [store], [get] on the same identity returns the
    revisions of the item, and first the revision that holds the
    configuration stored: the one overwritten by an ephemeral change, or
    the one added, when the clock is ahead of the dates of the revisions. *)
Theorem store_then_get
    ctype region account name active_flag config arn new_issues ephemeral
    (w w' : world) :
  wf_db (db w) = true ->
  technology_key (db w) = true ->
  (ephemeral || forallb (fun r => (date_key r <? now w)%Z) (revisions (db w))) = true ->
  store ctype region account name active_flag config arn new_issues ephemeral w
  = (Ok tt, w') ->
  faults w' = [] ->
  exists (revs : list ItemRevision.t) (r : ItemRevision.t) (w'' : world),
    get ctype region account name w' = (Ok revs, w'') /\
    db w'' = db w' /\
    hd_error revs = Some r /\
    ItemRevision.config r = config /\
    (if ephemeral
     then ItemRevision.date_last_ephemeral_change r = Some (now w)
     else ItemRevision.active r = active_flag /\
          ItemRevision.date_created r = Some (now w)) /\
    revision_count (db w') (ItemRevision.item_id r) = List.length revs.
Proof.
  intros Hwf Htk Hclock H Hf.
  destruct (@store_run _ _ _ _ _ _ _ _ _ _ _ Hwf H)
    as (item0 & i & item_revision & latest & Hres & Hrev & Hrows & Hlatest & Hitems
        & _ & Hacc & _ & Htech & Hnew & _).
  pose proof (@identity_after_store ctype region account name config arn
                (db w) (db w') item0 i latest Hwf Htk Hres Hitems Hacc Htech Hnew)
    as Hfound.
  set (final := stored_item ctype config arn item0 i latest) in *.
  assert (Hfid : Item.id final = Some i) by reflexivity.
  assert (Hi : Item.id item0 = Some i \/
               Item.id item0 = None /\ i = next_id (map Item.id (items (db w))))
    by (destruct Hres as [(_ & _ & E)|(_ & E & _ & Ei)]; auto).
  destruct (@store_latest ephemeral active_flag config (now w) (db w) (db w')
              item0 final i item_revision latest Hwf Hi Hfid Hrev Hrows Hlatest Hclock)
    as (Hin & Hfk & Hcfg & Hrest).
  assert (Hacc' : Account_query_filter_name (db w') account <> []).
  { unfold Account_query_filter_name. rewrite Hacc.
    apply (account_after_store Hres Hnew). }
  destruct (@get_found ctype region account name w' final Hf Hacc' Hfound)
    as (w2 & _ & Hget & Hd2 & _); [rewrite Hfid; discriminate|].
  exists (revisions_of (db w') final), latest, w2.
  repeat (split; [assumption|]).
  rewrite Hfk. unfold revision_count, revisions_of. rewrite Hfid.
  apply Permutation_length. apply order_by_perm.
Qed.

(** X12. After a successful [store], [get_audit_issues] on the same identity
    returns issues of the item whose keys, as the code builds them, are
    the keys of [new_issues]. *)
Theorem store_then_get_audit_issues
    ctype region account name active_flag config arn new_issues ephemeral
    (w w' : world) :
  wf_db (db w) = true ->
  technology_key (db w) = true ->
  store ctype region account name active_flag config arn new_issues ephemeral w
  = (Ok tt, w') ->
  faults w' = [] ->
  exists (l : list ItemAudit.t) (w'' : world),
    get_audit_issues ctype region account name w' = (Ok l, w'') /\
    db w'' = db w' /\
    (forall a, In a l -> In a (issues (db w'))) /\
    (forall k, In k (map issue_key l) <-> In k (map issue_key new_issues)).
Proof.
  intros Hwf Htk H Hf.
  destruct (@store_run _ _ _ _ _ _ _ _ _ _ _ Hwf H)
    as (item0 & i & item_revision & latest & Hres & _ & _ & _ & Hitems
        & Hissues & Hacc & _ & Htech & Hnew & _).
  pose proof (@identity_after_store ctype region account name config arn
                (db w) (db w') item0 i latest Hwf Htk Hres Hitems Hacc Htech Hnew)
    as Hfound.
  set (final := stored_item ctype config arn item0 i latest) in *.
  assert (Hfid : Item.id final = Some i) by reflexivity.
  destruct (@issues_shape ctype region account name (db w) item0 i new_issues Hwf Hres)
    as (added' & Hshape & Hst & Hk' & Hfk' & Hsub & Hkeys & Hold).
  cbv zeta in Hissues. rewrite Hshape in Hissues. rewrite Hst in Hkeys.
  destruct (@issues_after_store i new_issues _ _ _ _ _ Hissues Hk' Hfk' Hsub Hkeys Hold)
    as [Hallkept Hhas].
  assert (Hacc' : Account_query_filter_name (db w') account <> []).
  { unfold Account_query_filter_name. rewrite Hacc.
    apply (account_after_store Hres Hnew). }
  destruct (@get_found ctype region account name w' final Hf Hacc' Hfound)
    as (_ & w3 & _ & _ & Hget & Hd3); [rewrite Hfid; discriminate|].
  exists (issues_of (db w') final), w3.
  split; [exact Hget|]. split; [exact Hd3|].
  unfold issues_of. rewrite Hfid. split.
  - intros a Ha. apply filter_In in Ha. tauto.
  - intro k. split.
    + intro Hk. apply in_map_iff in Hk. destruct Hk as (a & <- & Ha).
      apply filter_In in Ha. destruct Ha as [Ha Hfk].
      specialize (Hallkept a Ha). unfold kept in Hallkept.
      rewrite Hfk in Hallkept. simpl in Hallkept. apply key_in_spec. exact Hallkept.
    + intro Hk. apply in_map_iff in Hk. destruct Hk as (n & <- & Hn).
      destruct (Hhas n Hn) as (a & Ha & Hfk & E). rewrite <- E. apply in_map.
      apply filter_In. split; auto. apply opt_nat_eqb_eq. exact Hfk.
Qed.

(** ** [store] that fails *)

Lemma revision_count_zero d item :
  revision_count d (Item.id item) = 0 -> revisions_of d item = [].
Proof.
  unfold revision_count, revisions_of. intro H.
  apply length_zero_iff_nil in H. rewrite H. reflexivity.
Qed.

(** [_get_item] that finds the item makes two reads. *)
Lemma _get_item_found_run technology region account name (w : world) item :
  faults w = [] ->
  Account_query_filter_name (db w) account <> [] ->
  Item_query_identity technology region account name (db w) = [item] ->
  _get_item technology region account name w
  = (Ok item, emit (RoundTrip ItemJoinAll) (emit (RoundTrip AccountFirst) w)).
Proof.
  intros Hf Hacc Hfound. unfold _get_item.
  rewrite (bind_run _ _ _ (first_no_fault AccountFirst _ w Hf)).
  destruct (Account_query_filter_name (db w) account) as [|a accs] eqn:Ea;
    [congruence|]. cbn [hd_error].
  set (w1 := emit (RoundTrip AccountFirst) w).
  assert (Hf1 : faults w1 = []) by exact Hf.
  rewrite (bind_run _ _ _ (all_no_fault ItemJoinAll _ w1 Hf1)).
  change (db w1) with (db w). rewrite Hfound. reflexivity.
Qed.

(** X13. An ephemeral change needs a revision to overwrite: on a new item, or on
    an item without revision whose ARN, after the assignment, no other item
    has, [store] with [ephemeral=True] raises the [AttributeError] of
    [item_revision.config = config]; when it is raised the tables of the
    items, of the revisions and of the issues are as they were. *)
Theorem store_ephemeral_without_revision
    ctype region account name active_flag config arn new_issues (w : world) :
  faults w = [] ->
  Account_query_filter_name (db w) account <> [] ->
  List.length (Item_query_identity ctype region account name (db w)) <= 1 ->
  forallb (fun item => Nat.eqb (revision_count (db w) (Item.id item)) 0
                       && negb (arn_taken (db w) (staged_item ctype config arn item)))
          (Item_query_identity ctype region account name (db w)) = true ->
  exists w',
    store ctype region account name active_flag config arn new_issues true w
    = (Raise (AttributeError "'NoneType' object has no attribute 'config'"), w') /\
    items (db w') = items (db w) /\
    revisions (db w') = revisions (db w) /\
    issues (db w') = issues (db w).
Proof.
  intros Hf Hacc Hone Hnone.
  destruct (_get_item_no_fault ctype region account name w Hf)
    as (w0 & _ & _ & Hf0 & Hget).
  assert (Hitem0 : exists item0, _get_item ctype region account name w = (Ok item0, w0)).
  { rewrite Hget.
    destruct (Account_query_filter_name (db w) account) as [|a accs]; [congruence|].
    destruct (Item_query_identity ctype region account name (db w))
      as [|it [|it' its]]; [eauto | eauto | simpl in Hone; lia]. }
  clear Hget. destruct Hitem0 as [item0 Hget].
  pose proof (@_get_item_tables _ _ _ _ _ _ _ Hget) as (Hi0 & Hr0 & Hs0 & _ & Hcases).
  set (staged := staged_item ctype config arn item0).
  assert (Hsid : Item.id staged = Item.id item0) by apply staged_item_id.
  assert (Hlatest : loaded_latest (db w0) staged = None).
  { unfold loaded_latest. rewrite Hsid.
    destruct Hcases as [[Hin Hfound]|(E0 & _)]; [|rewrite E0; reflexivity].
    rewrite (@revisions_of_id (db w0) staged item0 Hsid).
    destruct (Item.id item0) eqn:E0; [|reflexivity].
    rewrite (revisions_of_table _ _ item0 Hr0).
    rewrite Hfound in Hnone. simpl in Hnone. rewrite andb_true_r in Hnone.
    apply andb_true_iff in Hnone. destruct Hnone as [Hnone _].
    apply Nat.eqb_eq in Hnone. rewrite (revision_count_zero _ _ Hnone). reflexivity. }
  (* the flush before the read goes through, or there is none *)
  assert (Hflush : autoflush staged RevisionsFirst (revisions_first staged) w0
                   = revisions_first staged w0).
  { destruct Hcases as [[Hin Hfound]|(E0 & _)].
    - apply autoflush_free. rewrite (@arn_taken_items (db w) (db w0) _ Hi0).
      rewrite Hfound in Hnone. simpl in Hnone. rewrite andb_true_r in Hnone.
      apply andb_true_iff in Hnone. destruct Hnone as [_ Hfree].
      apply negb_true_iff in Hfree. exact Hfree.
    - rewrite autoflush_new; [reflexivity|]. rewrite Hsid. exact E0. }
  unfold store. rewrite (bind_run _ _ _ Hget).
  fold (staged_item ctype config arn item0). fold staged.
  destruct (revisions_first_no_fault staged w0 Hf0) as (w1 & Hrun & Hd1 & _).
  rewrite Hlatest in Hrun. rewrite <- Hflush in Hrun.
  unfold bind at 1. unfold bind at 1. rewrite Hrun. cbv beta iota.
  exists w1. split; [reflexivity|]. rewrite Hd1. auto.
Qed.

(** The other items with a given ARN. *)
Lemma arn_taken_spec d item a :
  Item.arn item = Some a ->
  arn_taken d item = true <->
  exists other, In other (items d) /\ Item.id other <> Item.id item /\
                Item.arn other = Some a.
Proof.
  intro Ha. unfold arn_taken. rewrite Ha, existsb_exists. split.
  - intros (r & Hr & H). apply andb_true_iff in H. destruct H as [Hid Harn].
    apply negb_true_iff, opt_nat_eqb_neq in Hid.
    exists r. repeat split; auto.
    destruct (Item.arn r) as [a'|]; [|discriminate].
    apply String.eqb_eq in Harn. congruence.
  - intros (r & Hr & Hid & Harn). exists r. split; auto.
    apply andb_true_iff. split.
    + apply negb_true_iff, opt_nat_eqb_neq. exact Hid.
    + rewrite Harn. apply String.eqb_refl.
Qed.

(** X14. The ARN is unique: [store] with an ARN that another item has raises
    an [IntegrityError], and the tables of the items, of the revisions and
    of the issues are as they were.  For an item that is in the table the
    error comes from the flush of the changed item before the first read
    that follows the assignment, [item.revisions.first()] for an ephemeral
    change and the load of [item.issues] otherwise: this read is the last
    round trip, and [store] does not get to its commit.  For a new item,
    which no query flushes, the error comes from the commit. *)
Theorem store_arn_conflict
    ctype region account name active_flag config (a : string) new_issues ephemeral
    (w : world) (other : Item.t) :
  faults w = [] ->
  wf_db (db w) = true ->
  Account_query_filter_name (db w) account <> [] ->
  List.length (Item_query_identity ctype region account name (db w)) <= 1 ->
  truthy (Some a) = true ->
  In other (items (db w)) ->
  Item.arn other = Some a ->
  ~ In other (Item_query_identity ctype region account name (db w)) ->
  (ephemeral = true -> Item_query_identity ctype region account name (db w) <> []) ->
  exists msg w',
    store ctype region account name active_flag config (Some a) new_issues ephemeral w
    = (Raise (IntegrityError msg), w') /\
    items (db w') = items (db w) /\
    revisions (db w') = revisions (db w) /\
    issues (db w') = issues (db w) /\
    match Item_query_identity ctype region account name (db w) with
    | [] => hd_error (trace w') = Some (RoundTrip Commit)
    | _ :: _ =>
        trace w' = RoundTrip (if ephemeral then RevisionsFirst else IssuesLoad)
                   :: RoundTrip ItemJoinAll :: RoundTrip AccountFirst :: trace w
    end.
Proof.
  intros Hf Hwf Hacc Hone Harn Hother Hoarn Hnot Heph.
  destruct (wf_db_parts _ Hwf) as (Hpk & _).
  destruct (_get_item_no_fault ctype region account name w Hf)
    as (w0 & _ & _ & Hf0 & Hget).
  assert (Hitem0 : exists item0, _get_item ctype region account name w = (Ok item0, w0)).
  { rewrite Hget.
    destruct (Account_query_filter_name (db w) account) as [|a0 accs]; [congruence|].
    destruct (Item_query_identity ctype region account name (db w))
      as [|it [|it' its]]; [eauto | eauto | simpl in Hone; lia]. }
  clear Hget. destruct Hitem0 as [item0 Hget].
  pose proof (@_get_item_tables _ _ _ _ _ _ _ Hget) as (Hi0 & Hr0 & Hs0 & _ & Hcases).
  set (staged := staged_item ctype config (Some a) item0).
  assert (Hsid : Item.id staged = Item.id item0) by apply staged_item_id.
  assert (Hsarn : Item.arn staged = Some a).
  { unfold staged. rewrite staged_item_arn, Harn. reflexivity. }
  assert (Htaken : arn_taken (db w0) staged = true).
  { apply (arn_taken_spec (db w0) staged Hsarn). exists other.
    rewrite Hi0. repeat split; auto. rewrite Hsid.
    assert (Hoid : Item.id other <> None).
    { apply (@primary_key_not_null _ _ Hpk). apply in_map. exact Hother. }
    destruct Hcases as [[Hin Hfound]|(E0 & _)]; [|congruence].
    intro E. apply Hnot. rewrite Hfound. left.
    apply (items_id_inj (items (db w))); auto. }
  unfold store. rewrite (bind_run _ _ _ Hget).
  fold (staged_item ctype config (Some a) item0). fold staged.
  destruct Hcases as [[Hin Hfound]|(E0 & _ & _ & _ & Hfound)]; rewrite Hfound.
  - (* a row of the table: the flush before the read fails *)
    assert (Hid : Item.id staged <> None).
    { rewrite Hsid. apply (@primary_key_not_null _ _ Hpk). apply in_map. exact Hin. }
    assert (Hw0 : w0 = emit (RoundTrip ItemJoinAll) (emit (RoundTrip AccountFirst) w)).
    { rewrite (@_get_item_found_run _ _ _ _ _ _ Hf Hacc Hfound) in Hget. congruence. }
    destruct ephemeral.
    + unfold bind at 1. unfold bind at 1.
      rewrite (@autoflush_taken _ staged RevisionsFirst (revisions_first staged) w0
                 Hid Htaken Hf0).
      cbv beta iota. eexists _, _. split; [reflexivity|].
      cbn [db trace emit]. rewrite Hw0. repeat split; auto.
    + unfold bind at 1. unfold ret at 1. cbv beta iota.
      unfold bind at 1.
      rewrite (@autoflush_taken _ staged IssuesLoad (load_issues staged) w0
                 Hid Htaken Hf0).
      cbv beta iota. eexists _, _. split; [reflexivity|].
      cbn [db trace emit]. rewrite Hw0. repeat split; auto.
  - (* a new item: the commit fails *)
    destruct ephemeral; [exfalso; apply Heph; auto|].
    unfold bind at 1. unfold ret at 1. cbv beta iota.
    rewrite (@autoflush_new _ staged IssuesLoad (load_issues staged))
      by (rewrite Hsid; exact E0).
    destruct (load_issues_no_fault staged w0 Hf0) as (w2 & Hrun2 & Hd2 & _ & Hf2).
    rewrite (bind_run _ _ _ Hrun2).
    destruct (fold_left add_new_issue new_issues (loaded_issues (db w0) staged, []))
      as [item_issues added].
    unfold commit_store.
    unfold bind at 1. unfold bind at 1.
    rewrite (round_trip_no_fault Commit w2 Hf2).
    unfold bind at 1. unfold gets at 1. cbv beta iota.
    change (db (emit (RoundTrip Commit) w2)) with (db w2).
    rewrite Hd2, Htaken.
    eexists. eexists. split; [reflexivity|].
    simpl. rewrite Hd2. auto.
Qed.

(** X15. [store] creates the item once: after a successful [store] its identity
    selects one item, and a second [store] on this identity, whatever its
    other arguments, finds this item; it adds no item and no technology,
    and the item has the id that it had. *)
Theorem store_creates_item_once
    ctype region account name
    active_flag config arn new_issues ephemeral
    active_flag' config' arn' new_issues' ephemeral'
    (w w1 w2 : world) :
  wf_db (db w) = true ->
  technology_key (db w) = true ->
  store ctype region account name active_flag config arn new_issues ephemeral w
  = (Ok tt, w1) ->
  store ctype region account name active_flag' config' arn' new_issues' ephemeral' w1
  = (Ok tt, w2) ->
  List.length (Item_query_identity ctype region account name (db w1)) = 1 /\
  map Item.id (items (db w2)) = map Item.id (items (db w1)) /\
  technologies (db w2) = technologies (db w1) /\
  map Item.id (Item_query_identity ctype region account name (db w2))
  = map Item.id (Item_query_identity ctype region account name (db w1)).
Proof.
  intros Hwf Htk H1 H2.
  pose proof (@store_wf _ _ _ _ _ _ _ _ _ _ _ Hwf H1) as Hwf1.
  destruct (@store_run _ _ _ _ _ _ _ _ _ _ _ Hwf H1)
    as (item0 & i & item_revision & latest & Hres & _ & _ & _ & Hitems
        & _ & Hacc & _ & Htech & Hnew & _).
  pose proof (@identity_after_store ctype region account name config arn
                (db w) (db w1) item0 i latest Hwf Htk Hres Hitems Hacc Htech Hnew)
    as Hfound.
  destruct (@store_run _ _ _ _ _ _ _ _ _ _ _ Hwf1 H2)
    as (item1 & i1 & item_revision1 & latest1 & Hres1 & _ & _ & _ & Hitems1
        & _ & Hacc1 & _ & Htech1 & Hnew1 & _).
  pose proof (@store_technology_key _ _ _ _ _ _ _ _ _ _ _ Hwf Htk H1) as Htk1.
  pose proof (@identity_after_store ctype region account name config' arn'
                (db w1) (db w2) item1 i1 latest1 Hwf1 Htk1 Hres1 Hitems1 Hacc1
                Htech1 Hnew1) as Hfound2.
  rewrite Hfound, Hfound2.
  destruct Hres1 as [(Hf1 & _ & E1)|(Hf1 & _)]; rewrite Hfound in Hf1; [|discriminate].
  injection Hf1 as <-. rewrite E1 in *.
  split; [reflexivity|]. split.
  { rewrite Hitems1. apply update_item_ids. reflexivity. }
  split; [exact Htech1|].
  simpl. simpl in E1. congruence.
Qed.

(** ** [get] and [get_audit_issues] *)

(** X16. [get] returns the revisions of the item that the identity selects, the
    most recent first, and none for an identity that selects no item. *)
Theorem get_newest_first ctype region account name (w w' : world)
    (revs : list ItemRevision.t) :
  wf_db (db w) = true ->
  get ctype region account name w = (Ok revs, w') ->
  StronglySorted newer_or_same revs /\
  match Item_query_identity ctype region account name (db w) with
  | [item] =>
      Permutation revs
        (filter (fun r => opt_nat_eqb (ItemRevision.item_id r) (Item.id item))
                (revisions (db w)))
  | _ => revs = []
  end.
Proof.
  intros Hwf H. destruct (wf_db_parts _ Hwf) as (Hpk & _).
  unfold get in H. apply bind_ok in H as (item & w0 & Hget & H).
  apply _get_item_tables in Hget as (_ & Hr0 & _ & _ & Hcases).
  unfold revisions_all in H.
  destruct Hcases as [[Hin ->]|(E0 & _ & _ & _ & ->)].
  - assert (Hid : Item.id item <> None).
    { apply (@primary_key_not_null _ _ Hpk). apply in_map. exact Hin. }
    destruct (Item.id item) as [i|] eqn:Ei; [|congruence].
    apply all_ok in H as (-> & _). rewrite (revisions_of_table _ _ item Hr0).
    unfold revisions_of. rewrite Ei. split.
    + apply order_by_sorted.
    + apply Permutation_sym, order_by_perm.
  - rewrite E0 in H. apply ret_ok in H as [<- _]. split; [constructor | reflexivity].
Qed.

(** ** What [_get_item] writes *)

Lemma ro_all_query {A : Type} op (rows : database -> list A) : reads_only (all op rows).
Proof. unfold all. ro. Qed.

Lemma ro_revisions_all item : reads_only (revisions_all item).
Proof. unfold revisions_all. destruct (Item.id item); [apply ro_all_query | apply ro_ret]. Qed.

Lemma ro_load_issues item : reads_only (load_issues item).
Proof. unfold load_issues. destruct (Item.id item); [apply ro_all_query | apply ro_ret]. Qed.

(** The commit of a technology row writes the row, or nothing. *)
Lemma commit_technology_db name (w : world) :
  db (snd (commit_technology name w)) = db w \/
  (exists t, fst (commit_technology name w) = Ok t) /\
  db (snd (commit_technology name w))
  = set_technologies (technologies (db w) ++ [new_technology (db w) name]) (db w).
Proof.
  unfold commit_technology, bind, round_trip, gets, modify_db, ret.
  destruct (faults w) as [|[e|] rest]; simpl; eauto.
Qed.

(** The tables after [_get_item], whatever its outcome: as before, or with
    the row of a technology that no row named, for an identity that selects
    no item. *)
Lemma _get_item_db technology region account name (w : world) :
  db (snd (_get_item technology region account name w)) = db w \/
  Technology_query_filter_name (db w) technology = [] /\
  Item_query_identity technology region account name (db w) = [] /\
  db (snd (_get_item technology region account name w))
  = set_technologies (technologies (db w) ++ [new_technology (db w) technology]) (db w).
Proof.
  set (P := fun d' : database =>
              d' = db w \/
              Technology_query_filter_name (db w) technology = [] /\
              Item_query_identity technology region account name (db w) = [] /\
              d' = set_technologies
                     (technologies (db w) ++ [new_technology (db w) technology]) (db w)).
  change (P (db (snd (_get_item technology region account name w)))).
  assert (Hsame : forall d', d' = db w -> P d') by (intros d' ->; left; reflexivity).
  unfold _get_item. unfold bind at 1.
  pose proof (ro_first AccountFirst
                (fun d => Account_query_filter_name d account) w) as Hd1.
  destruct (first AccountFirst (fun d => Account_query_filter_name d account) w)
    as [[acc|e] w1] eqn:E1; cbn [snd] in Hd1; [|apply Hsame; exact Hd1].
  destruct acc as [a|]; [|apply Hsame; exact Hd1].
  unfold bind at 1.
  pose proof (ro_all_query ItemJoinAll
                (Item_query_identity technology region account name) w1) as Hd2.
  destruct (all ItemJoinAll (Item_query_identity technology region account name) w1)
    as [[found|e] w2] eqn:E2; cbn [snd] in Hd2; [|apply Hsame; simpl; congruence].
  apply all_ok in E2 as (-> & _). rewrite Hd1 in *.
  destruct (Item_query_identity technology region account name (db w))
    as [|it [|it' its]] eqn:Ef; simpl; [|apply Hsame; congruence|apply Hsame; congruence].
  unfold bind at 1.
  pose proof (ro_first TechnologyFirst
                (fun d => Technology_query_filter_name d technology) w2) as Hd3.
  destruct (first TechnologyFirst (fun d => Technology_query_filter_name d technology) w2)
    as [[t|e] w3] eqn:E3; cbn [snd] in Hd3; [|apply Hsame; simpl; congruence].
  apply first_ok in E3 as (-> & _). rewrite Hd2 in *.
  destruct (Technology_query_filter_name (db w) technology) as [|t ts] eqn:Et; simpl.
  - unfold bind at 1. unfold bind at 1.
    destruct (commit_technology_db technology w3) as [H|[[t Ht] H]].
    + destruct (commit_technology technology w3) as [[t|e] w4]; simpl in *;
        apply Hsame; congruence.
    + destruct (commit_technology technology w3) as [[t'|e] w4]; simpl in *;
        [|discriminate].
      right. rewrite H, Hd3. auto.
  - apply Hsame. unfold bind. simpl. congruence.
Qed.

(** X17. [_get_item] writes at most the row of a technology, when the identity
    selects no item and no row names the kind; it never gives a name to two
    rows; and [get] and [get_audit_issues] write what [_get_item] writes. *)
Theorem get_item_writes technology region account name (w : world) :
  let d' := db (snd (_get_item technology region account name w)) in
  accounts d' = accounts (db w) /\
  items d' = items (db w) /\
  revisions d' = revisions (db w) /\
  issues d' = issues (db w) /\
  exceptions d' = exceptions (db w) /\
  (technologies d' = technologies (db w) \/
   Technology_query_filter_name (db w) technology = [] /\
   Item_query_identity technology region account name (db w) = [] /\
   technologies d' = technologies (db w) ++ [new_technology (db w) technology]) /\
  (nodupb (map Technology.name (technologies (db w))) = true ->
   nodupb (map Technology.name (technologies d')) = true) /\
  db (snd (get technology region account name w)) = d' /\
  db (snd (get_audit_issues technology region account name w)) = d'.
Proof.
  intro d'. subst d'.
  assert (Hreads : db (snd (get technology region account name w))
                   = db (snd (_get_item technology region account name w)) /\
                   db (snd (get_audit_issues technology region account name w))
                   = db (snd (_get_item technology region account name w))).
  { unfold get, get_audit_issues, bind.
    destruct (_get_item technology region account name w) as [[item|e] w0]; simpl; auto.
    split; [apply ro_revisions_all | apply ro_load_issues]. }
  destruct Hreads as [-> ->].
  destruct (_get_item_db technology region account name w) as [->|(Ht & Hf & ->)].
  - repeat split; auto.
  - simpl. repeat split; auto.
    rewrite !nodupb_NoDup, map_app. intro Hnd. apply NoDup_app; auto.
    + repeat constructor. intros [].
    + intros x Hx [<-|[]]. simpl in Hx.
      apply in_map_iff in Hx. destruct Hx as [t [Hn Hin]].
      assert (X : In t (Technology_query_filter_name (db w) technology)).
      { apply filter_In. split; auto. apply String.eqb_eq. exact Hn. }
      rewrite Ht in X. exact X.
Qed.

(** Resolving a technology twice gives the same row, and writes nothing
    the second time. *)
Lemma resolve_technology_twice d technology :
  resolve_technology (snd (resolve_technology d technology)) technology
  = (fst (resolve_technology d technology), snd (resolve_technology d technology)).
Proof.
  unfold resolve_technology at 2 3 4.
  destruct (Technology_query_filter_name d technology) as [|t ts] eqn:E;
    cbn [fst snd]; unfold resolve_technology.
  - unfold Technology_query_filter_name in *. cbn [technologies set_technologies].
    rewrite filter_app, E. cbn [filter app new_technology Technology.name].
    rewrite String.eqb_refl. reflexivity.
  - rewrite E. reflexivity.
Qed.

(** X18. [_get_item] is repeatable: a second call with the same identity
    returns the same item, and writes nothing. *)
Theorem get_item_twice technology region account name (w w1 : world) (item : Item.t) :
  technology_key (db w) = true ->
  _get_item technology region account name w = (Ok item, w1) ->
  faults w1 = [] ->
  exists w2,
    _get_item technology region account name w1 = (Ok item, w2) /\
    db w2 = db w1.
Proof.
  intros Htk H Hf.
  apply _get_item_ok in H as (_ & [[Hfound Hd]|[Hfound (a & Ha & -> & Hd)]]).
  - destruct (_get_item_no_fault technology region account name w1 Hf)
      as (w2 & Hd2 & _ & _ & Hget).
    rewrite Hd in *. rewrite Hfound in *.
    assert (Hacc : Account_query_filter_name (db w) account <> []).
    { apply (@identity_match_account technology region account name (db w) item).
      rewrite Hfound. left. reflexivity. }
    destruct (Account_query_filter_name (db w) account); [congruence|].
    exists w2. split; [exact Hget | exact Hd2].
  - destruct (_get_item_no_fault technology region account name w1 Hf)
      as (w2 & Hd2 & _ & _ & Hget).
    destruct (resolve_technology_spec (db w) technology) as (_ & _ & Hi & Hacc & _).
    cbv zeta in Hi, Hacc.
    assert (Hfound1 : Item_query_identity technology region account name (db w1) = []).
    { rewrite Hd. unfold Item_query_identity. apply filter_nil. intros x Hx.
      rewrite Hi in Hx. rewrite joins_technology_resolved by assumption.
      unfold joins_account. rewrite Hacc.
      apply (proj1 (filter_nil _ (items (db w))) Hfound x Hx). }
    assert (Hacc1 : Account_query_filter_name (db w1) account
                    = Account_query_filter_name (db w) account).
    { unfold Account_query_filter_name. rewrite Hd, Hacc. reflexivity. }
    rewrite Hfound1, Hacc1 in *.
    destruct (Account_query_filter_name (db w) account) as [|a' accs]; [discriminate|].
    injection Ha as ->.
    rewrite Hd in Hget, Hd2. rewrite resolve_technology_twice in Hget, Hd2.
    cbn [fst snd] in Hget, Hd2.
    exists w2. split; [exact Hget|]. rewrite Hd2, Hd. reflexivity.
Qed.

(** ** The listing *)

Lemma revision_gets_cons ev t :
  revision_gets (ev :: t) = (if is_revision_get ev then 1 else 0) + revision_gets t.
Proof. unfold revision_gets. simpl. destruct (is_revision_get ev); reflexivity. Qed.

(** The retries look up no revision. *)
Lemma query_all_retrying_gets (q : query) :
  forall fuel attempt w r w',
    query_all_retrying fuel q attempt w = Some (r, w') ->
    revision_gets (trace w') = revision_gets (trace w).
Proof.
  induction fuel as [|fuel IH]; intros attempt w r w' H; [discriminate|].
  cbn [query_all_retrying] in H.
  pose proof (listing_attempt q w) as (_ & _ & Ht & _). cbv zeta in Ht.
  destruct (all ItemListing (query_rows q) w) as [[items|e] w1]; cbn [snd] in Ht.
  - injection H as <- <-. rewrite Ht. reflexivity.
  - destruct (5 <? attempt + 1).
    + injection H as <- <-. cbn [trace emit]. rewrite !revision_gets_cons, Ht.
      reflexivity.
    + apply IH in H. rewrite H. cbn [trace emit]. rewrite !revision_gets_cons, Ht.
      reflexivity.
Qed.

(** A turn of the loop looks up one revision, for an item with a pointer. *)
Lemma latest_of_gets include_inactive m item w m' w' :
  latest_of include_inactive m item w = (Ok m', w') ->
  revision_gets (trace w')
  = (if truthy_id (Item.latest_revision_id item) then 1 else 0) + revision_gets (trace w).
Proof.
  unfold latest_of. destruct (truthy_id (Item.latest_revision_id item)); simpl.
  - intro H. apply bind_ok in H as (rev & w1 & H1 & H).
    assert (Ht : trace w1 = RoundTrip RevisionGet :: trace w).
    { unfold first, bind, round_trip, gets in H1.
      destruct (faults w) as [|[e|] rest]; inversion H1; reflexivity. }
    destruct rev as [rev|]; [|discriminate].
    destruct (negb (ItemRevision.active rev) && negb include_inactive);
      apply ret_ok in H as [_ ->]; rewrite Ht; reflexivity.
  - intro H. apply bind_ok in H as (u & w1 & H1 & H).
    apply ret_ok in H as [_ ->]. unfold tell in H1. inversion H1; reflexivity.
Qed.

Lemma for_each_gets include_inactive items :
  forall m w m' w',
    for_each items (latest_of include_inactive) m w = (Ok m', w') ->
    revision_gets (trace w')
    = List.length (filter (fun it => truthy_id (Item.latest_revision_id it)) items)
      + revision_gets (trace w).
Proof.
  induction items as [|item items IH]; intros m w m' w' H.
  - apply ret_ok in H as [_ ->]. reflexivity.
  - simpl in H. apply bind_ok in H as (m1 & w1 & H1 & H).
    apply latest_of_gets in H1. apply IH in H. rewrite H, H1. simpl.
    destruct (truthy_id (Item.latest_revision_id item)); simpl; lia.
Qed.

(** X19. [get_all_ctype_filtered] always returns or raises, and writes nothing,
    whatever happens; when it returns, it has looked up one revision for
    each item selected that has a pointer, whether the revision is listed
    or not. *)
Theorem listing_reads tech account region name include_inactive (w : world) :
  exists r w',
    get_all_ctype_filtered tech account region name include_inactive w = Some (r, w') /\
    db w' = db w /\
    (forall m, r = Ok m ->
               revision_gets (trace w')
               = List.length
                   (filter (fun it => truthy_id (Item.latest_revision_id it))
                           (selected tech account region name (db w)))
                 + revision_gets (trace w)).
Proof.
  destruct (filters_accepted tech account region) eqn:Hacc.
  2:{ rewrite (get_all_ctype_filtered_refused _ _ _ name include_inactive w Hacc).
      eexists _, w. split; [reflexivity|]. split; [reflexivity|].
      intros m X. discriminate. }
  destruct (get_all_ctype_filtered_accepted _ _ _ name include_inactive w Hacc)
    as (q & Hq & ->).
  destruct (@query_all_retrying_spec q 5 1 5 w) as (r1 & w1 & Hrun & Hd & _ & Hcase);
    [lia | lia | lia |].
  pose proof (@query_all_retrying_gets q 5 1 w r1 w1 Hrun) as Hg.
  rewrite Hrun. rewrite Hq in Hcase.
  destruct (leading_failures (faults w) <? 5); destruct Hcase as (-> & _).
  - pose proof (@for_each_frame include_inactive
                  (selected tech account region name (db w)) [] w1) as (Hd' & _).
    cbv zeta in Hd'.
    destruct (for_each (selected tech account region name (db w))
                       (latest_of include_inactive) [] w1) as [r w'] eqn:E.
    exists r, w'. split; [reflexivity|]. split; [simpl in Hd'; congruence|].
    intros m ->. apply for_each_gets in E. rewrite E, Hg. reflexivity.
  - exists (Raise too_many_retries), w1. split; [reflexivity|]. split; [exact Hd|].
    intros m X. discriminate.
Qed.

Lemma item_map_set_new m item rev :
  ~ In (Item.id item) (map (fun x => Item.id (fst x)) m) ->
  item_map_set m item rev = m ++ [(item, rev)].
Proof.
  induction m as [|[k v] m IH]; simpl; intro H; [reflexivity|].
  destruct (opt_nat_eqb (Item.id k) (Item.id item)) eqn:E.
  - apply opt_nat_eqb_eq in E. exfalso. apply H. left. exact E.
  - rewrite IH; auto.
Qed.

Lemma entry_keys d include_inactive it x :
  In x (entry d include_inactive it) -> fst x = it.
Proof.
  unfold entry. destruct (truthy_id (Item.latest_revision_id it)); [|intros []].
  destruct (revision_get d (Item.latest_revision_id it)) as [rev|]; [|intros []].
  destruct (negb (ItemRevision.active rev) && negb include_inactive); [intros []|].
  intros [<-|[]]. reflexivity.
Qed.

(** The loop over the items, as a comprehension. *)
Lemma for_each_entries include_inactive items :
  forall m w m' w',
    NoDup (map Item.id items) ->
    (forall it, In it items -> ~ In (Item.id it) (map (fun x => Item.id (fst x)) m)) ->
    for_each items (latest_of include_inactive) m w = (Ok m', w') ->
    m' = m ++ flat_map (entry (db w) include_inactive) items.
Proof.
  induction items as [|item items IH]; intros m w m' w' Hnd Hfresh H.
  - apply ret_ok in H as [<- _]. simpl. rewrite app_nil_r. reflexivity.
  - simpl in H. apply bind_ok in H as (m1 & w1 & H1 & H).
    apply latest_of_ok in H1 as (Hd & Hturn).
    inversion Hnd as [|? ? Hnotin Hnd']; subst.
    assert (Hm1 : m1 = m ++ entry (db w) include_inactive item).
    { unfold entry.
      destruct Hturn as [[-> ->]|(-> & rev & -> & [(-> & -> & ->)|(Ha & ->)])].
      - rewrite app_nil_r. reflexivity.
      - simpl. rewrite app_nil_r. reflexivity.
      - replace (negb (ItemRevision.active rev) && negb include_inactive) with false.
        + apply item_map_set_new. apply Hfresh. left. reflexivity.
        + destruct Ha as [-> | ->]; simpl; auto using andb_false_r. }
    apply IH in H; auto.
    + rewrite H, Hm1, Hd. simpl. rewrite app_assoc. reflexivity.
    + intros it Hit Hin. rewrite Hm1, map_app in Hin. apply in_app_or in Hin.
      destruct Hin as [Hin|Hin].
      * apply (Hfresh it); auto. right. exact Hit.
      * apply in_map_iff in Hin. destruct Hin as [x [E Hx]].
        apply entry_keys in Hx. apply Hnotin. rewrite <- Hx, E.
        apply in_map. exact Hit.
Qed.

(** X20. When [get_all_ctype_filtered] returns, its result is the selected items
    that have a pointer to an active revision, or to any revision when the
    inactive ones are asked for, each once and with this revision. *)
Theorem listing_entries tech account region name include_inactive (w w' : world)
    (m : ItemMap) :
  wf_db (db w) = true ->
  get_all_ctype_filtered tech account region name include_inactive w = Some (Ok m, w') ->
  m = flat_map (entry (db w) include_inactive) (selected tech account region name (db w))
  /\ NoDup (map (fun x => Item.id (fst x)) m)
  /\ List.length m <= List.length (selected tech account region name (db w)).
Proof.
  intros Hwf H. destruct (wf_db_parts _ Hwf) as (Hpk & _).
  assert (Hnd : NoDup (map Item.id (selected tech account region name (db w)))).
  { unfold selected. apply NoDup_map_filter. apply primary_key_spec in Hpk. tauto. }
  pose proof (get_all_ctype_filtered_ok_accepted _ _ _ _ _ _ H) as Hacc.
  destruct (get_all_ctype_filtered_accepted _ _ _ name include_inactive w Hacc)
    as (q & Hq & Hunfold).
  rewrite Hunfold in H.
  destruct (@query_all_retrying_spec q 5 1 5 w) as (r1 & w1 & Hrun & Hd & _ & Hcase);
    [lia | lia | lia |]; rewrite Hrun in H.
  rewrite Hq in Hcase.
  destruct (leading_failures (faults w) <? 5); destruct Hcase as (-> & _);
    [|discriminate].
  injection H as H. apply for_each_entries in H; auto. simpl in H. rewrite Hd in H.
  subst m. set (sel := selected tech account region name (db w)) in *.
  split; [reflexivity|].
  clearbody sel. clear - Hnd. induction sel as [|it sel IH]; simpl.
  - split; [constructor | lia].
  - inversion Hnd as [|? ? Hnotin Hnd']; subst. destruct (IH Hnd') as [IH1 IH2].
    rewrite map_app, length_app. split.
    + apply NoDup_app; auto.
      * unfold entry. destruct (truthy_id _); [|constructor].
        destruct (revision_get _ _) as [rev|]; [|constructor].
        destruct (negb _ && negb _); repeat constructor. intros [].
      * intros k Hk1 Hk2. apply in_map_iff in Hk1. destruct Hk1 as [x [<- Hx]].
        apply entry_keys in Hx. rewrite Hx in Hk2. apply Hnotin.
        apply in_map_iff in Hk2. destruct Hk2 as [y [E Hy]].
        apply in_flat_map in Hy. destruct Hy as [it' [Hit' Hy]].
        apply entry_keys in Hy. rewrite Hy in E. rewrite <- E. apply in_map. exact Hit'.
    + assert (List.length (entry (db w) include_inactive it) <= 1).
      { unfold entry. destruct (truthy_id _); simpl; [|lia].
        destruct (revision_get _ _) as [rev|]; simpl; [|lia].
        destruct (negb _ && negb _); simpl; lia. }
      lia.
Qed.

Lemma for_each_dangling include_inactive items :
  forall m w,
    faults w = [] ->
    existsb (dangling (db w)) items = true ->
    fst (for_each items (latest_of include_inactive) m w)
    = Raise (AttributeError "'NoneType' object has no attribute 'active'").
Proof.
  induction items as [|item items IH]; intros m w Hf H; simpl in H; [discriminate|].
  simpl. unfold bind.
  pose proof (@latest_of_frame include_inactive m item w) as (Hd & _ & _ & Hf').
  cbv zeta in Hd, Hf'.
  destruct (dangling (db w) item) eqn:Edang.
  - unfold dangling in Edang. apply andb_true_iff in Edang. destruct Edang as [Hp Hg].
    unfold latest_of. rewrite Hp. simpl. unfold bind.
    rewrite (first_no_fault RevisionGet _ w Hf). cbn [db emit].
    fold (revision_get (db w) (Item.latest_revision_id item)).
    destruct (revision_get (db w) (Item.latest_revision_id item)); [discriminate|].
    reflexivity.
  - simpl in H.
    destruct (latest_of include_inactive m item w) as [[m1|e] w1] eqn:E;
      cbn [fst snd] in *.
    + apply IH; auto. rewrite Hd. exact H.
    + exfalso. unfold dangling in Edang. unfold latest_of in E.
      destruct (truthy_id (Item.latest_revision_id item)); simpl in *; [|discriminate].
      unfold bind in E. rewrite (first_no_fault RevisionGet _ w Hf) in E.
      cbn [db emit] in E.
      fold (revision_get (db w) (Item.latest_revision_id item)) in E.
      destruct (revision_get (db w) (Item.latest_revision_id item)) as [rev|];
        [|discriminate].
      destruct (negb (ItemRevision.active rev) && negb include_inactive); discriminate.
Qed.

(** X21. One pointer that names no revision makes the listing fail: in a call
    whose filters [filter_by] accepts, with a selected item whose
    [latest_revision_id] is true and names no row,
    [get_all_ctype_filtered] raises the [AttributeError] of
    [most_recent.active], and returns nothing. *)
Theorem listing_dangling_pointer tech account region name include_inactive (w : world) :
  filters_accepted tech account region = true ->
  faults w = [] ->
  existsb (dangling (db w)) (selected tech account region name (db w)) = true ->
  exists w',
    get_all_ctype_filtered tech account region name include_inactive w
    = Some (Raise (AttributeError "'NoneType' object has no attribute 'active'"), w') /\
    db w' = db w.
Proof.
  intros Hacc Hf H.
  destruct (get_all_ctype_filtered_accepted _ _ _ name include_inactive w Hacc)
    as (q & Hq & ->).
  cbn [query_all_retrying]. rewrite (all_no_fault ItemListing _ w Hf).
  rewrite Hq.
  set (w1 := emit (RoundTrip ItemListing) w).
  pose proof (@for_each_dangling include_inactive
                (selected tech account region name (db w)) [] w1 Hf H) as Hr.
  pose proof (@for_each_frame include_inactive
                (selected tech account region name (db w)) [] w1) as (Hd & _).
  cbv zeta in Hd.
  destruct (for_each (selected tech account region name (db w))
                     (latest_of include_inactive) [] w1) as [r w'].
  cbn [fst snd] in *. subst r. exists w'. split; [reflexivity | exact Hd].
Qed.

(** X22. An argument that is false, [None] or the empty string, is no filter. *)
Theorem listing_false_filter tech account region name include_inactive (w : world) :
  get_all_ctype_filtered (given tech) (given account) (given region) (given name)
                         include_inactive w
  = get_all_ctype_filtered tech account region name include_inactive w /\
  selected (given tech) (given account) (given region) (given name) (db w)
  = selected tech account region name (db w) /\
  (truthy tech = false -> truthy account = false ->
   truthy region = false -> truthy name = false ->
   selected tech account region name (db w) = items (db w)).
Proof.
  split; [|split].
  - destruct tech as [[|? ?]|], account as [[|? ?]|], region as [[|? ?]|],
      name as [[|? ?]|]; reflexivity.
  - destruct tech as [[|? ?]|], account as [[|? ?]|], region as [[|? ?]|],
      name as [[|? ?]|]; reflexivity.
  - intros H1 H2 H3 H4. unfold selected, joinpoint_of. rewrite H2, H1, H3, H4.
    apply forallb_filter_id. apply forallb_forall. reflexivity.
Qed.

(** The listing has an item that it selects, with the revision that its
    pointer names, when this revision is active or the inactive ones are
    asked for. *)
Lemma listing_has tech account region name include_inactive (w : world)
    (item : Item.t) (rev : ItemRevision.t) :
  wf_db (db w) = true ->
  faults w = [] ->
  no_dangling (db w) = true ->
  filters_accepted tech account region = true ->
  In item (selected tech account region name (db w)) ->
  truthy_id (Item.latest_revision_id item) = true ->
  revision_get (db w) (Item.latest_revision_id item) = Some rev ->
  (ItemRevision.active rev || include_inactive) = true ->
  exists m w',
    get_all_ctype_filtered tech account region name include_inactive w
    = Some (Ok m, w') /\
    In (item, rev) m.
Proof.
  intros Hwf Hf Hnd Hacc Hsel Hp Hget Hact.
  destruct (wf_db_parts _ Hwf) as (Hpi & _).
  destruct (get_all_ctype_filtered_accepted _ _ _ name include_inactive w Hacc)
    as (q & Hq & ->).
  cbn [query_all_retrying]. rewrite (all_no_fault ItemListing _ w Hf).
  rewrite Hq.
  set (w1 := emit (RoundTrip ItemListing) w).
  set (sel := selected tech account region name (db w)) in *.
  assert (Hsub : forall it, In it sel -> In it (items (db w)))
    by (intros it Hit; unfold sel, selected in Hit; apply filter_In in Hit; tauto).
  destruct (@for_each_no_fault include_inactive sel [] w1 Hf) as [m Hm].
  { intros it Hit Hp'. unfold no_dangling in Hnd. rewrite forallb_forall in Hnd.
    specialize (Hnd it (Hsub it Hit)). rewrite Hp' in Hnd. simpl in Hnd.
    change (db w1) with (db w).
    destruct (revision_get (db w) (Item.latest_revision_id it)); discriminate. }
  destruct (for_each sel (latest_of include_inactive) [] w1) as [r w'] eqn:E.
  simpl in Hm. subst r.
  assert (Hnodup : NoDup (map Item.id sel)).
  { unfold sel, selected. apply NoDup_map_filter.
    apply primary_key_spec in Hpi. tauto. }
  destruct (@for_each_latest include_inactive sel [] w1 m w' Hnodup E)
    as (_ & _ & Hcomplete).
  exists m, w'. split; [reflexivity|].
  apply Hcomplete; auto.
  apply orb_true_iff in Hact. exact Hact.
Qed.

(** An item with the identity is selected by its kind and its account, and
    by its region and its name. *)
Lemma identity_selected ctype region account name d item :
  In item (Item_query_identity ctype region account name d) ->
  In item (selected (Some ctype) (Some account) None None d) /\
  In item (selected None None (Some region) (Some name) d).
Proof.
  intro Hq. unfold Item_query_identity in Hq. apply filter_In in Hq.
  destruct Hq as [Hin HP].
  repeat (apply andb_true_iff in HP; destruct HP as [HP ?]).
  split; unfold selected, joinpoint_of; apply filter_In; (split; [exact Hin|]).
  - cbn [value truthy].
    assert (Ht : existsb (fun t => Nat.eqb (Technology.id t) (Item.tech_id item)
                                   && String.eqb (Technology.name t) ctype && true)
                         (technologies d) = true).
    { transitivity (joins_technology d ctype item); [|exact HP].
      unfold joins_technology. apply existsb_ext. intro t. apply andb_true_r. }
    assert (Ha : existsb (fun a => Nat.eqb (Account.id a) (Item.account_id item)
                                   && String.eqb (Account.name a) account && true)
                         (accounts d) = true).
    { transitivity (joins_account d account item); [|assumption].
      unfold joins_account. apply existsb_ext. intro a. apply andb_true_r. }
    destruct account as [|c0 s0]; destruct ctype as [|c1 s1]; cbn [truthy];
      rewrite ?Ht, ?Ha, ?HP; reflexivity.
  - cbn [value truthy].
    destruct region as [|c0 s0]; destruct name as [|c1 s1]; cbn [truthy andb];
      repeat match goal with
             | X : String.eqb _ _ = true |- _ => rewrite X; clear X
             end; reflexivity.
Qed.

(** X23. After a successful [store] of a new revision, with the clock ahead of
    the dates of the revisions, the listing has the item with this revision,
    when the revision is active or the inactive ones are asked for: the
    listing filtered by the kind and the account of the item, and the
    listing filtered by its region and its name.  (The four filters
    together are refused by [filter_by].) *)
Theorem store_then_listing
    ctype region account name active_flag config arn new_issues include_inactive
    (w w' : world) :
  wf_db (db w) = true ->
  technology_key (db w) = true ->
  forallb (fun r => (date_key r <? now w)%Z) (revisions (db w)) = true ->
  store ctype region account name active_flag config arn new_issues false w
  = (Ok tt, w') ->
  faults w' = [] ->
  no_dangling (db w') = true ->
  (active_flag || include_inactive) = true ->
  exists item rev,
    Item_query_identity ctype region account name (db w') = [item] /\
    ItemRevision.config rev = config /\
    ItemRevision.active rev = active_flag /\
    Item.latest_revision_complete_hash item = Some (Hashing.hash_config config) /\
    (exists m w'',
        get_all_ctype_filtered (Some ctype) (Some account) None None
                               include_inactive w' = Some (Ok m, w'') /\
        In (item, rev) m) /\
    (exists m w'',
        get_all_ctype_filtered None None (Some region) (Some name)
                               include_inactive w' = Some (Ok m, w'') /\
        In (item, rev) m).
Proof.
  intros Hwf Htk Hclock H Hf Hnd Hact.
  pose proof (@store_wf _ _ _ _ _ _ _ _ _ _ _ Hwf H) as Hwf'.
  destruct (@store_run _ _ _ _ _ _ _ _ _ _ _ Hwf H)
    as (item0 & i & item_revision & latest & Hres & Hrev & Hrows & Hlatest & Hitems
        & _ & Hacc & _ & Htech & Hnew & _).
  pose proof (@identity_after_store ctype region account name config arn
                (db w) (db w') item0 i latest Hwf Htk Hres Hitems Hacc Htech Hnew)
    as Hfound.
  set (final := stored_item ctype config arn item0 i latest) in *.
  destruct (stored_item_fields ctype config arn item0 i latest)
    as (Hfid & _ & _ & _ & _ & Hptr & Hch & _).
  fold final in Hfid, Hptr, Hch.
  assert (Hi : Item.id item0 = Some i \/
               Item.id item0 = None /\ i = next_id (map Item.id (items (db w))))
    by (destruct Hres as [(_ & _ & E)|(_ & E & _ & Ei)]; auto).
  destruct (@store_latest false active_flag config (now w) (db w) (db w')
              item0 final i item_revision latest Hwf Hi Hfid Hrev Hrows Hlatest Hclock)
    as (Hin & Hfk & Hcfg & Hactive & Hdate).
  destruct (wf_db_parts _ Hwf') as (Hpi' & Hpr' & _).
  assert (Hget : revision_get (db w') (Item.latest_revision_id final) = Some latest)
    by (rewrite Hptr; apply revision_get_in; assumption).
  (* the pointer is the id of the revision added *)
  assert (Htruthy : truthy_id (Item.latest_revision_id final) = true).
  { rewrite Hptr. unfold staged_revision in Hrev. injection Hrev as <-.
    simpl in Hrows. rewrite Hrows in Hin. apply in_app_or in Hin.
    destruct Hin as [Hold|[<-|[]]]; [|reflexivity].
    exfalso. rewrite forallb_forall in Hclock. specialize (Hclock latest Hold).
    apply Z.ltb_lt in Hclock. unfold date_key in Hclock. rewrite Hdate in Hclock. lia. }
  (* the item is selected *)
  assert (Hq : In final (Item_query_identity ctype region account name (db w')))
    by (rewrite Hfound; left; reflexivity).
  destruct (identity_selected _ _ _ _ _ _ Hq) as [Hsel1 Hsel2].
  assert (Hact' : (ItemRevision.active latest || include_inactive) = true)
    by (rewrite Hactive; exact Hact).
  exists final, latest. repeat split; auto.
  - apply (@listing_has (Some ctype) (Some account) None None include_inactive w'
             final latest); auto.
  - apply (@listing_has None None (Some region) (Some name) include_inactive w'
             final latest); auto.
    unfold filters_accepted. cbn [truthy orb negb]. apply orb_true_r.
Qed.

(** The retries and their result depend on the rows that the query
    selects, not on how it is written. *)
Lemma query_all_retrying_ext (q q' : query) :
  (forall d, query_rows q d = query_rows q' d) ->
  forall fuel attempt w,
    query_all_retrying fuel q attempt w = query_all_retrying fuel q' attempt w.
Proof.
  intro H. induction fuel as [|fuel IH]; intros attempt w; [reflexivity|].
  cbn [query_all_retrying].
  assert (E : all ItemListing (query_rows q) w = all ItemListing (query_rows q') w).
  { unfold all, bind, gets. destruct (round_trip ItemListing w) as [[u|e] w1];
      [rewrite H|]; reflexivity. }
  rewrite E. destruct (all ItemListing (query_rows q') w) as [[items|e] w1];
    [reflexivity|].
  destruct (5 <? attempt + 1); [reflexivity|]. apply IH.
Qed.

(** After a join, the [name] of the call is one more criterion on the name
    of the row joined last. *)
Lemma selected_name_joined tech account region name d :
  (truthy tech || truthy account) = true ->
  truthy name = true ->
  selected tech account region name d
  = if String.eqb (value name) (joined_name tech account)
    then selected tech account region None d
    else [].
Proof.
  intros Hjoin Hname. unfold selected, joined_name, joinpoint_of.
  rewrite Hname. cbn [truthy].
  destruct (truthy account) eqn:Ea; [|destruct (truthy tech) eqn:Et; [|discriminate]].
  - destruct (String.eqb_spec (value name) (value account)) as [E|E].
    + apply filter_ext. intro it. f_equal. apply existsb_ext. intro a.
      rewrite E. destruct (Account.name a =? value account)%string;
        rewrite ?andb_true_r, ?andb_false_r; reflexivity.
    + apply filter_nil. intros it _. apply andb_false_iff. right.
      apply not_true_is_false. intro X. apply existsb_exists in X.
      destruct X as (a & _ & X).
      repeat (apply andb_true_iff in X; destruct X as [X ?]).
      apply E.
      repeat match goal with
             | Y : String.eqb _ _ = true |- _ => apply String.eqb_eq in Y
             end.
      congruence.
  - destruct (String.eqb_spec (value name) (value tech)) as [E|E].
    + apply filter_ext. intro it. apply existsb_ext. intro t.
      rewrite E. destruct (Technology.name t =? value tech)%string;
        rewrite ?andb_true_r, ?andb_false_r; reflexivity.
    + apply filter_nil. intros it _.
      apply not_true_is_false. intro X. apply existsb_exists in X.
      destruct X as (t & _ & X).
      repeat (apply andb_true_iff in X; destruct X as [X ?]).
      apply E.
      repeat match goal with
             | Y : String.eqb _ _ = true |- _ => apply String.eqb_eq in Y
             end.
      congruence.
Qed.

(** X28. [filter_by] looks its keywords up in the entity joined last, and
    [Technology] and [Account] have no [region]: a call of
    [get_all_ctype_filtered] with a [region] and a [tech] or an [account]
    raises the [InvalidRequestError] of [filter_by], whatever the tables
    hold; it has made no round trip, logged nothing and not slept. *)
Theorem listing_region_refused tech account region name include_inactive (w : world) :
  truthy region = true ->
  (truthy tech || truthy account) = true ->
  get_all_ctype_filtered tech account region name include_inactive w
  = Some (Raise (no_property (joinpoint_of tech account) "region"), w) /\
  joinpoint_of tech account <> ItemEntity.
Proof.
  intros Hregion Hjoin. split.
  - apply get_all_ctype_filtered_refused. unfold filters_accepted.
    rewrite Hregion, Hjoin. reflexivity.
  - unfold joinpoint_of.
    destruct (truthy account); [discriminate|].
    destruct (truthy tech); [discriminate|]. discriminate.
Qed.

(** X29. After a join the [name] of the call is not compared with the name of
    the item, but with the name of the row joined last, which the call has
    already set to its [account] (to its [tech], without [account]): when
    [name] is this name the call is the call without [name], and when it is
    another name the call selects nothing, and its result is empty. *)
Theorem listing_name_joined tech account region name include_inactive (w : world) :
  (truthy tech || truthy account) = true ->
  truthy name = true ->
  (value name = joined_name tech account ->
   get_all_ctype_filtered tech account region name include_inactive w
   = get_all_ctype_filtered tech account region None include_inactive w) /\
  (value name <> joined_name tech account ->
   forall m w',
     get_all_ctype_filtered tech account region name include_inactive w
     = Some (Ok m, w') ->
     m = [] /\ selected tech account region name (db w) = []).
Proof.
  intros Hjoin Hname.
  pose proof (fun d => @selected_name_joined tech account region name d Hjoin Hname)
    as Hsel.
  split.
  - intro E. apply String.eqb_eq in E.
    destruct (filters_accepted tech account region) eqn:Hacc.
    + destruct (get_all_ctype_filtered_accepted _ _ _ name include_inactive w Hacc)
        as (q & Hq & ->).
      destruct (get_all_ctype_filtered_accepted _ _ _ None include_inactive w Hacc)
        as (q' & Hq' & ->).
      rewrite (@query_all_retrying_ext q q'); [reflexivity|].
      intro d. rewrite Hq, Hq', Hsel, E. reflexivity.
    + rewrite !get_all_ctype_filtered_refused by exact Hacc. reflexivity.
  - intros E m w' H. apply String.eqb_neq in E.
    assert (Hnone : selected tech account region name (db w) = [])
      by (rewrite Hsel, E; reflexivity).
    split; [|exact Hnone].
    pose proof (get_all_ctype_filtered_ok_accepted _ _ _ _ _ _ H) as Hacc.
    destruct (get_all_ctype_filtered_accepted _ _ _ name include_inactive w Hacc)
      as (q & Hq & Hunfold).
    rewrite Hunfold in H.
    destruct (@query_all_retrying_spec q 5 1 5 w) as (r1 & w1 & Hrun & _ & _ & Hcase);
      [lia | lia | lia |]; rewrite Hrun in H.
    rewrite Hq, Hnone in Hcase.
    destruct (leading_failures (faults w) <? 5); destruct Hcase as (-> & _);
      [|discriminate].
    cbn [for_each] in H. unfold ret in H. congruence.
Qed.

(** ** [store_exception] *)

Lemma one_ok {A : Type} (op : dbop) (rows : database -> list A) w w' x :
  one op rows w = (Ok x, w') ->
  rows (db w) = [x] /\ db w' = db w /\ now w' = now w /\ format_exc w' = format_exc w.
Proof.
  unfold one. intro H. apply bind_ok in H as (u & w1 & H1 & H).
  apply round_trip_frame in H1 as (Hd & Hn & Hx).
  apply bind_ok in H as (l & w2 & H2 & H). apply gets_ok in H2 as [-> ->].
  rewrite Hd in H. destruct (rows (db w)) as [|y [|z l]]; try discriminate.
  apply ret_ok in H as [<- ->]. auto.
Qed.

Lemma one_no_fault {A : Type} (op : dbop) (rows : database -> list A) w x :
  faults w = [] -> rows (db w) = [x] ->
  one op rows w = (Ok x, emit (RoundTrip op) w).
Proof.
  intros Hf Hr. unfold one.
  rewrite (bind_run _ _ _ (round_trip_no_fault op w Hf)).
  unfold bind, gets. cbn [db emit]. rewrite Hr. reflexivity.
Qed.

Lemma first_ok_exc {A : Type} (op : dbop) (rows : database -> list A) w w' x :
  first op rows w = (Ok x, w') ->
  x = hd_error (rows (db w)) /\ db w' = db w /\ format_exc w' = format_exc w.
Proof.
  unfold first. intro H. apply bind_ok in H as (u & w1 & H1 & H2).
  apply round_trip_frame in H1 as (Hd & _ & Hx).
  unfold gets in H2. inversion H2; subst. rewrite Hd. auto.
Qed.

Lemma length_one {A : Type} (l : list A) :
  (List.length l =? 1) = true -> exists x, l = [x].
Proof. destruct l as [|x [|y l]]; simpl; try discriminate. eauto. Qed.

(** What the body of [store_exception] did, when it did not raise: the
    lookups found their rows, and the entry is the last row of the table. *)
Lemma store_exception_body_ok source location exception ttl (w w' : world) :
  store_exception_body source location exception ttl w = (Ok tt, w') ->
  lookup_fails (db w) location = false /\
  db w' =
  set_exceptions
    (exceptions (db w)
     ++ [ExceptionLogs.set_id (Some (next_id (map ExceptionLogs.id (exceptions (db w)))))
           (exception_entry source location exception ttl w)])
    (db w).
Proof.
  unfold store_exception_body. intro H.
  apply bind_ok in H as (u0 & w0 & H0 & H).
  unfold tell in H0. inversion H0; subst u0 w0. clear H0.
  apply bind_ok in H as (stacktrace & w1 & H1 & H). apply gets_ok in H1 as [-> ->].
  apply bind_ok in H as (entry & w2 & Hentry & H).
  apply bind_ok in H as (u3 & w3 & H3 & H).
  apply round_trip_frame in H3 as (Hd3 & _ & _).
  apply bind_ok in H as (u4 & w4 & H4 & H).
  unfold modify_db in H4. inversion H4; subst u4 w4. clear H4.
  unfold tell in H. inversion H; subst w'. clear H.
  cbn [db emit set_db]. rewrite Hd3.
  set (w0 := emit (Log DEBUG _) w) in *.
  assert (Hw0 : db w0 = db w /\ format_exc w0 = format_exc w) by (split; reflexivity).
  destruct Hw0 as [Hd0 Hx0].
  assert (Hgoal : lookup_fails (db w) location = false /\
                  entry = exception_entry source location exception ttl w /\
                  db w2 = db w).
  { destruct location as [|l0 ls].
    - apply ret_ok in Hentry as [<- ->]. unfold exception_entry. simpl. auto.
    - apply bind_ok in Hentry as (e1 & wa & Ha & Hentry).
      apply bind_ok in Hentry as (e2 & wb & Hb & Hentry).
      apply bind_ok in Hentry as (t & wc & Hc & Hentry).
      apply ret_ok in Hentry as [<- ->].
      apply one_ok in Hc as (Ht & Hdc & _).
      (* the item *)
      assert (Hitem : e1 = ExceptionLogs.set_item_id
                             (ExceptionLogs.item_id
                                (exception_entry source (l0 :: ls) exception ttl w))
                             (ExceptionLogs.mk None source ttl (type_name exception)
                                (prefix 512 (str_exn exception)) (format_exc w0)
                                None None None None)
                      /\ db wa = db w).
      { unfold exception_entry. cbn [ExceptionLogs.item_id].
        destruct (List.length (l0 :: ls) =? 4).
        - apply bind_ok in Ha as (item & wi & Hi & Ha).
          apply first_ok_exc in Hi as (-> & Hdi & _). rewrite Hd0 in *.
          destruct (hd_error _) as [item|]; apply ret_ok in Ha as [<- ->];
            split; auto.
        - apply ret_ok in Ha as [<- ->]. split; auto. }
      destruct Hitem as [-> Hda].
      (* the account *)
      assert (Hacc : e2 = ExceptionLogs.set_account_id
                            (ExceptionLogs.account_id
                               (exception_entry source (l0 :: ls) exception ttl w))
                            (if 3 <=? List.length (l0 :: ls)
                             then ExceptionLogs.set_region
                                    (Some (nth 2 (l0 :: ls) EmptyString))
                                    (ExceptionLogs.set_item_id
                                       (ExceptionLogs.item_id
                                          (exception_entry source (l0 :: ls)
                                                           exception ttl w))
                                       (ExceptionLogs.mk None source ttl
                                          (type_name exception)
                                          (prefix 512 (str_exn exception))
                                          (format_exc w0) None None None None))
                             else ExceptionLogs.set_item_id
                                    (ExceptionLogs.item_id
                                       (exception_entry source (l0 :: ls)
                                                        exception ttl w))
                                    (ExceptionLogs.mk None source ttl
                                       (type_name exception)
                                       (prefix 512 (str_exn exception))
                                       (format_exc w0) None None None None))
                     /\ db wb = db w
                     /\ match ls with
                        | l1 :: _ =>
                            (List.length (Account_query_filter_name (db w) l1) =? 1) = true
                        | [] => True
                        end).
      { unfold exception_entry. cbn [ExceptionLogs.account_id].
        destruct ls as [|l1 ls'].
        - cbn [List.length Nat.leb] in Hb. apply ret_ok in Hb as [<- ->].
          repeat split; auto.
        - cbn [List.length Nat.leb nth] in Hb.
          apply bind_ok in Hb as (a & wa' & Ha' & Hb).
          apply one_ok in Ha' as (Hrows & Hda' & _).
          apply ret_ok in Hb as [<- ->]. rewrite Hda in Hrows. rewrite Hrows.
          repeat split; auto; congruence. }
      destruct Hacc as (-> & Hdb & Hacc1).
      cbn [nth] in Ht. rewrite Hdb in Ht.
      split; [|split; [|congruence]].
      + unfold lookup_fails. rewrite Ht. cbn [List.length Nat.eqb negb orb].
        destruct ls as [|l1 ls']; [reflexivity|]. rewrite Hacc1. reflexivity.
      + unfold exception_entry. rewrite Ht, Hx0. cbn [hd_error option_map].
        destruct (3 <=? List.length (l0 :: ls)); reflexivity. }
  destruct Hgoal as (Hl & -> & ->). split; [exact Hl | reflexivity].
Qed.

Lemma prefix_length (n : nat) (s : string) : String.length (prefix n s) <= n.
Proof.
  unfold prefix. revert s. induction n as [|n IH]; intro s.
  - destruct s; simpl; lia.
  - destruct s as [|c s]; simpl; [lia|]. specialize (IH s). lia.
Qed.

Lemma hd_error_in {A : Type} (l : list A) (x : A) : hd_error l = Some x -> In x l.
Proof. destruct l; simpl; intro H; [discriminate | injection H as ->; auto]. Qed.

(** X24. [store_exception] writes at most one row, the last of the exception
    log, and nothing else.  The row has the source, the name of the type of
    the exception, the first 512 characters of its text and the traceback;
    the ids that it has are those of a technology, an account and an item
    whose names are the first, the second and the fourth element of the
    location; it has an item only for a location of four elements. *)
Theorem store_exception_effect source location exception ttl (w : world) :
  let w' := snd (store_exception source location exception ttl w) in
  accounts (db w') = accounts (db w) /\
  technologies (db w') = technologies (db w) /\
  items (db w') = items (db w) /\
  revisions (db w') = revisions (db w) /\
  issues (db w') = issues (db w) /\
  (exceptions (db w') = exceptions (db w) \/
   exists row,
     exceptions (db w') = exceptions (db w) ++ [row] /\
     ExceptionLogs.id row = Some (next_id (map ExceptionLogs.id (exceptions (db w)))) /\
     ExceptionLogs.source row = source /\
     ExceptionLogs.type row = type_name exception /\
     ExceptionLogs.message row = prefix 512 (str_exn exception) /\
     String.length (ExceptionLogs.message row) <= 512 /\
     ExceptionLogs.stacktrace row = format_exc w /\
     (forall tid, ExceptionLogs.tech_id row = Some tid ->
                  exists t, In t (technologies (db w)) /\ Technology.id t = tid /\
                            nth_error location 0 = Some (Technology.name t)) /\
     (forall aid, ExceptionLogs.account_id row = Some aid ->
                  exists a, In a (accounts (db w)) /\ Account.id a = aid /\
                            nth_error location 1 = Some (Account.name a)) /\
     (forall iid, ExceptionLogs.item_id row = Some iid ->
                  List.length location = 4 /\
                  exists it, In it (items (db w)) /\ Item.id it = Some iid /\
                             nth_error location 3 = Some (Item.name it))).
Proof.
  intro w'. subst w'. unfold store_exception, try_except.
  destruct (store_exception_body source location exception ttl w) as [[[]|e] w1] eqn:E.
  - apply store_exception_body_ok in E as (_ & Hd). cbn [snd]. rewrite Hd.
    cbn [accounts technologies items revisions issues exceptions set_exceptions].
    repeat (split; [reflexivity|]). right. eexists. split; [reflexivity|].
    unfold exception_entry.
    cbn [ExceptionLogs.set_id ExceptionLogs.id ExceptionLogs.source ExceptionLogs.type
         ExceptionLogs.message ExceptionLogs.stacktrace ExceptionLogs.tech_id
         ExceptionLogs.account_id ExceptionLogs.item_id ExceptionLogs.region
         ExceptionLogs.ttl].
    repeat (split; [reflexivity|]). split; [apply prefix_length|].
    split; [reflexivity|]. split; [|split].
    + intros tid H. destruct location as [|l0 ls]; [discriminate|].
      destruct (hd_error (Technology_query_filter_name (db w) l0)) as [t|] eqn:Et;
        [|discriminate].
      injection H as <-. apply hd_error_in in Et.
      apply Technology_query_filter_name_spec in Et. destruct Et as [Hin Hn].
      exists t. simpl. rewrite Hn. auto.
    + intros aid H. destruct location as [|l0 [|l1 ls]]; try discriminate.
      destruct (hd_error (Account_query_filter_name (db w) l1)) as [a|] eqn:Ea;
        [|discriminate].
      injection H as <-. apply hd_error_in in Ea.
      apply Account_query_filter_name_spec in Ea. destruct Ea as [Hin Hn].
      exists a. simpl. rewrite Hn. auto.
    + intros iid H.
      destruct (Nat.eqb_spec (List.length location) 4) as [Hlen|]; [|discriminate].
      split; [exact Hlen|].
      destruct (hd_error (filter _ (items (db w)))) as [it|] eqn:Ei; [|discriminate].
      apply hd_error_in in Ei. apply filter_In in Ei. destruct Ei as [Hin Hn].
      apply String.eqb_eq in Hn. exists it. repeat split; auto.
      destruct location as [|l0 [|l1 [|l2 [|l3 ls]]]]; try discriminate.
      simpl in *. congruence.
  - pose proof (@store_exception_body_raise source location exception ttl w e w1 E)
      as Hd.
    cbn [snd bind tell emit db]. simpl. rewrite Hd. repeat split; auto.
Qed.

(** X25. An exception for a technology or an account that [one()] does not find,
    or finds twice, is not stored: the failure is logged and no table has
    changed. *)
Theorem store_exception_failed_lookup source location exception ttl (w : world) :
  lookup_fails (db w) location = true ->
  exists e rest,
    trace (snd (store_exception source location exception ttl w))
    = LogException e
        :: Log ERROR "Encountered exception while logging exception to database:"
        :: rest /\
    db (snd (store_exception source location exception ttl w)) = db w.
Proof.
  intro Hl. unfold store_exception, try_except.
  destruct (store_exception_body source location exception ttl w) as [[[]|e] w1] eqn:E.
  - apply store_exception_body_ok in E as (Hl' & _). congruence.
  - exists e, (trace w1). split; [reflexivity|]. simpl.
    exact (@store_exception_body_raise source location exception ttl w e w1 E).
Qed.

Lemma tell_run ev (w : world) : tell ev w = (Ok tt, emit ev w).
Proof. reflexivity. Qed.

Lemma gets_run {A : Type} (f : world -> A) (w : world) : gets f w = (Ok (f w), w).
Proof. reflexivity. Qed.

(** With no failure of the storage layer and lookups that find their row,
    the body of [store_exception] does not raise. *)
Lemma store_exception_body_no_fault source location exception ttl (w : world) :
  faults w = [] ->
  lookup_fails (db w) location = false ->
  exists w',
    store_exception_body source location exception ttl w = (Ok tt, w') /\
    exists rest,
      trace w' = Log DEBUG "Completed logging exception to database." :: rest.
Proof.
  intros Hf Hl. unfold store_exception_body.
  rewrite (bind_run _ _ _ (tell_run _ w)).
  set (w0 := emit (Log DEBUG _) w).
  assert (Hf0 : faults w0 = []) by exact Hf.
  rewrite (bind_run _ _ _ (gets_run format_exc w0)).
  set (entry0 := ExceptionLogs.mk None source ttl (type_name exception)
                   (prefix 512 (str_exn exception)) (format_exc w0) None None None None).
  match goal with
  | |- context [bind ?m _ w0] =>
      assert (Hentry : exists entry w2, m w0 = (Ok entry, w2) /\ faults w2 = [])
  end.
  { destruct location as [|l0 ls]; [eexists _, _; split; [reflexivity | exact Hf0]|].
    unfold lookup_fails in Hl. apply orb_false_iff in Hl. destruct Hl as [Ht Ha].
    apply negb_false_iff, length_one in Ht. destruct Ht as [t Ht].
    (* the item *)
    match goal with
    | |- context [bind ?m1 _ w0] =>
        assert (H1 : exists e1 wa, m1 w0 = (Ok e1, wa) /\ faults wa = [] /\ db wa = db w)
    end.
    { destruct (List.length (l0 :: ls) =? 4).
      - rewrite (bind_run _ _ _ (first_no_fault ItemFirst _ w0 Hf0)).
        destruct (hd_error _); eexists _, _; split; try reflexivity; auto.
      - eexists _, _; split; try reflexivity; auto. }
    destruct H1 as (e1 & wa & H1 & Hfa & Hda). rewrite (bind_run _ _ _ H1).
    (* the account *)
    match goal with
    | |- context [bind ?m2 _ wa] =>
        assert (H2 : exists e2 wb, m2 wa = (Ok e2, wb) /\ faults wb = [] /\ db wb = db w)
    end.
    { destruct ls as [|l1 ls'].
      - cbn [List.length Nat.leb]. eexists _, _; split; try reflexivity; auto.
      - cbn [List.length Nat.leb nth].
        apply negb_false_iff, length_one in Ha. destruct Ha as [a Ha].
        rewrite <- Hda in Ha.
        rewrite (bind_run _ _ _ (one_no_fault AccountOne
                                   (fun d => Account_query_filter_name d l1) wa Hfa Ha)).
        eexists _, _; split; try reflexivity; auto. }
    destruct H2 as (e2 & wb & H2 & Hfb & Hdb). rewrite (bind_run _ _ _ H2).
    cbn [nth]. rewrite <- Hdb in Ht.
    rewrite (bind_run _ _ _ (one_no_fault TechnologyOne
                               (fun d => Technology_query_filter_name d l0) wb Hfb Ht)).
    eexists _, _; split; try reflexivity; auto. }
  destruct Hentry as (entry & w2 & Hentry & Hf2).
  rewrite (bind_run _ _ _ Hentry).
  rewrite (bind_run _ _ _ (round_trip_no_fault Commit w2 Hf2)).
  unfold bind, modify_db, tell. eexists. split; [reflexivity|].
  eexists. reflexivity.
Qed.

(** X26. With no failure of the storage layer and lookups that find their row,
    [store_exception] stores the exception: one row more, with a technology
    for a location that is not empty, an account for a location of two
    elements or more, and the third element as its region. *)
Theorem store_exception_records source location exception ttl (w : world) :
  faults w = [] ->
  lookup_fails (db w) location = false ->
  exists w' row,
    store_exception source location exception ttl w = (Ok tt, w') /\
    exceptions (db w') = exceptions (db w) ++ [row] /\
    ExceptionLogs.region row = nth_error location 2 /\
    (location <> [] -> ExceptionLogs.tech_id row <> None) /\
    (2 <= List.length location -> ExceptionLogs.account_id row <> None) /\
    hd_error (trace w') = Some (Log DEBUG "Completed logging exception to database.").
Proof.
  intros Hf Hl.
  destruct (@store_exception_body_no_fault source location exception ttl w Hf Hl)
    as (w' & Hrun & rest & Htrace).
  pose proof (store_exception_body_ok _ _ _ _ _ Hrun) as (_ & Hd).
  unfold store_exception, try_except. rewrite Hrun.
  eexists w', _. split; [reflexivity|]. rewrite Hd.
  split; [reflexivity|]. unfold exception_entry.
  cbn [ExceptionLogs.set_id ExceptionLogs.region ExceptionLogs.tech_id
       ExceptionLogs.account_id].
  split; [|split; [|split]].
  - destruct location as [|l0 [|l1 [|l2 ls]]]; reflexivity.
  - intro Hne. destruct location as [|l0 ls]; [congruence|].
    unfold lookup_fails in Hl. apply orb_false_iff in Hl. destruct Hl as [Ht _].
    apply negb_false_iff, length_one in Ht. destruct Ht as [t ->]. discriminate.
  - intro Hlen. destruct location as [|l0 [|l1 ls]]; simpl in Hlen; try lia.
    unfold lookup_fails in Hl. apply orb_false_iff in Hl. destruct Hl as [_ Ha].
    apply negb_false_iff, length_one in Ha. destruct Ha as [a ->]. discriminate.
  - rewrite Htrace. reflexivity.
Qed.

(** ** [clear_old_exceptions] *)

Lemma exceptions_id_inj (rows : list ExceptionLogs.t) (a b : ExceptionLogs.t) :
  primary_key (map ExceptionLogs.id rows) = true ->
  In a rows -> In b rows -> ExceptionLogs.id a = ExceptionLogs.id b -> a = b.
Proof.
  intro Hpk. apply primary_key_spec in Hpk. destruct Hpk as [_ Hd].
  induction rows as [|x rows IH]; simpl in *; [tauto|].
  inversion Hd as [|? ? Hx Hrest]; subst.
  intros [->|Ha] [->|Hb] E; auto.
  - exfalso. apply Hx. rewrite E. apply in_map. exact Hb.
  - exfalso. apply Hx. rewrite <- E. apply in_map. exact Ha.
Qed.

(** X27. [clear_old_exceptions] deletes the rows of the exception log whose
    [ttl] is not after the clock, keeps the others in their order, and
    touches no other table; when it raises, nothing is deleted; and it
    raises only what the storage layer raises. *)
Theorem clear_old_exceptions_effect (w : world) :
  primary_key (map ExceptionLogs.id (exceptions (db w))) = true ->
  let r := fst (clear_old_exceptions w) in
  let w' := snd (clear_old_exceptions w) in
  accounts (db w') = accounts (db w) /\
  technologies (db w') = technologies (db w) /\
  items (db w') = items (db w) /\
  revisions (db w') = revisions (db w) /\
  issues (db w') = issues (db w) /\
  (r = Ok tt ->
   exceptions (db w')
   = filter (fun x => negb (expired (now w) x)) (exceptions (db w))) /\
  (forall e, r = Raise e ->
             exceptions (db w') = exceptions (db w) /\ exists err, e = DBError err) /\
  (faults w = [] -> r = Ok tt).
Proof.
  intros Hpk r w'. subst r w'.
  assert (Hfilter : filter
                      (fun x => negb (existsb (fun y => opt_nat_eqb (ExceptionLogs.id y)
                                                                    (ExceptionLogs.id x))
                                              (filter (expired (now w))
                                                      (exceptions (db w)))))
                      (exceptions (db w))
                    = filter (fun x => negb (expired (now w) x)) (exceptions (db w))).
  { apply filter_ext_in. intros x Hx. f_equal.
    destruct (expired (now w) x) eqn:Ex.
    - apply existsb_exists. exists x. split; [apply filter_In; auto|].
      apply opt_nat_eqb_refl.
    - apply not_true_is_false. intro X. apply existsb_exists in X.
      destruct X as [y [Hy E]]. apply filter_In in Hy. destruct Hy as [Hy Hey].
      apply opt_nat_eqb_eq in E.
      assert (y = x) by (apply (exceptions_id_inj (exceptions (db w))); auto).
      congruence. }
  assert (Hraise : forall op w0 e w1,
             round_trip op w0 = (Raise e, w1) ->
             db w1 = db w0 /\ exists err, e = DBError err).
  { intros op w0 e w1 H. unfold round_trip in H.
    destruct (faults w0) as [|[err|] rest]; inversion H; subst; eauto. }
  destruct (clear_old_exceptions w) as [[[]|e] w'] eqn:E; cbn [fst snd].
  - (* it returned *)
    unfold clear_old_exceptions in E.
    apply bind_ok in E as (t & w0 & H0 & E). apply gets_ok in H0 as [-> ->].
    apply bind_ok in E as (l & w1 & H1 & E). apply all_ok in H1 as (-> & Hd1 & _).
    apply bind_ok in E as (u & w2 & H2 & E).
    apply round_trip_frame in H2 as (Hd2 & _ & _).
    unfold modify_db in E. inversion E; subst w'. clear E.
    cbn [db set_db]. rewrite Hd2, Hd1.
    cbn [accounts technologies items revisions issues exceptions set_exceptions].
    repeat (split; [reflexivity|]).
    split; [intros _; exact Hfilter|]. split; [intros e H; discriminate|].
    reflexivity.
  - (* it raised *)
    unfold clear_old_exceptions in E.
    apply bind_raise_inv in E as [E|(t & w0 & H0 & E)]; [discriminate|].
    apply gets_ok in H0 as [-> ->].
    assert (Hd : db w' = db w /\ exists err, e = DBError err).
    { apply bind_raise_inv in E as [E|(l & w1 & H1 & E)].
      - unfold all in E. apply bind_raise_inv in E as [E|(u & w1 & _ & E)];
          [|discriminate].
        apply Hraise in E. exact E.
      - apply all_ok in H1 as (_ & Hd1 & _).
        apply bind_raise_inv in E as [E|(u & w2 & _ & E)]; [|discriminate].
        apply Hraise in E. rewrite <- Hd1. exact E. }
    destruct Hd as [-> Herr].
    repeat (split; [reflexivity|]).
    split; [intro H; discriminate|].
    split; [intros e0 H; injection H as <-; auto|].
    intro Hf. exfalso. unfold clear_old_exceptions in E.
    rewrite (bind_run _ _ _ (all_no_fault ExceptionsExpired _ w Hf)) in E.
    rewrite (bind_run _ _ _ (round_trip_no_fault Commit
                               (emit (RoundTrip ExceptionsExpired) w) Hf)) in E.
    discriminate.
Qed.

(** ** The further properties at sample inputs *)

Lemma stored_once_run :
  store "securitygroup" "us-east-1" "acct1" "web-sg" true Examples.sg_y None
        sample_issues false Examples.w1 = (Ok tt, stored_once).
Proof. vm_compute. reflexivity. Qed.

Lemma stored_twice_run :
  store "securitygroup" "us-east-1" "acct1" "web-sg" false Examples.sg_x None
        sample_issues true stored_once = (Ok tt, stored_twice).
Proof. vm_compute. reflexivity. Qed.


Lemma store_succeeds_witness :
  faults Examples.w1 = [] /\ wf_db (db Examples.w1) = true /\
  exists w',
    store "securitygroup" "us-east-1" "acct1" "web-sg" true Examples.sg_y None
          sample_issues true Examples.w1 = (Ok tt, w').
Proof.
  split; [reflexivity|]. split; [reflexivity|].
  apply (@store_succeeds "securitygroup" "us-east-1" "acct1" "web-sg" true
                         Examples.sg_y None sample_issues true Examples.w1).
  - reflexivity.
  - reflexivity.
  - vm_compute. discriminate.
  - vm_compute. lia.
  - intros _. exists Examples.item1, Examples.revision1.
    split; [reflexivity|]. split; [|reflexivity]. simpl. auto.
  - intros item0 H. vm_compute in H. injection H as <-. reflexivity.
Defined.

Lemma store_keeps_schema_witness :
  wf_db (db Examples.w1) = true /\ technology_key (db Examples.w1) = true /\
  wf_db (db stored_once) = true /\ technology_key (db stored_once) = true.
Proof.
  split; [reflexivity|]. split; [reflexivity|].
  apply (@store_keeps_schema
           "securitygroup" "us-east-1" "acct1" "web-sg" true Examples.sg_y None
           sample_issues false Examples.w1 stored_once eq_refl eq_refl
           stored_once_run).
Defined.

Lemma store_latest_consistent_witness :
  wf_db (db Examples.w1) = true /\
  exists final r,
    In final (items (db stored_once)) /\
    revision_get (db stored_once) (Item.latest_revision_id final) = Some r /\
    ItemRevision.config r = Examples.sg_y.
Proof.
  split; [reflexivity|].
  destruct (@store_latest_consistent
              "securitygroup" "us-east-1" "acct1" "web-sg" true Examples.sg_y None
              sample_issues false Examples.w1 stored_once eq_refl eq_refl
              stored_once_run)
    as (i & final & r & Hin & _ & _ & _ & _ & _ & Hget & _ & Hcfg & _).
  exists final, r. auto.
Defined.

Lemma store_frame_witness :
  wf_db (db Examples.w1) = true /\
  accounts (db stored_once) = accounts (db Examples.w1) /\
  exceptions (db stored_once) = exceptions (db Examples.w1).
Proof.
  split; [reflexivity|].
  destruct (@store_frame
              "securitygroup" "us-east-1" "acct1" "web-sg" true Examples.sg_y None
              sample_issues false Examples.w1 stored_once eq_refl stored_once_run)
    as (item0 & i & _ & Hacc & Hexc & _).
  auto.
Defined.

Lemma store_keys_distinct_witness :
  wf_db (db Examples.w1) = true /\ keys_distinct (db Examples.w1) = true /\
  keys_distinct (db stored_once) = true.
Proof.
  split; [reflexivity|]. split; [reflexivity|].
  apply (@store_keys_distinct
           "securitygroup" "us-east-1" "acct1" "web-sg" true Examples.sg_y None
           sample_issues false Examples.w1 stored_once eq_refl eq_refl stored_once_run).
Defined.

Lemma store_issues_idempotent_witness :
  wf_db (db Examples.w1) = true /\ technology_key (db Examples.w1) = true /\
  issues (db stored_twice) = issues (db stored_once).
Proof.
  split; [reflexivity|]. split; [reflexivity|].
  apply (@store_issues_idempotent
           "securitygroup" "us-east-1" "acct1" "web-sg" sample_issues
           true Examples.sg_y None false false Examples.sg_x None true
           Examples.w1 stored_once stored_twice eq_refl eq_refl
           stored_once_run stored_twice_run).
Defined.

Lemma store_creates_item_once_witness :
  wf_db (db Examples.w1) = true /\ technology_key (db Examples.w1) = true /\
  map Item.id (items (db stored_twice)) = map Item.id (items (db stored_once)).
Proof.
  split; [reflexivity|]. split; [reflexivity|].
  destruct (@store_creates_item_once
              "securitygroup" "us-east-1" "acct1" "web-sg"
              true Examples.sg_y None sample_issues false
              false Examples.sg_x None sample_issues true
              Examples.w1 stored_once stored_twice eq_refl eq_refl
              stored_once_run stored_twice_run) as (_ & H & _).
  exact H.
Defined.

Lemma store_then_get_witness :
  wf_db (db Examples.w1) = true /\ technology_key (db Examples.w1) = true /\
  faults stored_once = [] /\
  exists revs r w'',
    get "securitygroup" "us-east-1" "acct1" "web-sg" stored_once = (Ok revs, w'') /\
    hd_error revs = Some r /\ ItemRevision.config r = Examples.sg_y.
Proof.
  split; [reflexivity|]. split; [reflexivity|]. split; [reflexivity|].
  destruct (@store_then_get
              "securitygroup" "us-east-1" "acct1" "web-sg" true Examples.sg_y None
              sample_issues false Examples.w1 stored_once eq_refl eq_refl eq_refl
              stored_once_run eq_refl)
    as (revs & r & w'' & Hget & _ & Hhd & Hcfg & _).
  exists revs, r, w''. auto.
Defined.

Lemma store_then_get_audit_issues_witness :
  wf_db (db Examples.w1) = true /\ technology_key (db Examples.w1) = true /\
  faults stored_once = [] /\
  exists l w'',
    get_audit_issues "securitygroup" "us-east-1" "acct1" "web-sg" stored_once
    = (Ok l, w'') /\
    forall k, In k (map issue_key l) <-> In k (map issue_key sample_issues).
Proof.
  split; [reflexivity|]. split; [reflexivity|]. split; [reflexivity|].
  destruct (@store_then_get_audit_issues
              "securitygroup" "us-east-1" "acct1" "web-sg" true Examples.sg_y None
              sample_issues false Examples.w1 stored_once eq_refl eq_refl
              stored_once_run eq_refl)
    as (l & w'' & Hget & _ & _ & Hkeys).
  exists l, w''. auto.
Defined.

Lemma store_ephemeral_without_revision_witness :
  faults Examples.w1 = [] /\
  exists w',
    store "securitygroup" "us-west-2" "acct1" "db-sg" true Examples.sg_x None [] true
          Examples.w1
    = (Raise (AttributeError "'NoneType' object has no attribute 'config'"), w') /\
    revisions (db w') = revisions (db Examples.w1).
Proof.
  split; [reflexivity|].
  destruct (@store_ephemeral_without_revision
              "securitygroup" "us-west-2" "acct1" "db-sg" true Examples.sg_x None []
              Examples.w1) as (w' & Hrun & _ & Hrev & _).
  - reflexivity.
  - vm_compute. discriminate.
  - vm_compute. lia.
  - reflexivity.
  - exists w'. auto.
Defined.

Lemma store_arn_conflict_witness :
  faults Examples.w1 = [] /\ wf_db (db Examples.w1) = true /\
  exists msg w',
    store "securitygroup" "us-west-2" "acct1" "db-sg" true Examples.sg_x
          (Some "arn:aws:ec2:us-east-1:1:security-group/sg-1"%string) [] true
          Examples.w1
    = (Raise (IntegrityError msg), w') /\
    items (db w') = items (db Examples.w1) /\
    hd_error (trace w') = Some (RoundTrip RevisionsFirst).
Proof.
  split; [reflexivity|]. split; [reflexivity|].
  destruct (@store_arn_conflict
              "securitygroup" "us-west-2" "acct1" "db-sg" true Examples.sg_x
              "arn:aws:ec2:us-east-1:1:security-group/sg-1" [] true Examples.w1
              Examples.item1) as (msg & w' & Hrun & Hitems & _ & _ & Htrace).
  - reflexivity.
  - reflexivity.
  - vm_compute. discriminate.
  - vm_compute. lia.
  - reflexivity.
  - simpl. auto.
  - reflexivity.
  - vm_compute. intros [H|[]]. discriminate.
  - intros _. vm_compute. discriminate.
  - exists msg, w'. split; [exact Hrun|]. split; [exact Hitems|].
    change (Item_query_identity "securitygroup" "us-west-2" "acct1" "db-sg"
                                (db Examples.w1))
      with [Examples.item2] in Htrace.
    rewrite Htrace. reflexivity.
Defined.

Lemma get_newest_first_witness :
  wf_db (db Examples.w1) = true /\
  get "securitygroup" "us-east-1" "acct1" "web-sg" Examples.w1
  = (Ok [Examples.revision2; Examples.revision1],
     snd (get "securitygroup" "us-east-1" "acct1" "web-sg" Examples.w1)) /\
  StronglySorted newer_or_same [Examples.revision2; Examples.revision1].
Proof.
  split; [reflexivity|]. split; [vm_compute; reflexivity|].
  destruct (@get_newest_first
              "securitygroup" "us-east-1" "acct1" "web-sg" Examples.w1
              (snd (get "securitygroup" "us-east-1" "acct1" "web-sg" Examples.w1))
              [Examples.revision2; Examples.revision1]) as [H _].
  - reflexivity.
  - vm_compute. reflexivity.
  - exact H.
Defined.

Lemma get_item_twice_witness :
  technology_key (db Examples.w1) = true /\
  exists item w1 w2,
    _get_item "s3" "us-east-1" "acct1" "bucket" Examples.w1 = (Ok item, w1) /\
    _get_item "s3" "us-east-1" "acct1" "bucket" w1 = (Ok item, w2) /\
    db w2 = db w1.
Proof.
  split; [reflexivity|].
  destruct (@get_item_twice
              "s3" "us-east-1" "acct1" "bucket" Examples.w1
              (snd (_get_item "s3" "us-east-1" "acct1" "bucket" Examples.w1))
              (new_item "us-east-1" "bucket" (Technology.mk 2 "s3") (Account.mk 1 "acct1")))
    as (w2 & Hrun & Hd).
  - reflexivity.
  - vm_compute. reflexivity.
  - reflexivity.
  - eexists _, _, w2. split; [|split; [exact Hrun | exact Hd]].
    vm_compute. reflexivity.
Defined.

Lemma store_exception_failed_lookup_witness :
  lookup_fails (db Examples.w1) ["s3"%string] = true /\
  db (snd (store_exception "watcher" ["s3"%string] (Exception "boom") None Examples.w1))
  = db Examples.w1.
Proof.
  split; [reflexivity|].
  destruct (@store_exception_failed_lookup
              "watcher" ["s3"%string] (Exception "boom") None Examples.w1 eq_refl)
    as (e & rest & _ & Hd).
  exact Hd.
Defined.

Lemma store_exception_records_witness :
  faults Examples.w1 = [] /\
  lookup_fails (db Examples.w1) sample_location = false /\
  exists w' row,
    store_exception "watcher" sample_location (Exception "boom") (Some 150%Z)
                    Examples.w1 = (Ok tt, w') /\
    exceptions (db w') = exceptions (db Examples.w1) ++ [row].
Proof.
  split; [reflexivity|]. split; [reflexivity|].
  destruct (@store_exception_records
              "watcher" sample_location (Exception "boom") (Some 150%Z)
              Examples.w1 eq_refl eq_refl)
    as (w' & row & Hrun & Hrows & _).
  exists w', row. auto.
Defined.

Lemma clear_old_exceptions_effect_witness :
  primary_key (map ExceptionLogs.id (exceptions (db logged_once))) = true /\
  exceptions (db logged_once) <> [] /\
  exceptions (db (snd (clear_old_exceptions logged_once))) = [].
Proof.
  split; [reflexivity|]. split; [vm_compute; discriminate|].
  destruct (@clear_old_exceptions_effect logged_once eq_refl)
    as (_ & _ & _ & _ & _ & Hok & _ & Hrun).
  rewrite (Hok (Hrun eq_refl)). reflexivity.
Defined.

Lemma store_then_listing_witness :
  wf_db (db Examples.w1) = true /\ technology_key (db Examples.w1) = true /\
  faults stored_once = [] /\ no_dangling (db stored_once) = true /\
  exists item rev m w'',
    get_all_ctype_filtered (Some "securitygroup"%string) (Some "acct1"%string)
                           None None false stored_once = Some (Ok m, w'') /\
    In (item, rev) m /\ ItemRevision.config rev = Examples.sg_y.
Proof.
  split; [reflexivity|]. split; [reflexivity|]. split; [reflexivity|].
  split; [reflexivity|].
  destruct (@store_then_listing
              "securitygroup" "us-east-1" "acct1" "web-sg" true Examples.sg_y None
              sample_issues false Examples.w1 stored_once eq_refl eq_refl eq_refl
              stored_once_run eq_refl eq_refl eq_refl)
    as (item & rev & _ & Hcfg & _ & _ & (m & w'' & Hrun & Hin) & _).
  exists item, rev, m, w''. auto.
Defined.

Lemma listing_entries_witness :
  wf_db (db Examples.w1) = true /\
  exists w',
    get_all_ctype_filtered (Some "securitygroup"%string) (Some "acct1"%string)
                           None None true Examples.w1
    = Some (Ok [(Examples.item1, Examples.revision2);
                (Examples.item3, Examples.revision3)], w') /\
    [(Examples.item1, Examples.revision2); (Examples.item3, Examples.revision3)]
    = flat_map (entry (db Examples.w1) true)
               (selected (Some "securitygroup"%string) (Some "acct1"%string)
                         None None (db Examples.w1)).
Proof.
  split; [reflexivity|].
  exists (snd (for_each (selected (Some "securitygroup"%string) (Some "acct1"%string)
                                  None None (db Examples.w1))
                        (latest_of true) [] (emit (RoundTrip ItemListing) Examples.w1))).
  assert (Hrun : get_all_ctype_filtered (Some "securitygroup"%string)
                                        (Some "acct1"%string) None None true
                                        Examples.w1
                 = Some (Ok [(Examples.item1, Examples.revision2);
                             (Examples.item3, Examples.revision3)],
                         snd (for_each (selected (Some "securitygroup"%string)
                                                 (Some "acct1"%string) None None
                                                 (db Examples.w1))
                                       (latest_of true) []
                                       (emit (RoundTrip ItemListing) Examples.w1))))
    by (vm_compute; reflexivity).
  split; [exact Hrun|].
  destruct (@listing_entries (Some "securitygroup"%string) (Some "acct1"%string)
                             None None true Examples.w1 _ _ eq_refl Hrun)
    as (H & _).
  exact H.
Defined.

Lemma listing_dangling_pointer_witness :
  faults dangling_world = [] /\
  existsb (dangling (db dangling_world))
          (selected None None None None (db dangling_world)) = true /\
  exists w',
    get_all_ctype_filtered None None None None false dangling_world
    = Some (Raise (AttributeError "'NoneType' object has no attribute 'active'"), w').
Proof.
  split; [reflexivity|]. split; [reflexivity|].
  destruct (@listing_dangling_pointer None None None None false dangling_world
                                      eq_refl eq_refl eq_refl) as (w' & Hrun & _).
  exists w'. exact Hrun.
Defined.

Lemma listing_region_refused_witness :
  truthy (Some "us-east-1"%string) = true /\
  get_all_ctype_filtered (Some "securitygroup"%string) (Some "acct1"%string)
                         (Some "us-east-1"%string) (Some "web-sg"%string)
                         false Examples.w1
  = Some (Raise (no_property AccountEntity "region"), Examples.w1).
Proof.
  split; [reflexivity|].
  destruct (@listing_region_refused
              (Some "securitygroup"%string) (Some "acct1"%string)
              (Some "us-east-1"%string) (Some "web-sg"%string) false Examples.w1
              eq_refl eq_refl) as [H _].
  exact H.
Defined.

Lemma listing_name_joined_witness :
  "web-sg"%string <> "acct1"%string /\
  fst (all ItemListing (fun d => filter (fun it => String.eqb (Item.name it) "web-sg")
                                        (items d)) Examples.w1)
  = Ok [Examples.item1] /\
  forall m w',
    get_all_ctype_filtered None (Some "acct1"%string) None (Some "web-sg"%string)
                           false Examples.w1 = Some (Ok m, w') ->
    m = [].
Proof.
  split; [discriminate|]. split; [reflexivity|].
  intros m w' H.
  destruct (@listing_name_joined None (Some "acct1"%string) None
                                 (Some "web-sg"%string) false Examples.w1
                                 eq_refl eq_refl) as [_ Hnone].
  destruct (Hnone ltac:(discriminate) m w' H) as [Hm _]. exact Hm.
Defined.

Lemma durable_hash_unlisted_kind_witness :
  Hashing.ephemeral_paths_for_tech "s3" = [] /\
  Hashing.durable_hash Examples.sg_x (Hashing.ephemeral_paths_for_tech "s3")
  = Hashing.hash_config Examples.sg_x.
Proof.
  apply (@durable_hash_unlisted_kind "s3" Examples.sg_x); discriminate.
Defined.

Lemma sg_x_reordered_equiv : config_equiv Examples.sg_x Examples.sg_x_reordered.
Proof.
  unfold config_equiv, Examples.sg_x, Examples.sg_x_reordered.
  eapply je_trans; [apply je_dict_perm, perm_swap|].
  apply je_dict. constructor; [|constructor; [apply je_refl | constructor]].
  unfold Examples.rules, Examples.rules_reordered.
  eapply je_trans; [apply je_list_perm; [reflexivity | apply perm_swap]|].
  apply je_list. constructor; [|constructor; [apply je_refl | constructor]].
  apply je_dict_perm, perm_swap.
Qed.

Lemma durable_hash_order_independent_witness :
  wf (JDict Examples.sg_x) = true /\
  config_equiv Examples.sg_x Examples.sg_x_reordered /\
  Hashing.durable_hash Examples.sg_x ["assigned_to"; "rules$*$port"]%string =
  Hashing.durable_hash Examples.sg_x_reordered ["assigned_to"; "rules$*$port"]%string.
Proof.
  split; [reflexivity|]. split; [exact sg_x_reordered_equiv|].
  apply (@durable_hash_order_independent Examples.sg_x Examples.sg_x_reordered);
    [reflexivity | exact sg_x_reordered_equiv].
Defined.

Lemma durable_hash_nothing_ephemeral_witness :
  Hashing.durable_hash Examples.sg_x (Hashing.ephemeral_paths_for_tech "iamuser")
  = Hashing.hash_config Examples.sg_x.
Proof.
  apply (@durable_hash_nothing_ephemeral
           Examples.sg_x (Hashing.ephemeral_paths_for_tech "iamuser")).
  reflexivity.
Defined.
